(* ===== verification/_CoqProject ===== *)
-Q . S2P
Prelude.v
OS.v
Packet.v
Layout.v
FloatInt.v
Pool.v
Server.v
ServerCorrect.v
ServerRefines.v
ServerProps.v
Net.v
Wire.v
Vm.v
Uffd.v
UffdCorrect.v
UffdProps.v
Decimal.v
Address.v
Client.v
System.v
SystemCorrect.v
SystemStart.v
SystemProps.v
Slots.v
Demo.v
ClientNet.v
Socket.v
Threads.v
ThreadsCorrect.v
ThreadsProps.v
Livelock.v
Preload.v
PreloadProps.v
Bench.v
BenchProps.v
RemoteBench.v
