(* ===== verification/Prelude.v ===== *)
(** * RMP, the remote memory pool: a verification development

    RMP lets a program use the memory of another machine as if it were its
    own.  A server hands out regions of pages; the client maps address space,
    registers it with userfaultfd, and fetches and writes back pages as the
    program touches them.  The code is C++; this library models it as
    functions on explicit states and proves what it does.

    ** The program and the files that model it

    - The wire format: [rmp::packet] of include/rmp_server.hpp and
      include/rmp_client.hpp (the same structure) is [Packet.packet]; the error
      codes are those of include/rmp_types.hpp.  The programs send and receive
      the bytes of the structure: its image in memory, which no code of theirs
      computes, is [encode]/[decode].  Layout.v has the two declarations of the
      structure and the rules by which a compiler lays them out.
    - The request server, server/rmp_server.cpp and include/rmp_server.hpp:
      Server.v has the state of [rmp::Server] and one definition per method
      and handler, in the state monad [prog] below.  The kernel's [mmap] and
      [munmap] are the class [OS] (OS.v), with their documented behaviour as
      [OSLaws] and a concrete kernel [bump_os].  [OS] also says which pages the
      process keeps for itself ([program_page]): the server's objects are there,
      its memory [vm] is the rest, and a request that reaches a page of the
      former has no result.  ServerCorrect.v has the invariant and a closed form
      per handler.
    - What the server promises is Pool.v: a pool of regions of pages, the
      relation [pool_step], and the interface [PageServer] (something that
      answers packets and simulates a pool).  ServerRefines.v proves that the
      server implements it, ServerProps.v what follows for its users.
    - The server program, server/server.cpp: Net.v, with the socket helpers,
      the connection handler and the accept loop, on traces of the results of
      the system calls.  Wire.v makes the handler at the other end of a
      connection a second implementation of [PageServer], ClientNet.v adds the
      client's end of the byte stream, a third one.  Socket.v has the threads of
      a client on its one connection: [rmp_alloc], which takes no lock, the
      rounds of the fault handlers and [malloc], which take the mutex.
    - The userfaultfd manager, uffdman/uffdman.cpp: Uffd.v, on the address
      space of Vm.v (which pages are mapped, registered and present; the class
      [VM], its laws, and the concrete [simple_vm]).  The page resolver is a
      function pointer in the code and a parameter here.  UffdCorrect.v has the
      invariant and the closed form of a fault round, UffdProps.v the
      properties.  There a round of a handler is one function; Threads.v cuts
      it into the steps between which other threads can run, with the mutex,
      the event message the handlers share, and the threads of the application,
      for a process without the preloaded allocator.
      ThreadsCorrect.v proves that one application thread cannot tell the
      difference, ThreadsProps.v what follows and what goes wrong with two.
      Livelock.v is about accesses that the invalidation never lets finish.
    - The client library, client/rmp_client.cpp: Client.v, against any
      [PageServer].  Fields of automatic variables that the code does not
      assign come from the parameter [stack].  Address.v has its configuration
      and the addresses the programs meet at, Decimal.v its [print] and the
      [atoi] the programs read their ports with.
    - The application: System.v runs loads and stores against the whole
      client (a store or load of an absent page runs a round of the fault
      handler with the client's resolver), and states what the application
      should see, an ordinary memory [flat].  SystemCorrect.v proves that
      they agree, SystemStart.v that start-up and allocation establish and
      extend that agreement, SystemProps.v what follows.  Slots.v has arrays
      of numbers in remote memory: what an element reads as while the discipline
      of [flat] is kept.  Demo.v is the program client/client.cpp.
    - The preloaded allocator, preloadlib/preloadlib.cpp: Preload.v and
      PreloadProps.v.  The benchmarks under benchmarks/: Bench.v, written
      against an interface [Array], BenchProps.v on ordinary memory (and on
      anything that behaves like it, [IndexArray]), RemoteBench.v on the memory
      of the client.  Both compute in floating point on whole numbers:
      FloatInt.v.

    ** What the theorems show

    - Server: it refines the pool for every sequence of protocol requests
      ([server_refines_pool]); a written page reads back
      ([write_then_read]); new regions are fresh and zero; freed handles are
      dead; refused requests change nothing; whatever the packets hold, the
      state stays well-formed as long as no request leaves the memory it may
      use, and it is said exactly which requests do ([reachable_server_inv]).
      Outside the protocol: what a packet's own page size reaches, and what a
      wrapped 32-bit length leads to.
    - Server program: clients are served in turn against one state; [writen]
      and [readn], and the ways a byte stream breaks the framing, at both ends.
      The two declarations of the packet have one layout, and client and server
      meet when their arguments agree.
    - Client connection: the rounds of the handlers never mix up their replies
      ([rounds_get_their_own_replies]); an allocation and a round can
      ([alloc_takes_a_handlers_reply]).
    - Manager: at most one page per region is in memory, and it is the one on
      record; dirty pages are written back before they leave, read pages are
      dropped; unregistration.
    - Threads: under every schedule of the handlers a program of one thread
      that keeps to the discipline below runs to its end on what ordinary memory
      would give it
      ([every_schedule_runs_on_ordinary_memory], by a measure that every step
      decreases) and sees what the sequential run shows it
      ([schedules_agree_with_the_sequential_run]); the mutex excludes, and does
      not guard the event message.  With two
      threads of the application the shared event message loses a fault
      ([event_race_hangs_the_application]), a store during a write-back is lost,
      and two threads on one region can starve each other.  An access is done at
      the second try, or never, when it crosses a page boundary
      ([accesses_complete_unless_they_cross_pages]).
    - System: remote memory is memory, for every sequence of accesses that
      keeps to a discipline ([remote_memory_is_memory]).  The discipline is
      part of the specification [flat_access]: a byte is known or not, a store
      that faults its page in makes the rest of the page unknown, and a page
      brought in by a load may not be stored to until it left.  Two theorems
      show that both conditions are needed ([store_after_load_is_lost],
      [store_to_absent_page_takes_the_buffer]), and a third what happens to
      programs that write in no order
      ([returning_store_loses_earlier_ones]).  The demo program keeps to it,
      and prints what it stored ([demo_client_reads_what_it_stored]), shown
      also for the concrete kernels and the server behind its connection.
    - Allocator: the page count and where it goes wrong, the first [malloc],
      the local ones, and the mutex, for both readings of an unlock by a thread
      that does not hold it ([lenient]).
    - Benchmarks: on ordinary memory the sums are valid while they fit; on
      remote memory the sequential workloads are too, on any number of pages and
      up to 46341 [int]s or [2^26] [double]s, the random ones on one page
      ([benchmarks_valid_on_remote_memory]) but not on two
      ([random_benchmarks_fail_on_two_pages]); the shipped programs overflow or
      leave their arrays.

    ** Conventions and bounds

    Machine integers are [Z], wrapped where the code's types wrap.  The page
    size is 4096, which the packet layout assumes.  [None] of the monad is an
    execution with no defined or no finite continuation.  Properties of the
    server that mention handles assume fewer than [2^32] allocations, as
    [next P + 1 < 2 ^ 32].  Loops of the code are structural recursions on
    the trace of system calls or on a count; the loops that draw random
    indices ([Bench.drain]) have the length of the index vector as fuel,
    which is enough because each round removes one element ([drain_perm]).
    [print] has ten levels of recursion, as many as an [int] has digits
    ([print_is_decimal]).

    ** What is not modelled

    Output other than the demo's numbers and [print]; timing; the mutexes of
    the server's maps (handlers are run one at a time, as the accept loop
    does).  In Threads.v the regions are registered before the threads start:
    registration and unregistration while handlers run, with the
    [pthread_cancel] of the latter, are modelled as sequential operations only
    (Uffd.v), and so are [malloc]'s calls (Preload.v), except for what others do
    between its two unlocks.  The mutex and the socket have two models: in
    Threads.v the handlers and the application's accesses, in Socket.v the
    locks, sends and receives of any callers.  What becomes of a server whose own
    memory a request has overwritten is not said.  Signals and partial [send]s of
    the client, the unit tests and the build files. *)

From Stdlib Require Export ZArith Lia.
From Stdlib Require Export Strings.Byte.
From stdpp Require Export base tactics numbers option list gmap fin_maps.

#[global] Open Scope Z_scope.

(** ** Machine integers

    [u32] is C++ [unsigned int], [ul] is [unsigned long] (and [size_t]),
    both as [Z] reduced to their width; [s32] and [s64] are the two's
    complement readings used where the code converts to [int] or [long]. *)
Definition u32 (z : Z) : Z := z mod 2 ^ 32.

Definition ul (z : Z) : Z := z mod 2 ^ 64.

Definition s32 (z : Z) : Z := (z + 2 ^ 31) mod 2 ^ 32 - 2 ^ 31.

Definition s64 (z : Z) : Z := (z + 2 ^ 63) mod 2 ^ 64 - 2 ^ 63.

Definition is_u32 (z : Z) : Prop := 0 <= z < 2 ^ 32.

Definition is_ul (z : Z) : Prop := 0 <= z < 2 ^ 64.

Definition is_s64 (z : Z) : Prop := - 2 ^ 63 <= z < 2 ^ 63.

Definition is_int (z : Z) : bool := bool_decide (- 2 ^ 31 <= z < 2 ^ 31).

(** The result of an [int] operation: overflow is undefined. *)
Definition int_of (z : Z) : option Z := if is_int z then Some z else None.

#[export] Instance byte_eq_decision : EqDecision byte := byte_eq_dec.

(** The page size: [sysconf(_SC_PAGE_SIZE)] on the platforms the packet
    layout (a [char data[4096]]) is written for. *)
Definition PAGE_SIZE : Z := 4096.

Definition page_len : nat := Z.to_nat PAGE_SIZE.
Arguments page_len : simpl never.

Definition zero_page : list byte := replicate page_len x00.
Arguments zero_page : simpl never.

(** The first address of the page that holds [a]:
    [a & ~(PAGE_SIZE - 1)]. *)
Definition PGROUNDDOWN (a : Z) : Z := Z.land a (Z.lnot (PAGE_SIZE - 1)).

(** ** A state monad with failure

    [prog S A] is the shape of every operation that reads and writes a
    component's state of type [S]; [None] is an access the hardware or the
    language does not survive (a segmentation fault, undefined behaviour). *)
Definition prog (S A : Type) : Type := S -> option (A * S).

#[global] Instance prog_ret {S} : MRet (prog S) := fun A x s => Some (x, s).

#[global] Instance prog_bind {S} : MBind (prog S) :=
  fun A B k m s => match m s with Some (x, s') => k x s' | None => None end.

Definition get {S} : prog S S := fun s => Some (s, s).

Definition put {S} (s' : S) : prog S unit := fun _ => Some (tt, s').

Definition gets {S A} (f : S -> A) : prog S A := fun s => Some (f s, s).

Definition modify {S} (f : S -> S) : prog S unit := fun s => Some (tt, f s).

(** No result: a fault, or a call that never returns. *)
Definition stuck {S A} : prog S A := fun _ => None.

(** Lift a partial read of the state: failure is a fault. *)
Definition try_get {S A} (f : S -> option A) : prog S A :=
  fun s => match f s with Some x => Some (x, s) | None => None end.

(** Lift a partial update of the state. *)
Definition try_put {S} (f : S -> option S) : prog S unit :=
  fun s => match f s with Some s' => Some (tt, s') | None => None end.

(** ** Automation *)
Create HintDb rmp discriminated.
#[export] Hint Constants Opaque : rmp.
Create Rewrite HintDb rmp.

(** Unfold the monad's structure down to matches on the primitive steps. *)
Ltac run_unfold :=
  unfold mbind, prog_bind, mret, prog_ret, get, put, gets, modify,
    try_get, try_put in *; cbn beta iota in *.

(** Split conjunctions and existentials in the context. *)
Ltac split_hyps :=
  repeat match goal with
  | H : _ /\ _ |- _ => destruct H
  | H : exists _, _ |- _ => destruct H
  end.

(** Linear arithmetic after exposing machine ranges and the page size. *)
Ltac mlia :=
  unfold is_u32, is_ul, is_s64, PAGE_SIZE in *; lia.

(** Case on every [bool] or [option] test in the goal, keeping equations. *)
Ltac cases :=
  repeat match goal with
  | |- context [match ?x with _ => _ end] => destruct x eqn:?; simplify_eq/=
  end.

(** ** Lemmas on machine integers *)
Lemma u32_small z : is_u32 z -> u32 z = z.
Proof. intros H. apply Z.mod_small, H. Qed.

Lemma ul_small z : is_ul z -> ul z = z.
Proof. intros H. apply Z.mod_small, H. Qed.

Lemma u32_range z : is_u32 (u32 z).
Proof. apply Z.mod_pos_bound; lia. Qed.

Lemma ul_range z : is_ul (ul z).
Proof. apply Z.mod_pos_bound; lia. Qed.

Lemma u32_is_ul z : is_u32 z -> is_ul z.
Proof. mlia. Qed.

Lemma s64_small z : is_s64 z -> s64 z = z.
Proof. intros H. unfold s64. rewrite Z.mod_small; mlia. Qed.

Lemma s64_range z : is_s64 (s64 z).
Proof.
  unfold s64. pose proof (Z.mod_pos_bound (z + 2 ^ 63) (2 ^ 64)). mlia.
Qed.

Lemma int_of_small z : - 2 ^ 31 <= z < 2 ^ 31 -> int_of z = Some z.
Proof. intros H. unfold int_of, is_int. by rewrite bool_decide_true. Qed.

Lemma int_of_overflow z : ~ - 2 ^ 31 <= z < 2 ^ 31 -> int_of z = None.
Proof. intros H. unfold int_of, is_int. by rewrite bool_decide_false. Qed.

#[export] Hint Resolve u32_range ul_range s64_range u32_is_ul : rmp.

Lemma page_len_Z : Z.of_nat page_len = PAGE_SIZE.
Proof. reflexivity. Qed.

Lemma page_len_pos : (0 < page_len)%nat.
Proof. pose proof page_len_Z. mlia. Qed.

Lemma length_zero_page : length zero_page = page_len.
Proof. apply length_replicate. Qed.

(** Unification never needs the numeral. *)
#[global] Opaque page_len.

(** [PGROUNDDOWN] is rounding down to a multiple of the page size. *)
Lemma PGROUNDDOWN_spec a : PGROUNDDOWN a = a / PAGE_SIZE * PAGE_SIZE.
Proof.
  unfold PGROUNDDOWN. change (PAGE_SIZE - 1) with (Z.ones 12).
  rewrite <- Z.ldiff_land, Z.ldiff_ones_r by lia.
  rewrite Z.shiftl_mul_pow2, Z.shiftr_div_pow2 by lia. reflexivity.
Qed.

Lemma PGROUNDDOWN_aligned p : PGROUNDDOWN (p * PAGE_SIZE) = p * PAGE_SIZE.
Proof. rewrite PGROUNDDOWN_spec, Z.div_mul; mlia. Qed.

Lemma PGROUNDDOWN_bounds a : PGROUNDDOWN a <= a < PGROUNDDOWN a + PAGE_SIZE.
Proof.
  rewrite PGROUNDDOWN_spec.
  pose proof (Z.div_mod a PAGE_SIZE). pose proof (Z.mod_pos_bound a PAGE_SIZE).
  mlia.
Qed.

Lemma page_div p o : 0 <= o < PAGE_SIZE -> (p * PAGE_SIZE + o) / PAGE_SIZE = p.
Proof. intros H. rewrite Z.div_add_l, Z.div_small; mlia. Qed.

Lemma page_mod p o : 0 <= o < PAGE_SIZE -> (p * PAGE_SIZE + o) mod PAGE_SIZE = o.
Proof.
  intros H. rewrite Z.add_comm, Z.mod_add, Z.mod_small; mlia.
Qed.

Lemma aligned_div a : a mod PAGE_SIZE = 0 -> a / PAGE_SIZE * PAGE_SIZE = a.
Proof. intros H. rewrite (Z.div_mod a PAGE_SIZE) at 2; mlia. Qed.

#[export] Hint Rewrite u32_small ul_small s64_small using mlia : rmp.
#[export] Hint Rewrite page_div page_mod using mlia : rmp.
#[export] Hint Rewrite PGROUNDDOWN_aligned : rmp.

(** Running one bind, one pure step. *)
Lemma run_bind {S A B} (m : prog S A) (k : A -> prog S B) s :
  (m ≫= k) s = match m s with Some (x, s') => k x s' | None => None end.
Proof. reflexivity. Qed.

Lemma run_ret {S A} (x : A) (s : S) : (mret x : prog S A) s = Some (x, s).
Proof. reflexivity. Qed.

Lemma run_get {S} (s : S) : get s = Some (s, s).
Proof. reflexivity. Qed.

Lemma run_put {S} (s s' : S) : put s' s = Some (tt, s').
Proof. reflexivity. Qed.

Lemma prog_bind_ret {S A B} (x : A) (k : A -> prog S B) s :
  (mret x ≫= k) s = k x s.
Proof. reflexivity. Qed.

Lemma prog_bind_assoc {S A B C} (m : prog S A) (k : A -> prog S B)
    (h : B -> prog S C) s :
  ((m ≫= k) ≫= h) s = (m ≫= (fun x => k x ≫= h)) s.
Proof. unfold mbind, prog_bind. by destruct (m s) as [[? ?]|]. Qed.
