(* ===== verification/OS.v ===== *)
(** * The process memory and the kernel's mapping calls

    The page-granular memory of a process, byte-wise load and store (what
    [memcpy] does to mapped memory), and the interface of the kernel's
    [mmap] and [munmap]: the calls are operations of the class [OS], the
    documented behaviour the program relies on is the class [OSLaws], and
    [bump_os] is a concrete kernel that satisfies it. *)

From S2P Require Import Prelude.

(** A process memory: the contents of every mapped page, by page number. *)
Abbreviation mem := (gmap Z (list byte)).

Definition wf_mem (m : mem) : Prop :=
  map_Forall (fun _ pg => length pg = page_len) m.

(** The number of pages a mapping of [len] bytes covers. *)
Definition pages_of (len : Z) : Z := (len + (PAGE_SIZE - 1)) / PAGE_SIZE.

(** End of the user address space. *)
Definition TASK_SIZE : Z := 2 ^ 47.

(** ** Byte-wise access; [None] is a segmentation fault *)
Definition load_byte (m : mem) (a : Z) : option byte :=
  pg ← m !! (a / PAGE_SIZE); pg !! Z.to_nat (a mod PAGE_SIZE).

Fixpoint load (m : mem) (a : Z) (n : nat) : option (list byte) :=
  match n with
  | O => Some []
  | S n => b ← load_byte m a; bs ← load m (a + 1) n; Some (b :: bs)
  end.

Definition store_byte (m : mem) (a : Z) (b : byte) : option mem :=
  pg ← m !! (a / PAGE_SIZE);
  Some (<[a / PAGE_SIZE := <[Z.to_nat (a mod PAGE_SIZE) := b]> pg]> m).

Fixpoint store (m : mem) (a : Z) (bs : list byte) : option mem :=
  match bs with
  | [] => Some m
  | b :: bs => m' ← store_byte m a b; store m' (a + 1) bs
  end.

(** ** The kernel's interface *)
Class OS := {
  (** The pages the process keeps for itself: its image, its stacks and the
      heap its objects live in. *)
  program_page : Z -> bool;
  (** [mmap(NULL, len, PROT_READ|PROT_WRITE, MAP_PRIVATE|MAP_ANONYMOUS)]:
      the address of the new mapping and the memory after it, or [None]
      for [MAP_FAILED]. *)
  mmap : mem -> Z -> option (Z * mem);
  (** [munmap(addr, len)]: the memory after it, or [None] for [-1]. *)
  munmap : mem -> Z -> Z -> option mem;
}.

(** What the manual pages of [mmap(2)] and [munmap(2)] promise: among the rest
    that a new mapping overlaps nothing the process has. *)
Class OSLaws (K : OS) := {
  mmap_len m len a m' : mmap m len = Some (a, m') -> 0 < len;
  mmap_aligned m len a m' : mmap m len = Some (a, m') -> a mod PAGE_SIZE = 0;
  mmap_bounds m len a m' :
    mmap m len = Some (a, m') ->
    0 < a /\ a + pages_of len * PAGE_SIZE <= TASK_SIZE;
  mmap_fresh m len a m' i :
    mmap m len = Some (a, m') ->
    a / PAGE_SIZE <= i < a / PAGE_SIZE + pages_of len -> m !! i = None;
  mmap_program m len a m' i :
    mmap m len = Some (a, m') ->
    a / PAGE_SIZE <= i < a / PAGE_SIZE + pages_of len -> program_page i = false;
  mmap_pages m len a m' i :
    mmap m len = Some (a, m') ->
    m' !! i = if decide (a / PAGE_SIZE <= i < a / PAGE_SIZE + pages_of len)
              then Some zero_page else m !! i;
  munmap_len m a len m' : munmap m a len = Some m' -> 0 < len;
  munmap_aligned m a len m' : munmap m a len = Some m' -> a mod PAGE_SIZE = 0;
  munmap_pages m a len m' i :
    munmap m a len = Some m' ->
    m' !! i = if decide (a / PAGE_SIZE <= i < a / PAGE_SIZE + pages_of len)
              then None else m !! i;
}.

(** What a process maps besides its own pages. *)
Definition user_pages `{OS} (m : mem) : mem :=
  filter (fun kv => program_page kv.1 = false) m.

(** The [len] bytes at [a] touch a page of the program's own. *)
Definition touches_program `{OS} (a len : Z) : bool :=
  existsb program_page (seqZ (a / PAGE_SIZE) (pages_of len)).

(** ** A concrete kernel

    It maps after the highest mapped page in an arena of a gigabyte, and fails
    when the arena is exhausted or the length is zero.  The program's image is
    below the arena, its heap above. *)
Definition ARENA_END : Z := 2 ^ 30.

Definition bump_program_page (i : Z) : bool :=
  (i <? 16) || ((ARENA_END / PAGE_SIZE <=? i) && (i <? ARENA_END / PAGE_SIZE + 16)).

Fixpoint map_pages (p : Z) (n : nat) (m : mem) : mem :=
  match n with
  | O => m
  | S n => <[p := zero_page]> (map_pages (p + 1) n m)
  end.

Fixpoint unmap_pages (p : Z) (n : nat) (m : mem) : mem :=
  match n with
  | O => m
  | S n => delete p (unmap_pages (p + 1) n m)
  end.

(** The first page number above every mapped page (at least 16). *)
Definition next_page (m : mem) : Z :=
  foldr Z.max 16 ((fun kv => kv.1 + 1) <$> map_to_list m).

#[export] Instance bump_os : OS := {|
  program_page := bump_program_page;
  mmap m len :=
    let p := next_page m in
    if bool_decide (0 < len)
       && bool_decide (p * PAGE_SIZE + pages_of len * PAGE_SIZE <= ARENA_END)
    then Some (p * PAGE_SIZE, map_pages p (Z.to_nat (pages_of len)) m)
    else None;
  munmap m a len :=
    if bool_decide (0 < len) && bool_decide (a mod PAGE_SIZE = 0)
    then Some (unmap_pages (a / PAGE_SIZE) (Z.to_nat (pages_of len)) m)
    else None;
|}.

(** ** Lemmas on mapping *)
Lemma pages_of_pos len : 0 < len -> 0 < pages_of len.
Proof.
  intros H. unfold pages_of. apply Z.div_str_pos. mlia.
Qed.

Lemma pages_of_mult n : pages_of (n * PAGE_SIZE) = n.
Proof.
  unfold pages_of. rewrite Z.div_add_l, Z.div_small; mlia.
Qed.

Lemma lookup_map_pages p n m i :
  map_pages p n m !! i =
    if decide (p <= i < p + Z.of_nat n) then Some zero_page else m !! i.
Proof.
  revert p. induction n as [|n IH]; intros p; cbn [map_pages].
  - case_decide; [lia | done].
  - rewrite lookup_insert, IH. repeat case_decide; try done; lia.
Qed.

Lemma lookup_unmap_pages p n m i :
  unmap_pages p n m !! i =
    if decide (p <= i < p + Z.of_nat n) then None else m !! i.
Proof.
  revert p. induction n as [|n IH]; intros p; cbn [unmap_pages].
  - case_decide; [lia | done].
  - rewrite lookup_delete, IH. repeat case_decide; try done; lia.
Qed.

Lemma next_page_ge m : 16 <= next_page m.
Proof.
  unfold next_page. induction (_ <$> _) as [|k l IH]; cbn; lia.
Qed.

Lemma next_page_fresh m i : next_page m <= i -> m !! i = None.
Proof.
  intros Hi. destruct (m !! i) as [pg|] eqn:E; [exfalso|done].
  apply elem_of_map_to_list in E. revert Hi E. unfold next_page.
  induction (map_to_list m) as [|[k v] l IH]; cbn; intros Hi E.
  - by apply not_elem_of_nil in E.
  - apply elem_of_cons in E as [[= -> ->]|E]; [lia|]. apply IH; [lia|done].
Qed.

Lemma bump_mmap_inv m len a m' :
  mmap m len = Some (a, m') ->
  0 < len /\ a = next_page m * PAGE_SIZE /\
  a + pages_of len * PAGE_SIZE <= ARENA_END /\
  m' = map_pages (next_page m) (Z.to_nat (pages_of len)) m.
Proof.
  cbn. destruct (_ && _) eqn:E; [|done]. intros [= <- <-].
  apply andb_prop in E as [?%bool_decide_eq_true ?%bool_decide_eq_true]. done.
Qed.

Lemma bump_mmap_run m len p :
  next_page m = p -> 0 < len ->
  p * PAGE_SIZE + pages_of len * PAGE_SIZE <= ARENA_END ->
  mmap m len = Some (p * PAGE_SIZE, map_pages p (Z.to_nat (pages_of len)) m).
Proof. intros <- Hl Hb. cbn. by rewrite !bool_decide_true. Qed.

Lemma bump_munmap_inv m a len m' :
  munmap m a len = Some m' ->
  0 < len /\ a mod PAGE_SIZE = 0 /\
  m' = unmap_pages (a / PAGE_SIZE) (Z.to_nat (pages_of len)) m.
Proof.
  cbn. destruct (_ && _) eqn:E; [|done]. intros [= <-].
  apply andb_prop in E as [?%bool_decide_eq_true ?%bool_decide_eq_true]. done.
Qed.

Lemma bump_munmap_run m a len :
  0 < len -> a mod PAGE_SIZE = 0 -> is_Some (munmap m a len).
Proof. intros Hl Ha. cbn. rewrite !bool_decide_true by done. by eexists. Qed.

#[export] Instance bump_os_laws : OSLaws bump_os.
Proof.
  split.
  - by intros * (? & _)%bump_mmap_inv.
  - intros * (_ & -> & _)%bump_mmap_inv. apply Z.mod_mul. mlia.
  - intros * (_ & -> & ? & _)%bump_mmap_inv. pose proof (next_page_ge m).
    unfold ARENA_END, TASK_SIZE in *. mlia.
  - intros * (_ & -> & _)%bump_mmap_inv Hi. rewrite Z.div_mul in Hi by mlia.
    apply next_page_fresh. lia.
  - intros * (_ & -> & He & _)%bump_mmap_inv Hi. rewrite Z.div_mul in Hi by mlia.
    pose proof (next_page_ge m). apply orb_false_intro; [by apply Z.ltb_ge; lia|].
    apply andb_false_intro1, Z.leb_gt.
    change (ARENA_END / PAGE_SIZE) with (2 ^ 18). unfold ARENA_END in He. mlia.
  - intros * (? & -> & _ & ->)%bump_mmap_inv.
    pose proof (pages_of_pos len). rewrite lookup_map_pages, Z.div_mul by mlia.
    rewrite Z2Nat.id by lia. done.
  - by intros * (? & _)%bump_munmap_inv.
  - by intros * (_ & ? & _)%bump_munmap_inv.
  - intros * (? & _ & ->)%bump_munmap_inv. pose proof (pages_of_pos len).
    rewrite lookup_unmap_pages, Z2Nat.id by lia. done.
Qed.

(** ** Lemmas on access within a page *)
Lemma load_byte_page m p pg o :
  m !! p = Some pg -> 0 <= o < PAGE_SIZE ->
  load_byte m (p * PAGE_SIZE + o) = pg !! Z.to_nat o.
Proof.
  intros Hp Ho. unfold load_byte. rewrite page_div, page_mod by done.
  by rewrite Hp.
Qed.

Lemma store_byte_page m p pg o b :
  m !! p = Some pg -> 0 <= o < PAGE_SIZE ->
  store_byte m (p * PAGE_SIZE + o) b = Some (<[p := <[Z.to_nat o := b]> pg]> m).
Proof.
  intros Hp Ho. unfold store_byte. rewrite page_div, page_mod by done.
  by rewrite Hp.
Qed.

(** Loading inside a page is a slice of it. *)
Lemma load_slice m p pg n o :
  m !! p = Some pg -> length pg = page_len -> (o + n <= page_len)%nat ->
  load m (p * PAGE_SIZE + Z.of_nat o) n = Some (take n (drop o pg)).
Proof.
  intros Hp Hl. revert o. induction n as [|n IH]; intros o Ho; cbn [load].
  { by rewrite take_0. }
  pose proof page_len_Z. rewrite (load_byte_page m p pg) by (done || lia).
  rewrite Nat2Z.id. destruct (lookup_lt_is_Some_2 pg o) as [b Hb]; [lia|].
  rewrite Hb. cbn. replace (p * PAGE_SIZE + Z.of_nat o + 1)
    with (p * PAGE_SIZE + Z.of_nat (S o)) by lia.
  rewrite IH by lia. cbn. by rewrite (drop_S pg b o Hb).
Qed.

Lemma load_page m p pg :
  m !! p = Some pg -> length pg = page_len ->
  load m (p * PAGE_SIZE) page_len = Some pg.
Proof.
  intros Hp Hl. replace (p * PAGE_SIZE) with (p * PAGE_SIZE + Z.of_nat 0) by lia.
  rewrite (load_slice m p pg) by (done || lia).
  rewrite drop_0, take_ge; [done|lia].
Qed.

(** Storing inside a page replaces a slice of it. *)
Lemma store_slice m p pg bs o :
  m !! p = Some pg -> length pg = page_len ->
  (o + length bs <= page_len)%nat ->
  store m (p * PAGE_SIZE + Z.of_nat o) bs =
    Some (<[p := take o pg ++ bs ++ drop (o + length bs) pg]> m).
Proof.
  revert m pg o. induction bs as [|b bs IH]; intros m pg o Hp Hl Ho.
  { cbn. rewrite Nat.add_0_r, take_drop. by rewrite insert_id. }
  cbn [store length] in *. pose proof page_len_Z.
  rewrite (store_byte_page m p pg) by (done || lia). cbn [mbind option_bind].
  rewrite Nat2Z.id. replace (p * PAGE_SIZE + Z.of_nat o + 1)
    with (p * PAGE_SIZE + Z.of_nat (S o)) by lia.
  rewrite (IH _ (<[o:=b]> pg)); [|by rewrite lookup_insert_eq
    |by rewrite length_insert|lia].
  rewrite insert_insert_eq. do 2 f_equal.
  rewrite (take_S_r _ _ b) by (apply list_lookup_insert_eq; lia).
  rewrite take_insert_ge by lia. rewrite drop_insert_lt by lia.
  rewrite <- app_assoc. cbn [app]. by rewrite Nat.add_succ_comm.
Qed.

Lemma store_page m p pg bs :
  m !! p = Some pg -> length pg = page_len -> length bs = page_len ->
  store m (p * PAGE_SIZE) bs = Some (<[p := bs]> m).
Proof.
  intros Hp Hl Hb.
  replace (p * PAGE_SIZE) with (p * PAGE_SIZE + Z.of_nat 0) by lia.
  rewrite (store_slice m p pg) by (done || lia).
  rewrite take_0, drop_ge by lia. by rewrite app_nil_r.
Qed.

(** Touching an unmapped page is a fault. *)
Lemma load_unmapped m p o n :
  m !! p = None -> 0 <= o < PAGE_SIZE -> (0 < n)%nat ->
  load m (p * PAGE_SIZE + o) n = None.
Proof.
  intros Hp Ho Hn. destruct n; [lia|]. cbn [load].
  unfold load_byte. by rewrite page_div, Hp by done.
Qed.

Lemma store_unmapped m p o b bs :
  m !! p = None -> 0 <= o < PAGE_SIZE ->
  store m (p * PAGE_SIZE + o) (b :: bs) = None.
Proof.
  intros Hp Ho. cbn [store]. unfold store_byte. by rewrite page_div, Hp by done.
Qed.

Lemma load_length m a n bs : load m a n = Some bs -> length bs = n.
Proof.
  revert a bs. induction n as [|n IH]; intros a bs; cbn [load].
  { by intros [= <-]. }
  destruct (load_byte m a); [|done]. cbn.
  destruct (load m (a + 1) n) eqn:E; [|done]. intros [= <-]. cbn.
  f_equal. by eapply IH.
Qed.

(** Which copies fail: those that touch an unmapped page. *)
Definition touches_unmapped (m : mem) (a len : Z) : Prop :=
  exists i, 0 <= i < len /\ m !! ((a + i) / PAGE_SIZE) = None.

Lemma touches_unmapped_S m a len :
  0 <= len ->
  touches_unmapped m a (len + 1) <->
  m !! (a / PAGE_SIZE) = None \/ touches_unmapped m (a + 1) len.
Proof.
  intros Hl. split.
  - intros (i & Hi & E). destruct (decide (i = 0)) as [->|].
    + left. by rewrite Z.add_0_r in E.
    + right. exists (i - 1). split; [lia|].
      by replace (a + 1 + (i - 1)) with (a + i) by lia.
  - intros [E|(i & Hi & E)].
    + exists 0. rewrite Z.add_0_r. split; [lia|done].
    + exists (i + 1). split; [lia|]. by replace (a + (i + 1)) with (a + 1 + i) by lia.
Qed.

Lemma load_byte_None m a :
  wf_mem m -> load_byte m a = None <-> m !! (a / PAGE_SIZE) = None.
Proof.
  intros Hm. unfold load_byte. destruct (m !! (a / PAGE_SIZE)) as [pg|] eqn:E; [|done].
  split; [|done]. cbn. intros Hn%lookup_ge_None. rewrite (Hm _ _ E) in Hn.
  pose proof (Z.mod_pos_bound a PAGE_SIZE). pose proof page_len_Z. mlia.
Qed.

Lemma load_None m a n :
  wf_mem m -> load m a n = None <-> touches_unmapped m a (Z.of_nat n).
Proof.
  intros Hm. revert a. induction n as [|n IH]; intros a; cbn [load].
  { split; [done|]. intros (i & ? & _). lia. }
  rewrite Nat2Z.inj_succ, <- Z.add_1_r, touches_unmapped_S, <- IH by lia.
  rewrite <- (load_byte_None m a Hm). destruct (load_byte m a); cbn.
  - destruct (load m (a + 1) n); cbn; intuition congruence.
  - intuition congruence.
Qed.

Lemma store_byte_None m a b :
  store_byte m a b = None <-> m !! (a / PAGE_SIZE) = None.
Proof. unfold store_byte. by destruct (m !! (a / PAGE_SIZE)). Qed.

(** Stores change the contents of mapped pages, never which are mapped, and
    keep pages whole. *)
Lemma store_byte_wf m a b m' :
  store_byte m a b = Some m' -> wf_mem m -> wf_mem m'.
Proof.
  unfold store_byte. destruct (m !! _) as [pg|] eqn:E; [|done].
  intros [= <-] Hm. apply map_Forall_insert_2; [|done].
  rewrite length_insert. by apply (Hm _ _ E).
Qed.

Lemma store_byte_dom m a b m' :
  store_byte m a b = Some m' -> dom m' = dom m.
Proof.
  unfold store_byte. destruct (m !! _) as [pg|] eqn:E; [|done].
  intros [= <-]. by rewrite dom_insert_lookup_L by eauto.
Qed.

Lemma store_wf m a bs m' : store m a bs = Some m' -> wf_mem m -> wf_mem m'.
Proof.
  revert m a. induction bs as [|b bs IH]; intros m a; cbn [store].
  { by intros [= <-]. }
  destruct (store_byte m a b) eqn:E; [|done]. cbn. intros Hs Hm.
  eapply IH; [done|]. by eapply store_byte_wf.
Qed.

Lemma store_dom m a bs m' : store m a bs = Some m' -> dom m' = dom m.
Proof.
  revert m a. induction bs as [|b bs IH]; intros m a; cbn [store].
  { by intros [= <-]. }
  destruct (store_byte m a b) eqn:E; [|done]. cbn. intros Hs.
  rewrite (IH _ _ Hs). by eapply store_byte_dom.
Qed.

Lemma store_None m a bs :
  store m a bs = None <-> touches_unmapped m a (Z.of_nat (length bs)).
Proof.
  revert m a. induction bs as [|b bs IH]; intros m a; cbn [store length].
  { split; [done|]. intros (i & ? & _). cbn in *. lia. }
  rewrite Nat2Z.inj_succ, <- Z.add_1_r, touches_unmapped_S by lia.
  rewrite <- (store_byte_None m a b).
  destruct (store_byte m a b) as [m1|] eqn:E; cbn [mbind option_bind].
  - apply store_byte_dom in E. rewrite IH.
    assert (Hd : touches_unmapped m1 (a + 1) (Z.of_nat (length bs)) <->
                 touches_unmapped m (a + 1) (Z.of_nat (length bs))).
    { unfold touches_unmapped. by setoid_rewrite <- not_elem_of_dom; rewrite E. }
    rewrite Hd. intuition congruence.
  - intuition congruence.
Qed.

Section kernel.
Context {K : OS} {HK : OSLaws K}.

Lemma user_pages_program m i : program_page i = true -> user_pages m !! i = None.
Proof.
  intros Hi. apply map_lookup_filter_None. right. intros pg _. cbn. congruence.
Qed.

Lemma user_pages_wf m : wf_mem m -> wf_mem (user_pages m).
Proof. intros Hm i pg [Hi _]%map_lookup_filter_Some. by apply (Hm i). Qed.

Lemma touches_program_spec a len :
  touches_program a len = true <->
  exists i, a / PAGE_SIZE <= i < a / PAGE_SIZE + pages_of len /\ program_page i = true.
Proof.
  unfold touches_program. rewrite existsb_exists.
  split; intros (i & Hi & ?); exists i; (split; [|done]).
  - apply list_elem_of_In, elem_of_seqZ in Hi. lia.
  - apply list_elem_of_In, elem_of_seqZ. lia.
Qed.

Lemma touches_program_false a len :
  (forall i, a / PAGE_SIZE <= i < a / PAGE_SIZE + pages_of len ->
     program_page i = false) ->
  touches_program a len = false.
Proof.
  intros H. apply not_true_iff_false. rewrite touches_program_spec.
  intros (i & Hi & E). rewrite H in E by done. done.
Qed.

Lemma mmap_wf m len a m' : mmap m len = Some (a, m') -> wf_mem m -> wf_mem m'.
Proof.
  intros E Hm i pg. rewrite (mmap_pages _ _ _ _ i E). case_decide.
  - intros [= <-]. apply length_zero_page.
  - apply Hm.
Qed.

Lemma munmap_wf m a len m' : munmap m a len = Some m' -> wf_mem m -> wf_mem m'.
Proof.
  intros E Hm i pg. rewrite (munmap_pages _ _ _ _ i E). case_decide; [done|].
  apply Hm.
Qed.
End kernel.
