(* ===== verification/Packet.v ===== *)
(** * The packet: error codes, the request structure and its memory image

    [rmp_types.hpp] and the [packet] structure of [rmp_server.hpp] and
    [rmp_client.hpp].  Client and server exchange the raw bytes of the
    structure, so its LP64 little-endian layout is the wire format:

<<
    hndl@0:8  npages@8:4  size@12:4  offset@16:4  action@20:4
    data@24:4096  error@4120:4  (4 bytes of tail padding)
>>
    The program has no serialisation code: [send] takes the address of the
    structure, [recv] fills one.  [encode] and [decode] below are not functions
    of it but the compiler's representation of the structure in memory, which
    [send] and [recv] go by; Layout.v derives it from the declarations. *)

From S2P Require Import Prelude.

(** ** Constants of rmp_types.hpp *)
Definition ALLOC_FAILED : Z := 1.
Definition READ_FAILED : Z := 2.
Definition WRITE_FAILED : Z := 3.
Definition FREE_FAILED : Z := 4.
Definition UNKNOWN_ACTION : Z := 5.
Definition INVALID_HANDLE : Z := 6.

(** ** The structure *)
Record packet := Packet {
  hndl : Z;      (* long *)
  npages : Z;    (* u32 *)
  size : Z;      (* u32 *)
  offset : Z;    (* u32 *)
  action : Z;    (* u32: 0 map, 1 get, 2 put, 3 free *)
  data : list byte;   (* char[4096] *)
  error : Z;     (* u32 *)
}.

Record wf_packet (p : packet) : Prop := {
  wf_hndl : is_s64 (hndl p);
  wf_npages : is_u32 (npages p);
  wf_size : is_u32 (size p);
  wf_offset : is_u32 (offset p);
  wf_action : is_u32 (action p);
  wf_data : length (data p) = page_len;
  wf_error : is_u32 (error p);
}.

(** Field assignments. *)
Definition set_hndl (h : Z) (p : packet) : packet :=
  Packet h (npages p) (size p) (offset p) (action p) (data p) (error p).

Definition set_data (d : list byte) (p : packet) : packet :=
  Packet (hndl p) (npages p) (size p) (offset p) (action p) d (error p).

Definition set_error (e : Z) (p : packet) : packet :=
  Packet (hndl p) (npages p) (size p) (offset p) (action p) (data p) e.

(** ** Little-endian integers *)
Definition byte_of_Z (z : Z) : byte :=
  default x00 (of_N (Z.to_N (z mod 256))).

Definition Z_of_byte (b : byte) : Z := Z.of_N (to_N b).

Fixpoint le_bytes (n : nat) (z : Z) : list byte :=
  match n with
  | O => []
  | S n => byte_of_Z z :: le_bytes n (z / 256)
  end.

Fixpoint le_val (bs : list byte) : Z :=
  match bs with
  | [] => 0
  | b :: bs => Z_of_byte b + 256 * le_val bs
  end.

(** ** The memory image of a packet *)
Definition data_off : nat := 24.
Definition error_off : nat := data_off + page_len.
Definition pad_off : nat := error_off + 4.
(** [sizeof(rmp::packet)] *)
Definition sizeof_packet : nat := pad_off + 4.
Arguments data_off : simpl never.
Arguments error_off : simpl never.
Arguments pad_off : simpl never.
Arguments sizeof_packet : simpl never.

(** The bytes of [p], followed by the tail padding [pad]. *)
Definition encode (p : packet) (pad : list byte) : list byte :=
  le_bytes 8 (hndl p) ++ le_bytes 4 (npages p) ++ le_bytes 4 (size p) ++
  le_bytes 4 (offset p) ++ le_bytes 4 (action p) ++ data p ++
  le_bytes 4 (error p) ++ pad.

Definition slice (o n : nat) (bs : list byte) : list byte := take n (drop o bs).

(** Reading the structure out of the bytes at its address. *)
Definition decode (bs : list byte) : packet := {|
  hndl := s64 (le_val (slice 0 8 bs));
  npages := le_val (slice 8 4 bs);
  size := le_val (slice 12 4 bs);
  offset := le_val (slice 16 4 bs);
  action := le_val (slice 20 4 bs);
  data := slice data_off page_len bs;
  error := le_val (slice error_off 4 bs);
|}.

Definition padding (bs : list byte) : list byte := drop pad_off bs.

(** ** Lemmas *)
Lemma Z_of_byte_range b : 0 <= Z_of_byte b < 256.
Proof. unfold Z_of_byte. pose proof (to_N_bounded b). lia. Qed.

Lemma Z_of_byte_of_Z z : Z_of_byte (byte_of_Z z) = z mod 256.
Proof.
  unfold Z_of_byte, byte_of_Z. pose proof (Z.mod_pos_bound z 256).
  destruct (of_N _) as [b|] eqn:E; cbn.
  - apply to_of_N in E. rewrite E. rewrite Z2N.id; lia.
  - apply of_N_None_iff in E. lia.
Qed.

Lemma byte_of_Z_of_byte b : byte_of_Z (Z_of_byte b) = b.
Proof.
  unfold byte_of_Z. rewrite Z.mod_small by apply Z_of_byte_range.
  unfold Z_of_byte. by rewrite N2Z.id, of_to_N.
Qed.

Lemma length_le_bytes n z : length (le_bytes n z) = n.
Proof. revert z. induction n; intros z; cbn; congruence. Qed.

Lemma le_val_bytes n z : le_val (le_bytes n z) = z mod 2 ^ (8 * Z.of_nat n).
Proof.
  revert z. induction n as [|n IH]; intros z; cbn [le_val le_bytes].
  { by rewrite Z.mod_1_r. }
  rewrite Z_of_byte_of_Z, IH.
  replace (2 ^ (8 * Z.of_nat (S n))) with (256 * 2 ^ (8 * Z.of_nat n))
    by (rewrite <- (Z.pow_add_r 2 8); [f_equal; lia|lia..]).
  rewrite Z.rem_mul_r by lia. done.
Qed.

Lemma le_val_range bs : 0 <= le_val bs < 2 ^ (8 * Z.of_nat (length bs)).
Proof.
  induction bs as [|b bs IH]; cbn [le_val length]; [lia|].
  pose proof (Z_of_byte_range b).
  replace (2 ^ (8 * Z.of_nat (S (length bs))))
    with (256 * 2 ^ (8 * Z.of_nat (length bs)))
    by (rewrite <- (Z.pow_add_r 2 8); [f_equal; lia|lia..]).
  lia.
Qed.

Lemma le_bytes_val bs : le_bytes (length bs) (le_val bs) = bs.
Proof.
  induction bs as [|b bs IH]; cbn [le_val length le_bytes]; [done|].
  pose proof (Z_of_byte_range b). f_equal.
  - rewrite <- (byte_of_Z_of_byte b) at 2. unfold byte_of_Z.
    do 3 f_equal. rewrite (Z.mul_comm 256), Z.mod_add by lia. done.
  - rewrite (Z.mul_comm 256), Z.div_add, Z.div_small by lia. done.
Qed.

Lemma le_bytes_mod n z : le_bytes n (z mod 2 ^ (8 * Z.of_nat n)) = le_bytes n z.
Proof.
  rewrite <- (le_val_bytes n z).
  rewrite <- (le_bytes_val (le_bytes n z)) at 2. by rewrite length_le_bytes.
Qed.

Lemma s64_mod z : s64 z mod 2 ^ 64 = z mod 2 ^ 64.
Proof.
  unfold s64. rewrite Zminus_mod_idemp_l. f_equal. lia.
Qed.

Lemma le_bytes_s64 z : le_bytes 8 (s64 z) = le_bytes 8 z.
Proof.
  rewrite <- (le_bytes_mod 8 (s64 z)), <- (le_bytes_mod 8 z).
  f_equal. apply s64_mod.
Qed.

(** A signed 64-bit value survives the trip through its unsigned image. *)
Lemma s64_wrap z : is_s64 z -> s64 (z mod 2 ^ 64) = z.
Proof.
  intros Hz. unfold s64. rewrite Zplus_mod_idemp_l. fold (s64 z).
  by apply s64_small.
Qed.

Lemma slice_skip o k n l1 l2 :
  length l1 = k -> (k <= o)%nat -> slice o n (l1 ++ l2) = slice (o - k) n l2.
Proof.
  intros <- Ho. unfold slice. rewrite drop_app_ge by lia. done.
Qed.

Lemma slice_head o n l1 l2 :
  o = O -> length l1 = n -> slice o n (l1 ++ l2) = l1.
Proof. intros -> <-. unfold slice. rewrite drop_0. apply take_app_length. Qed.

Lemma slice_rest o n bs : slice o n bs ++ drop (n + o) bs = drop o bs.
Proof.
  unfold slice. rewrite Nat.add_comm, <- drop_drop. apply take_drop.
Qed.

Lemma length_slice o n bs :
  (o + n <= length bs)%nat -> length (slice o n bs) = n.
Proof. intros H. unfold slice. rewrite length_take, length_drop. lia. Qed.

(** Fetch a field of an encoded packet: skip the ones before it. *)
Ltac fetch_arith :=
  rewrite ?length_le_bytes; first [assumption | unfold error_off, data_off; lia].

Ltac fetch :=
  unfold encode;
  repeat first
    [ rewrite slice_skip with (k := 8%nat) by fetch_arith
    | rewrite slice_skip with (k := 4%nat) by fetch_arith
    | rewrite slice_skip with (k := page_len) by fetch_arith ];
  rewrite slice_head by fetch_arith.

(** ** Round trips *)
Lemma length_encode p pad :
  wf_packet p -> length pad = 4%nat -> length (encode p pad) = sizeof_packet.
Proof.
  intros [] Hpad. unfold encode, sizeof_packet, pad_off, error_off, data_off.
  rewrite !length_app, !length_le_bytes. lia.
Qed.

Lemma decode_encode p pad : wf_packet p -> decode (encode p pad) = p.
Proof.
  intros [[] [] [] [] [] ? []]. destruct p as [h n s o a d e]; cbn [hndl npages size offset action data error] in *.
  unfold decode. f_equal.
  - fetch. cbn [hndl]. rewrite le_val_bytes. apply s64_wrap. mlia.
  - fetch. cbn [npages]. rewrite le_val_bytes. apply u32_small. mlia.
  - fetch. cbn [size]. rewrite le_val_bytes. apply u32_small. mlia.
  - fetch. cbn [offset]. rewrite le_val_bytes. apply u32_small. mlia.
  - fetch. cbn [action]. rewrite le_val_bytes. apply u32_small. mlia.
  - fetch. done.
  - fetch. cbn [error]. rewrite le_val_bytes. apply u32_small. mlia.
Qed.

Lemma le_bytes_slice o n bs :
  (o + n <= length bs)%nat -> le_bytes n (le_val (slice o n bs)) = slice o n bs.
Proof.
  intros H. rewrite <- (length_slice o n bs H) at 1. apply le_bytes_val.
Qed.

Lemma encode_decode bs :
  length bs = sizeof_packet -> encode (decode bs) (padding bs) = bs.
Proof.
  unfold sizeof_packet, pad_off, error_off, data_off. intros Hl.
  unfold encode, decode, padding. cbn [hndl npages size offset action data error].
  unfold pad_off, error_off, data_off.
  rewrite le_bytes_s64, !le_bytes_slice by lia.
  replace (24 + page_len + 4)%nat with (4 + (24 + page_len))%nat by lia.
  rewrite slice_rest.
  replace (24 + page_len)%nat with (page_len + 24)%nat by lia.
  rewrite slice_rest. rewrite (slice_rest 20 4), (slice_rest 16 4),
    (slice_rest 12 4), (slice_rest 8 4), (slice_rest 0 8). done.
Qed.

Lemma decode_wf bs : (sizeof_packet <= length bs)%nat -> wf_packet (decode bs).
Proof.
  unfold sizeof_packet, pad_off, error_off, data_off. intros Hl.
  assert (Hf : forall o, (o + 4 <= length bs)%nat -> is_u32 (le_val (slice o 4 bs))).
  { intros o Ho. pose proof (le_val_range (slice o 4 bs)) as Hr.
    rewrite length_slice in Hr by done. exact Hr. }
  split; cbn; auto using s64_range with lia.
  - apply length_slice. unfold data_off. lia.
  - apply Hf. unfold error_off, data_off. lia.
Qed.

Lemma padding_encode p pad : wf_packet p -> padding (encode p pad) = pad.
Proof.
  intros Hp. replace (encode p pad) with (encode p [] ++ pad)
    by (unfold encode; by rewrite <- !app_assoc).
  apply drop_app_length'. unfold encode, pad_off, error_off, data_off.
  rewrite !length_app, !length_le_bytes, (wf_data p Hp). cbn. lia.
Qed.

(** A packet and its memory image determine each other: the image has the
    size of the structure, reading it gives the packet back, and every image
    of that size is the image of the well-formed packet read from it. *)
Lemma packet_roundtrip p pad bs :
  wf_packet p -> length pad = 4%nat -> length bs = sizeof_packet ->
  (length (encode p pad) = sizeof_packet /\ decode (encode p pad) = p /\
   padding (encode p pad) = pad) /\
  (wf_packet (decode bs) /\ encode (decode bs) (padding bs) = bs).
Proof.
  intros Hp Hpad Hl. split; split_and!.
  - by apply length_encode.
  - by apply decode_encode.
  - by apply padding_encode.
  - apply decode_wf. by rewrite Hl.
  - by apply encode_decode.
Qed.

Lemma packet_roundtrip_witness :
  decode (encode (Packet (-1) 2 4096 1 0 zero_page 0) (replicate 4 xff))
    = Packet (-1) 2 4096 1 0 zero_page 0 /\
  encode (decode (replicate sizeof_packet x07)) (padding (replicate sizeof_packet x07))
    = replicate sizeof_packet x07.
Proof.
  destruct (packet_roundtrip (Packet (-1) 2 4096 1 0 zero_page 0) (replicate 4 xff)
    (replicate sizeof_packet x07)) as [(_ & H1 & _) [_ H2]].
  - split; cbn; first [apply length_zero_page | unfold is_s64, is_u32; lia].
  - reflexivity.
  - apply length_replicate.
  - split; [exact H1|exact H2].
Defined.
