(* ===== verification/Layout.v ===== *)
(** * The two declarations of the packet lay it out alike

    [rmp::packet] is declared twice, in rmp_server.hpp for the server and in
    rmp_client.hpp for the client, and the two programs exchange its bytes
    without converting them.  The two declarations as lists of typed fields,
    the rules by which an LP64 C++ compiler lays a structure out, and the
    proof that both give the image Packet.v works with. *)

From stdpp Require Import strings.
From S2P Require Import Prelude Packet.

(** ** Types and their sizes *)
Inductive ctype :=
  | CChar
  | CUInt                     (* unsigned int, [u32] *)
  | CLong                     (* long, [rmp::handle] *)
  | CArray (t : ctype) (n : nat).

Fixpoint csize (t : ctype) : nat :=
  match t with
  | CChar => 1 | CUInt => 4 | CLong => 8 | CArray t n => csize t * n
  end.

Fixpoint calign (t : ctype) : nat :=
  match t with
  | CChar => 1 | CUInt => 4 | CLong => 8 | CArray t _ => calign t
  end.

(** The least multiple of [a] that is not below [o]. *)
Definition align_up (o a : nat) : nat := (o + (a - 1)) / a * a.

Definition fields : Type := list (string * ctype).

(** The fields with their offsets, the first one at [o] or after it. *)
Fixpoint place (o : nat) (fs : fields) : list (string * nat * ctype) :=
  match fs with
  | [] => []
  | (x, t) :: fs =>
      let at_ := align_up o (calign t) in
      (x, at_, t) :: place (at_ + csize t) fs
  end.

Definition struct_align (fs : fields) : nat :=
  foldr (fun f a => Nat.max (calign f.2) a) 1%nat fs.

(** The end of the last field. *)
Fixpoint fields_end (o : nat) (fs : fields) : nat :=
  match fs with
  | [] => o
  | (_, t) :: fs => fields_end (align_up o (calign t) + csize t) fs
  end.

Definition struct_size (fs : fields) : nat :=
  align_up (fields_end 0 fs) (struct_align fs).

(** ** The two declarations *)
(** rmp_server.hpp *)
Definition server_packet : fields :=
  [("hndl", CLong); ("npages", CUInt); ("size", CUInt); ("offset", CUInt);
   ("action", CUInt); ("data", CArray CChar 4096); ("error", CUInt)]%string.

(** rmp_client.hpp *)
Definition client_packet : fields :=
  [("hndl", CLong); ("npages", CUInt); ("size", CUInt); ("offset", CUInt);
   ("action", CUInt); ("data", CArray CChar 4096); ("error", CUInt)]%string.

(** The bytes of a field of the record. *)
Definition field_bytes (x : string) (p : packet) : option (list byte) :=
  match x with
  | "hndl" => Some (le_bytes 8 (hndl p))
  | "npages" => Some (le_bytes 4 (npages p))
  | "size" => Some (le_bytes 4 (size p))
  | "offset" => Some (le_bytes 4 (offset p))
  | "action" => Some (le_bytes 4 (action p))
  | "data" => Some (data p)
  | "error" => Some (le_bytes 4 (error p))
  | _ => None
  end%string.

(** ** Layouts are sound *)
Lemma calign_pos t : (0 < calign t)%nat.
Proof. induction t; cbn; lia. Qed.

Lemma align_up_spec o a : (0 < a)%nat ->
  (o <= align_up o a < o + a /\ align_up o a mod a = 0)%nat.
Proof.
  intros Ha. unfold align_up. split; [|apply Nat.Div0.mod_mul].
  pose proof (Nat.div_mod (o + (a - 1)) a). pose proof (Nat.mod_upper_bound (o + (a - 1)) a).
  nia.
Qed.

(** Every field comes after [o], aligned, and after the fields before it. *)
Definition well_placed (o e : nat) (l : list (string * nat * ctype)) : Prop :=
  Forall (fun f => o <= f.1.2 /\ f.1.2 + csize f.2 <= e /\
                   f.1.2 mod calign f.2 = 0)%nat l /\
  forall i j f g, (i < j)%nat -> l !! i = Some f -> l !! j = Some g ->
    (f.1.2 + csize f.2 <= g.1.2)%nat.

Lemma fields_end_ge fs : forall o, (o <= fields_end o fs)%nat.
Proof.
  induction fs as [|[x t] fs IH]; intros o; cbn; [lia|].
  pose proof (align_up_spec o (calign t) (calign_pos t)).
  specialize (IH (align_up o (calign t) + csize t)%nat). lia.
Qed.

Lemma place_sound fs : forall o, well_placed o (fields_end o fs) (place o fs).
Proof.
  induction fs as [|[x t] fs IH]; intros o; cbn [place fields_end].
  { split; [constructor|]. by intros i j f g _ H. }
  pose proof (align_up_spec o (calign t) (calign_pos t)) as [Ho Hm].
  set (a := align_up o (calign t)) in *. destruct (IH (a + csize t)%nat) as [Hf Ho'].
  pose proof (fields_end_ge fs (a + csize t)) as He. split.
  - constructor; [cbn; lia|]. eapply Forall_impl; [exact Hf|]. cbn. lia.
  - intros [|i] [|j] f g Hij Hi Hj; [lia| |lia|].
    + injection Hi as <-. cbn in Hj |- *.
      apply (Forall_lookup_1 _ _ _ _ Hf) in Hj. lia.
    + eapply (Ho' i j); [lia|done|done].
Qed.

(** ** The packet *)
Lemma slice_here (b c : list byte) n : length b = n -> slice 0 n (b ++ c) = b.
Proof. intros Hb. unfold slice. rewrite drop_0. by apply take_app_length'. Qed.

Lemma slice_past_fields (a c : list byte) o n :
  (length a <= o)%nat -> slice o n (a ++ c) = slice (o - length a) n c.
Proof. intros Ha. unfold slice. by rewrite drop_app_ge. Qed.

Lemma place_packet :
  place 0 client_packet =
    [("hndl", 0, CLong); ("npages", 8, CUInt); ("size", 12, CUInt);
     ("offset", 16, CUInt); ("action", 20, CUInt);
     ("data", 24, CArray CChar 4096); ("error", 4120, CUInt)]%string%nat.
Proof. by vm_compute. Qed.

Ltac in_image :=
  repeat (rewrite slice_past_fields by (rewrite ?length_le_bytes; lia);
          rewrite ?length_le_bytes; cbn [Nat.sub]);
  apply slice_here; rewrite ?length_le_bytes; done.

Lemma encode_field p pad x o t :
  wf_packet p -> (x, o, t) ∈ place 0 client_packet ->
  exists b, field_bytes x p = Some b /\ length b = csize t /\
    slice o (csize t) (encode p pad) = b.
Proof.
  intros Hp Hx. pose proof (wf_data p Hp) as Hd. change page_len with 4096%nat in Hd.
  rewrite place_packet in Hx. unfold encode.
  repeat (apply elem_of_cons in Hx as [[= -> -> ->]|Hx]); [..|by apply elem_of_nil in Hx];
    (eexists; split; [reflexivity|]; split; [first [apply length_le_bytes|done]|]).
  1-6: by in_image.
  do 5 (rewrite slice_past_fields by (rewrite ?length_le_bytes; lia);
        rewrite ?length_le_bytes; cbn [Nat.sub]).
  rewrite slice_past_fields, Hd by lia. by apply slice_here, length_le_bytes.
Qed.

(** C18.  The two programs agree on the packet: the two declarations give the
    same names, types and offsets, fields that are aligned and apart, the size
    the code sends, and at the offset of each field the image [encode] of a
    packet holds that field's bytes. *)
Theorem packet_layouts_agree p pad :
  wf_packet p -> length pad = 4%nat ->
  place 0 client_packet = place 0 server_packet /\
  struct_size client_packet = sizeof_packet /\
  length (encode p pad) = struct_size server_packet /\
  well_placed 0 sizeof_packet (place 0 client_packet) /\
  forall x o t, (x, o, t) ∈ place 0 client_packet ->
    exists b, field_bytes x p = Some b /\ length b = csize t /\
      slice o (csize t) (encode p pad) = b.
Proof.
  intros Hp Hpad.
  assert (Hs : struct_size client_packet = sizeof_packet) by (by vm_compute).
  split_and!; [done|done| | |].
  - rewrite length_encode by done. by rewrite <- Hs.
  - destruct (place_sound client_packet 0) as [Hf Ho]. split; [|done].
    eapply Forall_impl; [exact Hf|]. cbn beta.
    assert (He : (fields_end 0 client_packet <= sizeof_packet)%nat)
      by (apply Nat.leb_le; by vm_compute).
    intros f (? & ? & ?). lia.
  - intros x o t. by apply encode_field.
Qed.

Lemma packet_layouts_agree_witness :
  exists b, field_bytes "error" (Packet (-1) 2 4096 1 0 zero_page 6) = Some b /\
    length b = 4%nat /\
    slice 4120 4 (encode (Packet (-1) 2 4096 1 0 zero_page 6) (replicate 4 xff)) = b.
Proof.
  destruct (packet_layouts_agree (Packet (-1) 2 4096 1 0 zero_page 6) (replicate 4 xff))
    as (_ & _ & _ & _ & Hf).
  - split; cbn; first [apply length_zero_page | unfold is_s64, is_u32; lia].
  - reflexivity.
  - apply (Hf "error" 4120%nat CUInt)%string. rewrite place_packet.
    apply list_elem_of_In. cbn. tauto.
Defined.
