(* ===== verification/FloatInt.v ===== *)
(** * Integers in binary floating point

    Conversion of a non-negative integer to a binary floating-point format
    with [p] significant bits, rounding to nearest with ties to even:
    [float] has 24 bits, [double] 53.  (The exponent ranges are never reached
    by the integers of the program.) *)

From S2P Require Import Prelude OS Packet.

Definition round_sig (p z : Z) : Z :=
  if z <? 2 ^ p then z
  else
    let e := Z.log2 z + 1 - p in
    let q := z / 2 ^ e in
    let r := z mod 2 ^ e in
    let down := (2 * r <? 2 ^ e) || ((2 * r =? 2 ^ e) && Z.even q) in
    (if down then q else q + 1) * 2 ^ e.

Definition to_float (z : Z) : Z := round_sig 24 z.

Definition to_double (z : Z) : Z := round_sig 53 z.

Section round.
Context (p : Z) (Hp : 1 < p).

Lemma round_small z : z < 2 ^ p -> round_sig p z = z.
Proof. intros Hz. unfold round_sig. by destruct (Z.ltb_spec z (2 ^ p)); [|lia]. Qed.

(** No bit is lost: the number is a multiple of the weight of its last
    significant bit. *)
Lemma round_exact z : z mod 2 ^ (Z.log2 z + 1 - p) = 0 -> round_sig p z = z.
Proof.
  intros Hr. unfold round_sig. destruct (Z.ltb_spec z (2 ^ p)) as [|Hz]; [done|].
  assert (Hz0 : 0 < 2 ^ p) by (apply Z.pow_pos_nonneg; lia).
  assert (Hlog : p <= Z.log2 z) by (apply Z.log2_le_pow2; lia).
  set (e := Z.log2 z + 1 - p) in *.
  assert (He : 0 < 2 ^ e) by (apply Z.pow_pos_nonneg; lia).
  rewrite Hr. replace (2 * 0) with 0 by lia. destruct (Z.ltb_spec 0 (2 ^ e)); [|lia].
  cbn [orb]. pose proof (Z.div_mod z (2 ^ e)). lia.
Qed.

(** An integer of [p] bits, scaled by a power of two. *)
Lemma round_scaled n k : 0 <= n < 2 ^ p -> 0 <= k -> round_sig p (n * 2 ^ k) = n * 2 ^ k.
Proof.
  intros Hn Hk. destruct (Z.eq_dec n 0) as [->|Hn0].
  { apply round_small. apply Z.pow_pos_nonneg; lia. }
  destruct (Z.lt_ge_cases (n * 2 ^ k) (2 ^ p)) as [|Hge]; [by apply round_small|].
  apply round_exact. rewrite Z.log2_mul_pow2 by lia.
  assert (Hz : 0 < 2 ^ k) by (apply Z.pow_pos_nonneg; lia).
  assert (Hl : Z.log2 n < p) by (apply Z.log2_lt_pow2; lia).
  assert (Hl' : p <= k + Z.log2 n)
    by (rewrite <- Z.log2_mul_pow2 by lia; apply Z.log2_le_pow2; nia).
  apply Z.mod_divide; [apply Z.pow_nonzero; lia|].
  apply Z.divide_mul_r. exists (2 ^ (p - 1 - Z.log2 n)).
  rewrite <- Z.pow_add_r by lia. f_equal. lia.
Qed.

(** One more than a power of two is rounded down. *)
Lemma round_pow2_succ k : p <= k -> round_sig p (2 ^ k + 1) = 2 ^ k.
Proof.
  intros Hk. pose proof (Z.pow_le_mono_r 2 p k).
  assert (H2 : 2 < 2 ^ k) by (apply (Z.pow_lt_mono_r 2 1); lia).
  assert (Hlog : Z.log2 (2 ^ k + 1) = k)
    by (apply Z.log2_unique; [lia|rewrite Z.pow_succ_r; lia]).
  unfold round_sig. destruct (Z.ltb_spec (2 ^ k + 1) (2 ^ p)); [lia|]. rewrite Hlog.
  set (e := k + 1 - p).
  assert (Hs : 2 ^ k = 2 ^ (p - 1) * 2 ^ e) by (rewrite <- Z.pow_add_r by lia; f_equal; lia).
  assert (He : 2 <= 2 ^ e) by (apply (Z.pow_le_mono_r 2 1); lia).
  assert (Hev : Z.even (2 ^ (p - 1)) = true).
  { replace (p - 1) with (Z.succ (p - 2)) by lia. rewrite Z.pow_succ_r by lia.
    apply Z.even_mul. }
  rewrite Hs, Z.div_add_l, (Z.div_small 1), Z.add_0_r by lia.
  rewrite Z.add_comm, Z.mod_add, (Z.mod_small 1) by lia.
  destruct (Z.ltb_spec (2 * 1) (2 ^ e)) as [|Hle]; [done|].
  destruct (Z.eqb_spec (2 * 1) (2 ^ e)); [by rewrite Hev|lia].
Qed.
End round.

(** ** The bytes of a [double]

    A non-negative integer below [2^53] in memory: the biased exponent over 52
    bits of significand, least significant byte first. *)
Definition double_bits (n : Z) : Z :=
  if n =? 0 then 0
  else
    let e := Z.log2 n in
    (1023 + e) * 2 ^ 52 + (n * 2 ^ (52 - e) - 2 ^ 52).

Definition bits_double (b : Z) : Z :=
  if b =? 0 then 0
  else
    let e := b / 2 ^ 52 - 1023 in
    (2 ^ 52 + b mod 2 ^ 52) / 2 ^ (52 - e).

Definition double_bytes (n : Z) : list byte := le_bytes 8 (double_bits n).

Arguments double_bytes : simpl never.

Definition bytes_double (bs : list byte) : Z := bits_double (le_val bs).

Lemma double_bits_split n :
  0 < n < 2 ^ 53 ->
  let e := Z.log2 n in
  0 <= e < 53 /\ 0 <= n * 2 ^ (52 - e) - 2 ^ 52 < 2 ^ 52.
Proof.
  intros Hn e. assert (He : 0 <= e < 53).
  { split; [apply Z.log2_nonneg|]. apply Z.log2_lt_pow2; lia. }
  split; [done|]. destruct (Z.log2_spec n) as [Hl Hu]; [lia|]. fold e in Hl, Hu.
  assert (H2 : 0 < 2 ^ (52 - e)) by (apply Z.pow_pos_nonneg; lia).
  assert (E1 : 2 ^ e * 2 ^ (52 - e) = 2 ^ 52) by (rewrite <- Z.pow_add_r by lia; f_equal; lia).
  assert (E2 : 2 ^ Z.succ e * 2 ^ (52 - e) = 2 ^ 53)
    by (rewrite <- Z.pow_add_r by lia; f_equal; lia).
  nia.
Qed.

Lemma bits_double_bits n : 0 <= n < 2 ^ 53 -> bits_double (double_bits n) = n.
Proof.
  intros Hn. unfold double_bits. destruct (Z.eqb_spec n 0) as [->|Hn0]; [done|].
  destruct (double_bits_split n) as [He Hm]; [lia|]. cbn in Hm.
  set (e := Z.log2 n) in *. set (r := n * 2 ^ (52 - e) - 2 ^ 52) in *.
  unfold bits_double. destruct (Z.eqb_spec ((1023 + e) * 2 ^ 52 + r) 0); [lia|].
  assert (Hmod : ((1023 + e) * 2 ^ 52 + r) mod 2 ^ 52 = r)
    by (rewrite Z.add_comm, Z.mod_add, Z.mod_small; lia).
  rewrite Hmod, Z.div_add_l, (Z.div_small r) by lia.
  replace (1023 + e + 0 - 1023) with e by lia.
  replace (2 ^ 52 + r) with (n * 2 ^ (52 - e)) by lia.
  apply Z.div_mul, Z.pow_nonzero; lia.
Qed.

Lemma bytes_double_bytes n : 0 <= n < 2 ^ 53 -> bytes_double (double_bytes n) = n.
Proof.
  intros Hn. unfold bytes_double, double_bytes. rewrite le_val_bytes.
  rewrite Z.mod_small; [by apply bits_double_bits|].
  unfold double_bits. destruct (Z.eqb_spec n 0); [lia|].
  destruct (double_bits_split n) as [He Hm]; [lia|]. cbn in Hm. lia.
Qed.
