(* ===== verification/Pool.v ===== *)
(** * The abstract page pool

    What the server promises: a pool of regions, each a list of pages under
    a handle.  [pool_step P p P' r] says that a pool [P] may answer the
    request [p] with the reply [r] and become [P'].  The class [PageServer]
    is the promise as an interface: something that answers packets and
    simulates the pool.  The server implements it, the client's theorems
    are proved against it. *)

From S2P Require Import Prelude Packet.

Record pool := Pool {
  next : Z;                            (* the next handle *)
  regions : gmap Z (list (list byte)); (* handle -> its pages *)
}.

Definition empty_pool : pool := Pool 0 ∅.

Definition fresh_region (n : Z) : list (list byte) :=
  replicate (Z.to_nat n) zero_page.

(** The page [o] of the region [h]. *)
Definition pool_page (P : pool) (h o : Z) : option (list byte) :=
  pgs ← regions P !! h; pgs !! Z.to_nat o.

Definition pool_write (h o : Z) (d : list byte) (P : pool) : pool :=
  Pool (next P) (alter <[Z.to_nat o := d]> h (regions P)).

Inductive pool_step (P : pool) (p : packet) : pool -> packet -> Prop :=
  | alloc_step :
      action p = 0 -> 0 < npages p ->
      pool_step P p
        (Pool (next P + 1) (<[next P := fresh_region (npages p)]> (regions P)))
        (set_hndl (next P) p)
  | alloc_fail_step :
      action p = 0 ->
      pool_step P p P (set_error ALLOC_FAILED p)
  | read_step d :
      action p = 1 -> pool_page P (hndl p) (offset p) = Some d ->
      pool_step P p P (set_data d p)
  | read_fail_step pgs :
      action p = 1 -> regions P !! hndl p = Some pgs ->
      Z.of_nat (length pgs) <= offset p ->
      pool_step P p P (set_error READ_FAILED p)
  | write_step d :
      action p = 2 -> pool_page P (hndl p) (offset p) = Some d ->
      pool_step P p (pool_write (hndl p) (offset p) (data p) P) p
  | write_fail_step pgs :
      action p = 2 -> regions P !! hndl p = Some pgs ->
      Z.of_nat (length pgs) <= offset p ->
      pool_step P p P (set_error WRITE_FAILED p)
  | free_step pgs :
      action p = 3 -> regions P !! hndl p = Some pgs ->
      pool_step P p (Pool (next P) (delete (hndl p) (regions P))) p
  | free_fail_step pgs :
      action p = 3 -> regions P !! hndl p = Some pgs ->
      pool_step P p P (set_error FREE_FAILED p)
  | invalid_handle_step :
      1 <= action p <= 3 -> regions P !! hndl p = None ->
      pool_step P p P (set_error INVALID_HANDLE p)
  | unknown_action_step :
      3 < action p ->
      pool_step P p P (set_error UNKNOWN_ACTION p).

(** The requests the protocol allows: whole pages of the agreed size, and
    allocations whose byte length is a [u32] while handles are left. *)
Record request_ok (p : packet) : Prop := {
  ok_wf : wf_packet p;
  ok_size : size p = PAGE_SIZE;
  ok_alloc : action p = 0 -> npages p * PAGE_SIZE < 2 ^ 32;
}.

(** A request as the client builds it. *)
Definition request (a h n o : Z) (d : list byte) : packet :=
  Packet h n PAGE_SIZE o a d 0.

(** A request of the protocol to a pool that has a handle left for it. *)
Definition honest (P : pool) (p : packet) : Prop :=
  request_ok p /\ next P + 1 < 2 ^ 32.

Inductive pool_steps : pool -> list packet -> pool -> list packet -> Prop :=
  | pool_steps_nil P : pool_steps P [] P []
  | pool_steps_cons P p P' r ps P'' rs :
      pool_step P p P' r -> pool_steps P' ps P'' rs ->
      pool_steps P (p :: ps) P'' (r :: rs).

(** ** The interface *)
Class PageServer (W : Type) := {
  (** Send a request, wait for the reply.  [None]: no reply ever comes. *)
  rpc : packet -> prog W packet;
  (** The world [w] holds the pool [P]. *)
  holds : W -> pool -> Prop;
  rpc_step w P p :
    holds w P -> honest P p ->
    exists r w' P', rpc p w = Some (r, w') /\ pool_step P p P' r /\ holds w' P';
}.

(** ** Facts about pools *)
Lemma length_fresh_region n : 0 <= n -> Z.of_nat (length (fresh_region n)) = n.
Proof. intros H. unfold fresh_region. rewrite length_replicate. lia. Qed.

Lemma fresh_region_page n i :
  0 <= i < n -> fresh_region n !! Z.to_nat i = Some zero_page.
Proof. intros H. apply lookup_replicate_2. lia. Qed.

Lemma pool_page_write_eq P h o d x :
  pool_page P h o = Some x -> pool_page (pool_write h o d P) h o = Some d.
Proof.
  unfold pool_page, pool_write. cbn. rewrite lookup_alter_eq.
  destruct (regions P !! h) as [pgs|]; [|done]. cbn. intros Hx.
  apply list_lookup_insert_eq. by apply lookup_lt_Some in Hx.
Qed.

Lemma pool_page_write_ne P h o d h' o' :
  0 <= o -> 0 <= o' -> h <> h' \/ o <> o' ->
  pool_page (pool_write h o d P) h' o' = pool_page P h' o'.
Proof.
  unfold pool_page, pool_write. cbn. intros Ho Ho' Hne.
  destruct (decide (h = h')) as [->|Hh].
  - rewrite lookup_alter_eq. destruct (regions P !! h') as [pgs|]; [|done]. cbn.
    apply list_lookup_insert_ne. lia.
  - by rewrite lookup_alter_ne.
Qed.

Lemma pool_page_Some P h o d :
  pool_page P h o = Some d -> 0 <= o ->
  exists pgs, regions P !! h = Some pgs /\ o < Z.of_nat (length pgs)
              /\ pgs !! Z.to_nat o = Some d.
Proof.
  unfold pool_page. destruct (regions P !! h) as [pgs|]; [|done]. cbn.
  intros Hd Ho. exists pgs. apply lookup_lt_Some in Hd as Hl.
  split_and!; [done|lia|done].
Qed.

Lemma request_ok_intro a h n o d :
  is_u32 a -> is_u32 h -> 0 <= n < 2 ^ 20 -> is_u32 o -> length d = page_len ->
  request_ok (request a h n o d).
Proof.
  intros Ha Hh Hn Ho Hd.
  split; [split|..]; cbn [request hndl npages size offset action data error];
    first [done | mlia].
Qed.

(** What a pool answers to a read or a write of an existing page. *)
Lemma pool_step_read P p P' r d :
  pool_step P p P' r -> action p = 1 ->
  pool_page P (hndl p) (offset p) = Some d -> 0 <= offset p ->
  P' = P /\ r = set_data d p.
Proof.
  intros Hs Ha Hd Ho.
  destruct (pool_page_Some _ _ _ _ Hd Ho) as (pgs & Hr & Hlt & _).
  inversion Hs; simplify_eq; try lia. done.
Qed.

Lemma pool_step_write P p P' r d :
  pool_step P p P' r -> action p = 2 ->
  pool_page P (hndl p) (offset p) = Some d -> 0 <= offset p ->
  P' = pool_write (hndl p) (offset p) (data p) P /\ r = p.
Proof.
  intros Hs Ha Hd Ho.
  destruct (pool_page_Some _ _ _ _ Hd Ho) as (pgs & Hr & Hlt & _).
  inversion Hs; simplify_eq; try lia. done.
Qed.

(** ** Frame: requests about other pages leave a page alone *)
Definition pool_wf (P : pool) : Prop :=
  forall h pgs, regions P !! h = Some pgs -> h < next P.

(** The request neither writes the page [o] of the region [h] nor frees it. *)
Definition leaves (h o : Z) (p : packet) : Prop :=
  0 <= offset p /\
  (action p = 2 -> hndl p <> h \/ offset p <> o) /\ (action p = 3 -> hndl p <> h).

Lemma pool_step_wf P p P' r : pool_step P p P' r -> pool_wf P -> pool_wf P'.
Proof.
  intros Hs Hw. destruct Hs; try done; intros h q; cbn.
  - rewrite lookup_insert. case_decide; [lia|]. intros Hq%Hw. lia.
  - rewrite lookup_alter. case_decide; [|by apply Hw].
    intros (q' & Hq & _)%fmap_Some. subst. by apply Hw in Hq.
  - intros [_ Hq]%lookup_delete_Some. by apply Hw in Hq.
Qed.

Lemma pool_step_next P p P' r :
  pool_step P p P' r -> next P <= next P' <= next P + 1.
Proof. intros []; cbn; lia. Qed.

Lemma pool_steps_next P ps P' rs :
  pool_steps P ps P' rs -> next P' <= next P + Z.of_nat (length ps).
Proof.
  induction 1 as [|? ? ? ? ? ? ? H _ IH]; cbn [length]; [lia|].
  apply pool_step_next in H. lia.
Qed.

Lemma pool_step_leaves P p P' r h o d :
  pool_step P p P' r -> pool_wf P -> 0 <= o -> leaves h o p ->
  pool_page P h o = Some d -> pool_page P' h o = Some d.
Proof.
  intros Hs Hw Ho (Hp & Hl2 & Hl3) Hd. destruct Hs; try done.
  - destruct (pool_page_Some _ _ _ _ Hd Ho) as (pgs & Hr & _ & Hg).
    unfold pool_page. cbn. rewrite lookup_insert_ne, Hr; [done|].
    intros <-. apply Hw in Hr. lia.
  - rewrite pool_page_write_ne; auto.
  - unfold pool_page in *. cbn. rewrite lookup_delete_ne by auto. done.
Qed.

Lemma pool_steps_leaves P ps P' rs h o d :
  pool_steps P ps P' rs -> pool_wf P -> 0 <= o -> Forall (leaves h o) ps ->
  pool_page P h o = Some d -> pool_page P' h o = Some d.
Proof.
  intros Hs. induction Hs as [|P p P1 r ps P2 rs H1 _ IH]; [done|].
  intros Hw Ho [Hl Hls]%Forall_cons Hd.
  eauto using pool_step_wf, pool_step_leaves.
Qed.
