(* ===== verification/Server.v ===== *)
(** * The server: rmp_server.hpp and rmp_server.cpp

    The state of [rmp::Server] with the memory of its process, its accessors,
    the four operations [alloc], [read], [write], [free], the four packet
    handlers and the dispatcher [handle].  An operation is a [prog server].

    The packet's page size is not checked, so a request can send a [memcpy] or
    a [munmap] anywhere within 4 GB above its region.  What that does to other
    mappings is modelled byte by byte in [vm].  The pages the program keeps for
    itself ([program_page]: its code, stacks and the heap that holds the maps)
    are not in [vm], and an operation that reaches one has no result: to write
    or unmap it corrupts or loses the very state modelled here, and to read it
    gives bytes the model does not have.  So [None] is a segmentation fault or
    an access to the program's own memory. *)

From S2P Require Import Prelude OS Packet.

(** ** State *)
Record server := Server {
  handle_count : Z;              (* u32 *)
  addr_map : gmap Z Z;           (* handle -> address of its region *)
  hndl_n_pages : gmap Z Z;       (* handle -> number of pages *)
  vm : mem;                      (* what is mapped besides the program's own *)
}.

(** [rmp::Server(rmp::config())] in a process with memory [m]. *)
Definition new_server `{OS} (m : mem) : server := Server 0 ∅ ∅ (user_pages m).

Definition upd_handle_count (f : Z -> Z) (s : server) : server :=
  Server (f (handle_count s)) (addr_map s) (hndl_n_pages s) (vm s).

Definition upd_addr_map (f : gmap Z Z -> gmap Z Z) (s : server) : server :=
  Server (handle_count s) (f (addr_map s)) (hndl_n_pages s) (vm s).

Definition upd_hndl_n_pages (f : gmap Z Z -> gmap Z Z) (s : server) : server :=
  Server (handle_count s) (addr_map s) (f (hndl_n_pages s)) (vm s).

Definition set_vm (m : mem) (s : server) : server :=
  Server (handle_count s) (addr_map s) (hndl_n_pages s) m.

(** ** Accessors *)

(** [handle_count++] on a [u32]: the old value is the new handle. *)
Definition get_new_handle : prog server Z :=
  new_handle ← gets handle_count;
  _ ← modify (upd_handle_count (fun c => u32 (c + 1)));
  mret new_handle.

Definition set_addr_map (h addr : Z) : prog server unit :=
  modify (upd_addr_map <[h := addr]>).

(** [std::unordered_map::operator[]]: an absent key is inserted with the
    value-initialised element, [0] (a null pointer, or no pages). *)
Definition index_default (k : Z) (m : gmap Z Z) : gmap Z Z :=
  match m !! k with Some _ => m | None => <[k := 0]> m end.

Definition get_addr_map (h : Z) : prog server Z :=
  _ ← modify (upd_addr_map (index_default h));
  gets (fun s => default 0 (addr_map s !! h)).

Definition unset_addr_map (h : Z) : prog server unit :=
  modify (upd_addr_map (delete h)).

Definition set_hndl_n_pages (h num_pages : Z) : prog server unit :=
  modify (upd_hndl_n_pages <[h := num_pages]>).

Definition get_hndl_n_pages (h : Z) : prog server Z :=
  _ ← modify (upd_hndl_n_pages (index_default h));
  gets (fun s => default 0 (hndl_n_pages s !! h)).

Definition unset_hndl_n_pages (h : Z) : prog server unit :=
  modify (upd_hndl_n_pages (delete h)).

Definition contains_key (h : Z) : prog server bool :=
  gets (fun s => bool_decide (is_Some (addr_map s !! h))).

(** ** Operations *)
Section operations.
Context {K : OS}.

(** [rmp::Server::alloc]: [npages * page_size] is a [u32] product, widened
    to [ul] only afterwards.  The loop over the pages has an empty body. *)
Definition alloc (npages page_size : Z) : prog server Z :=
  let mem_region_size := u32 (npages * page_size) in
  s ← get;
  match mmap (vm s) mem_region_size with
  | None => mret (-1)
  | Some (remote_mem_region, m') =>
      _ ← modify (set_vm m');
      new_handle ← get_new_handle;
      _ ← set_addr_map new_handle remote_mem_region;
      _ ← set_hndl_n_pages new_handle npages;
      mret new_handle
  end.

(** The address [read] and [write] copy at: the product of the packet's
    page size and the offset is a [u32] product. *)
Definition addr_with_offset (addr : Z) (p : packet) : Z :=
  ul (addr + u32 (size p * offset p)).

(** [rmp::Server::read]: the result and the packet it filled. *)
Definition read (h : Z) (p : packet) : prog server (Z * packet) :=
  npages ← get_hndl_n_pages h;
  addr ← get_addr_map h;
  if npages <=? offset p then mret (-1, p)
  else
    bs ← try_get (fun s => load (vm s) (addr_with_offset addr p) page_len);
    mret (0, set_data bs p).

(** [rmp::Server::write]: the copy goes through when all its bytes are in
    pages of [vm], be they of this region or of another. *)
Definition write (h : Z) (p : packet) : prog server Z :=
  npages ← get_hndl_n_pages h;
  addr ← get_addr_map h;
  if npages <=? offset p then mret (-1)
  else
    _ ← try_put (fun s =>
           m' ← store (vm s) (addr_with_offset addr p) (data p);
           Some (set_vm m' s));
    mret 0.

(** [rmp::Server::free]: the length is the packet's, and the program does not
    survive the loss of one of its own pages. *)
Definition free (h page_size : Z) : prog server Z :=
  known ← contains_key h;
  if (known : bool) then
    npages ← get_hndl_n_pages h;
    if npages =? 0 then mret (-1)
    else
      addr ← get_addr_map h;
      let size := u32 (npages * page_size) in
      s ← get;
      match munmap (vm s) addr size with
      | None => mret (-1)
      | Some m' =>
          _ ← (if touches_program addr size then stuck else modify (set_vm m'));
          _ ← unset_addr_map h;
          _ ← unset_hndl_n_pages h;
          mret 0
      end
  else mret (-1).

(** ** Packet handlers: the packet after the request was served *)
Definition handle_alloc (p : packet) : prog server packet :=
  new_hndl ← alloc (npages p) (size p);
  if new_hndl =? -1 then mret (set_error ALLOC_FAILED p)
  else mret (set_hndl new_hndl p).

Definition handle_read (p : packet) : prog server packet :=
  known ← contains_key (hndl p);
  if negb known then mret (set_error INVALID_HANDLE p)
  else
    '(read_suc, p') ← read (hndl p) p;
    if read_suc =? -1 then mret (set_error READ_FAILED p') else mret p'.

Definition handle_write (p : packet) : prog server packet :=
  known ← contains_key (hndl p);
  if negb known then mret (set_error INVALID_HANDLE p)
  else
    write_suc ← write (hndl p) p;
    if write_suc =? -1 then mret (set_error WRITE_FAILED p) else mret p.

Definition handle_free (p : packet) : prog server packet :=
  known ← contains_key (hndl p);
  if negb known then mret (set_error INVALID_HANDLE p)
  else
    write_suc ← free (hndl p) (size p);
    if write_suc =? -1 then mret (set_error FREE_FAILED p) else mret p.

(** [rmp::Server::handle] *)
Definition handle (p : packet) : prog server packet :=
  match action p with
  | 0 => handle_alloc p
  | 1 => handle_read p
  | 2 => handle_write p
  | 3 => handle_free p
  | _ => mret (set_error UNKNOWN_ACTION p)
  end.

(** Serve a sequence of requests; the replies in order. *)
Fixpoint handle_all (ps : list packet) : prog server (list packet) :=
  match ps with
  | [] => mret []
  | p :: ps => r ← handle p; rs ← handle_all ps; mret (r :: rs)
  end.
End operations.
