(* ===== verification/ServerCorrect.v ===== *)
(** * The server is correct

    The structural invariant of the server's state, the closed form of every
    handler, every outcome a request can have, and the preservation of the
    invariant by whatever packet the server handles. *)

From S2P Require Import Prelude OS Packet Pool Server.

(** ** Structural invariant *)
Record server_inv `{OS} (s : server) : Prop := {
  inv_count : is_u32 (handle_count s);
  inv_dom : dom (addr_map s) = dom (hndl_n_pages s);
  inv_keys h a : addr_map s !! h = Some a -> is_u32 h;
  inv_addr h a :
    addr_map s !! h = Some a ->
    0 < a /\ a mod PAGE_SIZE = 0 /\ a + PAGE_SIZE <= TASK_SIZE;
  inv_npages h n : hndl_n_pages s !! h = Some n -> 0 < n < 2 ^ 32;
  inv_vm : wf_mem (vm s);
  (** what the server maps and writes is never its own *)
  inv_program i : program_page i = true -> vm s !! i = None;
}.

(** ** Accessor lemmas *)
Lemma index_default_id k (m : gmap Z Z) :
  is_Some (m !! k) -> index_default k m = m.
Proof. unfold index_default. by intros [x ->]. Qed.

Lemma upd_hndl_n_pages_id f s :
  f (hndl_n_pages s) = hndl_n_pages s -> upd_hndl_n_pages f s = s.
Proof. destruct s; unfold upd_hndl_n_pages; cbn. by intros ->. Qed.

Lemma upd_addr_map_id f s : f (addr_map s) = addr_map s -> upd_addr_map f s = s.
Proof. destruct s; unfold upd_addr_map; cbn. by intros ->. Qed.

Lemma get_hndl_n_pages_present h n s :
  hndl_n_pages s !! h = Some n -> get_hndl_n_pages h s = Some (n, s).
Proof.
  intros Hn. unfold get_hndl_n_pages. run_unfold.
  rewrite upd_hndl_n_pages_id by (apply index_default_id; eauto).
  by rewrite Hn.
Qed.

Lemma get_addr_map_present h a s :
  addr_map s !! h = Some a -> get_addr_map h s = Some (a, s).
Proof.
  intros Ha. unfold get_addr_map. run_unfold.
  rewrite upd_addr_map_id by (apply index_default_id; eauto).
  by rewrite Ha.
Qed.

(** ** Closed forms of the handlers *)
Section closed_forms.
Context {K : OS}.

Lemma alloc_fail np sz s :
  mmap (vm s) (u32 (np * sz)) = None -> alloc np sz s = Some (-1, s).
Proof. intros E. unfold alloc. run_unfold. by rewrite E. Qed.

(** The state after a successful [alloc]. *)
Definition alloc_state (s : server) (np a : Z) (m' : mem) : server :=
  Server (u32 (handle_count s + 1)) (<[handle_count s := a]> (addr_map s))
    (<[handle_count s := np]> (hndl_n_pages s)) m'.

Lemma alloc_ok np sz s a m' :
  mmap (vm s) (u32 (np * sz)) = Some (a, m') ->
  alloc np sz s = Some (handle_count s, alloc_state s np a m').
Proof. intros E. unfold alloc. run_unfold. by rewrite E. Qed.

Lemma handle_alloc_fail p s :
  mmap (vm s) (u32 (npages p * size p)) = None ->
  handle_alloc p s = Some (set_error ALLOC_FAILED p, s).
Proof.
  intros E. unfold handle_alloc, mbind, prog_bind. by rewrite alloc_fail.
Qed.

Lemma handle_alloc_ok p s a m' :
  0 <= handle_count s ->
  mmap (vm s) (u32 (npages p * size p)) = Some (a, m') ->
  handle_alloc p s =
    Some (set_hndl (handle_count s) p, alloc_state s (npages p) a m').
Proof.
  intros Hc E. unfold handle_alloc, mbind, prog_bind.
  rewrite (alloc_ok _ _ _ _ _ E). by destruct (Z.eqb_spec (handle_count s) (-1)); [lia|].
Qed.

Lemma contains_key_run h s :
  contains_key h s = Some (bool_decide (is_Some (addr_map s !! h)), s).
Proof. done. Qed.

(** An unknown handle: every other handler refuses it and changes nothing. *)
Lemma unknown_handle (body : prog server packet) p s :
  addr_map s !! hndl p = None ->
  (known ← contains_key (hndl p);
   if negb known then mret (set_error INVALID_HANDLE p) else body) s
  = Some (set_error INVALID_HANDLE p, s).
Proof.
  intros E. unfold mbind, prog_bind. rewrite contains_key_run, E.
  by rewrite bool_decide_false by (intros [? ?]; done).
Qed.

Section known_handle.
Context (p : packet) (s : server) (a n : Z).
Context (Ha : addr_map s !! hndl p = Some a).
Context (Hn : hndl_n_pages s !! hndl p = Some n).

Lemma known_handle : contains_key (hndl p) s = Some (true, s).
Proof. rewrite contains_key_run, Ha. by rewrite bool_decide_true by eauto. Qed.

Lemma read_run :
  read (hndl p) p s =
    if n <=? offset p then Some ((-1, p), s)
    else bs ← load (vm s) (addr_with_offset a p) page_len;
         Some ((0, set_data bs p), s).
Proof.
  unfold read. unfold mbind at 1, prog_bind at 1.
  rewrite (get_hndl_n_pages_present _ _ _ Hn).
  unfold mbind at 1, prog_bind at 1. rewrite (get_addr_map_present _ _ _ Ha).
  run_unfold. destruct (n <=? offset p); [done|].
  by destruct (load _ _ _).
Qed.

Lemma write_run :
  write (hndl p) p s =
    if n <=? offset p then Some (-1, s)
    else m' ← store (vm s) (addr_with_offset a p) (data p);
         Some (0, set_vm m' s).
Proof.
  unfold write. unfold mbind at 1, prog_bind at 1.
  rewrite (get_hndl_n_pages_present _ _ _ Hn).
  unfold mbind at 1, prog_bind at 1. rewrite (get_addr_map_present _ _ _ Ha).
  run_unfold. destruct (n <=? offset p); [done|].
  by destruct (store _ _ _).
Qed.

Lemma free_run sz :
  n <> 0 ->
  free (hndl p) sz s =
    match munmap (vm s) a (u32 (n * sz)) with
    | None => Some (-1, s)
    | Some m' =>
        if touches_program a (u32 (n * sz)) then None
        else
        Some (0, Server (handle_count s) (delete (hndl p) (addr_map s))
                   (delete (hndl p) (hndl_n_pages s)) m')
    end.
Proof.
  intros H0. unfold free. unfold mbind at 1, prog_bind at 1.
  rewrite known_handle. cbn match. unfold mbind at 1, prog_bind at 1.
  rewrite (get_hndl_n_pages_present _ _ _ Hn).
  destruct (Z.eqb_spec n 0) as [|_]; [done|].
  unfold mbind at 1, prog_bind at 1. rewrite (get_addr_map_present _ _ _ Ha).
  run_unfold. destruct (munmap _ _ _); [|done]. by destruct (touches_program _ _).
Qed.

Lemma handle_read_known :
  handle_read p s =
    if n <=? offset p then Some (set_error READ_FAILED p, s)
    else bs ← load (vm s) (addr_with_offset a p) page_len;
         Some (set_data bs p, s).
Proof.
  unfold handle_read. unfold mbind at 1, prog_bind at 1.
  rewrite known_handle. cbn [negb]. unfold mbind at 1, prog_bind at 1.
  rewrite read_run. destruct (n <=? offset p); [done|].
  by destruct (load _ _ _).
Qed.

Lemma handle_write_known :
  handle_write p s =
    if n <=? offset p then Some (set_error WRITE_FAILED p, s)
    else m' ← store (vm s) (addr_with_offset a p) (data p);
         Some (p, set_vm m' s).
Proof.
  unfold handle_write. unfold mbind at 1, prog_bind at 1.
  rewrite known_handle. cbn [negb]. unfold mbind at 1, prog_bind at 1.
  rewrite write_run. destruct (n <=? offset p); [done|].
  by destruct (store _ _ _).
Qed.

Lemma handle_free_known :
  n <> 0 ->
  handle_free p s =
    match munmap (vm s) a (u32 (n * size p)) with
    | None => Some (set_error FREE_FAILED p, s)
    | Some m' =>
        if touches_program a (u32 (n * size p)) then None
        else
        Some (p, Server (handle_count s) (delete (hndl p) (addr_map s))
                   (delete (hndl p) (hndl_n_pages s)) m')
    end.
Proof.
  intros H0. unfold handle_free. unfold mbind at 1, prog_bind at 1.
  rewrite known_handle. cbn [negb]. unfold mbind at 1, prog_bind at 1.
  rewrite (free_run _ H0). destruct (munmap _ _ _); [|done].
  by destruct (touches_program _ _).
Qed.
End known_handle.

(** The dispatcher on each action. *)
Lemma handle_by_action p :
  0 <= action p ->
  (action p = 0 /\ handle p = handle_alloc p)
  \/ (action p = 1 /\ handle p = handle_read p)
  \/ (action p = 2 /\ handle p = handle_write p)
  \/ (action p = 3 /\ handle p = handle_free p)
  \/ (3 < action p /\ handle p = mret (set_error UNKNOWN_ACTION p)).
Proof.
  intros Ha. unfold handle.
  destruct (decide (action p = 0)) as [E0|]; [rewrite E0; tauto|].
  destruct (decide (action p = 1)) as [E1|]; [rewrite E1; tauto|].
  destruct (decide (action p = 2)) as [E2|]; [rewrite E2; tauto|].
  destruct (decide (action p = 3)) as [E3|]; [rewrite E3; tauto|].
  do 4 right. split; [lia|].
  destruct (action p) as [|[[|[]|]|[|[]|]|]|]; try done; lia.
Qed.
End closed_forms.

Lemma server_inv_known `{OS} s h a :
  server_inv s -> addr_map s !! h = Some a ->
  exists n, hndl_n_pages s !! h = Some n /\ 0 < n < 2 ^ 32.
Proof.
  intros Hs Ha. apply elem_of_dom_2 in Ha. rewrite (inv_dom s Hs) in Ha.
  apply elem_of_dom in Ha as [n Hn]. exists n. split; [done|].
  by apply (inv_npages s Hs h).
Qed.

Lemma wf_set_error e p : is_u32 e -> wf_packet p -> wf_packet (set_error e p).
Proof. intros He []. by split. Qed.

Lemma wf_set_data d p :
  length d = page_len -> wf_packet p -> wf_packet (set_data d p).
Proof. intros Hd []. by split. Qed.

Lemma wf_set_hndl h p : is_u32 h -> wf_packet p -> wf_packet (set_hndl h p).
Proof. intros Hh []. split; try done. cbn. mlia. Qed.

#[export] Hint Resolve wf_set_error wf_set_data wf_set_hndl : rmp.
(** The error codes are constants. *)
#[export] Hint Extern 1 (is_u32 ?c) => (is_const c; by split) : rmp.
#[export] Hint Extern 1 (is_u32 (handle_count _)) => (eapply inv_count; eassumption) : rmp.
#[export] Hint Extern 1 (wf_mem (vm _)) => (eapply inv_vm; eassumption) : rmp.

(** ** Every outcome of a request *)

(** [outcome s p o]: serving [p] in state [s] gives [o], one constructor per
    branch of the code. *)
Inductive outcome {K : OS} (s : server) (p : packet) :
    option (packet * server) -> Prop :=
  | out_alloc a m' :
      action p = 0 -> mmap (vm s) (u32 (npages p * size p)) = Some (a, m') ->
      outcome s p (Some (set_hndl (handle_count s) p,
                         alloc_state s (npages p) a m'))
  | out_alloc_fail :
      action p = 0 -> mmap (vm s) (u32 (npages p * size p)) = None ->
      outcome s p (Some (set_error ALLOC_FAILED p, s))
  | out_invalid :
      1 <= action p <= 3 -> addr_map s !! hndl p = None ->
      outcome s p (Some (set_error INVALID_HANDLE p, s))
  | out_read a n :
      action p = 1 -> addr_map s !! hndl p = Some a ->
      hndl_n_pages s !! hndl p = Some n -> offset p < n ->
      outcome s p
        (bs ← load (vm s) (addr_with_offset a p) page_len;
         Some (set_data bs p, s))
  | out_read_fail a n :
      action p = 1 -> addr_map s !! hndl p = Some a ->
      hndl_n_pages s !! hndl p = Some n -> n <= offset p ->
      outcome s p (Some (set_error READ_FAILED p, s))
  | out_write a n :
      action p = 2 -> addr_map s !! hndl p = Some a ->
      hndl_n_pages s !! hndl p = Some n -> offset p < n ->
      outcome s p
        (m' ← store (vm s) (addr_with_offset a p) (data p);
         Some (p, set_vm m' s))
  | out_write_fail a n :
      action p = 2 -> addr_map s !! hndl p = Some a ->
      hndl_n_pages s !! hndl p = Some n -> n <= offset p ->
      outcome s p (Some (set_error WRITE_FAILED p, s))
  | out_free a n m' :
      action p = 3 -> addr_map s !! hndl p = Some a ->
      hndl_n_pages s !! hndl p = Some n ->
      munmap (vm s) a (u32 (n * size p)) = Some m' ->
      touches_program a (u32 (n * size p)) = false ->
      outcome s p
        (Some (p, Server (handle_count s) (delete (hndl p) (addr_map s))
                    (delete (hndl p) (hndl_n_pages s)) m'))
  | out_free_program a n m' :
      action p = 3 -> addr_map s !! hndl p = Some a ->
      hndl_n_pages s !! hndl p = Some n ->
      munmap (vm s) a (u32 (n * size p)) = Some m' ->
      touches_program a (u32 (n * size p)) = true ->
      outcome s p None
  | out_free_fail a n :
      action p = 3 -> addr_map s !! hndl p = Some a ->
      hndl_n_pages s !! hndl p = Some n ->
      munmap (vm s) a (u32 (n * size p)) = None ->
      outcome s p (Some (set_error FREE_FAILED p, s))
  | out_unknown :
      3 < action p -> outcome s p (Some (set_error UNKNOWN_ACTION p, s)).

Section invariant.
Context {K : OS} {HK : OSLaws K}.

Lemma handle_outcome s p :
  server_inv s -> wf_packet p -> outcome s p (handle p s).
Proof.
  intros Hs Hp. pose proof (proj1 (wf_action p Hp)) as Ha.
  destruct (handle_by_action p Ha) as
    [[? ->]|[[? ->]|[[? ->]|[[? ->]|[? ->]]]]]; [|..|by constructor].
  { destruct (mmap (vm s) (u32 (npages p * size p))) as [[a m']|] eqn:E.
    - rewrite (handle_alloc_ok _ _ _ _ (proj1 (inv_count s Hs)) E).
      by econstructor.
    - rewrite (handle_alloc_fail _ _ E). by constructor. }
  all: destruct (addr_map s !! hndl p) as [a|] eqn:Ea;
    [destruct (server_inv_known _ _ _ Hs Ea) as (n & En & Hn)
    |unfold handle_read, handle_write, handle_free;
     rewrite unknown_handle by done; constructor; [lia|done]].
  - rewrite (handle_read_known _ _ _ _ Ea En).
    destruct (Z.leb_spec n (offset p)); econstructor; eauto.
  - rewrite (handle_write_known _ _ _ _ Ea En).
    destruct (Z.leb_spec n (offset p)); econstructor; eauto.
  - rewrite (handle_free_known _ _ _ _ Ea En) by lia.
    destruct (munmap _ _ _) eqn:Em; [|by econstructor].
    destruct (touches_program _ _) eqn:Et; by econstructor.
Qed.

(** ** The invariant is preserved *)
Lemma new_server_inv m : wf_mem m -> server_inv (new_server m).
Proof.
  intros Hm. split; cbn; rewrite ?dom_empty_L; try done.
  - by apply user_pages_wf.
  - apply user_pages_program.
Qed.

Lemma alloc_state_inv s np sz a m' :
  server_inv s -> is_u32 np ->
  mmap (vm s) (u32 (np * sz)) = Some (a, m') ->
  server_inv (alloc_state s np a m').
Proof.
  intros Hs Hnp E. pose proof (mmap_len _ _ _ _ E) as Hlen.
  pose proof (mmap_bounds _ _ _ _ E). pose proof (pages_of_pos _ Hlen).
  pose proof (inv_count s Hs) as Hc.
  assert (Hnp0 : np <> 0) by (intros ->; by rewrite Z.mul_0_l in Hlen).
  split; cbn.
  - apply u32_range.
  - rewrite !dom_insert_L. f_equal. by apply inv_dom.
  - intros h x. rewrite lookup_insert. case_decide; [intros; by subst|].
    by apply (inv_keys s Hs).
  - intros h x. rewrite lookup_insert. case_decide.
    + intros [= <-]. split_and!; [lia|by eapply mmap_aligned|mlia].
    + by apply (inv_addr s Hs).
  - intros h x. rewrite lookup_insert. case_decide.
    + intros [= <-]. mlia.
    + by apply (inv_npages s Hs).
  - eapply mmap_wf; eauto with rmp.
  - intros i Hi. rewrite (mmap_pages _ _ _ _ i E). case_decide as Hr.
    + by rewrite (mmap_program _ _ _ _ i E Hr) in Hi.
    + by apply (inv_program s Hs).
Qed.

Lemma free_state_inv s h a len m' :
  server_inv s -> munmap (vm s) a len = Some m' ->
  server_inv (Server (handle_count s) (delete h (addr_map s))
                (delete h (hndl_n_pages s)) m').
Proof.
  intros Hs E. split; cbn.
  - by apply inv_count.
  - rewrite !dom_delete_L. f_equal. by apply inv_dom.
  - intros k x [_ Hx]%lookup_delete_Some. by apply (inv_keys s Hs _ _ Hx).
  - intros k x [_ Hx]%lookup_delete_Some. by apply (inv_addr s Hs _ _ Hx).
  - intros k x [_ Hx]%lookup_delete_Some. by apply (inv_npages s Hs _ _ Hx).
  - by eapply munmap_wf; [|apply inv_vm].
  - intros i Hi. rewrite (munmap_pages _ _ _ _ i E).
    case_decide; [done|by apply (inv_program s Hs)].
Qed.

Lemma set_vm_inv s a bs m' :
  server_inv s -> store (vm s) a bs = Some m' -> server_inv (set_vm m' s).
Proof.
  intros [] E. split; try done; cbn; [by eapply store_wf|].
  intros i Hi. apply not_elem_of_dom. rewrite (store_dom _ _ _ _ E).
  by apply not_elem_of_dom, inv_program0.
Qed.

Lemma handle_outcome_wf s p r s' :
  server_inv s -> wf_packet p -> handle p s = Some (r, s') ->
  server_inv s' /\ wf_packet r.
Proof.
  intros Hs Hp. destruct (handle_outcome s p Hs Hp);
    try (intros [= <- <-]; split; solve [auto with rmp]).
  - intros [= <- <-]. split; [|by auto with rmp].
    by eapply alloc_state_inv; eauto using wf_npages.
  - destruct (load _ _ _) as [bs|] eqn:El; [|done]. intros [= <- <-].
    apply load_length in El. auto with rmp.
  - destruct (store _ _ _) as [m'|] eqn:El; [|done]. intros [= <- <-].
    eauto using set_vm_inv.
  - intros [= <- <-]. eauto using free_state_inv.
Qed.
End invariant.
