(* ===== verification/ServerRefines.v ===== *)
(** * The server refines the page pool

    The simulation between the state of the server and the pool of
    [Pool.v], its preservation by every request of the protocol, and the
    instance of the [PageServer] interface this gives. *)

From S2P Require Import Prelude OS Packet Pool Server ServerCorrect.

(** ** The simulation between the server and the pool *)

(** The pages [pgs] are the contents of memory from address [a] on. *)
Definition region_mapped (m : mem) (a : Z) (pgs : list (list byte)) : Prop :=
  forall i pg, pgs !! i = Some pg -> m !! (a / PAGE_SIZE + Z.of_nat i) = Some pg.

Definition region_len (pgs : list (list byte)) : Z := Z.of_nat (length pgs).

Record simulates `{OS} (s : server) (P : pool) : Prop := {
  sim_inv : server_inv s;
  sim_next : handle_count s = next P;
  sim_below h pgs : regions P !! h = Some pgs -> h < next P;
  sim_addr h pgs :
    regions P !! h = Some pgs -> exists a, addr_map s !! h = Some a;
  sim_known h a :
    addr_map s !! h = Some a -> exists pgs, regions P !! h = Some pgs;
  sim_npages h pgs :
    regions P !! h = Some pgs -> hndl_n_pages s !! h = Some (region_len pgs);
  sim_fits h a pgs :
    addr_map s !! h = Some a -> regions P !! h = Some pgs ->
    region_len pgs * PAGE_SIZE < 2 ^ 32 /\
    a + region_len pgs * PAGE_SIZE <= TASK_SIZE;
  sim_mapped h a pgs :
    addr_map s !! h = Some a -> regions P !! h = Some pgs ->
    region_mapped (vm s) a pgs;
  sim_disjoint h h' a a' pgs pgs' :
    h <> h' -> addr_map s !! h = Some a -> addr_map s !! h' = Some a' ->
    regions P !! h = Some pgs -> regions P !! h' = Some pgs' ->
    a / PAGE_SIZE + region_len pgs <= a' / PAGE_SIZE \/
    a' / PAGE_SIZE + region_len pgs' <= a / PAGE_SIZE;
}.

(** Updating a page of a region keeps its length. *)
Lemma lookup_alter_len (R : gmap Z (list (list byte))) h k i d q :
  alter <[i := d]> h R !! k = Some q ->
  exists q0, R !! k = Some q0 /\ length q = length q0.
Proof.
  rewrite lookup_alter. case_decide; [|by eauto].
  intros (q0 & Hq & ->)%fmap_Some. subst. exists q0. by rewrite length_insert.
Qed.

Section refinement.
Context {K : OS} {HK : OSLaws K}.

(** A region of the pool, as the server stores it. *)
Lemma sim_lookup s P h pgs :
  simulates s P -> regions P !! h = Some pgs ->
  exists a, addr_map s !! h = Some a /\
    hndl_n_pages s !! h = Some (region_len pgs) /\
    a / PAGE_SIZE * PAGE_SIZE = a /\ 0 < a /\
    region_len pgs * PAGE_SIZE < 2 ^ 32 /\
    a + region_len pgs * PAGE_SIZE <= TASK_SIZE /\
    region_mapped (vm s) a pgs.
Proof.
  intros Hs Hr. destruct (sim_addr s P Hs h pgs Hr) as [a Ha]. exists a.
  pose proof (inv_addr s (sim_inv s P Hs) h a Ha) as (? & ? & _).
  pose proof (sim_fits s P Hs h a pgs Ha Hr) as [? ?].
  split_and!; eauto using sim_npages, sim_mapped, aligned_div.
Qed.

(** Inside a region the [u32] and [ul] arithmetic does not wrap. *)
Lemma addr_in_region a n p :
  a / PAGE_SIZE * PAGE_SIZE = a -> 0 < a -> n * PAGE_SIZE < 2 ^ 32 ->
  a + n * PAGE_SIZE <= TASK_SIZE -> size p = PAGE_SIZE -> 0 <= offset p < n ->
  addr_with_offset a p = (a / PAGE_SIZE + offset p) * PAGE_SIZE.
Proof.
  intros Hal H0 Hn Ht Hsz Ho. unfold addr_with_offset. rewrite Hsz.
  unfold TASK_SIZE in Ht. rewrite u32_small, ul_small; mlia.
Qed.

Lemma load_in_region s P h a pgs p d :
  simulates s P -> addr_map s !! h = Some a -> regions P !! h = Some pgs ->
  size p = PAGE_SIZE -> 0 <= offset p -> pgs !! Z.to_nat (offset p) = Some d ->
  load (vm s) (addr_with_offset a p) page_len = Some d.
Proof.
  intros Hs Ha Hr Hsz Ho Hd.
  destruct (sim_lookup _ _ _ _ Hs Hr) as (a' & ? & _ & ? & ? & ? & ? & Hm).
  simplify_eq. pose proof (lookup_lt_Some _ _ _ Hd). unfold region_len in *.
  rewrite (addr_in_region a (Z.of_nat (length pgs))) by (done || lia).
  specialize (Hm _ _ Hd). rewrite Z2Nat.id in Hm by lia.
  apply load_page; [done|]. by apply (inv_vm _ (sim_inv _ _ Hs)) in Hm.
Qed.

Lemma store_in_region s P h a pgs p d :
  simulates s P -> addr_map s !! h = Some a -> regions P !! h = Some pgs ->
  wf_packet p -> size p = PAGE_SIZE ->
  pgs !! Z.to_nat (offset p) = Some d ->
  store (vm s) (addr_with_offset a p) (data p) =
    Some (<[a / PAGE_SIZE + offset p := data p]> (vm s)).
Proof.
  intros Hs Ha Hr Hp Hsz Hd. pose proof (wf_offset p Hp) as [Ho _].
  destruct (sim_lookup _ _ _ _ Hs Hr) as (a' & ? & _ & ? & ? & ? & ? & Hm).
  simplify_eq. pose proof (lookup_lt_Some _ _ _ Hd). unfold region_len in *.
  rewrite (addr_in_region a (Z.of_nat (length pgs))) by (done || lia).
  specialize (Hm _ _ Hd). rewrite Z2Nat.id in Hm by lia.
  apply store_page with d; [done| |by apply wf_data].
  by apply (inv_vm _ (sim_inv _ _ Hs)) in Hm.
Qed.

(** A region and an unmapped range do not overlap. *)
Lemma region_avoids m a pgs lo n :
  region_mapped m a pgs -> 0 < region_len pgs -> 0 < n ->
  (forall i, lo <= i < lo + n -> m !! i = None) ->
  a / PAGE_SIZE + region_len pgs <= lo \/ lo + n <= a / PAGE_SIZE.
Proof.
  intros Hm Hl Hn Hf. unfold region_len in *.
  destruct (decide (a / PAGE_SIZE + Z.of_nat (length pgs) <= lo)) as [|H1];
    [by left|].
  destruct (decide (lo + n <= a / PAGE_SIZE)) as [|H2]; [by right|]. exfalso.
  set (i := Z.max lo (a / PAGE_SIZE)).
  destruct (lookup_lt_is_Some_2 pgs (Z.to_nat (i - a / PAGE_SIZE))) as [pg Hpg];
    [lia|].
  specialize (Hm _ _ Hpg). rewrite Z2Nat.id in Hm by lia.
  replace (a / PAGE_SIZE + (i - a / PAGE_SIZE)) with i in Hm by lia.
  rewrite Hf in Hm by lia. done.
Qed.

Lemma region_mapped_agree m m' a pgs :
  region_mapped m a pgs ->
  (forall i, a / PAGE_SIZE <= i < a / PAGE_SIZE + region_len pgs ->
             m' !! i = m !! i) ->
  region_mapped m' a pgs.
Proof.
  intros Hm He i pg Hi. rewrite He; [by apply Hm|].
  apply lookup_lt_Some in Hi. unfold region_len. lia.
Qed.

Lemma sim_len_pos s P h pgs :
  simulates s P -> regions P !! h = Some pgs -> 0 < region_len pgs.
Proof.
  intros Hs Hr. pose proof (sim_npages s P Hs h pgs Hr) as Hn.
  by apply (inv_npages s (sim_inv s P Hs)) in Hn as [? _].
Qed.

(** The pages of a region are not the program's. *)
Lemma region_not_program s P h a pgs :
  simulates s P -> addr_map s !! h = Some a -> regions P !! h = Some pgs ->
  touches_program a (u32 (region_len pgs * PAGE_SIZE)) = false.
Proof.
  intros Hs Ha Hr. destruct (sim_fits s P Hs h a pgs Ha Hr) as [Hf _].
  pose proof (sim_len_pos s P h pgs Hs Hr).
  apply touches_program_false. intros i Hi.
  rewrite u32_small, pages_of_mult in Hi by mlia.
  destruct (program_page i) eqn:E; [|done].
  apply (inv_program s (sim_inv s P Hs)) in E. unfold region_len in Hi.
  destruct (lookup_lt_is_Some_2 pgs (Z.to_nat (i - a / PAGE_SIZE))) as [pg Hpg]; [lia|].
  apply (sim_mapped s P Hs h a pgs Ha Hr) in Hpg. rewrite Z2Nat.id in Hpg by lia.
  replace (a / PAGE_SIZE + (i - a / PAGE_SIZE)) with i in Hpg by lia. congruence.
Qed.

Section alloc.
Context (s : server) (P : pool) (np a : Z) (m' : mem).
Context (Hs : simulates s P) (Hnp : is_u32 np).
Context (Hfit : np * PAGE_SIZE < 2 ^ 32) (Hnext : next P + 1 < 2 ^ 32).
Context (Em : mmap (vm s) (u32 (np * PAGE_SIZE)) = Some (a, m')).

Lemma alloc_size : u32 (np * PAGE_SIZE) = np * PAGE_SIZE.
Proof. apply u32_small. mlia. Qed.

Lemma alloc_np_pos : 0 < np.
Proof. pose proof (mmap_len _ _ _ _ Em) as H. rewrite alloc_size in H. mlia. Qed.

Lemma alloc_pages i :
  m' !! i = if decide (a / PAGE_SIZE <= i < a / PAGE_SIZE + np)
            then Some zero_page else vm s !! i.
Proof. rewrite (mmap_pages _ _ _ _ i Em), alloc_size, pages_of_mult. done. Qed.

Lemma alloc_fresh i :
  a / PAGE_SIZE <= i < a / PAGE_SIZE + np -> vm s !! i = None.
Proof.
  intros Hi. eapply mmap_fresh; [done|]. by rewrite alloc_size, pages_of_mult.
Qed.

Lemma alloc_avoids h b pgs :
  addr_map s !! h = Some b -> regions P !! h = Some pgs ->
  b / PAGE_SIZE + region_len pgs <= a / PAGE_SIZE \/
  a / PAGE_SIZE + np <= b / PAGE_SIZE.
Proof.
  intros Hb Hr. apply (region_avoids (vm s));
    eauto using sim_mapped, sim_len_pos, alloc_np_pos, alloc_fresh.
Qed.

Lemma alloc_unknown : addr_map s !! next P = None /\ regions P !! next P = None.
Proof.
  assert (Hr : regions P !! next P = None).
  { destruct (regions P !! next P) eqn:E; [|done].
    apply (sim_below s P Hs) in E. lia. }
  split; [|done]. destruct (addr_map s !! next P) eqn:E; [|done].
  apply (sim_known s P Hs) in E as [? ?]. congruence.
Qed.

Lemma sim_alloc :
  simulates (alloc_state s np a m')
    (Pool (next P + 1) (<[next P := fresh_region np]> (regions P))).
Proof.
  pose proof (sim_next s P Hs) as Hc. pose proof alloc_np_pos as Hpos.
  pose proof (inv_count s (sim_inv s P Hs)) as [H0 _].
  assert (Hlen : region_len (fresh_region np) = np)
    by (apply length_fresh_region; lia).
  pose proof (mmap_bounds _ _ _ _ Em) as [_ Hb].
  rewrite alloc_size, pages_of_mult in Hb.
  split; cbn; rewrite ?Hc.
  - eapply alloc_state_inv; eauto using sim_inv.
  - apply u32_small. mlia.
  - intros h pgs. rewrite lookup_insert. case_decide; [lia|].
    intros Hr%(sim_below s P Hs). lia.
  - intros h pgs. rewrite !lookup_insert. case_decide; eauto using sim_addr.
  - intros h b. rewrite !lookup_insert. case_decide; eauto using sim_known.
  - intros h pgs. rewrite !lookup_insert. case_decide.
    + intros [= <-]. by rewrite Hlen.
    + by apply (sim_npages s P Hs).
  - intros h b pgs. rewrite !lookup_insert. case_decide.
    + intros [= <-] [= <-]. by rewrite Hlen.
    + by apply (sim_fits s P Hs).
  - intros h b pgs. rewrite !lookup_insert. case_decide.
    + intros [= <-] [= <-] i pg Hi. rewrite alloc_pages.
      apply lookup_replicate in Hi as [-> Hi]. rewrite decide_True by lia. done.
    + intros Hb' Hr. eapply region_mapped_agree; [by eapply sim_mapped|].
      intros i Hi. rewrite alloc_pages, decide_False; [done|].
      destruct (alloc_avoids _ _ _ Hb' Hr); lia.
  - intros h h' b b' pgs pgs' Hne. rewrite !lookup_insert.
    repeat case_decide; try lia.
    + intros [= <-] Hb' [= <-] Hr'. rewrite Hlen.
      destruct (alloc_avoids _ _ _ Hb' Hr'); lia.
    + intros Hb' [= <-] Hr' [= <-]. rewrite Hlen.
      destruct (alloc_avoids _ _ _ Hb' Hr'); lia.
    + by apply (sim_disjoint s P Hs).
Qed.
End alloc.

Section write.
Context (s : server) (P : pool) (p : packet) (a : Z) (d : list byte).
Context (pgs : list (list byte)) (Hs : simulates s P) (Hp : wf_packet p).
Context (Ha : addr_map s !! hndl p = Some a).
Context (Hr : regions P !! hndl p = Some pgs).
Context (Hd : pgs !! Z.to_nat (offset p) = Some d).

Lemma write_offset : 0 <= offset p < region_len pgs.
Proof.
  pose proof (wf_offset p Hp). apply lookup_lt_Some in Hd.
  unfold region_len. mlia.
Qed.

Lemma sim_write :
  simulates
    (set_vm (<[a / PAGE_SIZE + offset p := data p]> (vm s)) s)
    (pool_write (hndl p) (offset p) (data p) P).
Proof.
  pose proof write_offset as Ho. split; cbn.
  - destruct (sim_inv s P Hs) as [? ? ? ? ? Hvm Hprog]. split; try done; cbn.
    + apply map_Forall_insert_2; [by apply wf_data|done].
    + intros i Hi. apply Hprog in Hi as Hn. rewrite lookup_insert_ne; [done|].
      intros <-. apply (sim_mapped s P Hs _ _ _ Ha Hr) in Hd.
      rewrite Z2Nat.id in Hd by lia. congruence.
  - by apply (sim_next s P Hs).
  - intros h q. rewrite lookup_alter. case_decide.
    + intros (q' & Hq & _)%fmap_Some. subst. by apply (sim_below s P Hs) in Hq.
    + by apply (sim_below s P Hs).
  - intros h q. rewrite lookup_alter. case_decide.
    + intros _. subst. eauto.
    + by apply (sim_addr s P Hs).
  - intros h b. rewrite lookup_alter. intros Hb.
    apply (sim_known s P Hs) in Hb as [q Hq].
    case_decide; subst; rewrite Hq; cbn; eauto.
  - intros h q. rewrite lookup_alter. case_decide; [|by apply (sim_npages s P Hs)].
    intros (q' & Hq & ->)%fmap_Some. subst. unfold region_len.
    rewrite length_insert. by apply (sim_npages s P Hs).
  - intros h b q Hb. rewrite lookup_alter.
    case_decide; [|by apply (sim_fits s P Hs)].
    intros (q' & Hq & ->)%fmap_Some. subst. unfold region_len.
    rewrite length_insert. by apply (sim_fits s P Hs (hndl p)).
  - intros h b q Hb. rewrite lookup_alter. case_decide as Hh.
    + rewrite <- Hh, Hr in *. simplify_eq. cbn. intros [= <-] i pg.
      rewrite list_lookup_insert. case_decide as Hi.
      * destruct Hi as [<- Hi]. intros [= <-]. rewrite Z2Nat.id by lia.
        apply lookup_insert_eq.
      * intros Hpg. rewrite lookup_insert_ne.
        -- eapply (sim_mapped s P Hs (hndl p)); eauto.
        -- apply lookup_lt_Some in Hpg. unfold region_len in Ho.
           intros Heq. apply Hi. lia.
    + intros Hq. eapply region_mapped_agree; [by eapply sim_mapped|].
      intros i Hi. apply lookup_insert_ne.
      destruct (sim_disjoint s P Hs _ _ _ _ _ _ Hh Ha Hb Hr Hq); lia.
  - intros h h' b b' q q' Hne Hb Hb'.
    intros (q0 & Hq & Hl)%lookup_alter_len (q0' & Hq' & Hl')%lookup_alter_len.
    unfold region_len. rewrite Hl, Hl'. by eapply (sim_disjoint s P Hs h h').
Qed.
End write.

Section free.
Context (s : server) (P : pool) (h a : Z) (m' : mem).
Context (pgs : list (list byte)) (Hs : simulates s P).
Context (Ha : addr_map s !! h = Some a) (Hr : regions P !! h = Some pgs).
Context (Em : munmap (vm s) a (u32 (region_len pgs * PAGE_SIZE)) = Some m').

Lemma free_pages i :
  m' !! i = if decide (a / PAGE_SIZE <= i < a / PAGE_SIZE + region_len pgs)
            then None else vm s !! i.
Proof.
  pose proof (sim_len_pos s P h pgs Hs Hr).
  destruct (sim_fits s P Hs h a pgs Ha Hr) as [Hf _].
  rewrite (munmap_pages _ _ _ _ i Em), u32_small by mlia.
  by rewrite pages_of_mult.
Qed.

Lemma sim_free :
  simulates
    (Server (handle_count s) (delete h (addr_map s))
       (delete h (hndl_n_pages s)) m')
    (Pool (next P) (delete h (regions P))).
Proof.
  split; cbn.
  - eapply free_state_inv; eauto using sim_inv.
  - by apply (sim_next s P Hs).
  - intros k q [_ Hq]%lookup_delete_Some. by apply (sim_below s P Hs _ _ Hq).
  - intros k q [Hk Hq]%lookup_delete_Some. rewrite lookup_delete_ne by done.
    by apply (sim_addr s P Hs _ _ Hq).
  - intros k b [Hk Hb]%lookup_delete_Some. rewrite lookup_delete_ne by done.
    by apply (sim_known s P Hs _ _ Hb).
  - intros k q [Hk Hq]%lookup_delete_Some. rewrite lookup_delete_ne by done.
    by apply (sim_npages s P Hs _ _ Hq).
  - intros k b q [_ Hb]%lookup_delete_Some [_ Hq]%lookup_delete_Some.
    by apply (sim_fits s P Hs _ _ _ Hb Hq).
  - intros k b q [Hk Hb]%lookup_delete_Some [_ Hq]%lookup_delete_Some.
    eapply region_mapped_agree; [by eapply sim_mapped|].
    intros i Hi. rewrite free_pages, decide_False; [done|].
    destruct (sim_disjoint s P Hs _ _ _ _ _ _ Hk Ha Hb Hr Hq); lia.
  - intros k k' b b' q q' Hne [_ Hb]%lookup_delete_Some
      [_ Hb']%lookup_delete_Some [_ Hq]%lookup_delete_Some
      [_ Hq']%lookup_delete_Some.
    by apply (sim_disjoint s P Hs k k').
Qed.
End free.

Lemma sim_empty m : wf_mem m -> simulates (new_server m) empty_pool.
Proof.
  intros Hm. by split; [by apply new_server_inv|..].
Qed.

(** ** Refinement *)
Theorem handle_step s P p :
  simulates s P -> honest P p ->
  exists r s' P',
    handle p s = Some (r, s') /\ pool_step P p P' r /\ simulates s' P'.
Proof.
  intros Hs [[Hp Hsz Hal] Hnx]. pose proof (wf_offset p Hp) as [Ho _].
  destruct (handle_outcome s p (sim_inv s P Hs) Hp)
    as [a m' Hact Em|Hact _|Hact Ha|a n Hact Ha Hn Hlt|a n Hact Ha Hn Hge
       |a n Hact Ha Hn Hlt|a n Hact Ha Hn Hge|a n m' Hact Ha Hn Em _
       |a n m' Hact Ha Hn Em Ht|a n Hact Ha Hn Em|Hact].
  { rewrite Hsz in Em. rewrite (sim_next s P Hs). do 3 eexists.
    split_and!; [done|apply alloc_step; [done|]|].
    - eapply (alloc_np_pos _ _ _ _ (wf_npages p Hp)); eauto.
    - eapply sim_alloc; eauto using wf_npages. }
  { do 3 eexists. split_and!; [done|by apply alloc_fail_step|done]. }
  { do 3 eexists. split_and!; [done|apply invalid_handle_step|done]; [lia|].
    destruct (regions P !! hndl p) as [pgs|] eqn:Hr; [|done].
    destruct (sim_addr s P Hs _ _ Hr). congruence. }
  all: try (do 3 eexists; split_and!;
            [done|by apply unknown_action_step|done]).
  all: destruct (sim_known s P Hs _ _ Ha) as [pgs Hr];
    pose proof (sim_npages s P Hs _ _ Hr); simplify_eq; unfold region_len in *.
  all: try (destruct (lookup_lt_is_Some_2 pgs (Z.to_nat (offset p))) as [d Hd];
            [lia|]).
  - rewrite (load_in_region s P _ a pgs p d) by done.
    do 3 eexists. split_and!; [done|apply read_step; [done|]|done].
    unfold pool_page. by rewrite Hr.
  - do 3 eexists. split_and!; [done|by eapply read_fail_step|done].
  - rewrite (store_in_region s P _ a pgs p d) by done.
    do 3 eexists. split_and!; [done|eapply write_step; [done|]|].
    + unfold pool_page. by rewrite Hr.
    + by eapply sim_write.
  - do 3 eexists. split_and!; [done|by eapply write_fail_step|done].
  - rewrite Hsz in Em. do 3 eexists.
    split_and!; [done|by eapply free_step|by eapply sim_free].
  - rewrite Hsz in Ht.
    pose proof (region_not_program s P _ a pgs Hs Ha Hr) as Hf.
    unfold region_len in Hf. congruence.
  - do 3 eexists. split_and!; [done|by eapply free_fail_step|done].
Qed.

#[export] Instance server_page_server : PageServer server := {
  rpc := handle;
  holds := simulates;
  rpc_step := handle_step;
}.

Lemma handle_all_steps ps s P :
  simulates s P -> Forall request_ok ps ->
  next P + Z.of_nat (length ps) < 2 ^ 32 ->
  exists rs s' P',
    handle_all ps s = Some (rs, s') /\ pool_steps P ps P' rs /\
    simulates s' P'.
Proof.
  revert s P. induction ps as [|p ps IH]; intros s P Hs Hok Hn.
  { exists [], s, P. split_and!; [done|constructor|done]. }
  apply Forall_cons in Hok as [Hp Hps]. cbn [length] in Hn.
  destruct (handle_step s P p Hs) as (r & s1 & P1 & E1 & H1 & Hs1);
    [split; [done|lia]|].
  pose proof (pool_step_next _ _ _ _ H1).
  destruct (IH s1 P1 Hs1 Hps) as (rs & s2 & P2 & E2 & H2 & Hs2); [lia|].
  exists (r :: rs), s2, P2. split_and!; [|by econstructor|done].
  cbn [handle_all]. unfold mbind, prog_bind. by rewrite E1, E2.
Qed.
End refinement.
