(* ===== verification/ServerProps.v ===== *)
(** * What the server does for its clients

    The properties of the request server, from the refinement and the closed
    forms of the handlers: the trace refinement, pages read back what was
    written to them whatever the other requests do, fresh regions are zero
    and have new handles, freed handles are dead, failed requests change
    nothing; and what the [u32] products and the [operator[]] lookups do
    outside the protocol. *)

From S2P Require Import Prelude OS Packet Pool Server ServerCorrect ServerRefines.

(** The last reply of a run. *)
Definition last_reply (o : option (list packet * server)) : option packet :=
  '(rs, _) ← o; last rs.

(** The errors a reply to action [a] may carry. *)
Definition may_fail_with (a e : Z) : bool :=
  match a with
  | 0 => e =? ALLOC_FAILED
  | 1 => (e =? READ_FAILED) || (e =? INVALID_HANDLE)
  | 2 => (e =? WRITE_FAILED) || (e =? INVALID_HANDLE)
  | 3 => (e =? FREE_FAILED) || (e =? INVALID_HANDLE)
  | _ => e =? UNKNOWN_ACTION
  end.

Lemma handle_all_app {K : OS} ps qs s :
  handle_all (ps ++ qs) s =
    match handle_all ps s with
    | None => None
    | Some (rs, s') =>
        match handle_all qs s' with
        | None => None
        | Some (rs', s'') => Some (rs ++ rs', s'')
        end
    end.
Proof.
  revert s. induction ps as [|p ps IH]; intros s; cbn [handle_all app].
  { run_unfold. by destruct (handle_all qs s) as [[? ?]|]. }
  unfold mbind, prog_bind. destruct (handle p s) as [[r s1]|]; [|done].
  rewrite IH. destruct (handle_all ps s1) as [[rs s2]|]; [|done]. run_unfold.
  by destruct (handle_all qs s2) as [[? ?]|].
Qed.

Section props.
Context {K : OS} {HK : OSLaws K}.

Lemma sim_pool_wf s P : simulates s P -> pool_wf P.
Proof. exact (sim_below s P). Qed.

(** A run that ends with one more request. *)
Lemma handle_all_snoc ps q s rs s' r s'' :
  handle_all ps s = Some (rs, s') -> handle q s' = Some (r, s'') ->
  handle_all (ps ++ [q]) s = Some (rs ++ [r], s'').
Proof.
  intros E1 E2. rewrite handle_all_app, E1. cbn [handle_all].
  unfold mbind, prog_bind. by rewrite E2.
Qed.

(** Reading a page the pool has. *)
Lemma handle_read_page s P p d :
  simulates s P -> honest P p -> action p = 1 ->
  pool_page P (hndl p) (offset p) = Some d ->
  exists s', handle p s = Some (set_data d p, s') /\ simulates s' P.
Proof.
  intros Hs Hp Ha Hd. destruct (handle_step s P p Hs Hp) as (r & s' & P' & E & H & Hs').
  pose proof (wf_offset p (ok_wf p (proj1 Hp))) as [Ho _].
  destruct (pool_step_read _ _ _ _ _ H Ha Hd Ho) as [-> ->]. eauto.
Qed.

Lemma handle_write_page s P p d :
  simulates s P -> honest P p -> action p = 2 ->
  pool_page P (hndl p) (offset p) = Some d ->
  exists s', handle p s = Some (p, s') /\
             simulates s' (pool_write (hndl p) (offset p) (data p) P).
Proof.
  intros Hs Hp Ha Hd. destruct (handle_step s P p Hs Hp) as (r & s' & P' & E & H & Hs').
  pose proof (wf_offset p (ok_wf p (proj1 Hp))) as [Ho _].
  destruct (pool_step_write _ _ _ _ _ H Ha Hd Ho) as [-> ->]. eauto.
Qed.

(** C3.  The server refines the page pool: a server started on any process
    memory answers every sequence of protocol requests without a fault, and
    its replies are a behaviour of the pool. *)
Theorem server_refines_pool m ps :
  wf_mem m -> Forall request_ok ps -> Z.of_nat (length ps) < 2 ^ 32 ->
  exists rs s' P',
    handle_all ps (new_server m) = Some (rs, s') /\
    pool_steps empty_pool ps P' rs /\ simulates s' P'.
Proof.
  intros Hm Hok Hn. apply handle_all_steps; [by apply sim_empty|done|done].
Qed.

(** C6.  Read after write: a page written through the server is what a later
    read of that page returns, whatever protocol requests (other writes,
    reads, allocations, frees of other regions) are served in between. *)
Theorem write_then_read s P w ps rd d :
  simulates s P -> Forall request_ok (w :: ps ++ [rd]) ->
  next P + Z.of_nat (length (w :: ps ++ [rd])) < 2 ^ 32 ->
  action w = 2 -> pool_page P (hndl w) (offset w) = Some d ->
  Forall (leaves (hndl w) (offset w)) ps ->
  action rd = 1 -> hndl rd = hndl w -> offset rd = offset w ->
  last_reply (handle_all (w :: ps ++ [rd]) s) = Some (set_data (data w) rd).
Proof.
  intros Hs Hok Hn Hw Hd Hl Hr Hh Ho. cbn [length] in Hn.
  rewrite length_app in Hn. cbn [length] in Hn.
  apply Forall_cons in Hok as [Hokw [Hokps [Hokr _]%Forall_cons]%Forall_app].
  destruct (handle_write_page s P w d) as (s1 & E1 & Hs1); [done|split;[done|lia]|done..|].
  destruct (handle_all_steps ps s1 _ Hs1 Hokps) as (rs & s2 & P2 & E2 & H2 & Hs2);
    [cbn; lia|].
  assert (Hp2 : pool_page P2 (hndl rd) (offset rd) = Some (data w)).
  { rewrite Hh, Ho. eapply pool_steps_leaves; eauto using sim_pool_wf.
    - by apply wf_offset, ok_wf.
    - by eapply pool_page_write_eq. }
  assert (Hnx : next P2 <= next P + Z.of_nat (length ps)).
  { pose proof (pool_steps_next _ _ _ _ H2). cbn in *. lia. }
  destruct (handle_read_page s2 P2 rd (data w)) as (s3 & E3 & _); [done|split;[done|lia]|done..|].
  cbn [handle_all]. unfold mbind, prog_bind. rewrite E1.
  rewrite (handle_all_snoc _ _ _ _ _ _ _ E2 E3). unfold last_reply. cbn.
  rewrite app_comm_cons. by rewrite last_snoc.
Qed.

(** Serving an allocation the kernel grants. *)
Lemma handle_alloc_granted s p a m' :
  server_inv s -> action p = 0 ->
  mmap (vm s) (u32 (npages p * size p)) = Some (a, m') ->
  handle p s =
    Some (set_hndl (handle_count s) p, alloc_state s (npages p) a m').
Proof.
  intros Hs Ha Em. unfold handle. rewrite Ha.
  apply handle_alloc_ok; [by apply inv_count|done].
Qed.

(** C14.  An allocation the kernel grants is answered with a handle no live
    region has, and every page of the new region reads as zeros. *)
Theorem alloc_fresh_zero s P p rd am :
  simulates s P -> honest P p -> action p = 0 ->
  mmap (vm s) (u32 (npages p * size p)) = Some am ->
  honest P rd -> next P + 2 < 2 ^ 32 -> action rd = 1 ->
  hndl rd = handle_count s -> offset rd < npages p ->
  addr_map s !! handle_count s = None /\
  exists s', handle_all [p; rd] s =
    Some ([set_hndl (handle_count s) p; set_data zero_page rd], s').
Proof.
  destruct am as [a m']. intros Hs [Hp Hnx] Ha Em [Hrd _] Hn Har Hh Ho.
  pose proof (wf_npages p (ok_wf p Hp)) as Hnp. pose proof (ok_size p Hp) as Hsz.
  pose proof (ok_alloc p Hp Ha) as Hfit. rewrite (sim_next s P Hs) in *.
  split; [by apply (alloc_unknown s P Hs)|].
  pose proof (handle_alloc_granted s p a m' (sim_inv s P Hs) Ha Em) as E1.
  rewrite Hsz in Em. pose proof (sim_alloc s P _ a m' Hs Hnp Hfit Hnx Em) as Hs1.
  edestruct (handle_read_page _ _ rd zero_page Hs1) as (s2 & E2 & _);
    [split; [done|cbn; lia]|done| |].
  { pose proof (wf_offset rd (ok_wf rd Hrd)) as [? _].
    unfold pool_page. cbn. rewrite Hh, lookup_insert_eq. cbn.
    apply fresh_region_page. lia. }
  exists s2. cbn [handle_all]. unfold mbind, prog_bind.
  by rewrite E1, E2, (sim_next s P Hs).
Qed.

(** Any request of actions 1 to 3 on a handle the server does not know. *)
Lemma handle_unknown_handle s p :
  1 <= action p <= 3 -> addr_map s !! hndl p = None ->
  handle p s = Some (set_error INVALID_HANDLE p, s).
Proof.
  intros Ha Hk. destruct (handle_by_action p ltac:(lia)) as
    [[? _]|[[? ->]|[[? ->]|[[? ->]|[? _]]]]]; try lia;
    unfold handle_read, handle_write, handle_free; by apply unknown_handle.
Qed.

(** C15.  After a free the kernel grants, the handle is dead: reads, writes
    and further frees of it are refused as invalid, and every page of the
    region is unmapped. *)
Theorem free_invalidates s P p m' pgs :
  simulates s P -> honest P p -> action p = 3 ->
  regions P !! hndl p = Some pgs ->
  munmap (vm s) (default 0 (addr_map s !! hndl p))
    (u32 (region_len pgs * size p)) = Some m' ->
  exists s', handle p s = Some (p, s') /\
    (forall i, 0 <= i < region_len pgs ->
       vm s' !! (default 0 (addr_map s !! hndl p) / PAGE_SIZE + i) = None) /\
    (forall q, 1 <= action q <= 3 -> hndl q = hndl p ->
       handle q s' = Some (set_error INVALID_HANDLE q, s')).
Proof.
  intros Hs [Hp _] Ha Hr Em.
  destruct (sim_lookup s P _ _ Hs Hr) as (a & Haddr & Hn & _).
  rewrite Haddr in Em. cbn in Em. rewrite Haddr. cbn.
  pose proof (sim_len_pos s P _ _ Hs Hr).
  eexists. split_and!.
  - unfold handle. rewrite Ha.
    rewrite (handle_free_known _ _ _ _ Haddr Hn), Em by lia.
    by rewrite (ok_size p Hp), (region_not_program s P (hndl p) a pgs).
  - intros i Hi. cbn [vm]. rewrite (ok_size p Hp) in Em.
    rewrite (free_pages s P (hndl p) a m' pgs) by done.
    by rewrite decide_True by lia.
  - intros q Hq Hh. apply handle_unknown_handle; [done|]. cbn [addr_map].
    rewrite Hh. apply lookup_delete_eq.
Qed.

(** C16.  Whatever the packet holds, a request that is refused changes
    nothing: the server state is untouched and the reply is the request with
    an error code of its action.  A request that is served keeps the error
    field it came with. *)
Theorem refused_requests_change_nothing s p r s' :
  server_inv s -> wf_packet p -> handle p s = Some (r, s') ->
  error r = error p \/
  (s' = s /\ exists e, may_fail_with (action p) e = true /\ r = set_error e p).
Proof.
  intros Hs Hp. pose proof (wf_action p Hp) as [Ha0 _].
  destruct (handle_outcome s p Hs Hp) as
    [? ? Ha|Ha|[? ?]|? ? Ha|? ? Ha|? ? Ha|? ? Ha|? ? ? Ha|? ? ? Ha|? ? Ha|Ha];
    try done.
  all: try (intros [= <- <-]; by left).
  all: try (intros [= <- <-]; right; split; [done|]; eexists; split; [|done];
            rewrite Ha; reflexivity).
  - intros [= <- <-]. right. split; [done|]. eexists. split; [|done].
    assert (action p = 1 \/ action p = 2 \/ action p = 3)
      as [->|[->| ->]] by lia; reflexivity.
  - destruct (load _ _ _); [|done]. intros [= <- <-]. by left.
  - destruct (store _ _ _); [|done]. intros [= <- <-]. by left.
  - intros [= <- <-]. right. split; [done|]. eexists. split; [|done].
    destruct (action p) as [|[[|[]|]|[|[]|]|]|]; done || lia.
Qed.

(** C32.  The page size of a packet is the client's and is never checked: for
    a region of two pages or more and any page of another region less than
    4 GB above it, a read of page 1 whose page size is the distance returns the
    other region's page, and a write of page 1 overwrites it. *)
Theorem foreign_page_size_reaches_other_regions s P p a pgs h' a' pgs' j d :
  simulates s P -> wf_packet p ->
  addr_map s !! hndl p = Some a -> regions P !! hndl p = Some pgs ->
  1 < region_len pgs -> offset p = 1 ->
  addr_map s !! h' = Some a' -> regions P !! h' = Some pgs' ->
  pgs' !! j = Some d ->
  size p = a' + Z.of_nat j * PAGE_SIZE - a ->
  (action p = 1 -> handle p s = Some (set_data d p, s)) /\
  (action p = 2 -> exists s', handle p s = Some (p, s') /\
     simulates s' (pool_write h' (Z.of_nat j) (data p) P)).
Proof.
  intros Hs Hp Ha Hr Hl Ho Ha' Hr' Hd Hsz.
  pose proof (sim_npages s P Hs _ _ Hr) as Hn.
  destruct (sim_lookup s P _ _ Hs Hr) as (a0 & ? & _ & Hal & H0 & _).
  destruct (sim_lookup s P _ _ Hs Hr') as (a1 & ? & _ & Hal' & H0' & Hf' & Ht' & Hm').
  simplify_eq. specialize (Hm' _ _ Hd) as Hpg.
  pose proof (lookup_lt_Some _ _ _ Hd) as Hj. unfold region_len in Hf', Ht'.
  assert (Ea : addr_with_offset a p = (a' / PAGE_SIZE + Z.of_nat j) * PAGE_SIZE).
  { unfold addr_with_offset. pose proof (wf_size p Hp) as Hw. unfold TASK_SIZE in Ht'.
    rewrite Ho, Z.mul_1_r, u32_small, Hsz, ul_small; mlia. }
  unfold handle. split; intros ->.
  - rewrite (handle_read_known _ _ _ _ Ha Hn), Ea.
    destruct (Z.leb_spec (region_len pgs) (offset p)); [lia|].
    rewrite (load_page _ _ d); [done|done|].
    by apply (inv_vm s (sim_inv s P Hs)) in Hpg.
  - rewrite (handle_write_known _ _ _ _ Ha Hn), Ea.
    destruct (Z.leb_spec (region_len pgs) (offset p)); [lia|].
    rewrite (store_page _ _ d) by
      (done || by apply wf_data || by apply (inv_vm s (sim_inv s P Hs)) in Hpg).
    eexists. split; [done|].
    apply (sim_write s P (request 2 h' 0 (Z.of_nat j) (data p)) a' d pgs');
      [done| |done|done|cbn; by rewrite Nat2Z.id].
    apply ok_wf, request_ok_intro; try done; try (by apply wf_data); try mlia.
    + cbn. by apply (inv_keys s (sim_inv s P Hs) h' a').
Qed.

(** The byte length of an allocation wraps: its last pages lie outside the
    mapping. *)
Lemma wrapped_page s np a m' k :
  mmap (vm s) (u32 (np * PAGE_SIZE)) = Some (a, m') ->
  u32 (np * PAGE_SIZE) <= k * PAGE_SIZE ->
  m' !! (a / PAGE_SIZE + k) = vm s !! (a / PAGE_SIZE + k).
Proof.
  intros Em Hk. rewrite (mmap_pages _ _ _ _ _ Em), decide_False; [done|].
  unfold pages_of.
  assert ((u32 (np * PAGE_SIZE) + (PAGE_SIZE - 1)) / PAGE_SIZE < k + 1); [|lia].
  apply Z.div_lt_upper_bound; mlia.
Qed.

(** C33.  Overflow of the byte length in [alloc]: when [npages * PAGE_SIZE]
    exceeds a [u32], the server maps only the wrapped length but records all
    [npages] pages.  A read of a page [k] past the wrapped length passes the
    offset check and copies whatever other page was mapped there before the
    allocation; if there was none it has no result (a crash, or bytes of the
    program's own). *)
Theorem alloc_overflow_reads_outside s p rd a m' k :
  server_inv s -> wf_packet p -> action p = 0 -> size p = PAGE_SIZE ->
  mmap (vm s) (u32 (npages p * PAGE_SIZE)) = Some (a, m') ->
  u32 (npages p * PAGE_SIZE) <= k * PAGE_SIZE -> k < npages p ->
  0 <= k * PAGE_SIZE < 2 ^ 32 ->
  action rd = 1 -> hndl rd = handle_count s -> size rd = PAGE_SIZE ->
  offset rd = k ->
  exists s', handle p s = Some (set_hndl (handle_count s) p, s') /\
    handle rd s' = match vm s !! (a / PAGE_SIZE + k) with
                   | Some pg => Some (set_data pg rd, s')
                   | None => None
                   end.
Proof.
  intros Hs Hp Ha Hsz Em Hwrap Hk Hfit Har Hh Hszr Ho.
  pose proof (mmap_bounds _ _ _ _ Em) as [H0 Ht].
  pose proof (aligned_div a (mmap_aligned _ _ _ _ Em)) as Hal.
  pose proof (wrapped_page _ _ _ _ k Em Hwrap) as Hpg.
  pose proof (pages_of_pos _ (mmap_len _ _ _ _ Em)).
  rewrite <- Hsz in Em. eexists. split; [by apply handle_alloc_granted|].
  unfold handle. rewrite Har.
  rewrite (handle_read_known rd _ a (npages p))
    by (cbn; rewrite Hh; apply lookup_insert_eq).
  destruct (Z.leb_spec (npages p) (offset rd)); [lia|]. cbn [alloc_state vm].
  replace (addr_with_offset a rd) with ((a / PAGE_SIZE + k) * PAGE_SIZE).
  2: { unfold addr_with_offset. rewrite Hszr, Ho, (Z.mul_comm PAGE_SIZE k).
       unfold TASK_SIZE in Ht. rewrite u32_small, ul_small; mlia. }
  rewrite <- Hpg. destruct (m' !! (a / PAGE_SIZE + k)) as [pg|] eqn:E.
  - rewrite (load_page _ _ pg); [done|done|].
    eapply (mmap_wf _ _ _ _ Em (inv_vm s Hs)), E.
  - pose proof page_len_pos.
    rewrite <- (Z.add_0_r (_ * PAGE_SIZE)).
    by rewrite load_unmapped by (done || mlia).
Qed.

(** [Server::read] called on a handle the server does not know fails,
    but its [operator[]] lookups insert the handle: afterwards the server
    claims to know it (with a null address and no pages), reads of it fail
    as [READ_FAILED] instead of [INVALID_HANDLE], and it can never be freed. *)
Theorem raw_read_of_unknown_handle_registers_it s h p :
  addr_map s !! h = None -> hndl_n_pages s !! h = None -> 0 <= offset p ->
  exists s', read h p s = Some ((-1, p), s') /\
    contains_key h s' = Some (true, s') /\
    (forall q, action q = 1 -> hndl q = h -> 0 <= offset q ->
       handle q s' = Some (set_error READ_FAILED q, s')) /\
    (forall q, action q = 3 -> hndl q = h ->
       handle q s' = Some (set_error FREE_FAILED q, s')).
Proof.
  intros Ha Hn Hp.
  set (s' := Server (handle_count s) (<[h := 0]> (addr_map s))
               (<[h := 0]> (hndl_n_pages s)) (vm s)).
  assert (Ha' : addr_map s' !! h = Some 0) by apply lookup_insert_eq.
  assert (Hn' : hndl_n_pages s' !! h = Some 0) by apply lookup_insert_eq.
  exists s'. split_and!.
  - unfold read, get_hndl_n_pages, get_addr_map, index_default. run_unfold.
    unfold upd_hndl_n_pages, upd_addr_map. cbn. rewrite Ha, Hn. cbn.
    rewrite !lookup_insert_eq. cbn. by destruct (Z.leb_spec 0 (offset p)); [|lia].
  - rewrite contains_key_run, Ha'. by rewrite bool_decide_true by eauto.
  - intros q Hq <- Ho. unfold handle. rewrite Hq, (handle_read_known _ _ _ _ Ha' Hn').
    by destruct (Z.leb_spec 0 (offset q)); [|lia].
  - intros q Hq <-. unfold handle. rewrite Hq. unfold handle_free, free.
    unfold mbind, prog_bind. rewrite (known_handle _ _ _ Ha'). cbn [negb].
    rewrite (known_handle _ _ _ Ha'). by rewrite (get_hndl_n_pages_present _ _ _ Hn').
Qed.
End props.

(** ** Witnesses: a server with one region of two pages *)
Definition demo_state : server :=
  alloc_state (new_server ∅) 2 65536 (map_pages 16 2 ∅).

Definition demo_pool : pool := Pool 1 {[0 := fresh_region 2]}.

Definition ones : list byte := replicate page_len x01.

Lemma length_ones : length ones = page_len.
Proof. apply length_replicate. Qed.

Lemma demo_sim : simulates demo_state demo_pool.
Proof.
  apply (sim_alloc (new_server ∅) empty_pool 2 65536 (map_pages 16 2 ∅));
    [apply sim_empty; apply map_Forall_empty|done..].
Qed.

(** Concrete protocol requests. *)
Ltac request_ok :=
  apply request_ok_intro;
  [done|done|lia|done|first [apply length_zero_page | apply length_ones]].

Lemma server_refines_pool_witness :
  exists rs s' P',
    handle_all [request 0 0 2 0 zero_page; request 1 0 0 1 zero_page]
      (new_server ∅) = Some (rs, s') /\
    pool_steps empty_pool
      [request 0 0 2 0 zero_page; request 1 0 0 1 zero_page] P' rs /\
    simulates s' P'.
Proof.
  apply server_refines_pool; [apply map_Forall_empty| |done].
  apply Forall_cons; split; [request_ok|]. apply Forall_singleton. request_ok.
Defined.

Lemma write_then_read_witness :
  last_reply (handle_all
    (request 2 0 0 1 ones ::
     [request 2 0 0 0 zero_page; request 0 0 3 0 zero_page] ++
     [request 1 0 0 1 zero_page]) demo_state)
  = Some (request 1 0 0 1 ones).
Proof.
  apply (write_then_read demo_state demo_pool (request 2 0 0 1 ones)
           _ (request 1 0 0 1 zero_page) zero_page demo_sim).
  - repeat (apply Forall_cons; split; [request_ok|]). apply Forall_nil_2.
  - reflexivity.
  - reflexivity.
  - reflexivity.
  - apply Forall_cons; split; [|apply Forall_singleton];
      split_and!; cbn; try done; intros; right; lia.
  - reflexivity.
  - reflexivity.
  - reflexivity.
Defined.

Lemma alloc_fresh_zero_witness :
  addr_map demo_state !! 1 = None /\
  exists s', handle_all [request 0 0 3 0 zero_page; request 1 1 0 2 ones] demo_state
    = Some ([request 0 1 3 0 zero_page; request 1 1 0 2 zero_page], s').
Proof.
  apply (alloc_fresh_zero demo_state demo_pool (request 0 0 3 0 zero_page)
           (request 1 1 0 2 ones)
           (73728, map_pages 18 3 (vm demo_state)) demo_sim).
  - split; [request_ok|done].
  - reflexivity.
  - vm_compute. reflexivity.
  - split; [request_ok|done].
  - reflexivity.
  - reflexivity.
  - reflexivity.
  - reflexivity.
Defined.

Lemma free_invalidates_witness :
  exists s', handle (request 3 0 0 0 zero_page) demo_state =
      Some (request 3 0 0 0 zero_page, s') /\
    (forall i, 0 <= i < 2 -> vm s' !! (16 + i) = None) /\
    (forall q, 1 <= action q <= 3 -> hndl q = 0 ->
       handle q s' = Some (set_error INVALID_HANDLE q, s')).
Proof.
  apply (free_invalidates demo_state demo_pool (request 3 0 0 0 zero_page)
           (unmap_pages 16 2 (vm demo_state)) (fresh_region 2) demo_sim).
  - split; [request_ok|done].
  - reflexivity.
  - reflexivity.
  - vm_compute. reflexivity.
Defined.

Lemma refused_requests_change_nothing_witness :
  error (set_error READ_FAILED (request 1 0 0 7 zero_page)) = 0 \/
  (demo_state = demo_state /\
   exists e, may_fail_with 1 e = true /\
     set_error READ_FAILED (request 1 0 0 7 zero_page)
     = set_error e (request 1 0 0 7 zero_page)).
Proof.
  apply (refused_requests_change_nothing demo_state (request 1 0 0 7 zero_page)).
  - apply (sim_inv _ _ demo_sim).
  - apply ok_wf. request_ok.
  - reflexivity.
Defined.

(** Two regions, of two pages and of one; the second is two pages above. *)
Definition two_regions : server :=
  alloc_state demo_state 1 73728 (map_pages 18 1 (vm demo_state)).

Definition two_pool : pool := Pool 2 (<[1 := fresh_region 1]> (regions demo_pool)).

Lemma two_regions_sim : simulates two_regions two_pool.
Proof.
  apply (sim_alloc demo_state demo_pool 1 73728 (map_pages 18 1 (vm demo_state)));
    [apply demo_sim|done|done|done|by vm_compute].
Qed.

(** A packet of the given action for page 1 of the first region, with a page
    size of 8192 bytes. *)
Definition far_request (action : Z) : packet := Packet 0 0 8192 1 action ones 0.

Lemma far_request_wf a : is_u32 a -> wf_packet (far_request a).
Proof. intros Ha. split; cbn; first [apply length_ones | done | mlia]. Qed.

Lemma foreign_page_size_reaches_other_regions_witness :
  handle (far_request 1) two_regions
    = Some (set_data zero_page (far_request 1), two_regions) /\
  exists s', handle (far_request 2) two_regions = Some (far_request 2, s') /\
    simulates s' (pool_write 1 0 ones two_pool).
Proof.
  split.
  - by apply (foreign_page_size_reaches_other_regions two_regions two_pool
      (far_request 1) 65536 (fresh_region 2) 1 73728 (fresh_region 1) 0 zero_page
      two_regions_sim (far_request_wf 1 ltac:(by split))).
  - by apply (foreign_page_size_reaches_other_regions two_regions two_pool
      (far_request 2) 65536 (fresh_region 2) 1 73728 (fresh_region 1) 0 zero_page
      two_regions_sim (far_request_wf 2 ltac:(by split))).
Defined.

(** A region of 2^20 + 1 pages is backed by one page only. *)
Definition big_request : packet :=
  Packet (-1) (2 ^ 20 + 1) PAGE_SIZE 0 0 zero_page 0.

Lemma alloc_overflow_reads_outside_witness :
  exists s', handle big_request (new_server ∅) = Some (set_hndl 0 big_request, s') /\
    handle (request 1 0 0 1 zero_page) s' = None.
Proof.
  pose proof (alloc_overflow_reads_outside (new_server ∅) big_request
           (request 1 0 0 1 zero_page) 65536 (map_pages 16 1 ∅) 1)
    as H.
  change (vm (new_server ∅) !! _) with (@None (list byte)) in H.
  apply H; try reflexivity.
  - apply new_server_inv, map_Forall_empty.
  - split; cbn; first [apply length_zero_page | mlia].
  - vm_compute. split; [discriminate|reflexivity].
Defined.

Lemma raw_read_of_unknown_handle_registers_it_witness :
  exists s', read 5 (request 1 5 0 0 zero_page) (new_server ∅) =
      Some ((-1, request 1 5 0 0 zero_page), s') /\
    contains_key 5 s' = Some (true, s') /\
    (forall q, action q = 1 -> hndl q = 5 -> 0 <= offset q ->
       handle q s' = Some (set_error READ_FAILED q, s')) /\
    (forall q, action q = 3 -> hndl q = 5 ->
       handle q s' = Some (set_error FREE_FAILED q, s')).
Proof.
  apply raw_read_of_unknown_handle_registers_it; [reflexivity|reflexivity|cbn; lia].
Defined.

(** ** Reachable states *)

(** One request, whatever it holds, that has a result. *)
Inductive server_step {K : OS} : server -> server -> Prop :=
  | serves p r s s' :
      wf_packet p -> handle p s = Some (r, s') -> server_step s s'.

(** A request that gets past the checks and then leaves the memory it may
    use: a copy of a page, to or from the place the packet's page size and
    offset lead to, that touches an unmapped page or one of the program's own
    ([vm] has neither), or an unmapping of the program's own pages. *)
Definition escapes {K : OS} (s : server) (p : packet) : Prop :=
  exists a n, addr_map s !! hndl p = Some a /\ hndl_n_pages s !! hndl p = Some n /\
    (((action p = 1 \/ action p = 2) /\ offset p < n /\
      touches_unmapped (vm s) (addr_with_offset a p) PAGE_SIZE) \/
     (action p = 3 /\ is_Some (munmap (vm s) a (u32 (n * size p))) /\
      touches_program a (u32 (n * size p)) = true)).

Section reachable.
Context {K : OS} {HK : OSLaws K}.

Lemma handle_None s p :
  server_inv s -> wf_packet p -> handle p s = None <-> escapes s p.
Proof.
  intros Hs Hp. unfold escapes. split.
  - destruct (handle_outcome s p Hs Hp)
      as [| | |a n Ha Hk Hn Ho| |a n Ha Hk Hn Ho| | |a n m' Ha Hk Hn Em Ht| |]; try done.
    + destruct (load _ _ _) eqn:E; [done|]. intros _.
      apply load_None in E; [|by apply inv_vm]. rewrite page_len_Z in E.
      exists a, n. split_and!; [done|done|left]. tauto.
    + destruct (store _ _ _) eqn:E; [done|]. intros _.
      apply store_None in E. rewrite (wf_data p Hp), page_len_Z in E.
      exists a, n. split_and!; [done|done|left]. tauto.
    + intros _. exists a, n. split_and!; [done|done|right]. by rewrite Em.
  - intros (a & n & Ha & Hn & [(Hact & Ho & Ht)|(Hact & [m' Em] & Ht)]).
    + rewrite <- page_len_Z in Ht. unfold handle. destruct Hact as [-> | ->].
      * rewrite (handle_read_known _ _ _ _ Ha Hn).
        apply load_None in Ht; [|by apply inv_vm].
        destruct (Z.leb_spec n (offset p)); [lia|]. by rewrite Ht.
      * rewrite (handle_write_known _ _ _ _ Ha Hn).
        rewrite <- (wf_data p Hp) in Ht. apply store_None in Ht.
        destruct (Z.leb_spec n (offset p)); [lia|]. by rewrite Ht.
    + pose proof (inv_npages s Hs _ _ Hn). unfold handle.
      by rewrite Hact, (handle_free_known _ _ _ _ Ha Hn), Em, Ht by lia.
Qed.

(** C17.  Whatever packets clients send, honest or not, a state the server
    reaches while no request escapes its memory keeps the two maps in step, the
    handles in range, the regions non-empty, page-aligned and inside the
    address space, and maps none of the program's own pages.  In such a state
    a request has no result exactly when it escapes: when its copy touches an
    unmapped page or the program's own memory, or it unmaps the latter. *)
Theorem reachable_server_inv m s p :
  wf_mem m -> rtc server_step (new_server m) s -> wf_packet p ->
  server_inv s /\ (handle p s = None <-> escapes s p).
Proof.
  intros Hm Hr Hp. assert (Hs : server_inv s); [|by split; [|apply handle_None]].
  revert Hr. apply (rtc_ind_r server_inv); [by apply new_server_inv|].
  intros s1 s2 _ [q r s1' s2' Hq E] Hs. by eapply handle_outcome_wf.
Qed.
End reachable.

(** A free of the demo's region with a page size that takes it to the heap of
    the program (pages [2 ^ 18] on), and a read that goes there. *)
Definition far_free : packet := Packet 0 0 (2 ^ 30) 0 3 zero_page 0.
Definition heap_read : packet := Packet 0 0 (2 ^ 30 - 65536) 1 1 zero_page 0.

Lemma reachable_server_inv_witness :
  (server_inv demo_state /\ (handle far_free demo_state = None <-> escapes demo_state far_free))
  /\ (server_inv demo_state /\
      (handle heap_read demo_state = None <-> escapes demo_state heap_read)).
Proof.
  assert (Hr : rtc server_step (new_server ∅) demo_state).
  { apply rtc_once, (serves (request 0 0 2 0 zero_page) (request 0 0 2 0 zero_page)).
    - apply ok_wf. request_ok.
    - reflexivity. }
  split; apply (reachable_server_inv ∅); try apply map_Forall_empty; try exact Hr;
    (split; cbn; first [apply length_zero_page | done | mlia]).
Defined.

(** Both escape. *)
Example heap_read_escapes : escapes demo_state heap_read.
Proof.
  exists 65536, 2. split_and!; [reflexivity..|]. left.
  split_and!; [by left|done|]. exists 0. by split.
Qed.

Example far_free_escapes : escapes demo_state far_free.
Proof.
  exists 65536, 2. split_and!; [reflexivity..|]. right.
  split_and!; [done|by apply bump_munmap_run|]. apply touches_program_spec.
  exists (2 ^ 18). by split.
Qed.
