(* ===== verification/Net.v ===== *)
(** * The server program: server.cpp

    The socket helpers [readn] and [writen], the connection handler that
    serves the requests of one client, and [main] with its accept loop.  The
    answers of the system calls are a trace: one constructor per way a call
    can return, with the number of bytes where it moves some; the bytes
    themselves come from the stream the peer sent.  A loop that reaches the
    end of its trace is still blocked in the call. *)

From S2P Require Import Prelude OS Packet Pool Server ServerCorrect ServerRefines.
From S2P Require Import ServerProps.

(** Write [bs] over the bytes of [buf] from [o] on. *)
Definition overlay (o : nat) (bs buf : list byte) : list byte :=
  take o buf ++ bs ++ drop (o + length bs) buf.

(** ** readn *)

(** One return of [read(2)]: data ([k] bytes at most), a transient failure
    ([EAGAIN], [EWOULDBLOCK]), a failure, end of file. *)
Inductive read_result :=
  | ReadData (k : nat)
  | ReadAgain
  | ReadError
  | ReadEof.

(** The loop, on the unread [stream]: [None] if the trace ends first, else
    [bytes_to_read], [bytes_read] and the buffer at the end of the loop.  A
    call returns at most the [bytes_to_read] bytes it asks for. *)
Fixpoint readn_loop (rs : list read_result) (stream : list byte)
    (bytes_to_read bytes_read : Z) (buf : list byte) :
    option (Z * Z * list byte) :=
  if bytes_read <? bytes_to_read then
    match rs with
    | [] => None
    | ReadAgain :: rs => readn_loop rs stream bytes_to_read bytes_read buf
    | ReadError :: _ | ReadEof :: _ => Some (bytes_to_read, bytes_read, buf)
    | ReadData k :: rs =>
        let got := take (Nat.min k (Z.to_nat bytes_to_read)) stream in
        let result := Z.of_nat (length got) in
        if result =? 0 then Some (bytes_to_read, bytes_read, buf)
        else
          readn_loop rs (drop (length got) stream)
            (ul (bytes_to_read - result)) (ul (bytes_read + result))
            (overlay (Z.to_nat bytes_read) got buf)
    end
  else Some (bytes_to_read, bytes_read, buf).

(** [readn(sd, p, n)]: the result and the buffer. *)
Definition readn (rs : list read_result) (stream buf : list byte) (n : Z) :
    option (Z * list byte) :=
  '(bytes_to_read, bytes_read, buf) ← readn_loop rs stream n 0 buf;
  Some (if bytes_read <? bytes_to_read then -1 else 0, buf).

(** ** writen *)
Inductive write_result :=
  | WriteData (k : nat)   (* the call accepted [k] bytes, at most *)
  | WriteIntr
  | WriteAgain
  | WriteError.

(** The loop: the bytes still to write and the bytes the calls accepted. *)
Fixpoint writen_loop (rs : list write_result) (b : list byte) (n : Z)
    (retry_on_interrupt : bool) : option (Z * list byte) :=
  if 0 <? n then
    match rs with
    | [] => None
    | WriteAgain :: rs => writen_loop rs b n retry_on_interrupt
    | WriteIntr :: rs =>
        if retry_on_interrupt then writen_loop rs b n retry_on_interrupt
        else Some (n, [])
    | WriteError :: _ => Some (n, [])
    | WriteData k :: rs =>
        let k := Nat.min k (Z.to_nat n) in
        '(n', sent) ←
          writen_loop rs (drop k b) (ul (n - Z.of_nat k)) retry_on_interrupt;
        Some (n', take k b ++ sent)
    end
  else Some (n, []).

(** [writen(sd, b, s, retry)]: the result and what went out. *)
Definition writen (rs : list write_result) (b : list byte) (s : Z)
    (retry_on_interrupt : bool) : option (Z * list byte) :=
  '(n, sent) ← writen_loop rs b s retry_on_interrupt;
  Some (if 0 <? n then -1 else 0, sent).

(** ** connection_handler *)

(** One return of [recv(sock, req, sizeof( *req), 0)]. *)
Inductive recv_result :=
  | RecvData (k : nat)    (* [k] bytes at most *)
  | RecvClosed
  | RecvError.

Section connection.
Context {K : OS}.

(** One round: the received bytes land at the start of [req], whatever their
    number; the request is served in place and all of [req] is sent. *)
Definition serve_request (bs req : list byte) : prog server (list byte) :=
  let req := overlay 0 bs req in
  r ← handle (decode req);
  mret (encode r (padding req)).

(** The messages sent on the unread [stream], and the last [read_size]
    ([None] while blocked). *)
Fixpoint connection_handler (rs : list recv_result) (stream req : list byte) :
    prog server (list (list byte) * option Z) :=
  match rs with
  | [] => mret ([], None)
  | RecvClosed :: _ => mret ([], Some 0)
  | RecvError :: _ => mret ([], Some (-1))
  | RecvData k :: rs =>
      let bs := take (Nat.min k sizeof_packet) stream in
      if decide (bs = []) then mret ([], Some 0)
      else
        req' ← serve_request bs req;
        '(sent, read_size) ←
          connection_handler rs (drop (length bs) stream) req';
        mret (req' :: sent, read_size)
  end.

(** ** main *)

(** One iteration of the accept loop: what [accept] returned, what
    [pthread_create] returned, the uninitialised packet of the handler
    ([new rmp::packet]), the bytes the client sends and what the calls of
    [recv] on the socket return. *)
Record accepted := Accepted {
  client_sock : Z;
  thread_created : Z;
  fresh_req : list byte;
  peer_stream : list byte;
  received : list recv_result;
}.

(** The loop joins the handler's thread before it accepts again.  The result
    is the exit code of [main] ([None]: still waiting for a client) and the
    messages sent on every connection. *)
Fixpoint accept_loop (cs : list accepted) :
    prog server (option Z * list (list (list byte))) :=
  match cs with
  | [] => mret (None, [])
  | c :: cs =>
      if client_sock c =? 0 then
        mret (Some (if client_sock c <? 0 then 1 else 0), [])
      else if thread_created c <? 0 then mret (Some 1, [])
      else
        '(sent, _) ← connection_handler (received c) (peer_stream c) (fresh_req c);
        '(code, rest) ← accept_loop cs;
        mret (code, sent :: rest)
  end.

(** The answers of the calls that set the listening socket up. *)
Record setup := Setup {
  socket_ret : Z;
  setsockopt_ret : Z;
  bind_ret : Z;
  listen_ret : Z;
}.

(** [main]: [1] is also [EXIT_FAILURE]. *)
Definition main (argc : Z) (e : setup) (cs : list accepted) :
    prog server (option Z * list (list (list byte))) :=
  if negb (argc =? 3) then mret (Some 1, [])
  else if socket_ret e =? 0 then mret (Some 1, [])
  else if negb (setsockopt_ret e =? 0) then mret (Some 1, [])
  else if bind_ret e <? 0 then mret (Some 1, [])
  else if listen_ret e <? 0 then mret (Some 1, [])
  else accept_loop cs.
End connection.

(** ** readn *)
Lemma overlay_length o bs buf :
  (o + length bs <= length buf)%nat -> length (overlay o bs buf) = length buf.
Proof.
  intros H. unfold overlay. rewrite !length_app, length_take, length_drop. lia.
Qed.

Lemma overlay_overlay o bs bs' buf :
  (o + length bs + length bs' <= length buf)%nat ->
  overlay (o + length bs) bs' (overlay o bs buf) = overlay o (bs ++ bs') buf.
Proof.
  intros H. unfold overlay.
  rewrite take_app_ge by (rewrite length_take; lia).
  rewrite length_take, Nat.min_l by lia.
  replace (o + length bs - o)%nat with (length bs) by lia.
  rewrite take_app_length, drop_app_ge by (rewrite length_take; lia).
  rewrite length_take, Nat.min_l by lia.
  rewrite drop_app_ge by lia. rewrite drop_drop, !length_app, <- !app_assoc.
  do 4 f_equal. lia.
Qed.

Lemma overlay_nil o buf : overlay o [] buf = buf.
Proof. unfold overlay. cbn. rewrite Nat.add_0_r. apply take_drop. Qed.

Lemma take_length_take n (l : list byte) : take (length (take n l)) l = take n l.
Proof.
  rewrite length_take. destruct (decide (n <= length l)%nat).
  - by rewrite Nat.min_l.
  - rewrite Nat.min_r, !take_ge by lia. done.
Qed.

(** The loop consumes a prefix of the stream, puts it where the previous bytes
    end, and keeps [bytes_to_read + bytes_read] constant. *)
Lemma readn_loop_spec rs stream btr br buf btr' br' buf' :
  readn_loop rs stream btr br buf = Some (btr', br', buf') ->
  0 <= btr -> 0 <= br -> btr + br < 2 ^ 64 -> Z.of_nat (length buf) = btr + br ->
  exists got, got `prefix_of` stream /\
    Z.of_nat (length got) <= btr /\
    btr' = btr - Z.of_nat (length got) /\ br' = br + Z.of_nat (length got) /\
    buf' = overlay (Z.to_nat br) got buf.
Proof.
  assert (Hstop : forall stream btr br buf, 0 <= btr -> exists got : list byte,
    got `prefix_of` stream /\ Z.of_nat (length got) <= btr /\
    btr = btr - Z.of_nat (length got) /\ br = br + Z.of_nat (length got) /\
    buf = overlay (Z.to_nat br) got buf).
  { intros. exists []. rewrite overlay_nil. cbn.
    split_and!; [apply prefix_nil|lia..|done]. }
  revert stream btr br buf.
  induction rs as [|r rs IH]; intros stream btr br buf; cbn [readn_loop];
    (destruct (br <? btr); [|intros [= <- <- <-]; eauto]); [done|].
  destruct r as [k| | |]; [|by eauto|intros [= <- <- <-]; eauto..].
  set (d := take _ stream). destruct (Z.eqb_spec (Z.of_nat (length d)) 0);
    [intros [= <- <- <-]; eauto|].
  intros E H1 H2 H3 H4.
  assert (Hd : Z.of_nat (length d) <= btr) by (unfold d; rewrite length_take; lia).
  rewrite !ul_small in E by mlia.
  apply IH in E as (got & Hp & Hl & -> & -> & ->); [|lia..|].
  2: { rewrite overlay_length; lia. }
  exists (d ++ got). rewrite length_app. split_and!; [|lia..|].
  - rewrite <- (take_drop (length d) stream).
    unfold d at 2. rewrite take_length_take. by apply prefix_app.
  - rewrite Z2Nat.inj_add, Nat2Z.id by lia. apply overlay_overlay. lia.
Qed.

(** What a [readn] that returns has done: a prefix of the stream is at the
    start of the buffer, and the call counts as a success from half of the
    request on. *)
Lemma readn_result rs stream buf n rc buf' :
  readn rs stream buf n = Some (rc, buf') -> Z.of_nat (length buf) = n ->
  n < 2 ^ 64 ->
  exists got, got `prefix_of` stream /\ Z.of_nat (length got) <= n /\
    buf' = got ++ drop (length got) buf /\
    rc = (if n <=? 2 * Z.of_nat (length got) then 0 else -1).
Proof.
  unfold readn. destruct (readn_loop _ _ _ _ _) as [[[btr br] b]|] eqn:E; [|done].
  intros [= <- <-] Hl Hn.
  apply readn_loop_spec in E as (got & Hp & Hg & -> & -> & ->); [|lia..].
  exists got. split_and!; [done|done|done|].
  destruct (Z.ltb_spec (0 + Z.of_nat (length got)) (n - Z.of_nat (length got))),
    (Z.leb_spec n (2 * Z.of_nat (length got))); lia || done.
Qed.

(** One call that returns [k] of the bytes asked for. *)
Lemma readn_loop_data k rs stream btr br buf :
  (0 < k <= length stream)%nat -> Z.of_nat k <= btr -> 0 <= br < btr ->
  btr + br < 2 ^ 64 ->
  readn_loop (ReadData k :: rs) stream btr br buf =
    readn_loop rs (drop k stream) (btr - Z.of_nat k) (br + Z.of_nat k)
      (overlay (Z.to_nat br) (take k stream) buf).
Proof.
  intros Hk Hb Hbr Hn. cbn [readn_loop]. destruct (Z.ltb_spec br btr); [|lia].
  rewrite Nat.min_l, length_take, Nat.min_l by lia.
  destruct (Z.eqb_spec (Z.of_nat k) 0); [lia|]. by rewrite !ul_small by mlia.
Qed.

Lemma readn_loop_half ks k rest stream btr br buf :
  let got := (sum_list ks + k)%nat in
  Forall (fun j => 0 < j)%nat ks -> (0 < k)%nat -> 0 <= br ->
  br + 2 * Z.of_nat (sum_list ks) < btr <= br + 2 * Z.of_nat got ->
  Z.of_nat got <= btr -> (got <= length stream)%nat ->
  Z.of_nat (length buf) = btr + br -> btr + br < 2 ^ 64 ->
  readn_loop ((ReadData <$> ks ++ [k]) ++ rest) stream btr br buf =
    Some (btr - Z.of_nat got, br + Z.of_nat got,
          overlay (Z.to_nat br) (take got stream) buf).
Proof.
  intros got Hks. subst got. revert stream btr br buf.
  induction Hks as [|j ks Hj _ IH]; intros stream btr br buf Hk Hbr Hh Hg Hs Hl Hn;
    cbn [fmap list_fmap app].
  - change (sum_list []) with 0%nat in *. rewrite readn_loop_data by lia.
    assert (Hstop : (br + Z.of_nat k <? btr - Z.of_nat k) = false)
      by (apply Z.ltb_ge; lia).
    by destruct rest; cbn [readn_loop]; rewrite Hstop.
  - change (sum_list (j :: ks)) with (j + sum_list ks)%nat in *.
    rewrite readn_loop_data by lia.
    rewrite IH; try (rewrite ?length_drop; lia);
      [|rewrite overlay_length, ?length_take; rewrite ?length_take; lia].
    f_equal. f_equal; [f_equal; lia|].
    replace (Z.to_nat (br + Z.of_nat j))
      with (Z.to_nat br + length (take j stream))%nat by (rewrite length_take; lia).
    rewrite overlay_overlay by (rewrite !length_take, ?length_drop; lia).
    f_equal. by rewrite take_take_drop, Nat.add_assoc.
Qed.

(** C35.  [readn] stops as soon as half of the request is in and calls that a
    success: after the first call that brings the total to half of [n], it
    returns 0 with only those bytes in the buffer, whatever the peer still has
    to send and whatever further calls would return. *)
Theorem readn_stops_at_half ks k rest stream buf n :
  let got := (sum_list ks + k)%nat in
  Forall (fun j => 0 < j)%nat ks -> (0 < k)%nat ->
  2 * Z.of_nat (sum_list ks) < n <= 2 * Z.of_nat got ->
  Z.of_nat got <= n -> (got <= length stream)%nat ->
  Z.of_nat (length buf) = n -> n < 2 ^ 64 ->
  readn ((ReadData <$> ks ++ [k]) ++ rest) stream buf n =
    Some (0, take got stream ++ drop got buf).
Proof.
  intros got Hks Hk Hh Hg Hs Hl Hn. unfold readn.
  rewrite readn_loop_half by (done || lia). cbn [mbind option_bind]. fold got.
  destruct (Z.ltb_spec (0 + Z.of_nat got) (n - Z.of_nat got)); [lia|].
  unfold overlay. cbn [Z.to_nat take app Nat.add].
  by rewrite length_take, Nat.min_l.
Qed.

Lemma readn_stops_at_half_witness :
  readn [ReadData 1; ReadData 1; ReadData 2] [x01; x02; x03; x04] (replicate 4 x00) 4
    = Some (0, [x01; x02; x00; x00]).
Proof.
  apply (readn_stops_at_half [1%nat] 1 [ReadData 2] [x01; x02; x03; x04]);
    cbn; repeat constructor; lia || done.
Defined.

(** The call is not a transient failure. *)
Definition read_settles (r : read_result) : Prop := r <> ReadAgain.

(** C36.  Whatever else the calls return, [readn] returns within one call per byte
    if none of them fails transiently. *)
Theorem readn_returns rs stream buf n :
  Forall read_settles rs -> n <= Z.of_nat (length rs) -> 0 <= n < 2 ^ 64 ->
  is_Some (readn rs stream buf n).
Proof.
  intros Hrs Hn Hb. unfold readn.
  assert (H : forall btr br buf stream,
    0 <= btr -> 0 <= br -> btr + br < 2 ^ 64 -> btr <= Z.of_nat (length rs) ->
    is_Some (readn_loop rs stream btr br buf)).
  { clear - Hrs. induction Hrs as [|r rs Hr _ IH]; intros btr br buf stream;
      cbn [readn_loop length]; intros H1 H2 H3 H4;
      (destruct (Z.ltb_spec br btr); [|by eauto]); [lia|].
    destruct r as [k| | |]; [|done|by eauto..].
    set (d := take _ stream). destruct (Z.eqb_spec (Z.of_nat (length d)) 0);
      [by eauto|].
    assert (Z.of_nat (length d) <= btr) by (unfold d; rewrite length_take; lia).
    rewrite !ul_small by mlia. apply IH; lia. }
  destruct (H n 0 buf stream) as [[[btr br] b] ->]; [lia..|]. cbn. eauto.
Qed.

Lemma readn_returns_witness :
  is_Some (readn [ReadData 1; ReadEof; ReadError] [x01; x02] (replicate 3 x00) 3).
Proof. apply readn_returns; [by repeat constructor|reflexivity|lia]. Defined.

(** ** writen *)
Lemma writen_loop_spec rs b n retry n' sent :
  writen_loop rs b n retry = Some (n', sent) ->
  Z.of_nat (length b) = n -> n < 2 ^ 64 ->
  exists rest, b = sent ++ rest /\ n' = Z.of_nat (length rest).
Proof.
  revert b n sent. induction rs as [|r rs IH]; intros b n sent; cbn [writen_loop];
    (destruct (Z.ltb_spec 0 n); [|intros [= <- <-] **; by exists b]); [done|].
  destruct r as [k| | |].
  - destruct (writen_loop rs _ _ _) as [[n1 s1]|] eqn:E; [|done].
    intros [= <- <-] Hl Hn. set (j := Nat.min k (Z.to_nat n)) in *.
    rewrite ul_small in E by (unfold j; mlia).
    apply IH in E as (rest & Hr & ->); [|rewrite length_drop; lia|lia].
    exists rest. split; [|done]. rewrite <- app_assoc, <- Hr. by rewrite take_drop.
  - destruct retry; [by eauto|]. intros [= <- <-] **. by exists b.
  - by eauto.
  - intros [= <- <-] **. by exists b.
Qed.

(** C34.  [writen] reports success exactly when the whole buffer went out; what it
    sends is always a prefix of the buffer. *)
Theorem writen_sends_all rs b retry rc sent :
  writen rs b (Z.of_nat (length b)) retry = Some (rc, sent) ->
  Z.of_nat (length b) < 2 ^ 64 ->
  sent `prefix_of` b /\ rc = (if decide (sent = b) then 0 else -1).
Proof.
  unfold writen. destruct (writen_loop _ _ _ _) as [[n s1]|] eqn:E; [|done].
  intros [= <- <-] Hn. apply writen_loop_spec in E as (rest & -> & ->); [|done..].
  split; [by exists rest|]. destruct rest as [|x rest].
  - by rewrite app_nil_r, decide_True.
  - rewrite decide_False; [done|]. intros Heq.
    apply (f_equal length) in Heq. rewrite length_app in Heq. cbn in Heq. lia.
Qed.

Lemma writen_sends_all_witness :
  [x01; x02; x03] `prefix_of` [x01; x02; x03] /\
  0 = (if decide ([x01; x02; x03] = [x01; x02; x03]) then 0 else -1).
Proof.
  apply (writen_sends_all [WriteData 1; WriteIntr; WriteAgain; WriteData 9] _ true);
    reflexivity.
Defined.

(** ** connection_handler *)
Lemma overlay_all bs buf : length bs = length buf -> overlay 0 bs buf = bs.
Proof.
  intros H. unfold overlay. rewrite take_0, drop_ge by lia. apply app_nil_r.
Qed.

Section connection_props.
Context {K : OS} {HK : OSLaws K}.

(** A whole request in the buffer: the reply is the handler's. *)
Lemma serve_whole p pad req s :
  wf_packet p -> length pad = 4%nat -> length req = sizeof_packet ->
  serve_request (encode p pad) req s =
    match handle p s with
    | Some (r, s') => Some (encode r pad, s')
    | None => None
    end.
Proof.
  intros Hp Hpad Hr. unfold serve_request, mbind, prog_bind.
  rewrite overlay_all by (by rewrite length_encode).
  by rewrite decode_encode, padding_encode by done.
Qed.

(** Receiving the first message of a stream whole. *)
Lemma recv_whole p pad rest :
  wf_packet p -> length pad = 4%nat ->
  take (Nat.min sizeof_packet sizeof_packet) (encode p pad ++ rest) = encode p pad
  /\ drop (length (encode p pad)) (encode p pad ++ rest) = rest
  /\ encode p pad <> [].
Proof.
  intros Hp Hpad. pose proof (length_encode p pad Hp Hpad) as Hl.
  rewrite Nat.min_id, <- Hl, take_app_length, drop_app_length.
  split_and!; [done..|]. intros E. rewrite E in Hl. done.
Qed.

(** The bytes of a sequence of messages, and the calls that receive each of
    them whole before the peer closes the connection. *)
Definition stream_of (pad : list byte) (ps : list packet) : list byte :=
  concat ((fun p => encode p pad) <$> ps).

Definition framed (ps : list packet) : list recv_result :=
  replicate (length ps) (RecvData sizeof_packet) ++ [RecvClosed].

Lemma connection_framed_run ps pad req s :
  Forall wf_packet ps -> length pad = 4%nat -> length req = sizeof_packet ->
  server_inv s ->
  connection_handler (framed ps) (stream_of pad ps) req s =
    match handle_all ps s with
    | Some (rs, s') => Some (((fun r => encode r pad) <$> rs, Some 0), s')
    | None => None
    end.
Proof.
  intros Hps Hpad. revert req s.
  induction Hps as [|p ps Hp _ IH]; intros req s Hr Hs; [done|].
  destruct (recv_whole p pad (stream_of pad ps) Hp Hpad) as (E1 & E2 & E3).
  change (framed (p :: ps)) with (RecvData sizeof_packet :: framed ps).
  change (stream_of pad (p :: ps)) with (encode p pad ++ stream_of pad ps).
  cbn [connection_handler handle_all]. rewrite E1, E2, decide_False by done.
  unfold mbind, prog_bind. rewrite serve_whole by done.
  destruct (handle p s) as [[r s1]|] eqn:Eh; [|done].
  destruct (handle_outcome_wf s p r s1 Hs Hp Eh) as [Hs1 Hr1].
  rewrite IH by (done || by apply length_encode).
  by destruct (handle_all ps s1) as [[rs s2]|].
Qed.

Lemma handle_all_inv ps s rs s' :
  Forall wf_packet ps -> server_inv s -> handle_all ps s = Some (rs, s') ->
  server_inv s'.
Proof.
  intros Hps. revert s rs. induction Hps as [|p ps Hp _ IH]; intros s rs Hs;
    cbn [handle_all]; [by intros [= _ <-]|].
  unfold mbind, prog_bind. destruct (handle p s) as [[r s1]|] eqn:E; [|done].
  destruct (handle_all ps s1) as [[rs1 s2]|] eqn:E1; [|done]. intros [= _ <-].
  eapply IH; [|done]. by eapply handle_outcome_wf.
Qed.

(** A client whose requests arrive whole, on a healthy connection. *)
Definition client_of (sock : Z) (pad req : list byte) (ps : list packet) :
    accepted :=
  Accepted sock 0 req (stream_of pad ps) (framed ps).

(** C10.  When the listening socket is set up and the handlers' threads start,
    the accept loop serves clients whose requests arrive whole one after the
    other, against the same server: the replies are those of the concatenation
    of all requests. *)
Theorem accept_loop_serves_in_turn e pad req pss s :
  socket_ret e <> 0 -> setsockopt_ret e = 0 -> 0 <= bind_ret e ->
  0 <= listen_ret e -> Forall (Forall wf_packet) pss -> length pad = 4%nat ->
  length req = sizeof_packet -> server_inv s ->
  match main 3 e (map (client_of 4 pad req) pss) s, handle_all (concat pss) s with
  | Some ((code, sents), s1), Some (rs, s2) =>
      code = None /\ length sents = length pss /\
      concat sents = map (fun r => encode r pad) rs /\ s1 = s2
  | None, None => True
  | _, _ => False
  end.
Proof.
  intros E1 E2 E3 E4 Hps Hpad Hreq. unfold main. rewrite E2, !Z.eqb_refl. cbn [negb].
  destruct (Z.eqb_spec (socket_ret e) 0), (Z.ltb_spec (bind_ret e) 0),
    (Z.ltb_spec (listen_ret e) 0); try lia. clear - HK Hps Hpad Hreq.
  revert s. induction Hps as [|p ps Hp _ IH]; intros s Hs; [done|].
  cbn [accept_loop map client_of client_sock thread_created
       fresh_req peer_stream received concat]. cbn [Z.eqb Z.ltb Z.compare].
  rewrite handle_all_app. rewrite run_bind.
  rewrite connection_framed_run by done.
  destruct (handle_all p s) as [[rs s1]|] eqn:E; [|done].
  specialize (IH s1 (handle_all_inv _ _ _ _ Hp Hs E)).
  rewrite run_bind.
  destruct (accept_loop _ s1) as [[[code sents] s2]|],
    (handle_all (concat ps) s1) as [[rs' s3]|]; try done.
  cbn in *. destruct IH as (-> & Hl & Hc & ->). split_and!; [done|lia| |done].
  by rewrite Hc, map_app.
Qed.

(** A failed [accept], and the handler started for it. *)
Definition failed_accept (req : list byte) : accepted :=
  Accepted (-1) 0 req [] [RecvError].

(** A failed [accept] is not a failure of [main]: the loop starts a handler on
    the descriptor [-1], whose [recv] fails, and accepts again, for ever. *)
Theorem failed_accept_is_retried n req cs s :
  accept_loop (replicate n (failed_accept req) ++ cs) s =
    '(code, sents, s') ← accept_loop cs s;
    Some ((code, replicate n [] ++ sents), s').
Proof.
  induction n as [|n IH]; cbn [replicate app].
  - by destruct (accept_loop cs s) as [[[code sents] s']|].
  - cbn [accept_loop failed_accept client_sock thread_created fresh_req
         peer_stream received connection_handler]. cbn [Z.eqb Z.ltb Z.compare].
    rewrite run_bind. rewrite run_ret.
    rewrite run_bind. rewrite IH.
    by destruct (accept_loop cs s) as [[[code sents] s']|].
Qed.

(** C37.  One request delivered in two pieces is served twice, the first time with
    the tail of the previous message, the second time with its own tail at the
    start of the buffer. *)
Theorem split_request_is_served_twice p pad req k s sent code s' :
  wf_packet p -> length pad = 4%nat -> (0 < k < sizeof_packet)%nat ->
  connection_handler [RecvData k; RecvData sizeof_packet; RecvClosed]
    (encode p pad) req s = Some ((sent, code), s') ->
  let head := take k (encode p pad) in
  let tail := drop k (encode p pad) in
  exists r1 s1 r2 s2,
    handle (decode (overlay 0 head req)) s = Some (r1, s1) /\
    handle (decode (overlay 0 tail (encode r1 (padding (overlay 0 head req))))) s1
      = Some (r2, s2) /\
    length sent = 2%nat /\ s' = s2 /\ code = Some 0.
Proof.
  intros Hp Hpad Hk. pose proof (length_encode p pad Hp Hpad) as Hl.
  cbn [connection_handler]. rewrite (Nat.min_l k) by lia.
  rewrite decide_False.
  2: { intros E. apply (f_equal length) in E. rewrite length_take, Hl in E.
       cbn [length] in E. lia. }
  rewrite length_take, Nat.min_id, (Nat.min_l k) by lia.
  rewrite (take_ge (drop k _)) by (rewrite length_drop; lia).
  rewrite run_bind. unfold serve_request at 1.
  rewrite run_bind.
  destruct (handle _ s) as [[r1 s1]|] eqn:E1; [|done].
  rewrite run_ret, run_bind. rewrite decide_False.
  2: { intros E. apply (f_equal length) in E. rewrite length_drop, Hl in E.
       cbn [length] in E. lia. }
  rewrite run_bind. unfold serve_request. rewrite run_bind.
  destruct (handle _ s1) as [[r2 s2]|] eqn:E2; [|done].
  intros [= <- <- <-]. by exists r1, s1, r2, s2.
Qed.
End connection_props.

(** ** Witnesses *)
Lemma accept_loop_serves_in_turn_witness :
  match main 3 (Setup 3 0 0 0)
          (map (client_of 4 (replicate 4 x00) (replicate sizeof_packet x00))
             [[request 0 0 2 0 zero_page]; [request 1 0 0 1 zero_page]])
          (new_server ∅),
        handle_all [request 0 0 2 0 zero_page; request 1 0 0 1 zero_page]
          (new_server ∅) with
  | Some ((code, sents), s1), Some (rs, s2) =>
      code = None /\ length sents = 2%nat /\
      concat sents = map (fun r => encode r (replicate 4 x00)) rs /\ s1 = s2
  | None, None => True
  | _, _ => False
  end.
Proof.
  apply (accept_loop_serves_in_turn (Setup 3 0 0 0) (replicate 4 x00)
           (replicate sizeof_packet x00)
           [[request 0 0 2 0 zero_page]; [request 1 0 0 1 zero_page]]);
    try done.
  repeat constructor; apply ok_wf; request_ok.
Defined.

Lemma split_request_is_served_twice_witness :
  match connection_handler [RecvData 24; RecvData sizeof_packet; RecvClosed]
          (encode (request 0 0 2 0 zero_page) (replicate 4 x00))
          (replicate sizeof_packet x00) (new_server ∅) with
  | Some ((sent, code), s') => length sent = 2%nat
  | None => False
  end.
Proof.
  destruct (connection_handler _ _ _ _) as [[[sent code] s']|] eqn:E.
  - destruct (split_request_is_served_twice (request 0 0 2 0 zero_page)
      (replicate 4 x00) (replicate sizeof_packet x00) 24 (new_server ∅)
      sent code s') as (? & ? & ? & ? & ? & ? & ? & _).
    + apply ok_wf. request_ok.
    + reflexivity.
    + unfold sizeof_packet, pad_off, error_off, data_off. lia.
    + exact E.
    + assumption.
  - vm_compute in E. discriminate E.
Defined.
