(* ===== verification/Wire.v ===== *)
(** * The server at the other end of a connection

    The page server the client really talks to: packets are encoded, received
    whole by the connection handler, served in its buffer, sent back and
    decoded.  It implements [PageServer] too, so that the client's theorems
    hold for the bytes on the wire. *)

From S2P Require Import Prelude OS Packet Pool Server ServerCorrect ServerRefines.
From S2P Require Import ServerProps Net.

(** The server and the handler's buffer [req]. *)
Record wire := Wire { wire_server : server; wire_req : list byte }.

Section wire.
Context {K : OS} {HK : OSLaws K}.
(** The bytes in the padding of the client's packets. *)
Context (pad : list byte) (Hpad : length pad = 4%nat).

(** One request through the handler, as the client sees it. *)
Definition wire_rpc (p : packet) : prog wire packet := fun w =>
  match serve_request (encode p pad) (wire_req w) (wire_server w) with
  | Some (reply, s) => Some (decode reply, Wire s reply)
  | None => None
  end.

Definition wire_holds (w : wire) (P : pool) : Prop :=
  simulates (wire_server w) P /\ length (wire_req w) = sizeof_packet.

Lemma wire_step w P p :
  wire_holds w P -> honest P p ->
  exists r w' P', wire_rpc p w = Some (r, w') /\ pool_step P p P' r /\ wire_holds w' P'.
Proof.
  intros [Hs Hr] Hp. destruct (handle_step (wire_server w) P p Hs Hp) as (r & s & P' & E & H & Hs').
  pose proof (ok_wf p (proj1 Hp)) as Hwf.
  destruct (handle_outcome_wf _ _ _ _ (sim_inv _ _ Hs) Hwf E) as [_ Hrwf].
  exists r, (Wire s (encode r pad)), P'. unfold wire_rpc.
  rewrite serve_whole, E by done. rewrite decode_encode by done.
  split_and!; [done|done|]. split; [done|by apply length_encode].
Qed.

(** An allocation the kernel of the server grants. *)
Lemma wire_alloc_run w p a m' :
  server_inv (wire_server w) -> length (wire_req w) = sizeof_packet ->
  wf_packet p -> action p = 0 ->
  mmap (vm (wire_server w)) (u32 (npages p * size p)) = Some (a, m') ->
  let s' := alloc_state (wire_server w) (npages p) a m' in
  let r := set_hndl (handle_count (wire_server w)) p in
  wire_rpc p w = Some (r, Wire s' (encode r pad)) /\
  server_inv s' /\ length (encode r pad) = sizeof_packet.
Proof.
  intros Hi Hr Hp Ha Em s' r.
  pose proof (handle_alloc_granted _ p a m' Hi Ha Em) as E. fold s' r in E.
  destruct (handle_outcome_wf _ _ _ _ Hi Hp E) as [Hi' Hrwf].
  unfold wire_rpc. rewrite serve_whole, E by done. rewrite decode_encode by done.
  split_and!; [done|done|]. by apply length_encode.
Qed.

Definition wire_page_server : PageServer wire := {|
  rpc := wire_rpc;
  holds := wire_holds;
  rpc_step := wire_step;
|}.
End wire.
