(* ===== verification/Vm.v ===== *)
(** * The client's address space

    Virtual memory as a process that pages through userfaultfd sees it: which
    pages are mapped and to which userfaultfd they are registered, which are
    present and with what contents.  The kernel calls of the client and of
    the userfaultfd manager are the operations of the class [VM], the
    behaviour their manual pages document is [VMLaws], and [simple_vm] is a
    concrete kernel that satisfies it. *)

From S2P Require Import Prelude OS.

Record vmem := Vmem {
  present : mem;                 (* contents of the pages in memory *)
  vma : gmap Z (option Z);       (* mapped pages; [Some u]: registered with [u] *)
}.

Definition empty_vmem : vmem := Vmem ∅ ∅.

(** The pages of the [len] bytes at [a]. *)
Definition in_range (a len i : Z) : Prop :=
  a / PAGE_SIZE <= i < a / PAGE_SIZE + pages_of len.

#[export] Instance in_range_dec a len i : Decision (in_range a len i).
Proof. unfold in_range. apply _. Defined.

Class VM := {
  (** Anonymous private [mmap]; [None] is [MAP_FAILED]. *)
  vm_mmap : vmem -> Z -> option (Z * vmem);
  (** [ioctl(uffd, UFFDIO_REGISTER)] for missing pages; [None] is [-1]. *)
  uffdio_register : vmem -> Z -> Z -> Z -> option vmem;
  (** [madvise(a, len, MADV_DONTNEED)] *)
  madvise_dontneed : vmem -> Z -> Z -> vmem;
  (** [ioctl(uffd, UFFDIO_COPY)] of one page; [None] is [-1]. *)
  uffdio_copy : vmem -> Z -> Z -> list byte -> option vmem;
}.

Class VMLaws (V : VM) := {
  vm_mmap_ok v len a v' :
    vm_mmap v len = Some (a, v') ->
    0 < len /\ a mod PAGE_SIZE = 0 /\ 0 < a /\
    a + pages_of len * PAGE_SIZE <= TASK_SIZE /\
    (forall i, in_range a len i -> vma v !! i = None /\ present v !! i = None) /\
    present v' = present v /\
    (forall i, vma v' !! i = if decide (in_range a len i) then Some None
                             else vma v !! i);
  uffdio_register_ok v u a len v' :
    uffdio_register v u a len = Some v' ->
    present v' = present v /\
    (forall i, vma v' !! i = if decide (in_range a len i) then Some (Some u)
                             else vma v !! i);
  madvise_ok v a len :
    a mod PAGE_SIZE = 0 ->
    vma (madvise_dontneed v a len) = vma v /\
    (forall i, present (madvise_dontneed v a len) !! i =
               if decide (in_range a len i) then None else present v !! i);
  uffdio_copy_ok v u a src v' :
    uffdio_copy v u a src = Some v' ->
    vma v' = vma v /\ present v' = <[a / PAGE_SIZE := src]> (present v);
  (** the destination must be registered with the same descriptor *)
  uffdio_copy_registered v u a src v' :
    uffdio_copy v u a src = Some v' -> vma v !! (a / PAGE_SIZE) = Some (Some u);
  uffdio_copy_exists v u a src :
    is_Some (present v !! (a / PAGE_SIZE)) -> uffdio_copy v u a src = None;
  uffdio_copy_succeeds v u a src :
    a mod PAGE_SIZE = 0 -> vma v !! (a / PAGE_SIZE) = Some (Some u) ->
    present v !! (a / PAGE_SIZE) = None -> is_Some (uffdio_copy v u a src);
}.

(** ** A concrete kernel *)
Fixpoint set_range {A} (p : Z) (n : nat) (x : A) (m : gmap Z A) : gmap Z A :=
  match n with
  | O => m
  | S n => <[p := x]> (set_range (p + 1) n x m)
  end.

Definition next_vma (v : vmem) : Z :=
  foldr Z.max (next_page (present v))
    ((fun kv : Z * option Z => kv.1 + 1) <$> map_to_list (vma v)).

#[export] Instance simple_vm : VM := {|
  vm_mmap v len :=
    let p := next_vma v in
    if bool_decide (0 < len)
       && bool_decide (p * PAGE_SIZE + pages_of len * PAGE_SIZE <= TASK_SIZE)
    then Some (p * PAGE_SIZE,
               Vmem (present v) (set_range p (Z.to_nat (pages_of len)) None (vma v)))
    else None;
  uffdio_register v u a len :=
    if bool_decide (a mod PAGE_SIZE = 0) && bool_decide (0 <= len) then
      Some (Vmem (present v)
              (set_range (a / PAGE_SIZE) (Z.to_nat (pages_of len)) (Some u) (vma v)))
    else None;
  madvise_dontneed v a len :=
    Vmem (unmap_pages (a / PAGE_SIZE) (Z.to_nat (pages_of len)) (present v))
      (vma v);
  uffdio_copy v u a src :=
    match present v !! (a / PAGE_SIZE), vma v !! (a / PAGE_SIZE) with
    | None, Some (Some w) =>
        if bool_decide (u = w) && bool_decide (a mod PAGE_SIZE = 0) then
          Some (Vmem (<[a / PAGE_SIZE := src]> (present v)) (vma v))
        else None
    | _, _ => None
    end;
|}.

Lemma lookup_set_range {A} p n (x : A) m i :
  set_range p n x m !! i =
    if decide (p <= i < p + Z.of_nat n) then Some x else m !! i.
Proof.
  revert p. induction n as [|n IH]; intros p; cbn [set_range].
  - case_decide; [lia | done].
  - rewrite lookup_insert, IH. repeat case_decide; try done; lia.
Qed.

Lemma next_vma_ge v : next_page (present v) <= next_vma v.
Proof. unfold next_vma. induction (_ <$> _) as [|k l IH]; cbn; lia. Qed.

Lemma next_vma_fresh v i : next_vma v <= i -> vma v !! i = None.
Proof.
  intros Hi. destruct (vma v !! i) as [x|] eqn:E; [exfalso|done].
  apply elem_of_map_to_list in E. revert Hi E. unfold next_vma.
  induction (map_to_list (vma v)) as [|[k y] l IH]; cbn; intros Hi E.
  - by apply not_elem_of_nil in E.
  - apply elem_of_cons in E as [[= -> ->]|E]; [lia|]. apply IH; [lia|done].
Qed.

Lemma pages_of_nonneg len : 0 <= len -> 0 <= pages_of len.
Proof. intros H. unfold pages_of. apply Z.div_pos; mlia. Qed.

#[export] Instance simple_vm_laws : VMLaws simple_vm.
Proof.
  split.
  - intros v len a v'. cbn. destruct (_ && _) eqn:E; [|done]. intros [= <- <-].
    apply andb_prop in E as [H1%bool_decide_eq_true H2%bool_decide_eq_true].
    pose proof (pages_of_pos len H1). pose proof (next_vma_ge v).
    pose proof (next_page_ge (present v)). unfold in_range. cbn.
    assert (Hd : next_vma v * PAGE_SIZE / PAGE_SIZE = next_vma v)
      by (apply Z.div_mul; mlia).
    split_and!; [done|apply Z.mod_mul; mlia|mlia|done| |done|].
    + intros i Hi. split; [apply next_vma_fresh|apply next_page_fresh]; lia.
    + intros i. rewrite lookup_set_range. repeat case_decide; try done; lia.
  - intros v u a len v'. cbn. destruct (_ && _) eqn:E; [|done]. intros [= <-].
    apply andb_prop in E as [_ H%bool_decide_eq_true].
    split; [done|]. intros i. cbn. pose proof (pages_of_nonneg len H).
    rewrite lookup_set_range. unfold in_range. repeat case_decide; try done; lia.
  - intros v a len Ha. split; [done|]. intros i. cbn. rewrite lookup_unmap_pages.
    unfold in_range. repeat case_decide; try done; lia.
  - intros v u a src v'. cbn. destruct (present v !! _); [done|].
    destruct (vma v !! _) as [[w|]|]; [|done..].
    destruct (_ && _); [|done]. by intros [= <-].
  - intros v u a src v'. cbn. destruct (present v !! _); [done|].
    destruct (vma v !! _) as [[w|]|]; [|done..].
    destruct (_ && _) eqn:E; [|done].
    by apply andb_prop in E as [->%bool_decide_eq_true _].
  - intros v u a src [pg E]. cbn. by rewrite E.
  - intros v u a src Ha E1 E2. cbn. rewrite E1, E2.
    rewrite !bool_decide_true by done. cbn. eauto.
Qed.
