(* ===== verification/Uffd.v ===== *)
(** * The userfaultfd manager: uffdman.cpp

    The global maps of the manager, the registration of regions and of the
    page resolver, and the fault handler with its off-by-one invalidation:
    when a region faults, the page resolved before is written back if it was
    brought in by a write, and dropped from memory either way.

    The page resolver is a function pointer: the operations are parametric in
    it and in the state [W] it works on.  The mutex [fault_handler_cr] makes
    each round of a handler atomic for the other handlers, so a round is one
    step here; Threads.v has the steps of a round between which other threads
    run, and the proof that this is the same to an application of one thread. *)

From S2P Require Import Prelude OS Vm.

(** ** State *)

(** The five heap-allocated maps. *)
Record uffd_maps := UffdMaps {
  addr_tid_map : gmap Z Z;
  start_addr_uffd_map : gmap Z Z;
  uffd_start_addr_map : gmap Z Z;
  uffd_prev_resolved_addr : gmap Z Z;
  uffd_prev_resolved_op : gmap Z Z;
}.

(** What the five pointers hold: null before [uffdman_init], the maps, or
    freed memory after [uffdman_destroy]. *)
Inductive maps_ptr := Null | Live (m : uffd_maps) | Dangling.

Record uffdman := Uffdman {
  uffd_initialized : bool;
  maps : maps_ptr;
  page_resolver : bool;            (* the function pointer is not null *)
  page : option (list byte);       (* the handlers' static page buffer *)
  cancelled : list Z;              (* threads cancelled so far *)
}.

(** The globals as the program starts. *)
Definition uffdman_start : uffdman := Uffdman false Null false None [].

Definition empty_maps : uffd_maps := UffdMaps ∅ ∅ ∅ ∅ ∅.

(** The manager, the address space of the process, and the resolver's state. *)
Record ust (W : Type) := Ust { um : uffdman; vs : vmem; env : W }.
Arguments Ust {W}.
Arguments um {W}.
Arguments vs {W}.
Arguments env {W}.

Definition set_um {W} (m : uffdman) (s : ust W) : ust W := Ust m (vs s) (env s).
Definition set_vs {W} (v : vmem) (s : ust W) : ust W := Ust (um s) v (env s).
Definition set_env {W} (w : W) (s : ust W) : ust W := Ust (um s) (vs s) w.

Definition set_maps (x : maps_ptr) (u : uffdman) : uffdman :=
  Uffdman (uffd_initialized u) x (page_resolver u) (page u) (cancelled u).

Definition set_page (b : list byte) (u : uffdman) : uffdman :=
  Uffdman (uffd_initialized u) (maps u) (page_resolver u) (Some b) (cancelled u).

Definition set_resolver (b : bool) (u : uffdman) : uffdman :=
  Uffdman (uffd_initialized u) (maps u) b (page u) (cancelled u).

Definition add_cancelled (t : Z) (u : uffdman) : uffdman :=
  Uffdman (uffd_initialized u) (maps u) (page_resolver u) (page u)
    (cancelled u ++ [t]).

Definition upd_um {W} (f : uffdman -> uffdman) : prog (ust W) unit :=
  modify (fun s => set_um (f (um s)) s).

(** ** Initialisation *)
Definition uffdman_init {W} : prog (ust W) unit :=
  s ← get;
  if uffd_initialized (um s) then mret tt
  else
    put (set_um (Uffdman true (Live empty_maps) (page_resolver (um s))
                   (page (um s)) (cancelled (um s))) s).

(** [delete] of null pointers does nothing; a second [delete] is undefined. *)
Definition uffdman_destroy {W} : prog (ust W) unit :=
  s ← get;
  match maps (um s) with
  | Null => mret tt
  | Live _ => upd_um (set_maps Dangling)
  | Dangling => fun _ => None
  end.

Definition uffdman_register_page_resolver {W} : prog (ust W) unit :=
  upd_um (set_resolver true).

Definition uffdman_unregister_page_resolver {W} : prog (ust W) unit :=
  upd_um (set_resolver false).

(** Using the maps through a null or dangling pointer is undefined. *)
Definition get_maps {W} : prog (ust W) uffd_maps :=
  try_get (fun s => match maps (um s) with Live m => Some m | _ => None end).

Definition put_maps {W} (m : uffd_maps) : prog (ust W) unit :=
  upd_um (set_maps (Live m)).

(** [unordered_map::insert]: an existing key keeps its value. *)
Definition insert_new (k v : Z) (m : gmap Z Z) : gmap Z Z :=
  match m !! k with Some _ => m | None => <[k := v]> m end.

(** One event a handler can get from its descriptor. *)
Inductive uffd_event :=
  | EvPollError
  | EvEof
  | EvReadError
  | EvUnmap
  | EvPagefault (address flags : Z)
  | EvOther.

(** [UFFD_PAGEFAULT_FLAG_WRITE] is bit 0. *)
Definition UFFD_PAGEFAULT_FLAG_WRITE : Z := 1.

Section uffdman.
Context {V : VM} {W : Type}.
(** The resolver: region start, faulting address, operation and the bytes of
    the page it is given; it returns the bytes it leaves in the page. *)
Context (resolver : Z -> Z -> Z -> list byte -> prog W (list byte)).

(** A call through the [page_resolver] pointer. *)
Definition call_resolver (start addr op : Z) (pg : list byte) :
    prog (ust W) (list byte) := fun s =>
  if page_resolver (um s) then
    match resolver start addr op pg (env s) with
    | Some (pg', w) => Some (pg', set_env w s)
    | None => None
    end
  else None.

(** The resolver works on the page at address [a] itself; the handler thread
    would block for ever on a page that is not present. *)
Definition resolve_in_place (start a op : Z) : prog (ust W) unit :=
  pg ← try_get (fun s => load (present (vs s)) a page_len);
  pg' ← call_resolver start a op pg;
  try_put (fun s => m ← store (present (vs s)) a pg';
                    Some (set_vs (Vmem m (vma (vs s))) s)).

Definition invalidate_prev_resolved_page (uffd : Z) : prog (ust W) unit :=
  m ← get_maps;
  match uffd_prev_resolved_addr m !! uffd, uffd_prev_resolved_op m !! uffd,
        uffd_start_addr_map m !! uffd with
  | Some prev_resolved_addr, Some op, Some region_start_addr =>
      let prev_resolved_op := s32 op in
      _ ← (if prev_resolved_op =? 0 then mret tt
           else resolve_in_place region_start_addr prev_resolved_addr
                  prev_resolved_op);
      modify (fun s =>
        set_vs (madvise_dontneed (vs s) (PGROUNDDOWN prev_resolved_addr)
                  PAGE_SIZE) s)
  | _, _, _ => mret tt
  end.

(** The page buffer the copy takes its source from. *)
Definition get_page : prog (ust W) (list byte) :=
  try_get (fun s => page (um s)).

(** Recording the page just resolved. *)
Definition record_resolved (uffd addr op : Z) : prog (ust W) unit :=
  m ← get_maps;
  put_maps (UffdMaps (addr_tid_map m) (start_addr_uffd_map m)
    (uffd_start_addr_map m)
    (<[uffd := PGROUNDDOWN addr]> (uffd_prev_resolved_addr m))
    (<[uffd := op]> (uffd_prev_resolved_op m))).

(** The page buffer gets the page of a read fault from the resolver; a write
    fault leaves it alone. *)
Definition resolve_fault (uffd faulting_addr faulting_op : Z) :
    prog (ust W) unit :=
  if faulting_op =? 0 then
    m ← get_maps;
    region_start_addr ← try_get (fun _ => uffd_start_addr_map m !! uffd);
    pg ← get_page;
    pg' ← call_resolver region_start_addr faulting_addr faulting_op pg;
    upd_um (set_page pg')
  else mret tt.

(** [UFFDIO_COPY] of the page buffer to the page of the fault. *)
Definition copy_fault (uffd faulting_addr : Z) : prog (ust W) bool :=
  src ← get_page;
  s ← get;
  match uffdio_copy (vs s) uffd (PGROUNDDOWN faulting_addr) src with
  | None => mret false
  | Some v => _ ← put (set_vs v s); mret true
  end.

(** The part of a round after the event was read: [false] ends the thread. *)
Definition handle_fault (uffd faulting_addr flags : Z) : prog (ust W) bool :=
  let faulting_op := Z.land flags UFFD_PAGEFAULT_FLAG_WRITE in
  _ ← invalidate_prev_resolved_page uffd;
  _ ← resolve_fault uffd faulting_addr faulting_op;
  copied ← copy_fault uffd faulting_addr;
  if (copied : bool) then
    _ ← record_resolved uffd faulting_addr faulting_op;
    mret true
  else mret false.

Definition handle_event (uffd : Z) (e : uffd_event) : prog (ust W) bool :=
  match e with
  | EvPollError | EvEof | EvReadError | EvOther => mret false
  | EvUnmap => mret true
  | EvPagefault addr flags => handle_fault uffd addr flags
  end.

(** A handler thread maps the page buffer when it is the first one. *)
Definition start_thread : prog (ust W) unit :=
  upd_um (fun u => match page u with
                   | Some _ => u
                   | None => set_page zero_page u
                   end).

Fixpoint handler_loop (uffd : Z) (es : list uffd_event) : prog (ust W) bool :=
  match es with
  | [] => mret true
  | e :: es =>
      continue ← handle_event uffd e;
      if (continue : bool) then handler_loop uffd es else mret false
  end.

(** [fault_handler_thread] on the events it gets: whether it still runs. *)
Definition fault_handler_thread (uffd : Z) (es : list uffd_event) :
    prog (ust W) bool :=
  _ ← start_thread; handler_loop uffd es.

(** The answers of the calls [uffdman_register_region] makes. *)
Record reg_env := RegEnv {
  uffd_ret : Z;         (* userfaultfd(2) *)
  api_ret : Z;          (* ioctl UFFDIO_API *)
  thread_ret : Z;       (* pthread_create *)
  thread_id : Z;
}.

Definition uffdman_register_region (e : reg_env) (addr n_pages : Z) :
    prog (ust W) Z :=
  let len := ul (n_pages * PAGE_SIZE) in
  let uffd := uffd_ret e in
  if uffd =? -1 then mret (-1)
  else if api_ret e =? -1 then mret (-1)
  else
    s ← get;
    match uffdio_register (vs s) uffd addr len with
    | None => mret (-1)
    | Some v =>
        _ ← put (set_vs v s);
        if negb (thread_ret e =? 0) then mret (-1)
        else
          _ ← start_thread;
          m ← get_maps;
          _ ← put_maps (UffdMaps
                (insert_new addr (thread_id e) (addr_tid_map m))
                (insert_new addr uffd (start_addr_uffd_map m))
                (insert_new uffd addr (uffd_start_addr_map m))
                (uffd_prev_resolved_addr m) (uffd_prev_resolved_op m));
          mret 0
    end.

(** Note the key of the last [erase]: the thread, not the address. *)
Definition uffdman_unregister_region (addr : Z) : prog (ust W) unit :=
  m ← get_maps;
  match start_addr_uffd_map m !! addr with
  | None => mret tt
  | Some uffd =>
      _ ← invalidate_prev_resolved_page uffd;
      m ← get_maps;
      _ ← put_maps (UffdMaps (addr_tid_map m)
            (delete addr (start_addr_uffd_map m))
            (delete uffd (uffd_start_addr_map m))
            (delete uffd (uffd_prev_resolved_addr m))
            (delete uffd (uffd_prev_resolved_op m)));
      m ← get_maps;
      match addr_tid_map m !! addr with
      | None => mret tt
      | Some tid =>
          _ ← put_maps (UffdMaps (delete tid (addr_tid_map m))
                (start_addr_uffd_map m) (uffd_start_addr_map m)
                (uffd_prev_resolved_addr m) (uffd_prev_resolved_op m));
          upd_um (add_cancelled tid)
      end
  end.

(** [handle_unmap_event]: [at] throws for an unknown descriptor. *)
Definition handle_unmap_event (uffd : Z) : prog (ust W) unit :=
  m ← get_maps;
  match uffd_start_addr_map m !! uffd with
  | None => fun _ => None
  | Some region_start_addr => uffdman_unregister_region region_start_addr
  end.
End uffdman.
