(* ===== verification/UffdCorrect.v ===== *)
(** * The fault handler keeps at most one page per region

    The invariant of the manager and the address space, the closed forms of
    the invalidation and of a fault round, and the preservation of the
    invariant by everything that happens to a region. *)

From S2P Require Import Prelude OS Vm Uffd.

(** ** Laws of the kernel calls, on the model of memory *)
Lemma pages_of_page : pages_of PAGE_SIZE = 1.
Proof. reflexivity. Qed.

Lemma in_range_page a i : in_range a PAGE_SIZE i <-> i = a / PAGE_SIZE.
Proof. unfold in_range. rewrite pages_of_page. lia. Qed.

Lemma aligned_PGROUNDDOWN a : a mod PAGE_SIZE = 0 -> PGROUNDDOWN a = a.
Proof. intros H. rewrite PGROUNDDOWN_spec. by apply aligned_div. Qed.

Lemma PGROUNDDOWN_mod a : PGROUNDDOWN a mod PAGE_SIZE = 0.
Proof. rewrite PGROUNDDOWN_spec. apply Z.mod_mul. mlia. Qed.

Lemma PGROUNDDOWN_div a : PGROUNDDOWN a / PAGE_SIZE = a / PAGE_SIZE.
Proof. rewrite PGROUNDDOWN_spec. apply Z.div_mul. mlia. Qed.

Section kernel.
Context {V : VM} {HV : VMLaws V}.

Lemma madvise_page v a :
  a mod PAGE_SIZE = 0 ->
  madvise_dontneed v a PAGE_SIZE =
    Vmem (delete (a / PAGE_SIZE) (present v)) (vma v).
Proof.
  intros Ha. destruct (madvise_ok v a PAGE_SIZE Ha) as [Hv Hp].
  destruct (madvise_dontneed v a PAGE_SIZE) as [pr vm]; cbn in *. f_equal; [|done].
  apply map_eq. intros i. rewrite Hp, lookup_delete.
  destruct (decide (a / PAGE_SIZE = i)) as [<-|Hne].
  - rewrite decide_True; [done|]. by apply in_range_page.
  - rewrite decide_False; [done|]. intros H%in_range_page. congruence.
Qed.

Lemma copy_page v u a src :
  a mod PAGE_SIZE = 0 -> vma v !! (a / PAGE_SIZE) = Some (Some u) ->
  present v !! (a / PAGE_SIZE) = None ->
  uffdio_copy v u a src =
    Some (Vmem (<[a / PAGE_SIZE := src]> (present v)) (vma v)).
Proof.
  intros Ha Hv Hp.
  destruct (uffdio_copy_succeeds v u a src Ha Hv Hp) as [v' E]. rewrite E.
  destruct (uffdio_copy_ok _ _ _ _ _ E) as [? ?].
  destruct v'; cbn in *; congruence.
Qed.
End kernel.

(** ** Invariant *)
Record uffd_inv {W} (s : ust W) (m : uffd_maps) : Prop := {
  ui_live : maps (um s) = Live m;
  ui_resolver : page_resolver (um s) = true;
  ui_present : wf_mem (present (vs s));
  ui_inverse a u :
    start_addr_uffd_map m !! a = Some u <-> uffd_start_addr_map m !! u = Some a;
  ui_prev u a :
    uffd_prev_resolved_addr m !! u = Some a ->
    exists op, uffd_prev_resolved_op m !! u = Some op /\ (op = 0 \/ op = 1) /\
      a mod PAGE_SIZE = 0 /\ vma (vs s) !! (a / PAGE_SIZE) = Some (Some u) /\
      is_Some (present (vs s) !! (a / PAGE_SIZE)) /\
      is_Some (uffd_start_addr_map m !! u);
  ui_op u : uffd_prev_resolved_addr m !! u = None ->
            uffd_prev_resolved_op m !! u = None;
  (** the page resolved last is the only one of its region in memory *)
  ui_single p u :
    vma (vs s) !! p = Some (Some u) -> is_Some (present (vs s) !! p) ->
    uffd_prev_resolved_addr m !! u = Some (p * PAGE_SIZE);
  (** a region that is registered has the page buffer to copy from *)
  ui_page u : is_Some (uffd_start_addr_map m !! u) ->
              exists pg, page (um s) = Some pg /\ length pg = page_len;
}.

(** ** Closed forms *)
Section closed_forms.
Context {V : VM} {HV : VMLaws V} {W : Type}.
Context (resolver : Z -> Z -> Z -> list byte -> prog W (list byte)).
(** A resolver that is given a page to write back leaves a whole page there. *)
Context (resolver_keeps : forall start a op pg w pg' w',
  op <> 0 -> resolver start a op pg w = Some (pg', w') ->
  length pg = page_len -> length pg' = page_len).
Implicit Types (s : ust W) (m : uffd_maps).

(** Memory without the page resolved last for [u]. *)
Definition evicted (m : uffd_maps) (u : Z) (v : vmem) : vmem :=
  match uffd_prev_resolved_addr m !! u with
  | Some a => Vmem (delete (a / PAGE_SIZE) (present v)) (vma v)
  | None => v
  end.

(** What the resolver makes of the page resolved last for [u]: called on its
    current contents if a write brought it in, not called otherwise. *)
Definition write_back (m : uffd_maps) (u : Z) (s : ust W) : option W :=
  match uffd_prev_resolved_addr m !! u, uffd_prev_resolved_op m !! u,
        uffd_start_addr_map m !! u with
  | Some a, Some op, Some start =>
      if op =? 0 then Some (env s)
      else
        pg ← present (vs s) !! (a / PAGE_SIZE);
        '(_, w) ← resolver start a op pg (env s); Some w
  | _, _, _ => Some (env s)
  end.

Lemma get_maps_run s m : maps (um s) = Live m -> get_maps s = Some (m, s).
Proof. intros E. unfold get_maps, try_get. by rewrite E. Qed.

Lemma s32_op op : op = 0 \/ op = 1 -> s32 op = op.
Proof. by intros [-> | ->]. Qed.

(** Resolving in place and dropping the page: only the effect on the
    resolver's state and the missing page remain. *)
Lemma resolve_and_drop s m start a op pg :
  op <> 0 -> maps (um s) = Live m -> page_resolver (um s) = true ->
  a mod PAGE_SIZE = 0 -> present (vs s) !! (a / PAGE_SIZE) = Some pg ->
  length pg = page_len ->
  (_ ← resolve_in_place resolver start a op;
   modify (fun s => set_vs (madvise_dontneed (vs s) (PGROUNDDOWN a) PAGE_SIZE) s)) s
  = '(_, w) ← resolver start a op pg (env s);
    Some (tt, Ust (um s)
                (Vmem (delete (a / PAGE_SIZE) (present (vs s))) (vma (vs s))) w).
Proof.
  intros Hop Hm Hr Ha Hp Hl. unfold resolve_in_place. rewrite !run_bind.
  unfold try_get. rewrite <- (aligned_div a Ha) at 1.
  rewrite (load_page _ _ pg), run_bind by done. unfold call_resolver.
  rewrite Hr. destruct (resolver start a op pg (env s)) as [[pg' w]|] eqn:E;
    [|done]. cbn [mbind option_bind].
  unfold try_put. cbn [vs set_env]. rewrite <- (aligned_div a Ha) at 1.
  rewrite (store_page _ _ pg) by eauto. cbn [mbind option_bind].
  unfold modify, set_vs, set_env. cbn [vs um env].
  rewrite aligned_PGROUNDDOWN, madvise_page by done. cbn [present vma].
  by rewrite delete_insert_eq.
Qed.

Lemma invalidate_run s m u :
  uffd_inv s m ->
  invalidate_prev_resolved_page resolver u s =
    w ← write_back m u s; Some (tt, Ust (um s) (evicted m u (vs s)) w).
Proof.
  intros Hs. unfold invalidate_prev_resolved_page. rewrite run_bind.
  rewrite (get_maps_run _ m) by apply Hs. unfold write_back, evicted.
  destruct (uffd_prev_resolved_addr m !! u) as [a|] eqn:Ea; [|by destruct s].
  destruct (ui_prev s m Hs u a Ea) as (op & -> & Hop & Hal & _ & [pg Hpg] & [start ->]).
  rewrite s32_op by done. destruct (Z.eqb_spec op 0).
  - cbn [mbind option_bind]. rewrite run_bind, run_ret. unfold modify, set_vs.
    by rewrite aligned_PGROUNDDOWN, madvise_page.
  - rewrite (resolve_and_drop s m start a op pg); try done; try apply Hs.
    + rewrite Hpg. cbn [mbind option_bind].
      by destruct (resolver start a op pg (env s)) as [[pg' w]|].
    + by eapply (ui_present s m Hs).
Qed.

(** The maps after a page of [u] was resolved. *)
Definition resolved_maps (m : uffd_maps) (u addr op : Z) : uffd_maps :=
  UffdMaps (addr_tid_map m) (start_addr_uffd_map m) (uffd_start_addr_map m)
    (<[u := PGROUNDDOWN addr]> (uffd_prev_resolved_addr m))
    (<[u := op]> (uffd_prev_resolved_op m)).

(** The page a fault installs, and what the resolver's state becomes: a read
    asks the resolver, a write takes the page buffer as it is. *)
Definition fetched (start addr op : Z) (pg : list byte) (w : W) :
    option (list byte * W) :=
  if op =? 0 then resolver start addr op pg w else Some (pg, w).

Definition faulted (s : ust W) (m : uffd_maps) (u addr op : Z)
    (pg : list byte) (w : W) : ust W :=
  Ust (set_maps (Live (resolved_maps m u addr op)) (set_page pg (um s)))
    (Vmem (<[addr / PAGE_SIZE := pg]> (present (evicted m u (vs s))))
       (vma (vs s))) w.

Lemma set_page_id um pg : page um = Some pg -> set_page pg um = um.
Proof. destruct um; unfold set_page; cbn. by intros ->. Qed.

Lemma evicted_vma m u v : vma (evicted m u v) = vma v.
Proof. unfold evicted. by destruct (uffd_prev_resolved_addr m !! u). Qed.

Lemma evicted_None m u v p :
  present v !! p = None -> present (evicted m u v) !! p = None.
Proof.
  intros H. unfold evicted. destruct (uffd_prev_resolved_addr m !! u); [|done].
  cbn. apply lookup_delete_None. by right.
Qed.

Lemma get_page_run s pg : page (um s) = Some pg -> get_page s = Some (pg, s).
Proof. intros E. unfold get_page, try_get. by rewrite E. Qed.

Lemma upd_um_run (f : uffdman -> uffdman) s :
  upd_um f s = Some (tt, set_um (f (um s)) s).
Proof. done. Qed.

Lemma record_resolved_run s m u addr op :
  maps (um s) = Live m ->
  record_resolved u addr op s =
    Some (tt, set_um (set_maps (Live (resolved_maps m u addr op)) (um s)) s).
Proof.
  intros E. unfold record_resolved. by rewrite run_bind, (get_maps_run _ m).
Qed.

Lemma handle_fault_run s m u start addr flags pg :
  uffd_inv s m -> uffd_start_addr_map m !! u = Some start ->
  vma (vs s) !! (addr / PAGE_SIZE) = Some (Some u) ->
  present (vs s) !! (addr / PAGE_SIZE) = None -> page (um s) = Some pg ->
  let op := Z.land flags UFFD_PAGEFAULT_FLAG_WRITE in
  handle_fault resolver u addr flags s =
    w ← write_back m u s;
    '(pg', w') ← fetched start addr op pg w;
    Some (true, faulted s m u addr op pg' w').
Proof.
  intros Hs Hu Hv Hp Hpg op. unfold handle_fault. fold op. rewrite run_bind.
  rewrite (invalidate_run s m) by done.
  destruct (write_back m u s) as [w|]; [|done]. cbn [mbind option_bind].
  rewrite run_bind. pose proof (ui_live s m Hs) as Hm.
  pose proof (ui_resolver s m Hs) as Hr. unfold fetched.
  assert (Hcopy : forall src, uffdio_copy (evicted m u (vs s)) u
    (PGROUNDDOWN addr) src =
    Some (Vmem (<[addr / PAGE_SIZE := src]> (present (evicted m u (vs s))))
            (vma (vs s)))).
  { intros src. rewrite copy_page; rewrite ?PGROUNDDOWN_div, ?evicted_vma;
      auto using PGROUNDDOWN_mod, evicted_None. }
  unfold resolve_fault, copy_fault. destruct (op =? 0) eqn:Eop.
  - rewrite !run_bind, (get_maps_run _ m), run_bind by done.
    unfold try_get at 1. rewrite Hu, run_bind.
    rewrite (get_page_run _ pg), run_bind by done.
    unfold call_resolver. cbn [um env]. rewrite Hr.
    destruct (resolver start addr op pg w) as [[pg' w']|]; [|done].
    rewrite upd_um_run, !run_bind, (get_page_run _ pg'), run_bind, run_get by done.
    cbn [set_um set_env vs um]. rewrite Hcopy, run_bind, run_put, run_ret, run_bind.
    by rewrite (record_resolved_run _ m) by done.
  - rewrite run_ret, !run_bind, (get_page_run _ pg), run_bind, run_get by done.
    cbn [vs]. rewrite Hcopy, run_bind, run_put, run_ret, run_bind.
    rewrite (record_resolved_run _ m) by done. cbn [mbind option_bind].
    unfold faulted. by rewrite set_page_id.
Qed.
End closed_forms.

(** ** Preservation of the invariant *)
Section preservation.
Context {V : VM} {HV : VMLaws V} {W : Type}.
Implicit Types (s : ust W) (m : uffd_maps).

(** Dropping the page resolved last leaves nothing of the region in memory,
    and every other region as it was. *)
Lemma evicted_present s m u p pg :
  uffd_inv s m -> present (evicted m u (vs s)) !! p = Some pg ->
  present (vs s) !! p = Some pg /\ vma (vs s) !! p <> Some (Some u).
Proof.
  intros Hs. unfold evicted.
  destruct (uffd_prev_resolved_addr m !! u) as [a|] eqn:Ea; cbn.
  - intros [Hne Hp]%lookup_delete_Some. split; [done|]. intros Hv.
    pose proof (ui_single s m Hs p u Hv ltac:(eauto)) as E.
    rewrite Ea in E. injection E as ->. apply Hne. apply Z.div_mul. mlia.
  - intros Hp. split; [done|]. intros Hv.
    pose proof (ui_single s m Hs p u Hv ltac:(eauto)). congruence.
Qed.

Lemma evicted_other s m u p u' :
  uffd_inv s m -> vma (vs s) !! p = Some (Some u') -> u' <> u ->
  present (evicted m u (vs s)) !! p = present (vs s) !! p.
Proof.
  intros Hs Hv Hne. unfold evicted.
  destruct (uffd_prev_resolved_addr m !! u) as [a|] eqn:Ea; [|done]. cbn.
  apply lookup_delete_ne. intros <-.
  destruct (ui_prev s m Hs u a Ea) as (_ & _ & _ & _ & Hv' & _). congruence.
Qed.

Lemma evicted_wf s m u : uffd_inv s m -> wf_mem (present (evicted m u (vs s))).
Proof.
  intros Hs p pg Hp. eapply (ui_present s m Hs p), (evicted_present s m u); eauto.
Qed.

Lemma page_of_PGROUNDDOWN a p :
  a / PAGE_SIZE = p -> PGROUNDDOWN a = p * PAGE_SIZE.
Proof. intros <-. apply PGROUNDDOWN_spec. Qed.

Lemma faulted_inv s m u start addr op pg w :
  uffd_inv s m -> uffd_start_addr_map m !! u = Some start ->
  vma (vs s) !! (addr / PAGE_SIZE) = Some (Some u) ->
  op = 0 \/ op = 1 -> length pg = page_len ->
  uffd_inv (faulted s m u addr op pg w) (resolved_maps m u addr op).
Proof.
  intros Hs Hu Hv Hop Hpg. split; cbn.
  - done.
  - apply (ui_resolver s m Hs).
  - apply map_Forall_insert_2; [done|]. by apply evicted_wf.
  - apply (ui_inverse s m Hs).
  - intros u' a. destruct (decide (u = u')) as [<-|Hne].
    + rewrite !lookup_insert_eq. intros [= <-]. exists op.
      rewrite PGROUNDDOWN_div, lookup_insert_eq.
      split_and!; eauto using PGROUNDDOWN_mod.
    + rewrite !lookup_insert_ne by done. intros Ha.
      destruct (ui_prev s m Hs u' a Ha) as (o & ? & ? & ? & Hv' & ? & ?).
      exists o. split_and!; try done. rewrite lookup_insert_ne by congruence.
      by rewrite (evicted_other s m u _ u').
  - intros u'. rewrite !lookup_insert. case_decide; [done|]. apply (ui_op s m Hs).
  - intros p u' Hv'. destruct (decide (addr / PAGE_SIZE = p)) as [Hp|Hp].
    + intros _. rewrite Hp in Hv. rewrite Hv in Hv'. injection Hv' as <-.
      rewrite lookup_insert_eq. by rewrite (page_of_PGROUNDDOWN _ p).
    + rewrite lookup_insert_ne by done. intros [x Hx].
      apply (evicted_present s m u _ _ Hs) in Hx as [Hx Hn].
      rewrite lookup_insert_ne by congruence.
      apply (ui_single s m Hs); eauto.
  - eauto.
Qed.

(** The state after [uffdman_register_region] succeeded. *)
Definition region_maps (m : uffd_maps) (tid u a : Z) : uffd_maps :=
  UffdMaps (insert_new a tid (addr_tid_map m))
    (insert_new a u (start_addr_uffd_map m))
    (insert_new u a (uffd_start_addr_map m))
    (uffd_prev_resolved_addr m) (uffd_prev_resolved_op m).

Definition with_buffer (u : uffdman) : uffdman :=
  match page u with Some _ => u | None => set_page zero_page u end.

Lemma with_buffer_fields u :
  maps (with_buffer u) = maps u /\ page_resolver (with_buffer u) = page_resolver u.
Proof. unfold with_buffer. by destruct (page u). Qed.

Lemma register_run s m e a n v :
  maps (um s) = Live m -> uffd_ret e <> -1 -> api_ret e <> -1 ->
  thread_ret e = 0 ->
  uffdio_register (vs s) (uffd_ret e) a (ul (n * PAGE_SIZE)) = Some v ->
  uffdman_register_region e a n s =
    Some (0, Ust (set_maps (Live (region_maps m (thread_id e) (uffd_ret e) a))
                    (with_buffer (um s))) v (env s)).
Proof.
  intros Hm Hu Ha Ht Er. unfold uffdman_register_region.
  destruct (Z.eqb_spec (uffd_ret e) (-1)), (Z.eqb_spec (api_ret e) (-1)); try done.
  rewrite run_bind, run_get, Er, run_bind, run_put, Ht. cbn [Z.eqb negb].
  rewrite run_bind. unfold start_thread. rewrite upd_um_run, run_bind.
  cbn [um set_um set_vs]. fold (with_buffer (um s)).
  rewrite (get_maps_run _ m); [done|]. cbn [um set_um].
  by rewrite (proj1 (with_buffer_fields (um s))).
Qed.

Lemma insert_new_fresh k x (M : gmap Z Z) : M !! k = None -> insert_new k x M = <[k := x]> M.
Proof. unfold insert_new. by intros ->. Qed.

Lemma register_inv s m e a n v :
  uffd_inv s m ->
  uffdio_register (vs s) (uffd_ret e) a (ul (n * PAGE_SIZE)) = Some v ->
  uffd_start_addr_map m !! uffd_ret e = None ->
  start_addr_uffd_map m !! a = None ->
  (forall p, vma (vs s) !! p <> Some (Some (uffd_ret e))) ->
  (forall p, in_range a (ul (n * PAGE_SIZE)) p ->
     vma (vs s) !! p = Some None /\ present (vs s) !! p = None) ->
  (forall pg, page (um s) = Some pg -> length pg = page_len) ->
  uffd_inv (Ust (set_maps (Live (region_maps m (thread_id e) (uffd_ret e) a))
                   (with_buffer (um s))) v (env s))
    (region_maps m (thread_id e) (uffd_ret e) a).
Proof.
  intros Hs Er Hu Ha Hnew Hfree Hpage.
  destruct (uffdio_register_ok _ _ _ _ _ Er) as [Hpr Hvma].
  assert (Hother : forall p u', vma (vs s) !! p = Some (Some u') ->
            vma v !! p = Some (Some u')).
  { intros p u' Hp. rewrite Hvma, decide_False; [done|].
    intros Hr%Hfree. destruct Hr. congruence. }
  split; cbn; rewrite ?Hpr, ?insert_new_fresh by done.
  - done.
  - rewrite (proj2 (with_buffer_fields _)). apply Hs.
  - apply Hs.
  - intros b u'. rewrite !lookup_insert. repeat case_decide; subst.
    + by split.
    + split; [congruence|]. intros E. apply (ui_inverse s m Hs) in E. congruence.
    + split; [|congruence]. intros E. apply (ui_inverse s m Hs) in E. congruence.
    + apply (ui_inverse s m Hs).
  - intros u' b Hb. destruct (ui_prev s m Hs u' b Hb) as (op & ? & ? & ? & Hv & ? & [x ?]).
    exists op. split_and!; eauto. rewrite lookup_insert. case_decide; eauto.
  - apply (ui_op s m Hs).
  - intros p u'. rewrite Hvma. case_decide as Hr.
    + apply Hfree in Hr as [_ Hr]. rewrite Hr. intros _ [? ?]. done.
    + apply (ui_single s m Hs).
  - intros _ _. unfold with_buffer. destruct (page (um s)) as [pg|] eqn:E; cbn.
    + eauto.
    + eauto using length_zero_page.
Qed.
End preservation.
