(* ===== verification/UffdProps.v ===== *)
(** * Properties of the userfaultfd manager

    What happens to a process that pages through the manager as a step
    relation, the reachability invariant (at most one page of a region is in
    memory), what a fault writes back and what it drops, registration and
    unregistration, and the life cycle of the maps. *)

From S2P Require Import Prelude OS Vm Uffd UffdCorrect.

Section steps.
Context {V : VM} {W : Type}.
Context (resolver : Z -> Z -> Z -> list byte -> prog W (list byte)).

(** One step of the process: the kernel delivers an event to a running
    handler (a page fault only for a missing page of its region), the
    application stores to a page in memory, maps memory, touches it for the
    first time, registers a fresh mapping with a new descriptor, unregisters
    a region. *)
Inductive uffd_step : ust W -> ust W -> Prop :=
  | step_fault s s' m u start addr flags b :
      maps (um s) = Live m -> uffd_start_addr_map m !! u = Some start ->
      vma (vs s) !! (addr / PAGE_SIZE) = Some (Some u) ->
      present (vs s) !! (addr / PAGE_SIZE) = None ->
      handle_event resolver u (EvPagefault addr flags) s = Some (b, s') ->
      uffd_step s s'
  | step_event s s' u e b :
      (forall addr flags, e <> EvPagefault addr flags) ->
      handle_event resolver u e s = Some (b, s') -> uffd_step s s'
  | step_store s a bs pr :
      store (present (vs s)) a bs = Some pr ->
      uffd_step s (set_vs (Vmem pr (vma (vs s))) s)
  | step_mmap s len a v :
      vm_mmap (vs s) len = Some (a, v) -> uffd_step s (set_vs v s)
  | step_touch s p :
      vma (vs s) !! p = Some None -> present (vs s) !! p = None ->
      uffd_step s (set_vs (Vmem (<[p := zero_page]> (present (vs s))) (vma (vs s))) s)
  | step_register s s' m e a n r :
      maps (um s) = Live m ->
      uffd_start_addr_map m !! uffd_ret e = None ->
      start_addr_uffd_map m !! a = None ->
      (forall p, vma (vs s) !! p <> Some (Some (uffd_ret e))) ->
      (forall p, in_range a (ul (n * PAGE_SIZE)) p ->
         vma (vs s) !! p = Some None /\ present (vs s) !! p = None) ->
      uffd_ret e <> -1 -> api_ret e <> -1 -> thread_ret e = 0 ->
      uffdman_register_region e a n s = Some (r, s') -> uffd_step s s'
  | step_unregister s s' a :
      uffdman_unregister_region resolver a s = Some (tt, s') -> uffd_step s s'.
End steps.

Section props.
Context {V : VM} {HV : VMLaws V} {W : Type}.
Context (resolver : Z -> Z -> Z -> list byte -> prog W (list byte)).
Context (resolver_len : forall start a op pg w pg' w',
  resolver start a op pg w = Some (pg', w') ->
  length pg = page_len -> length pg' = page_len).
Implicit Types (s : ust W) (m : uffd_maps).

Lemma resolver_keeps start a op pg w pg' w' :
  op <> 0 -> resolver start a op pg w = Some (pg', w') ->
  length pg = page_len -> length pg' = page_len.
Proof. intros _. by apply resolver_len. Qed.

(** The manager once the client is initialised. *)
Definition ready (w : W) : ust W :=
  Ust (Uffdman true (Live empty_maps) true None []) empty_vmem w.

Lemma ready_inv w : uffd_inv (ready w) empty_maps.
Proof. split; cbn; try done. intros u. by intros [? ?]. Qed.

Definition buffer_ok s : Prop :=
  forall pg, page (um s) = Some pg -> length pg = page_len.

(** The maps after a region was unregistered; [tids] is what is left of the
    thread map. *)
Definition forget_region m (a u : Z) (tids : gmap Z Z) : uffd_maps :=
  UffdMaps tids (delete a (start_addr_uffd_map m))
    (delete u (uffd_start_addr_map m)) (delete u (uffd_prev_resolved_addr m))
    (delete u (uffd_prev_resolved_op m)).

Definition unregistered m (a u : Z) (v : vmem) (um : uffdman) (w : W) : ust W :=
  match addr_tid_map m !! a with
  | None =>
      Ust (set_maps (Live (forget_region m a u (addr_tid_map m))) um)
        (evicted m u v) w
  | Some tid =>
      Ust (add_cancelled tid
             (set_maps (Live (forget_region m a u (delete tid (addr_tid_map m)))) um))
        (evicted m u v) w
  end.

Lemma unregister_run s m a u :
  uffd_inv s m -> start_addr_uffd_map m !! a = Some u ->
  uffdman_unregister_region resolver a s =
    w ← write_back resolver m u s; Some (tt, unregistered m a u (vs s) (um s) w).
Proof.
  intros Hs Ha. pose proof (ui_live s m Hs) as Hm.
  unfold uffdman_unregister_region, unregistered.
  rewrite run_bind, (get_maps_run _ m), Ha, run_bind by done.
  rewrite (invalidate_run resolver resolver_keeps s m) by done.
  destruct (write_back resolver m u s) as [w|]; [|done]. cbn [mbind option_bind].
  rewrite run_bind, (get_maps_run _ m), run_bind by done.
  unfold put_maps. rewrite upd_um_run, run_bind.
  erewrite get_maps_run by reflexivity. cbn [addr_tid_map].
  destruct (addr_tid_map m !! a) as [tid|]; [|done].
  by rewrite run_bind, upd_um_run, upd_um_run.
Qed.

Lemma unregistered_inv s m a u w :
  uffd_inv s m -> start_addr_uffd_map m !! a = Some u ->
  exists m', uffd_inv (unregistered m a u (vs s) (um s) w) m'.
Proof.
  intros Hs Ha. unfold unregistered.
  set (tids := match addr_tid_map m !! a with
               | None => addr_tid_map m | Some t => delete t (addr_tid_map m) end).
  exists (forget_region m a u tids). unfold tids. clear tids.
  pose proof (proj1 (ui_inverse s m Hs a u) Ha) as Hu.
  assert (Hpage : forall u', is_Some (delete u (uffd_start_addr_map m) !! u') ->
            exists pg, page (um s) = Some pg /\ length pg = page_len).
  { intros u' [x [_ Hx]%lookup_delete_Some]. apply (ui_page s m Hs u'); eauto. }
  destruct (addr_tid_map m !! a); split; cbn; try done;
    try apply (ui_resolver s m Hs); try (by apply evicted_wf).
  all: try (intros b u'; rewrite !lookup_delete_Some;
            pose proof (ui_inverse s m Hs b u') as Hi;
            pose proof (ui_inverse s m Hs b u) as Hi';
            pose proof (ui_inverse s m Hs a u') as Hi'';
            split; intros [Hne Hx]; split; try tauto; intros ->;
            (apply Hi in Hx || apply Hi in Hx); congruence).
  all: try (intros u'; rewrite lookup_delete_None, lookup_delete_None;
            intros [->|Hx]; [by left|right; by apply (ui_op s m Hs)]).
  all: try (intros u' b [Hne Hb]%lookup_delete_Some;
            destruct (ui_prev s m Hs u' b Hb) as (op & ? & ? & ? & Hv & ? & [x ?]);
            exists op; rewrite evicted_vma, !lookup_delete_ne by done;
            rewrite (evicted_other s m u _ u') by done; split_and!; eauto).
  all: intros p u'; rewrite evicted_vma; intros Hv [x Hx];
    apply (evicted_present s m u _ _ Hs) in Hx as [Hx Hn];
    rewrite lookup_delete_ne by congruence; apply (ui_single s m Hs); eauto.
Qed.

(** ** Reachability *)
Definition safe s : Prop := buffer_ok s /\ exists m, uffd_inv s m.

Lemma op_bit flags : Z.land flags UFFD_PAGEFAULT_FLAG_WRITE = 0 \/
  Z.land flags UFFD_PAGEFAULT_FLAG_WRITE = 1.
Proof.
  assert (E : Z.land flags 1 = flags mod 2) by (apply (Z.land_ones flags 1); lia).
  unfold UFFD_PAGEFAULT_FLAG_WRITE. rewrite E.
  pose proof (Z.mod_pos_bound flags 2). lia.
Qed.

Lemma fault_safe s m u start addr flags b s' :
  safe s -> maps (um s) = Live m -> uffd_start_addr_map m !! u = Some start ->
  vma (vs s) !! (addr / PAGE_SIZE) = Some (Some u) ->
  present (vs s) !! (addr / PAGE_SIZE) = None ->
  handle_fault resolver u addr flags s = Some (b, s') -> safe s'.
Proof.
  intros [Hb [m' Hs]] Hm Hu Hv Hp. pose proof (ui_live s m' Hs) as Hm'.
  rewrite Hm in Hm'. injection Hm' as <-.
  destruct (ui_page s m Hs u ltac:(eauto)) as (pg & Hpg & Hl).
  rewrite (handle_fault_run resolver resolver_keeps s m u start addr flags pg)
    by done.
  destruct (write_back resolver m u s) as [w|]; [|done]. cbn [mbind option_bind].
  destruct (fetched _ _ _ _ _ _) as [[pg' w']|] eqn:E; [|done].
  cbn [mbind option_bind]. intros [= <- <-].
  assert (Hl' : length pg' = page_len).
  { unfold fetched in E. destruct (_ =? 0); [by eauto|]. by injection E as <- _. }
  split; [by intros q [= <-]|]. eexists. eapply faulted_inv; eauto using op_bit.
Qed.

(** Memory may change under the manager as long as the pages of its regions
    stay where they are. *)
Lemma vmem_inv s m v :
  uffd_inv s m -> wf_mem (present v) ->
  (forall p u, vma v !! p = Some (Some u) <-> vma (vs s) !! p = Some (Some u)) ->
  (forall p u, vma v !! p = Some (Some u) ->
     is_Some (present v !! p) <-> is_Some (present (vs s) !! p)) ->
  uffd_inv (set_vs v s) m.
Proof.
  intros Hs Hw Hv Hp. split; cbn; try apply Hs; try done.
  - intros u a Ha. destruct (ui_prev s m Hs u a Ha) as (op & ? & ? & ? & Hx & ? & ?).
    apply Hv in Hx. exists op. split_and!; try done. by eapply Hp.
  - intros p u Hx Hy. apply (ui_single s m Hs); [by apply Hv|by eapply Hp].
Qed.

Lemma step_safe s s' : uffd_step resolver s s' -> safe s -> safe s'.
Proof.
  destruct 1 as [s s' m u start addr flags b Hm Hu Hv Hp E|s s' u e b He E
    |s a bs pr E|s len a v E|s p Hv Hp|s s' m e a n r Hm Hu Ha Hn Hf H1 H2 H3 E
    |s s' a E]; intros Hsafe.
  - by eapply fault_safe.
  - by destruct e; cbn in E; try injection E as _ <-; [..|destruct (He address flags)|].
  - destruct Hsafe as [Hb [m Hs]]. split; [done|]. exists m.
    apply vmem_inv; try done; [by eapply store_wf, (ui_present s m Hs)|].
    intros p u _. cbn. by rewrite <- !elem_of_dom, (store_dom _ _ _ _ E).
  - destruct Hsafe as [Hb [m Hs]]. split; [done|]. exists m.
    destruct (vm_mmap_ok _ _ _ _ E) as (_ & _ & _ & _ & Hfree & Hpr & Hvma).
    apply vmem_inv; rewrite ?Hpr; [done|by apply Hs| |done].
    intros p u. rewrite Hvma. case_decide as Hr; [|done].
    apply Hfree in Hr as [-> _]. done.
  - destruct Hsafe as [Hb [m Hs]]. split; [done|]. exists m.
    apply vmem_inv; cbn; [done| |done|].
    + apply map_Forall_insert_2; [apply length_zero_page|by apply Hs].
    + intros q u Hq. rewrite lookup_insert_ne by congruence. done.
  - destruct Hsafe as [Hb [m' Hs]]. pose proof (ui_live s m' Hs) as Hm'.
    rewrite Hm in Hm'. injection Hm' as <-.
    destruct (uffdio_register (vs s) (uffd_ret e) a (ul (n * PAGE_SIZE)))
      as [v|] eqn:Er.
    + rewrite (register_run s m e a n v) in E by done. injection E as _ <-.
      split.
      * intros pg. cbn. unfold with_buffer. destruct (page (um s)) eqn:Ep; cbn.
        -- rewrite Ep. intros [= <-]. by apply Hb.
        -- intros [= <-]. apply length_zero_page.
      * eexists. by eapply register_inv.
    + unfold uffdman_register_region in E.
      destruct (Z.eqb_spec (uffd_ret e) (-1)), (Z.eqb_spec (api_ret e) (-1));
        try done.
      rewrite run_bind, run_get, Er in E. injection E as _ <-. by split; [|exists m].
  - destruct Hsafe as [Hb [m Hs]]. destruct (start_addr_uffd_map m !! a) as [u|] eqn:Ea.
    + rewrite (unregister_run s m a u) in E by done.
      destruct (write_back resolver m u s) as [w|]; [|done]. injection E as <-.
      split; [|by eapply unregistered_inv]. unfold unregistered.
      by destruct (addr_tid_map m !! a).
    + unfold uffdman_unregister_region in E.
      rewrite run_bind, (get_maps_run _ m), Ea in E by apply Hs.
      injection E as <-. by split; [|exists m].
Qed.

Lemma reachable_safe w s : rtc (uffd_step resolver) (ready w) s -> safe s.
Proof.
  intros Hr. revert Hr. apply (rtc_ind_r safe); [|by eauto using step_safe].
  split; [done|eauto using ready_inv].
Qed.

(** C7.  However a process faults, stores, maps, registers and unregisters,
    a region never has more than one page in memory, and the page it has is
    the one the manager has on record as resolved last for the region. *)
Theorem one_page_per_region w s u p q :
  rtc (uffd_step resolver) (ready w) s ->
  vma (vs s) !! p = Some (Some u) -> vma (vs s) !! q = Some (Some u) ->
  is_Some (present (vs s) !! p) -> is_Some (present (vs s) !! q) ->
  p = q /\
  exists m, maps (um s) = Live m /\
    uffd_prev_resolved_addr m !! u = Some (p * PAGE_SIZE) /\
    exists op, uffd_prev_resolved_op m !! u = Some op.
Proof.
  intros Hr Hp Hq Hpp Hpq. destruct (reachable_safe w s Hr) as [_ [m Hs]].
  pose proof (ui_single s m Hs p u Hp Hpp) as Ep.
  pose proof (ui_single s m Hs q u Hq Hpq) as Eq.
  split; [simplify_eq; mlia|]. exists m. split_and!; [apply Hs|done|].
  destruct (ui_prev s m Hs u _ Ep) as (op & ? & _). by exists op.
Qed.

(** ** What a fault writes back, and what it drops *)

(** What a fault leaves behind: the page resolved before is out of memory,
    the new page is in, the maps record it, and the pages of the other
    regions are as they were. *)
Definition page_replaced s s' m (u addr op : Z) (pg : list byte) : Prop :=
  (forall a, uffd_prev_resolved_addr m !! u = Some a ->
     a / PAGE_SIZE <> addr / PAGE_SIZE /\
     present (vs s') !! (a / PAGE_SIZE) = None) /\
  present (vs s') !! (addr / PAGE_SIZE) = Some pg /\
  (forall p u', vma (vs s) !! p = Some (Some u') -> u' <> u ->
     present (vs s') !! p = present (vs s) !! p) /\
  exists m', maps (um s') = Live m' /\
    uffd_prev_resolved_addr m' !! u = Some (PGROUNDDOWN addr) /\
    uffd_prev_resolved_op m' !! u = Some op.

Lemma faulted_replaced s m u addr op pg w :
  uffd_inv s m ->
  vma (vs s) !! (addr / PAGE_SIZE) = Some (Some u) ->
  present (vs s) !! (addr / PAGE_SIZE) = None ->
  page_replaced s (faulted s m u addr op pg w) m u addr op pg.
Proof.
  intros Hs Hv Hp. split_and!; cbn.
  - intros a Ha. destruct (ui_prev s m Hs u a Ha) as (_ & _ & _ & _ & _ & [x Hx] & _).
    split; [congruence|]. rewrite lookup_insert_ne by congruence.
    unfold evicted. rewrite Ha. apply lookup_delete_eq.
  - apply lookup_insert_eq.
  - intros p u' Hu' Hne. rewrite lookup_insert_ne by congruence.
    by rewrite (evicted_other s m u _ u').
  - eexists. split; [done|]. cbn. by rewrite !lookup_insert_eq.
Qed.

(** C8.  A page brought in by a write is handed to the resolver, with its
    contents at the time of the next fault of the region, before it leaves
    memory: whether that fault is a read or a write.  A read fault then
    installs what the resolver delivers in the state after the write-back, a
    write fault the handlers' page buffer; the maps record the new page. *)
Theorem dirty_page_is_written_back s m u start addr flags a pg pg' w buf new w' :
  uffd_inv s m -> uffd_start_addr_map m !! u = Some start ->
  vma (vs s) !! (addr / PAGE_SIZE) = Some (Some u) ->
  present (vs s) !! (addr / PAGE_SIZE) = None ->
  uffd_prev_resolved_addr m !! u = Some a ->
  uffd_prev_resolved_op m !! u = Some 1 ->
  present (vs s) !! (a / PAGE_SIZE) = Some pg -> page (um s) = Some buf ->
  resolver start a 1 pg (env s) = Some (pg', w) ->
  (if Z.land flags UFFD_PAGEFAULT_FLAG_WRITE =? 0
   then resolver start addr 0 buf w else Some (buf, w)) = Some (new, w') ->
  exists s', handle_event resolver u (EvPagefault addr flags) s = Some (true, s') /\
    env s' = w' /\
    page_replaced s s' m u addr (Z.land flags UFFD_PAGEFAULT_FLAG_WRITE) new.
Proof.
  intros Hs Hu Hv Hp Ha Ho Hpg Hbuf E En.
  exists (faulted s m u addr (Z.land flags UFFD_PAGEFAULT_FLAG_WRITE) new w').
  cbn [handle_event].
  rewrite (handle_fault_run resolver resolver_keeps s m u start addr flags buf)
    by done.
  unfold write_back. rewrite Ha, Ho, Hu. cbn [Z.eqb]. rewrite Hpg.
  cbn [mbind option_bind]. rewrite E. cbn [mbind option_bind]. unfold fetched.
  split_and!; [|done|by apply faulted_replaced].
  destruct (op_bit flags) as [Eo|Eo]; rewrite Eo in *; cbn [Z.eqb] in *;
    by rewrite En.
Qed.

(** A page brought in by a read is dropped at the next fault of the
    region without a call of the resolver: whatever the application stored to
    it in the meantime ([pg] is arbitrary) is lost. *)
Theorem stores_to_a_read_page_are_dropped s m u start addr flags a pg buf :
  uffd_inv s m -> uffd_start_addr_map m !! u = Some start ->
  vma (vs s) !! (addr / PAGE_SIZE) = Some (Some u) ->
  present (vs s) !! (addr / PAGE_SIZE) = None ->
  Z.land flags UFFD_PAGEFAULT_FLAG_WRITE = 1 ->
  uffd_prev_resolved_addr m !! u = Some a ->
  uffd_prev_resolved_op m !! u = Some 0 ->
  present (vs s) !! (a / PAGE_SIZE) = Some pg -> page (um s) = Some buf ->
  exists s', handle_event resolver u (EvPagefault addr flags) s = Some (true, s') /\
    env s' = env s /\ present (vs s') !! (a / PAGE_SIZE) = None.
Proof.
  intros Hs Hu Hv Hp Hop Ha Ho Hpg Hbuf.
  exists (faulted s m u addr 1 buf (env s)). cbn [handle_event].
  rewrite (handle_fault_run resolver resolver_keeps s m u start addr flags buf),
    Hop by done.
  unfold write_back. rewrite Ha, Ho, Hu. split_and!; [done|done|].
  cbn. rewrite lookup_insert_ne by congruence.
  unfold evicted. rewrite Ha. apply lookup_delete_eq.
Qed.

(** C9.  A read fault writes the page resolved before back if a write
    brought it in, evicts it, installs what the resolver delivers for the
    faulting address and records that page as read; the pages of other
    regions stay. *)
Theorem read_fault_installs_resolved_page s m u start addr flags w w' buf pg :
  uffd_inv s m -> uffd_start_addr_map m !! u = Some start ->
  vma (vs s) !! (addr / PAGE_SIZE) = Some (Some u) ->
  present (vs s) !! (addr / PAGE_SIZE) = None ->
  Z.land flags UFFD_PAGEFAULT_FLAG_WRITE = 0 -> page (um s) = Some buf ->
  write_back resolver m u s = Some w ->
  resolver start addr 0 buf w = Some (pg, w') ->
  exists s', handle_event resolver u (EvPagefault addr flags) s = Some (true, s') /\
    env s' = w' /\ page (um s') = Some pg /\ page_replaced s s' m u addr 0 pg.
Proof.
  intros Hs Hu Hv Hp Hop Hbuf Hw E. exists (faulted s m u addr 0 pg w').
  cbn [handle_event].
  rewrite (handle_fault_run resolver resolver_keeps s m u start addr flags buf),
    Hop by done.
  rewrite Hw. unfold fetched. cbn [Z.eqb mbind option_bind]. rewrite E.
  split_and!; [done|done|done|by apply faulted_replaced].
Qed.

(** ** Registration *)

(** The thread map after a region at [a] was unregistered: the key erased is
    the thread's id, not the address. *)
Definition threads_after (m : uffd_maps) (a : Z) : gmap Z Z :=
  match addr_tid_map m !! a with
  | Some tid => delete tid (addr_tid_map m)
  | None => addr_tid_map m
  end.

(** C27.  Unregistering a region writes its dirty page back, leaves none of
    its pages in memory, erases it from the two maps of regions and the two
    of resolved pages, cancels its thread, and erases the thread's id (not
    the address) from the thread map; no other entry of any map changes. *)
Theorem unregister_flushes_and_forgets s m a u w :
  uffd_inv s m -> start_addr_uffd_map m !! a = Some u ->
  write_back resolver m u s = Some w ->
  exists s', uffdman_unregister_region resolver a s = Some (tt, s') /\
    env s' = w /\
    maps (um s') = Live (UffdMaps (threads_after m a)
      (delete a (start_addr_uffd_map m)) (delete u (uffd_start_addr_map m))
      (delete u (uffd_prev_resolved_addr m)) (delete u (uffd_prev_resolved_op m))) /\
    cancelled (um s') = cancelled (um s) ++ option_list (addr_tid_map m !! a) /\
    (forall p, vma (vs s') !! p = Some (Some u) -> present (vs s') !! p = None) /\
    (forall p u', vma (vs s) !! p = Some (Some u') -> u' <> u ->
       present (vs s') !! p = present (vs s) !! p).
Proof.
  intros Hs Ha Hw. rewrite (unregister_run s m a u), Hw by done.
  cbn [mbind option_bind]. unfold unregistered, threads_after.
  assert (Hgone : forall p, vma (evicted m u (vs s)) !! p = Some (Some u) ->
            present (evicted m u (vs s)) !! p = None).
  { intros p. rewrite evicted_vma. intros Hv.
    destruct (present (evicted m u (vs s)) !! p) eqn:E; [|done].
    by apply (evicted_present s m u _ _ Hs) in E as [_ ?]. }
  pose proof (fun p u' Hv Hne => evicted_other s m u p u' Hs Hv Hne) as Hrest.
  destruct (addr_tid_map m !! a); (eexists; split; [done|]; cbn;
    split_and!; try done; by rewrite app_nil_r).
Qed.

(** Unregistering erases the key [tid] instead of the address from the
    thread map: the entry of the region survives, so that after a second
    registration at the same address the next unregistration cancels the old
    thread again and never the new one. *)
Theorem unregister_keeps_thread_entry s m a u tid w :
  uffd_inv s m -> start_addr_uffd_map m !! a = Some u ->
  addr_tid_map m !! a = Some tid -> tid <> a ->
  write_back resolver m u s = Some w ->
  exists s' m', uffdman_unregister_region resolver a s = Some (tt, s') /\
    maps (um s') = Live m' /\ addr_tid_map m' !! a = Some tid /\
    cancelled (um s') = cancelled (um s) ++ [tid] /\
    forall tid' u', addr_tid_map (region_maps m' tid' u' a) !! a = Some tid.
Proof.
  intros Hs Ha Ht Hne Hw. rewrite (unregister_run s m a u), Hw by done.
  cbn [mbind option_bind]. eexists. eexists (forget_region m a u _).
  split; [done|]. unfold unregistered. rewrite Ht. cbn.
  assert (E : delete tid (addr_tid_map m) !! a = Some tid)
    by (by rewrite lookup_delete_ne).
  split_and!; [done|done|done|]. intros tid' u'. unfold insert_new. by rewrite E.
Qed.

(** ** Life cycle of the maps *)

(** Initialisation happens once: from the start of the program it
    allocates empty maps, and a second call changes nothing. *)
Theorem uffdman_init_once v (w : W) :
  exists s, uffdman_init (Ust uffdman_start v w) = Some (tt, s) /\
    maps (um s) = Live empty_maps /\ uffdman_init s = Some (tt, s).
Proof. by eexists. Qed.

(** [uffdman_destroy] does not reset [uffd_initialized]: initialising
    again after it leaves the maps dangling, and both registering a region
    and unregistering one are undefined from then on. *)
Theorem init_after_destroy_is_dangling s m e a n :
  maps (um s) = Live m -> uffd_initialized (um s) = true ->
  uffd_ret e <> -1 -> api_ret e <> -1 -> thread_ret e = 0 ->
  is_Some (uffdio_register (vs s) (uffd_ret e) a (ul (n * PAGE_SIZE))) ->
  exists s', (_ ← uffdman_destroy; uffdman_init) s = Some (tt, s') /\
    uffdman_register_region e a n s' = None /\
    uffdman_unregister_region resolver a s' = None.
Proof.
  intros Hm Hi H1 H2 H3 [v Ev]. eexists. split_and!.
  - rewrite run_bind. unfold uffdman_destroy. rewrite run_bind, run_get, Hm.
    rewrite upd_um_run. unfold uffdman_init. rewrite run_bind, run_get.
    cbn [um set_um set_maps uffd_initialized]. by rewrite Hi.
  - unfold uffdman_register_region.
    destruct (Z.eqb_spec (uffd_ret e) (-1)), (Z.eqb_spec (api_ret e) (-1)); try done.
    rewrite run_bind, run_get. cbn [vs set_um]. rewrite Ev, run_bind, run_put, H3.
    cbn [Z.eqb negb]. unfold start_thread. rewrite run_bind, upd_um_run, run_bind.
    unfold get_maps, try_get. cbn [um set_um set_vs set_maps page].
    by destruct (page (um s)).
  - done.
Qed.
End props.

(** ** Witnesses: one region of two pages at page 16, descriptor 3, thread 7,
    and a resolver that logs its calls *)
Definition log_entry : Type := (Z * Z * Z * list byte)%type.

Definition log_resolver (start addr op : Z) (pg : list byte) :
    prog (list log_entry) (list byte) := fun w =>
  Some (if op =? 0 then zero_page else pg, w ++ [(start, addr, op, pg)]).

Lemma log_resolver_len start a op pg w pg' w' :
  log_resolver start a op pg w = Some (pg', w') ->
  length pg = page_len -> length pg' = page_len.
Proof.
  unfold log_resolver. intros [= <- _] Hl. destruct (op =? 0); [|done].
  apply length_zero_page.
Qed.

Definition demo_vmem : vmem := Vmem ∅ (set_range 16 2 None ∅).
Definition demo_registered : vmem := Vmem ∅ (set_range 16 2 (Some 3) (vma demo_vmem)).
Definition demo_env : reg_env := RegEnv 3 0 0 7.
Definition demo_maps : uffd_maps := region_maps empty_maps 7 3 65536.

Definition demo_mapped : ust (list log_entry) := set_vs demo_vmem (ready []).

Definition demo_region : ust (list log_entry) :=
  Ust (set_maps (Live demo_maps) (with_buffer (um (ready (@nil log_entry)))))
    demo_registered [].

Lemma demo_mapped_inv : uffd_inv demo_mapped empty_maps.
Proof.
  apply vmem_inv; [apply ready_inv|by apply map_Forall_empty| |done].
  intros p u. cbn [vma demo_vmem]. rewrite lookup_set_range.
  by case_decide; rewrite ?lookup_empty.
Qed.

Lemma demo_fresh_fd p : vma demo_vmem !! p <> Some (Some 3).
Proof.
  cbn [vma demo_vmem]. rewrite lookup_set_range. case_decide; rewrite ?lookup_empty; done.
Qed.

Lemma demo_free p :
  in_range 65536 (ul (2 * PAGE_SIZE)) p ->
  vma demo_vmem !! p = Some None /\ present demo_vmem !! p = None.
Proof.
  intros Hp. cbn [vma demo_vmem present]. rewrite lookup_set_range.
  assert (16 <= p < 18) by exact Hp. by rewrite decide_True by lia.
Qed.

Lemma demo_region_inv : uffd_inv demo_region demo_maps.
Proof.
  apply (register_inv demo_mapped empty_maps demo_env 65536 2 demo_registered);
    auto using demo_mapped_inv, demo_fresh_fd, demo_free. done.
Qed.

(** A page of the region brought in by a write, or by a read. *)
Definition demo_resolved (op : Z) : ust (list log_entry) :=
  faulted demo_region demo_maps 3 65536 op zero_page [].

Definition demo_resolved_maps (op : Z) : uffd_maps :=
  resolved_maps demo_maps 3 65536 op.

Lemma demo_resolved_inv op :
  op = 0 \/ op = 1 -> uffd_inv (demo_resolved op) (demo_resolved_maps op).
Proof.
  intros Hop. apply (faulted_inv demo_region demo_maps 3 65536);
    auto using demo_region_inv, length_zero_page.
Qed.

Lemma one_page_per_region_witness :
  16 = 16 /\
  exists m, maps (um (demo_resolved 1)) = Live m /\
    uffd_prev_resolved_addr m !! 3 = Some (16 * PAGE_SIZE) /\
    exists op, uffd_prev_resolved_op m !! 3 = Some op.
Proof.
  assert (Hr : rtc (uffd_step log_resolver) (ready []) demo_region).
  { apply rtc_l with demo_mapped.
    - by apply (step_mmap _ (ready []) 8192 65536).
    - apply rtc_once, (step_register _ demo_mapped _ empty_maps demo_env 65536 2 0);
        auto using demo_fresh_fd, demo_free; try done. }
  assert (Hd : rtc (uffd_step log_resolver) (ready []) (demo_resolved 1)).
  { eapply rtc_r; [exact Hr|].
    by apply (step_fault _ demo_region _ demo_maps 3 65536 65536 1 true). }
  apply (one_page_per_region log_resolver log_resolver_len [] (demo_resolved 1) 3
           16 16 Hd); [done|done|by eexists|by eexists].
Defined.

(** Page 17 is faulted in by a read, and by a write, over a dirty page 16. *)
Lemma dirty_page_is_written_back_witness :
  (exists s', handle_event log_resolver 3 (EvPagefault 69637 0) (demo_resolved 1)
      = Some (true, s') /\
    env s' = [(65536, 65536, 1, zero_page); (65536, 69637, 0, zero_page)] /\
    page_replaced (demo_resolved 1) s' (demo_resolved_maps 1) 3 69637 0 zero_page) /\
  exists s', handle_event log_resolver 3 (EvPagefault 69637 1) (demo_resolved 1)
      = Some (true, s') /\
    env s' = [(65536, 65536, 1, zero_page)] /\
    page_replaced (demo_resolved 1) s' (demo_resolved_maps 1) 3 69637 1 zero_page.
Proof.
  split.
  - by apply (dirty_page_is_written_back log_resolver log_resolver_len
      (demo_resolved 1) (demo_resolved_maps 1) 3 65536 69637 0 65536 zero_page
      zero_page [(65536, 65536, 1, zero_page)] zero_page zero_page
      [(65536, 65536, 1, zero_page); (65536, 69637, 0, zero_page)]
      (demo_resolved_inv 1 (or_intror eq_refl))).
  - by apply (dirty_page_is_written_back log_resolver log_resolver_len
      (demo_resolved 1) (demo_resolved_maps 1) 3 65536 69637 1 65536 zero_page
      zero_page [(65536, 65536, 1, zero_page)] zero_page zero_page
      [(65536, 65536, 1, zero_page)] (demo_resolved_inv 1 (or_intror eq_refl))).
Defined.

Lemma stores_to_a_read_page_are_dropped_witness :
  exists s', handle_event log_resolver 3 (EvPagefault 69637 1) (demo_resolved 0)
      = Some (true, s') /\
    env s' = [] /\ present (vs s') !! 16 = None.
Proof.
  by apply (stores_to_a_read_page_are_dropped log_resolver log_resolver_len
    (demo_resolved 0) (demo_resolved_maps 0) 3 65536 69637 1 65536 zero_page
    zero_page (demo_resolved_inv 0 (or_introl eq_refl))).
Defined.

Lemma read_fault_installs_resolved_page_witness :
  exists s', handle_event log_resolver 3 (EvPagefault 69637 0) (demo_resolved 1)
      = Some (true, s') /\
    env s' = [(65536, 65536, 1, zero_page); (65536, 69637, 0, zero_page)] /\
    page (um s') = Some zero_page /\
    page_replaced (demo_resolved 1) s' (demo_resolved_maps 1) 3 69637 0 zero_page.
Proof.
  by apply (read_fault_installs_resolved_page log_resolver log_resolver_len
    (demo_resolved 1) (demo_resolved_maps 1) 3 65536 69637 0
    [(65536, 65536, 1, zero_page)]
    [(65536, 65536, 1, zero_page); (65536, 69637, 0, zero_page)]
    zero_page zero_page (demo_resolved_inv 1 (or_intror eq_refl))).
Defined.

Lemma unregister_flushes_and_forgets_witness :
  exists s', uffdman_unregister_region log_resolver 65536 (demo_resolved 1)
      = Some (tt, s') /\
    env s' = [(65536, 65536, 1, zero_page)] /\
    maps (um s') = Live (UffdMaps (threads_after (demo_resolved_maps 1) 65536)
      (delete 65536 (start_addr_uffd_map (demo_resolved_maps 1)))
      (delete 3 (uffd_start_addr_map (demo_resolved_maps 1)))
      (delete 3 (uffd_prev_resolved_addr (demo_resolved_maps 1)))
      (delete 3 (uffd_prev_resolved_op (demo_resolved_maps 1)))) /\
    cancelled (um s') = [] ++ [7] /\
    (forall p, vma (vs s') !! p = Some (Some 3) -> present (vs s') !! p = None) /\
    (forall p u', vma (vs (demo_resolved 1)) !! p = Some (Some u') -> u' <> 3 ->
       present (vs s') !! p = present (vs (demo_resolved 1)) !! p).
Proof.
  by apply (unregister_flushes_and_forgets log_resolver log_resolver_len
    (demo_resolved 1) (demo_resolved_maps 1) 65536 3
    [(65536, 65536, 1, zero_page)] (demo_resolved_inv 1 (or_intror eq_refl))).
Defined.

Lemma unregister_keeps_thread_entry_witness :
  exists s' m', uffdman_unregister_region log_resolver 65536 (demo_resolved 1)
      = Some (tt, s') /\
    maps (um s') = Live m' /\ addr_tid_map m' !! 65536 = Some 7 /\
    cancelled (um s') = [] ++ [7] /\
    forall tid' u', addr_tid_map (region_maps m' tid' u' 65536) !! 65536 = Some 7.
Proof.
  by apply (unregister_keeps_thread_entry log_resolver log_resolver_len
    (demo_resolved 1) (demo_resolved_maps 1) 65536 3 7
    [(65536, 65536, 1, zero_page)] (demo_resolved_inv 1 (or_intror eq_refl))).
Defined.

Lemma init_after_destroy_is_dangling_witness :
  exists s', (_ ← uffdman_destroy; uffdman_init) demo_mapped = Some (tt, s') /\
    uffdman_register_region demo_env 65536 2 s' = None /\
    uffdman_unregister_region log_resolver 65536 s' = None.
Proof.
  apply (init_after_destroy_is_dangling log_resolver demo_mapped empty_maps
           demo_env 65536 2); [done|done|done|done|done|by eexists].
Defined.
