(* ===== verification/Decimal.v ===== *)
(** * Numbers as text: [print(int)] of rmp_client.cpp, and [atoi]

    The client library writes numbers digit by digit; both programs read
    their port with the C library's [atoi].  What [print] writes is the
    decimal numeral of its argument, [pretty] of stdpp, which [atoi] reads
    back. *)

From Stdlib Require Import Ascii.
From stdpp Require Import strings pretty.
From S2P Require Import Prelude.

(** ** print *)

(** [n % 10 + '0'] for a [n] that is not negative any more. *)
Definition digit_char (n : Z) : ascii := ascii_of_N (Z.to_N (Z.rem n 10 + 48)).

(** What the calls of [write] put out.  [-n] overflows for the least [int];
    [fuel] bounds the depth of the recursion. *)
Fixpoint print_fuel (fuel : nat) (n : Z) : option string :=
  match fuel with
  | O => None
  | S fuel =>
      '(sign, n) ← (if n <? 0 then n ← int_of (- n); Some ("-"%string, n)
                    else Some (""%string, n));
      rest ← (if negb (Z.quot n 10 =? 0) then print_fuel fuel (Z.quot n 10)
              else Some ""%string);
      Some (sign +:+ rest +:+ String (digit_char n) "")
  end.

(** An [int] has at most ten digits. *)
Definition print (n : Z) : option string := print_fuel 10 n.

(** ** atoi *)
Definition is_space (c : ascii) : bool :=
  let k := N_of_ascii c in bool_decide (k = 32 \/ 9 <= k <= 13)%N.

Definition digit_value (c : ascii) : option Z :=
  let k := Z.of_N (N_of_ascii c) in
  if bool_decide (48 <= k <= 57) then Some (k - 48) else None.

(** The digits at the start of [s], after the value [acc]. *)
Fixpoint digits (acc : Z) (s : string) : Z :=
  match s with
  | EmptyString => acc
  | String c s =>
      match digit_value c with
      | Some d => digits (10 * acc + d) s
      | None => acc
      end
  end.

Fixpoint skip_space (s : string) : string :=
  match s with
  | String c s' => if is_space c then skip_space s' else s
  | EmptyString => s
  end.

(** [atoi]: undefined when the value is not an [int]. *)
Definition atoi (s : string) : option Z :=
  match skip_space s with
  | String "-" s => int_of (- digits 0 s)
  | String "+" s => int_of (digits 0 s)
  | s => int_of (digits 0 s)
  end.

Example atoi_port : atoi " 6768x" = Some 6768.
Proof. reflexivity. Qed.

Example print_negative : print (-120) = Some "-120"%string.
Proof. reflexivity. Qed.

(** ** print writes the decimal numeral *)

(** The ten cases of a digit [d] below 10. *)
Ltac digit_cases d :=
  assert (d = 0 \/ d = 1 \/ d = 2 \/ d = 3 \/ d = 4 \/ d = 5 \/ d = 6 \/ d = 7
          \/ d = 8 \/ d = 9)%N as Hc by lia;
  repeat destruct Hc as [->|Hc]; subst.

Lemma pretty_N_char_digit (d : N) :
  (d < 10)%N ->
  ascii_of_N (d + 48) = pretty_N_char d /\
  digit_value (pretty_N_char d) = Some (Z.of_N d) /\
  is_space (pretty_N_char d) = false.
Proof.
  intros Hd. by digit_cases d.
Qed.

Lemma digit_char_N (n : N) : digit_char (Z.of_N n) = pretty_N_char (n mod 10).
Proof.
  assert (Hd : (n mod 10 < 10)%N) by (by apply N.mod_lt).
  rewrite <- (proj1 (pretty_N_char_digit _ Hd)). unfold digit_char. f_equal.
  change 10 with (Z.of_N 10). rewrite Z.rem_mod_nonneg, <- N2Z.inj_mod by lia.
  generalize (n mod 10)%N. lia.
Qed.

Lemma pretty_N_go_app (n : N) : forall s t,
  pretty_N_go n (s +:+ t) = pretty_N_go n s +:+ t.
Proof.
  induction (N.lt_wf_0 n) as [n _ IH]. intros s t.
  destruct (decide (n = 0)%N) as [->|Hn]; [done|].
  rewrite !(pretty_N_go_step n) by lia. by rewrite <- IH by (apply N.div_lt; lia).
Qed.

(** One digit more at the end. *)
Lemma pretty_N_snoc (n : N) :
  (10 <= n)%N -> pretty n = pretty (n / 10)%N +:+ String (pretty_N_char (n mod 10)) "".
Proof.
  intros Hn. assert (0 < n / 10)%N by (apply N.div_str_pos; lia).
  unfold pretty, pretty_N. rewrite !decide_False by lia.
  rewrite (pretty_N_go_step n) by lia. by rewrite <- pretty_N_go_app.
Qed.

Lemma pretty_N_digit (n : N) :
  (n < 10)%N -> pretty n = String (pretty_N_char (n mod 10)) "".
Proof.
  intros Hn. by digit_cases n.
Qed.

(** A call on a number that is not negative. *)
Lemma print_fuel_S fuel (n : N) :
  print_fuel (S fuel) (Z.of_N n) =
    (rest ← (if bool_decide (n < 10)%N then Some ""%string
             else print_fuel fuel (Z.of_N (n / 10)));
     Some (rest +:+ String (pretty_N_char (n mod 10)) "")).
Proof.
  cbn [print_fuel]. destruct (Z.ltb_spec (Z.of_N n) 0); [lia|].
  cbn [mbind option_bind]. change 10 with (Z.of_N 10).
  rewrite <- N2Z.inj_quot, digit_char_N. case_bool_decide as Hn.
  - by rewrite N.div_small.
  - assert (0 < n / 10)%N by (apply N.div_str_pos; lia).
    by rewrite (proj2 (Z.eqb_neq _ _)) by lia.
Qed.

Lemma print_natural fuel : forall n : N,
  (n < 10 ^ N.of_nat (S fuel))%N -> print_fuel (S fuel) (Z.of_N n) = Some (pretty n).
Proof.
  induction fuel as [|fuel IH]; intros n Hn; rewrite print_fuel_S;
    case_bool_decide as Hs; try by rewrite (pretty_N_digit n).
  rewrite IH, (pretty_N_snoc n); [done|lia|].
  apply N.Div0.div_lt_upper_bound.
  by rewrite <- N.pow_succ_r', <- Nat2N.inj_succ.
Qed.

(** A negative number is its sign and a number without one. *)
Lemma print_minus fuel n :
  - 2 ^ 31 < n < 0 -> print_fuel (S fuel) n = String.append "-" <$> print_fuel (S fuel) (- n).
Proof.
  intros Hn. cbn [print_fuel].
  rewrite (proj2 (Z.ltb_lt n 0)), (proj2 (Z.ltb_ge (- n) 0)) by lia.
  rewrite int_of_small by lia. cbn [mbind option_bind].
  by destruct (if negb _ then _ else _).
Qed.

Lemma print_int n : - 2 ^ 31 < n < 2 ^ 31 -> print n = Some (pretty n).
Proof.
  intros Hn. unfold print. destruct n as [|q|q]; [done| |].
  - apply (print_natural 9 (N.pos q)). change (10 ^ N.of_nat 10)%N with 10000000000%N. lia.
  - rewrite print_minus by lia. change (- Z.neg q) with (Z.of_N (N.pos q)).
    rewrite print_natural; [done|]. change (10 ^ N.of_nat 10)%N with 10000000000%N. lia.
Qed.

(** ** atoi reads it back *)
Lemma digits_pretty (n : N) : forall s, digits 0 (pretty_N_go n s) = digits (Z.of_N n) s.
Proof.
  induction (N.lt_wf_0 n) as [n _ IH]. intros s.
  destruct (decide (n = 0)%N) as [->|Hn]; [done|].
  rewrite pretty_N_go_step, IH by (try apply N.div_lt; lia). cbn [digits].
  rewrite (proj1 (proj2 (pretty_N_char_digit (n mod 10) ltac:(by apply N.mod_lt)))).
  f_equal. rewrite N2Z.inj_div, N2Z.inj_mod. symmetry. apply Z.div_mod. lia.
Qed.

Lemma pretty_N_head (n : N) : forall s, (0 < n)%N ->
  exists d s', (d < 10)%N /\ pretty_N_go n s = String (pretty_N_char d) s'.
Proof.
  induction (N.lt_wf_0 n) as [n _ IH]. intros s Hn. rewrite pretty_N_go_step by done.
  destruct (decide (n / 10 = 0)%N) as [->|Hd].
  - exists (n mod 10)%N, s. split; [by apply N.mod_lt|done].
  - apply IH; [by apply N.div_lt|by apply N.neq_0_lt_0].
Qed.

(** No sign, no space: [atoi] goes straight to the digits. *)
Lemma atoi_digit d s : (d < 10)%N ->
  atoi (String (pretty_N_char d) s) = int_of (digits 0 (String (pretty_N_char d) s)).
Proof.
  intros Hd. unfold atoi. cbn [skip_space].
  rewrite (proj2 (proj2 (pretty_N_char_digit d Hd))).
  by digit_cases d.
Qed.

(** The numeral of a positive number, with and without a sign. *)
Lemma digits_numeral (q : positive) : digits 0 (pretty q) = Z.pos q.
Proof. exact (digits_pretty (N.pos q) ""). Qed.

Lemma atoi_numeral (q : positive) :
  atoi (pretty q) = int_of (Z.pos q).
Proof.
  destruct (pretty_N_head (N.pos q) "" ltac:(done)) as (d & s & Hd & E).
  rewrite <- (digits_numeral q). change (pretty q) with (pretty_N_go (N.pos q) "").
  rewrite E. by apply atoi_digit.
Qed.

Lemma atoi_pretty n : atoi (pretty n) = int_of n.
Proof.
  destruct n as [|q|q]; [done|apply atoi_numeral|].
  change (atoi (pretty (Z.neg q))) with (int_of (- digits 0 (pretty q))).
  by rewrite digits_numeral.
Qed.

(** [print] writes the decimal numeral of every [int] but the least, for
    which it has no defined result however deep it recurses; and [atoi] reads
    back the number that was printed. *)
Theorem print_is_decimal n :
  - 2 ^ 31 <= n < 2 ^ 31 ->
  (n = - 2 ^ 31 -> forall fuel, print_fuel fuel n = None) /\
  (n <> - 2 ^ 31 -> print n = Some (pretty n) /\ (s ← print n; atoi s) = Some n).
Proof.
  intros Hn. split.
  - by intros -> [|fuel].
  - intros Hm. rewrite print_int by lia. split; [done|]. cbn [mbind option_bind].
    by rewrite atoi_pretty, int_of_small.
Qed.

Lemma print_is_decimal_witness :
  (-2147483647 = - 2 ^ 31 -> forall fuel, print_fuel fuel (-2147483647) = None) /\
  (-2147483647 <> - 2 ^ 31 ->
     print (-2147483647) = Some "-2147483647"%string /\
     (s ← print (-2147483647); atoi s) = Some (-2147483647)).
Proof. apply (print_is_decimal (-2147483647)). lia. Defined.
