(* ===== verification/Address.v ===== *)
(** * Where the programs meet: addresses and ports

    The server listens on the address of its arguments, the demo client
    connects to the one of its own, and the preloaded library to a fixed one.
    [inet_addr] and [htons] belong to the system and are parameters; their
    arguments are converted here, as the types of the code convert them: a
    port is an [int] from [atoi], an [unsigned long] in [rmp::config], and 16
    bits wide in the socket address. *)

From stdpp Require Import strings.
From S2P Require Import Prelude Decimal.

(** [rmp::config] *)
Record config := Config { addr : string; port : Z }.

(** [rmp::Client]: the counter and the vector are never used. *)
Record client_object := ClientObject {
  handle_count : Z;
  server_config : config;
  handles : list Z;
}.

(** [Client::Client] *)
Definition new_client (cnf : config) : client_object := ClientObject 0 cnf [].

Record sockaddr_in := SockAddr { sin_addr : Z; sin_port : Z }.

Definition u16 (z : Z) : Z := z mod 2 ^ 16.

(** The configuration of the preloaded library. *)
Definition preload_config : config := Config "127.0.0.1" 6768.

(** That of the demo client: the [int] becomes an [unsigned long]. *)
Definition demo_config (ip p : string) : option config :=
  z ← atoi p; Some (Config ip (ul z)).

Section address.
Context (inet_addr : string -> Z) (htons : Z -> Z).

(** [rmp_init]: what it connects to. *)
Definition client_address (c : client_object) : sockaddr_in :=
  SockAddr (inet_addr (addr (server_config c))) (htons (u16 (port (server_config c)))).

(** [main] of the server: what it binds. *)
Definition server_address (ip p : string) : option sockaddr_in :=
  z ← atoi p; Some (SockAddr (inet_addr ip) (htons (u16 z))).

Lemma u16_ul z : u16 (ul z) = u16 z.
Proof.
  unfold u16, ul. change (2 ^ 64) with (2 ^ 16 * 2 ^ 48).
  rewrite Z.rem_mul_r by lia. rewrite (Z.mul_comm (2 ^ 16)), Z.mod_add by lia.
  by rewrite Z.mod_mod.
Qed.

(** C40.  A client and a server that are given the same arguments meet: the
    client connects to the address the server binds.  The preloaded library
    meets a server on its host exactly when the port that server was given is
    6768, up to a multiple of 65536. *)
Theorem client_connects_where_server_listens ip p :
  (forall x y, htons (u16 x) = htons (u16 y) -> u16 x = u16 y) ->
  server_address ip p = (client_address ∘ new_client) <$> demo_config ip p /\
  (server_address (addr preload_config) p =
     Some (client_address (new_client preload_config)) <->
   exists z k, atoi p = Some z /\ z = 6768 + 65536 * k).
Proof.
  intros Hh. unfold server_address, demo_config. split.
  - destruct (atoi p) as [z|]; [|done]. cbn. unfold client_address. cbn.
    by rewrite u16_ul.
  - unfold client_address, preload_config. cbn [addr port server_config new_client].
    destruct (atoi p) as [z|]; cbn [mbind option_bind]; split; try done.
    + intros [= E%Hh]. exists z, (z / 65536). split; [done|].
      change (z mod 65536 = 6768) in E.
      rewrite (Z.div_mod z 65536) at 1 by done. rewrite E. lia.
    + intros (z' & k & [= <-] & ->). unfold u16. do 3 f_equal.
      rewrite Z.mul_comm. change 65536 with (2 ^ 16). apply Z.mod_add. lia.
    + intros (z & k & [=] & _).
Qed.
End address.

(** The bytes of a port, swapped. *)
Definition swap16 (z : Z) : Z := z mod 256 * 256 + z / 256.

Lemma client_connects_where_server_listens_witness :
  server_address (fun _ => 0) swap16 "127.0.0.1" "6768" =
    (client_address (fun _ => 0) swap16 ∘ new_client) <$> demo_config "127.0.0.1" "6768" /\
  (server_address (fun _ => 0) swap16 (addr preload_config) "6768" =
     Some (client_address (fun _ => 0) swap16 (new_client preload_config)) <->
   exists z k, atoi "6768" = Some z /\ z = 6768 + 65536 * k).
Proof.
  apply (client_connects_where_server_listens (fun _ => 0) swap16 "127.0.0.1" "6768").
  intros x y. unfold swap16, u16.
  pose proof (Z.mod_pos_bound x (2 ^ 16)). pose proof (Z.mod_pos_bound y (2 ^ 16)).
  generalize dependent (x mod 2 ^ 16). generalize dependent (y mod 2 ^ 16).
  intros b Hb a Ha E.
  pose proof (Z.div_mod a 256). pose proof (Z.div_mod b 256).
  pose proof (Z.mod_pos_bound a 256). pose proof (Z.mod_pos_bound b 256).
  assert (a / 256 < 256) by (apply Z.div_lt_upper_bound; lia).
  assert (b / 256 < 256) by (apply Z.div_lt_upper_bound; lia).
  assert (0 <= a / 256) by (apply Z.div_pos; lia).
  assert (0 <= b / 256) by (apply Z.div_pos; lia).
  assert (a mod 256 = b mod 256) by lia. lia.
Defined.
