(* ===== verification/Client.v ===== *)
(** * The client library: rmp_client.cpp

    The globals of the client, the two requests that move a page, the page
    fault resolver, connection set-up and allocation.  The server is whatever
    implements [PageServer] (Pool.v); the userfaultfd manager and the address
    space are those of Uffd.v.  Packets are automatic variables: the fields
    the code does not assign hold the bytes that happen to be on the stack,
    the parameter [stack]. *)

From S2P Require Import Prelude OS Packet Pool Vm Uffd.

(** ** State *)
Record client (W : Type) := Client {
  socketfd : Z;
  connected : bool;
  addr_hndl_map : option (gmap Z Z);     (* null before [rmp_init] *)
  addr_npages_map : option (gmap Z Z);
  remote : W;                            (* the server at the other end *)
}.
Arguments Client {W}.
Arguments socketfd {W}.
Arguments connected {W}.
Arguments addr_hndl_map {W}.
Arguments addr_npages_map {W}.
Arguments remote {W}.

(** The globals as the program starts. *)
Definition client_start {W} (w : W) : client W := Client 0 false None None w.

(** [MAP_FAILED] is [(void * )-1]. *)
Definition MAP_FAILED : Z := 2 ^ 64 - 1.

Section client.
Context {V : VM} {W : Type} {PS : PageServer W}.
Context (stack : packet).

(** The packets [rmp_write_page], [rmp_read_page] and [rmp_alloc] build: what
    they do not assign is what is on the stack. *)
Definition write_request (hd offset : Z) (page : list byte) : packet :=
  Packet hd (npages stack) (u32 PAGE_SIZE) (u32 offset) 2 page 0.

Definition read_request (hd offset : Z) : packet :=
  Packet hd (npages stack) (u32 PAGE_SIZE) (u32 offset) 1 (data stack) 0.

Definition alloc_request (n : Z) : packet :=
  Packet (hndl stack) n (u32 PAGE_SIZE) (offset stack) 0 (data stack) (error stack).

(** [send] the packet, [recv] the reply into another. *)
Definition exchange (p : packet) : prog (client W) packet := fun c =>
  match rpc p (remote c) with
  | Some (r, w) =>
      Some (r, Client (socketfd c) (connected c) (addr_hndl_map c)
                 (addr_npages_map c) w)
  | None => None
  end.

Definition rmp_write_page (hd offset : Z) (page : list byte) :
    prog (client W) unit :=
  c ← get;
  if negb (connected c) then mret tt
  else
    _ ← exchange (write_request hd offset page);
    mret tt.

(** The page after the call: the data of the reply, whatever its error. *)
Definition rmp_read_page (hd offset : Z) (page : list byte) :
    prog (client W) (list byte) :=
  c ← get;
  if negb (connected c) then mret page
  else
    return_pkt ← exchange (read_request hd offset);
    mret (data return_pkt).

(** [offset / PAGE_SIZE] is exact as a [double], so [floor] changes nothing.
    [at] throws for an unknown region. *)
Definition rmp_pagefault_resovler (start_addr faulting_addr is_write : Z)
    (page : list byte) : prog (client W) (list byte) :=
  let offset := ul (PGROUNDDOWN faulting_addr - start_addr) in
  let page_offset := offset / PAGE_SIZE in
  hndl ← try_get (fun c => m ← addr_hndl_map c; m !! start_addr);
  if negb (is_write =? 0) then
    _ ← rmp_write_page hndl page_offset page;
    mret page
  else rmp_read_page hndl page_offset page.

(** ** rmp::Client *)

(** The answers of [socket] and [connect]. *)
Record conn_env := ConnEnv { socket_ret : Z; connect_ret : Z }.

Definition upd_env (f : client W -> client W) : prog (ust (client W)) unit :=
  modify (fun s => set_env (f (env s)) s).

Definition rmp_init (e : conn_env) : prog (ust (client W)) Z :=
  _ ← upd_env (fun c => Client (socket_ret e) (connected c) (addr_hndl_map c)
                          (addr_npages_map c) (remote c));
  if socket_ret e <? 0 then mret (-1)
  else if connect_ret e <? 0 then mret (-1)
  else
    _ ← upd_env (fun c => Client (socketfd c) true (addr_hndl_map c)
                            (addr_npages_map c) (remote c));
    if socket_ret e =? -1 then mret (-1)
    else
      _ ← uffdman_init;
      _ ← uffdman_register_page_resolver;
      _ ← upd_env (fun c => Client (socketfd c) (connected c) (Some ∅) (Some ∅)
                              (remote c));
      mret 0.

(** Run a client operation inside the process. *)
Definition in_env {A} (p : prog (client W) A) : prog (ust (client W)) A := fun s =>
  match p (env s) with Some (x, c) => Some (x, set_env c s) | None => None end.

(** [rmp_alloc]: the reply's error is not looked at, nor is the result of the
    registration; the maps are dereferenced at the end. *)
Definition rmp_alloc (e : reg_env) (n : Z) : prog (ust (client W)) Z :=
  let size := n * PAGE_SIZE in
  s ← get;
  match vm_mmap (vs s) size with
  | None => mret MAP_FAILED
  | Some (new_addr, v) =>
      _ ← put (set_vs v s);
      if negb (connected (env s)) then mret 0
      else
        return_pkt ← in_env (exchange (alloc_request n));
        _ ← uffdman_register_region e new_addr n;
        ms ← try_get (fun s => h ← addr_hndl_map (env s);
                               k ← addr_npages_map (env s); Some (h, k));
        _ ← upd_env (fun c =>
              Client (socketfd c) (connected c)
                (Some (insert_new new_addr (hndl return_pkt) ms.1))
                (Some (insert_new new_addr n ms.2)) (remote c));
        mret new_addr
  end.

(** [rmp_free] has an empty body but a result: running it is undefined. *)
Definition rmp_free (h : Z) : prog (ust (client W)) Z := fun _ => None.

Definition rmp_read (hd offset : Z) (page : list byte) :
    prog (client W) (list byte) := rmp_read_page hd offset page.

Definition rmp_write (hd offset : Z) (page : list byte) : prog (client W) unit :=
  rmp_write_page hd offset page.
End client.
