(* ===== verification/System.v ===== *)
(** * The whole system: an application on remote memory

    The client process (application, client library, userfaultfd manager)
    against a page server.  An access of the application to a page that is
    not in memory runs a round of the region's fault handler with the client's
    page fault resolver, and then goes through.  [flat_access] is what the
    application should see: an ordinary memory, as long as it keeps to the
    discipline off-by-one invalidation needs (below). *)

From S2P Require Import Prelude OS Packet Pool Vm Uffd UffdCorrect Client.

(** An access inside one page. *)
Inductive access :=
  | Load (addr : Z) (n : nat)
  | Store (addr : Z) (bs : list byte).

Definition access_addr (x : access) : Z :=
  match x with Load addr _ | Store addr _ => addr end.

Definition page_of (addr : Z) : Z := addr / PAGE_SIZE.
Definition offset_in (addr : Z) : nat := Z.to_nat (addr mod PAGE_SIZE).

Section system.
Context {V : VM} {W : Type} {PS : PageServer W}.
Context (stack : packet).

(** Make the page of [addr] present, as the hardware, the kernel and the
    fault handler of the region do it. *)
Definition touch (addr : Z) (is_write : bool) : prog (ust (client W)) unit :=
  s ← (get : prog (ust (client W)) _);
  match present (vs s) !! page_of addr, vma (vs s) !! page_of addr
  return prog (ust (client W)) unit with
  | Some _, _ => mret tt
  | None, Some None =>
      put (set_vs (Vmem (<[page_of addr := zero_page]> (present (vs s)))
                     (vma (vs s))) s)
  | None, Some (Some u) =>
      continue ← handle_event (rmp_pagefault_resovler stack) u
                   (EvPagefault addr (if is_write then 1 else 0));
      if (continue : bool) then mret tt else fun _ => None
  | None, None => fun _ => None
  end.

Definition run_access (a : access) : prog (ust (client W)) (list byte) :=
  match a with
  | Load addr n =>
      _ ← touch addr false;
      try_get (fun s => load (present (vs s)) addr n)
  | Store addr bs =>
      _ ← touch addr true;
      _ ← try_put (fun s => pr ← store (present (vs s)) addr bs;
                            Some (set_vs (Vmem pr (vma (vs s))) s));
      mret []
  end.

Fixpoint run_accesses (tr : list access) :
    prog (ust (client W)) (list (list byte)) :=
  match tr with
  | [] => mret []
  | a :: tr => v ← run_access a; vs ← run_accesses tr; mret (v :: vs)
  end.
End system.

(** ** What the application should see

    An ordinary memory of pages, where a byte is known or not: [None] is a byte
    whose value nothing is promised about.  [mode] is the page each region
    accessed last, and whether the access that brought it in was a write.  A
    load is allowed from known bytes.  A store is allowed to a page that a
    write brought in; a store that brings its page in makes the other bytes of
    the page unknown (a write fault does not fetch the old contents); a store
    to the current page of a region that a load brought in is not allowed (the
    page is dropped without being written back). *)
Record flat := Flat {
  owner : gmap Z Z;                        (* page -> descriptor of its region *)
  contents : gmap Z (list (option byte));
  mode : gmap Z (Z * bool);
}.

Definition in_page (addr : Z) (n : nat) : bool :=
  bool_decide (offset_in addr + n <= page_len)%nat.

(** [bs] over the elements of [c] from [o] on. *)
Definition overlay_at {A} (o : nat) (bs c : list A) : list A :=
  take o c ++ bs ++ drop (o + length bs) c.

Definition known (c : list byte) : list (option byte) := Some <$> c.

Definition unknown_page : list (option byte) := replicate page_len None.

(** The page [c] is one of those [x] describes. *)
Definition matches (x : list (option byte)) (c : list byte) : Prop :=
  Forall2 (fun k b => k = None \/ k = Some b) x c.

(** How the page [p] is resident, if it is its region's current page. *)
Definition current (f : flat) (u p : Z) : option bool :=
  '(q, w) ← mode f !! u; if decide (q = p) then Some w else None.

Definition enter (u p : Z) (w : bool) (f : flat) : flat :=
  match current f u p with
  | Some _ => f
  | None => Flat (owner f) (contents f) (<[u := (p, w)]> (mode f))
  end.

Definition write_contents (p : Z) (c : list (option byte)) (f : flat) : flat :=
  Flat (owner f) (<[p := c]> (contents f)) (mode f).

Definition flat_access (a : access) (f : flat) : option (list byte * flat) :=
  match a with
  | Load addr n =>
      let p := page_of addr in
      u ← owner f !! p;
      c ← contents f !! p;
      if in_page addr n then
        bs ← mapM id (take n (drop (offset_in addr) c));
        Some (bs, enter u p false f)
      else None
  | Store addr bs =>
      let p := page_of addr in
      u ← owner f !! p;
      c ← contents f !! p;
      if in_page addr (length bs) then
        base ← match current f u p with
               | Some true => Some c
               | Some false => None
               | None => Some unknown_page
               end;
        Some ([], write_contents p (overlay_at (offset_in addr) (known bs) base)
                    (enter u p true f))
      else None
  end.

Fixpoint flat_accesses (tr : list access) (f : flat) :
    option (list (list byte) * flat) :=
  match tr with
  | [] => Some ([], f)
  | a :: tr =>
      '(v, f) ← flat_access a f;
      '(vs, f) ← flat_accesses tr f;
      Some (v :: vs, f)
  end.

(** ** Facts about partly known pages *)
Lemma matches_known c : matches (known c) c.
Proof. induction c; constructor; auto. Qed.

Lemma matches_unknown c : length c = page_len -> matches unknown_page c.
Proof.
  unfold unknown_page. intros <-. induction c; constructor; auto.
Qed.

Lemma matches_known_eq c d : matches (known c) d -> c = d.
Proof.
  unfold matches, known. rewrite Forall2_fmap_l. intros H.
  induction H as [|b b' c d [|[= ->]] _ ->]; done.
Qed.

Lemma matches_len x c : matches x c -> length x = length c.
Proof. apply Forall2_length. Qed.

Lemma matches_overlay o bs x c :
  matches x c -> matches (overlay_at o (known bs) x) (overlay_at o bs c).
Proof.
  intros H. unfold overlay_at, known. rewrite length_fmap.
  apply Forall2_app; [by apply Forall2_take|].
  apply Forall2_app; [apply matches_known|by apply Forall2_drop].
Qed.

(** Known bytes are what the page holds. *)
Lemma matches_mapM x c bs : matches x c -> mapM id x = Some bs -> c = bs.
Proof.
  intros H. revert bs. induction H as [|k b x c Hk H IH]; intros bs.
  { by intros [= <-]. }
  cbn. destruct k as [k|]; [|done]. cbn.
  destruct (mapM id x) as [bs'|] eqn:E; [|done]. cbn. intros [= <-].
  rewrite (IH bs' eq_refl). by destruct Hk as [|[= ->]].
Qed.

Lemma mapM_known bs : mapM id (known bs) = Some bs.
Proof.
  induction bs as [|b bs IH]; [done|].
  change (mapM id (known (b :: bs))) with
    (y ← Some b; k ← mapM id (known bs); Some (y :: k)).
  by rewrite IH.
Qed.

Lemma mapM_known_slice o n bs :
  mapM id (take n (drop o (known bs))) = Some (take n (drop o bs)).
Proof.
  unfold known. rewrite <- fmap_drop, <- fmap_take. apply mapM_known.
Qed.

Lemma matches_slice x c o n bs :
  matches x c -> mapM id (take n (drop o x)) = Some bs -> take n (drop o c) = bs.
Proof.
  intros H. apply matches_mapM. by apply Forall2_take, Forall2_drop.
Qed.

Lemma overlay_at_len {A} o (bs c : list A) :
  (o + length bs <= length c)%nat -> length (overlay_at o bs c) = length c.
Proof.
  intros H. unfold overlay_at. rewrite !length_app, length_take, length_drop. lia.
Qed.
