(* ===== verification/SystemCorrect.v ===== *)
(** * Remote memory is memory

    The relation between the system and the flat memory, the effect of the
    page fault resolver on the pool, and the refinement: every access the
    discipline allows goes through and returns what the flat memory holds. *)

From S2P Require Import Prelude OS Packet Pool Vm Uffd UffdCorrect Client System.

Section relation.
Context {W : Type} {PS : PageServer W}.

(** The page [p] belongs to the region of descriptor [u], and is the page
    [o] of the handle [h] on the server. *)
Definition home (v : vmem) (m : uffd_maps) (H : gmap Z Z) (p u h o : Z) : Prop :=
  vma v !! p = Some (Some u) /\
  exists start, uffd_start_addr_map m !! u = Some start /\
    start mod PAGE_SIZE = 0 /\ 0 < start /\ H !! start = Some h /\
    p = start / PAGE_SIZE + o /\ 0 <= o < 2 ^ 32.

Record coherent (s : ust (client W)) (f : flat) (m : uffd_maps)
    (H : gmap Z Z) (P : pool) : Prop := {
  co_inv : uffd_inv s m;
  co_connected : connected (env s) = true;
  co_map : addr_hndl_map (env s) = Some H;
  co_npages : is_Some (addr_npages_map (env s));
  co_buffer : from_option (fun pg => length pg = page_len) True (page (um s));
  co_holds : holds (remote (env s)) P;
  co_next : next P + 1 < 2 ^ 32;
  co_next_nonneg : 0 <= next P;
  co_handle a h : H !! a = Some h -> 0 <= h < next P;
  co_inj a b h : H !! a = Some h -> H !! b = Some h -> a = b;
  (** region addresses are addresses of mappings *)
  co_keys a : is_Some (start_addr_uffd_map m !! a) \/ is_Some (H !! a) ->
              is_Some (vma (vs s) !! (a / PAGE_SIZE));
  (** the page resolved last, and how *)
  co_mode u :
    mode f !! u =
      (fun a => (a / PAGE_SIZE,
                 bool_decide ((uffd_prev_resolved_op m !! u) = Some 1)))
      <$> uffd_prev_resolved_addr m !! u;
  (** every registered page belongs to its region *)
  co_owner p u : vma (vs s) !! p = Some (Some u) -> owner f !! p = Some u;
  (** a page holds what is in memory, else what is on the server *)
  co_page p u :
    owner f !! p = Some u ->
    exists h o c x, home (vs s) m H p u h o /\ pool_page P h o = Some c /\
      length c = page_len /\ contents f !! p = Some x /\
      matches x (default c (present (vs s) !! p)) /\
      (mode f !! u = Some (p, false) -> present (vs s) !! p = Some c);
}.

Lemma co_range s f m H P a h :
  coherent s f m H P -> H !! a = Some h -> is_u32 h.
Proof.
  intros Hc Ha. pose proof (co_handle _ _ _ _ _ Hc a h Ha).
  pose proof (co_next _ _ _ _ _ Hc). mlia.
Qed.

Lemma home_fun v m H p u h o u' h' o' :
  home v m H p u h o -> home v m H p u' h' o' -> u' = u /\ h' = h /\ o' = o.
Proof.
  intros (Hv & a & Ha & _ & _ & Hh & Hp & _) (Hv' & b & Hb & _ & _ & Hh' & Hp' & _).
  simplify_eq. split_and!; [done..|lia].
Qed.

Lemma home_inj v m H p u h o p' u' :
  (forall a b h, H !! a = Some h -> H !! b = Some h -> a = b) ->
  home v m H p u h o -> home v m H p' u' h o -> p = p'.
Proof.
  intros Hinj (_ & a & _ & _ & _ & Ha & -> & _) (_ & b & _ & _ & _ & Hb & -> & _).
  by rewrite (Hinj a b h Ha Hb).
Qed.
End relation.

(** ** The resolver *)
Section resolver.
Context {W : Type} {PS : PageServer W}.
Context (stack : packet) (Hstack : wf_packet stack).

Definition set_remote (w : W) (c : client W) : client W :=
  Client (socketfd c) (connected c) (addr_hndl_map c) (addr_npages_map c) w.

Lemma page_offset addr start o :
  start mod PAGE_SIZE = 0 -> addr / PAGE_SIZE = start / PAGE_SIZE + o ->
  0 <= o < 2 ^ 32 -> ul (PGROUNDDOWN addr - start) / PAGE_SIZE = o.
Proof.
  intros Hs Ha Ho. rewrite PGROUNDDOWN_spec, Ha.
  rewrite <- (aligned_div start Hs) at 2.
  replace ((start / PAGE_SIZE + o) * PAGE_SIZE - start / PAGE_SIZE * PAGE_SIZE)
    with (o * PAGE_SIZE) by lia.
  rewrite ul_small by mlia. apply Z.div_mul. mlia.
Qed.

(** The two requests of the client are requests of the protocol. *)
Lemma page_request_ok h o act d :
  is_u32 h -> 0 <= o < 2 ^ 32 -> act = 1 \/ act = 2 -> length d = page_len ->
  request_ok (Packet h (npages stack) (u32 PAGE_SIZE) (u32 o) act d 0).
Proof.
  intros Hh Ho Hact Hd. split; [split|..]; cbn; try done; try apply u32_range.
  - mlia.
  - apply (wf_npages _ Hstack).
  - by destruct Hact as [-> | ->].
  - by destruct Hact as [-> | ->].
Qed.

Lemma honest_write_request P h o pg :
  is_u32 h -> is_u32 o -> length pg = page_len -> next P + 1 < 2 ^ 32 ->
  honest P (write_request stack h o pg).
Proof. intros Hh Ho Hl Hn. split; [|done]. by apply page_request_ok; auto. Qed.

Lemma honest_read_request P h o :
  is_u32 h -> is_u32 o -> next P + 1 < 2 ^ 32 -> honest P (read_request stack h o).
Proof.
  intros Hh Ho Hn. split; [|done].
  apply page_request_ok; auto. apply (wf_data _ Hstack).
Qed.

Lemma resolve_read v m H P c p u h o start addr buf d :
  home v m H p u h o -> uffd_start_addr_map m !! u = Some start ->
  addr / PAGE_SIZE = p -> connected c = true -> addr_hndl_map c = Some H ->
  holds (remote c) P -> next P + 1 < 2 ^ 32 -> is_u32 h ->
  pool_page P h o = Some d ->
  exists w, rmp_pagefault_resovler stack start addr 0 buf c
              = Some (d, set_remote w c) /\ holds w P.
Proof.
  intros (_ & a & Ha & Hal & _ & Hh & Hp & Ho) Hst Hpg Hc Hm Hw Hn Hu Hd.
  assert (a = start) as -> by congruence.
  set (q := read_request stack h o).
  destruct (rpc_step (remote c) P q Hw) as (r & w & P' & E & Hs & Hw').
  { split; [|done]. apply page_request_ok; auto. apply (wf_data _ Hstack). }
  assert (Hoff : offset q = o) by (apply u32_small; mlia).
  apply (pool_step_read _ _ _ _ d) in Hs as [-> ->]; cbn [action q hndl read_request write_request];
    rewrite ?Hoff; try done; try lia.
  exists w. split; [|done]. unfold rmp_pagefault_resovler.
  rewrite (page_offset addr start o) by (done || lia).
  rewrite run_bind. unfold try_get. rewrite Hm. cbn [mbind option_bind].
  rewrite Hh. cbn [Z.eqb negb]. unfold rmp_read_page. rewrite run_bind.
  unfold get. rewrite Hc. cbn [negb]. rewrite run_bind. unfold exchange.
  fold q. by rewrite E.
Qed.

Lemma resolve_write v m H P c p u h o start addr pg d :
  home v m H p u h o -> uffd_start_addr_map m !! u = Some start ->
  addr / PAGE_SIZE = p -> connected c = true -> addr_hndl_map c = Some H ->
  holds (remote c) P -> next P + 1 < 2 ^ 32 -> is_u32 h ->
  pool_page P h o = Some d -> length pg = page_len ->
  exists w, rmp_pagefault_resovler stack start addr 1 pg c
              = Some (pg, set_remote w c) /\ holds w (pool_write h o pg P).
Proof.
  intros (_ & a & Ha & Hal & _ & Hh & Hp & Ho) Hst Hpg Hc Hm Hw Hn Hu Hd Hl.
  assert (a = start) as -> by congruence.
  set (q := write_request stack h o pg).
  destruct (rpc_step (remote c) P q Hw) as (r & w & P' & E & Hs & Hw').
  { split; [|done]. apply page_request_ok; auto. }
  assert (Hoff : offset q = o) by (apply u32_small; mlia).
  apply (pool_step_write _ _ _ _ d) in Hs as [-> ->]; cbn [action q hndl read_request write_request];
    rewrite ?Hoff in *; try done; try lia.
  exists w. split; [|done]. unfold rmp_pagefault_resovler.
  rewrite (page_offset addr start o) by (done || lia).
  rewrite run_bind. unfold try_get. rewrite Hm. cbn [mbind option_bind].
  rewrite Hh. cbn [Z.eqb negb]. rewrite run_bind. unfold rmp_write_page.
  rewrite run_bind. unfold get. rewrite Hc. cbn [negb]. rewrite run_bind.
  unfold exchange. fold q. by rewrite E.
Qed.

(** A page that is written back is left as it is. *)
Lemma resovler_keeps start a op pg c pg' c' :
  op <> 0 -> rmp_pagefault_resovler stack start a op pg c = Some (pg', c') ->
  length pg = page_len -> length pg' = page_len.
Proof.
  intros Hop. unfold rmp_pagefault_resovler. rewrite run_bind.
  destruct (try_get _ c) as [[h c1]|]; [|done].
  destruct (Z.eqb_spec op 0); [done|]. cbn [negb]. rewrite run_bind.
  destruct (rmp_write_page _ _ _ _ c1) as [[[] c2]|]; [|done].
  by intros [= <- _].
Qed.
End resolver.

(** ** A round of the fault handler *)
Section round.
Context {V : VM} {HV : VMLaws V} {W : Type} {PS : PageServer W}.
Context (stack : packet) (Hstack : wf_packet stack).
Implicit Types (s : ust (client W)) (f : flat).

(** A page that is in memory is the current one of its region. *)
Lemma resident_current s f m H P p u :
  coherent s f m H P -> owner f !! p = Some u -> is_Some (present (vs s) !! p) ->
  exists w, mode f !! u = Some (p, w).
Proof.
  intros Hc Hu Hp. destruct (co_page _ _ _ _ _ Hc p u Hu) as (h & o & c & x & (Hv & _) & _).
  pose proof (ui_single _ _ (co_inv _ _ _ _ _ Hc) p u Hv Hp) as Ha.
  rewrite (co_mode _ _ _ _ _ Hc u), Ha. cbn. rewrite Z.div_mul by mlia. eauto.
Qed.

Lemma current_resident s f m H P p u w :
  coherent s f m H P -> mode f !! u = Some (p, w) ->
  is_Some (present (vs s) !! p) /\ vma (vs s) !! p = Some (Some u).
Proof.
  intros Hc. rewrite (co_mode _ _ _ _ _ Hc u).
  intros (a & Ha & [= -> _])%fmap_Some.
  destruct (ui_prev _ _ (co_inv _ _ _ _ _ Hc) u a Ha) as (op & _ & _ & _ & ? & ? & _).
  done.
Qed.

(** What the fault handler's first half does: the page resolved last for [u]
    leaves memory, and the server has its contents if it was written. *)
Definition evicted_pages s f m H P' u : Prop :=
  forall p u', owner f !! p = Some u' ->
    exists h o c x, home (vs s) m H p u' h o /\ pool_page P' h o = Some c /\
      length c = page_len /\ contents f !! p = Some x /\
      matches x (default c (present (evicted m u (vs s)) !! p)) /\
      (u' <> u -> mode f !! u' = Some (p, false) -> present (vs s) !! p = Some c).

Lemma evicted_self s m u p a :
  uffd_prev_resolved_addr m !! u = Some a -> a / PAGE_SIZE = p ->
  present (evicted m u (vs s)) !! p = None.
Proof. intros Ha <-. unfold evicted. rewrite Ha. apply lookup_delete_eq. Qed.

Lemma evicted_ne s m u p :
  (forall a, uffd_prev_resolved_addr m !! u = Some a -> a / PAGE_SIZE <> p) ->
  present (evicted m u (vs s)) !! p = present (vs s) !! p.
Proof.
  intros Ha. unfold evicted. destruct (uffd_prev_resolved_addr m !! u); [|done].
  apply lookup_delete_ne. by apply Ha.
Qed.

(** Nothing to write back: there is no last page, or a read brought it in. *)
Lemma evict_clean s f m H P u :
  coherent s f m H P ->
  (forall p, mode f !! u <> Some (p, true)) -> evicted_pages s f m H P u.
Proof.
  intros Hc Hclean p u' Hu'.
  destruct (co_page _ _ _ _ _ Hc p u' Hu') as (h & o & c & x & Hh & Hp & Hl & Hf & Hx & Hm).
  exists h, o, c, x. split_and!; try done.
  destruct (decide ((present (evicted m u (vs s)) !! p) = (present (vs s) !! p)))
    as [E|E]; [by rewrite E|].
  unfold evicted in *. destruct (uffd_prev_resolved_addr m !! u) as [a|] eqn:Ea;
    [|done]. cbn in *.
  destruct (decide (a / PAGE_SIZE = p)) as [Hap|Hap];
    [|by rewrite lookup_delete_ne in E].
  subst p. rewrite lookup_delete_eq. cbn.
  assert (Hu : mode f !! u =
    Some (a / PAGE_SIZE, bool_decide ((uffd_prev_resolved_op m !! u) = Some 1)))
    by (rewrite (co_mode _ _ _ _ _ Hc u); by rewrite Ea).
  case_bool_decide.
  { by destruct (Hclean (a / PAGE_SIZE)). }
  destruct (current_resident _ _ _ _ _ _ _ _ Hc Hu) as [_ Hv].
  destruct Hh as (Hv' & _). assert (u' = u) as -> by congruence.
  by rewrite (Hm Hu) in Hx.
Qed.

Lemma set_remote_id (c : client W) : set_remote (remote c) c = c.
Proof. by destruct c. Qed.

(** The written page is the server's new page; the others keep theirs. *)
Lemma evict_dirty s f m H P u a h o pg d :
  coherent s f m H P -> uffd_prev_resolved_addr m !! u = Some a ->
  home (vs s) m H (a / PAGE_SIZE) u h o -> pool_page P h o = Some d ->
  present (vs s) !! (a / PAGE_SIZE) = Some pg ->
  evicted_pages s f m H (pool_write h o pg P) u.
Proof.
  intros Hc Ha Hh Hd Hpg p u' Hu'.
  destruct (co_page _ _ _ _ _ Hc p u' Hu') as (h' & o' & c & x & Hh' & Hp & Hl & Hf & Hx & Hm).
  exists h', o'. destruct (decide (a / PAGE_SIZE = p)) as [Hap|Hap].
  - rewrite Hap in Hh, Hpg.
    destruct (home_fun _ _ _ _ _ _ _ _ _ _ Hh Hh') as (-> & -> & ->).
    exists pg, x. rewrite (evicted_self s m u p a) by done. rewrite Hpg in Hx.
    split_and!; try done; [by eapply pool_page_write_eq|].
    apply (ui_present _ _ (co_inv _ _ _ _ _ Hc) _ _ Hpg).
  - exists c, x. rewrite evicted_ne by congruence. split_and!; try done.
    rewrite pool_page_write_ne; [done|..].
    + destruct Hh as (_ & ? & _ & _ & _ & _ & _ & ?). lia.
    + destruct Hh' as (_ & ? & _ & _ & _ & _ & _ & ?). lia.
    + destruct (decide (h = h')) as [->|]; [|auto].
      destruct (decide (o = o')) as [->|]; [|auto].
      destruct Hap. by apply (home_inj _ _ _ _ _ _ _ _ _ (co_inj _ _ _ _ _ Hc) Hh Hh').
Qed.

Lemma write_back_spec s f m H P u :
  coherent s f m H P ->
  exists w P', write_back (rmp_pagefault_resovler stack) m u s
                 = Some (set_remote w (env s)) /\
    holds w P' /\ next P' = next P /\ evicted_pages s f m H P' u.
Proof.
  intros Hc. pose proof (co_inv _ _ _ _ _ Hc) as Hs.
  pose proof (co_mode _ _ _ _ _ Hc u) as Hu. unfold write_back.
  destruct (uffd_prev_resolved_addr m !! u) as [a|] eqn:Ea; cbn in Hu.
  2:{ exists (remote (env s)), P. rewrite set_remote_id.
      split_and!; try done; [apply Hc|]. apply evict_clean; [done|]. by rewrite Hu. }
  destruct (ui_prev _ _ Hs u a Ea)
    as (op & Eop & Hop & Hal & Hv & [pg Hpg] & [start Hst]).
  rewrite Eop, Hst. rewrite Eop in Hu.
  destruct Hop as [-> | ->]; cbn [Z.eqb].
  { exists (remote (env s)), P. rewrite set_remote_id.
    split_and!; try done; [apply Hc|]. apply evict_clean; [done|]. by rewrite Hu. }
  destruct (co_page _ _ _ _ _ Hc _ _ (co_owner _ _ _ _ _ Hc _ _ Hv))
    as (h & o & d & _ & Hh & Hd & _).
  rewrite Hpg. cbn [mbind option_bind].
  destruct (resolve_write stack Hstack (vs s) m H P (env s) (a / PAGE_SIZE) u h o start a pg d)
    as (w & E & Hw); try done; try apply Hc.
  { destruct Hh as (_ & b & _ & _ & _ & Hb & _). by apply (co_range _ _ _ _ _ _ _ Hc Hb). }
  { apply (ui_present _ _ Hs _ _ Hpg). }
  exists w, (pool_write h o pg P). rewrite E. split_and!; try done.
  by apply (evict_dirty s f m H P u a h o pg d).
Qed.

(** The state after the fault, against the flat memory in which the page holds
    what the fault put there. *)
Lemma faulted_coherent s f m H P P' u addr op pg w :
  coherent s f m H P -> evicted_pages s f m H P' u ->
  holds w P' -> next P' = next P -> op = 0 \/ op = 1 -> length pg = page_len ->
  owner f !! (addr / PAGE_SIZE) = Some u ->
  (op = 0 -> forall h o, home (vs s) m H (addr / PAGE_SIZE) u h o ->
                         pool_page P' h o = Some pg) ->
  coherent (faulted s m u addr op pg (set_remote w (env s)))
    (Flat (owner f) (<[addr / PAGE_SIZE := known pg]> (contents f))
       (<[u := (addr / PAGE_SIZE, bool_decide (op = 1))]> (mode f)))
    (resolved_maps m u addr op) H P'.
Proof.
  intros Hc Hev Hw Hn Hop Hpg Hu Hread. pose proof (co_inv _ _ _ _ _ Hc) as Hs.
  destruct (Hev _ _ Hu) as (h & o & c & x & Hh & Hd & _).
  pose proof Hh as (Hv & start & Hst & _). split; cbn; try apply Hc; try done.
  - by apply (faulted_inv _ _ _ start).
  - rewrite Hn. apply Hc.
  - rewrite Hn. apply Hc.
  - rewrite Hn. apply Hc.
  - intros u'. rewrite !lookup_insert. case_decide; cbn.
    + rewrite PGROUNDDOWN_div. repeat case_bool_decide; congruence.
    + apply (co_mode _ _ _ _ _ Hc).
  - intros q u' Hu'. destruct (Hev q u' Hu') as (h' & o' & c' & x' & Hh' & Hd' & Hl & Hf & Hx & Hm).
    exists h', o', c', (if decide (addr / PAGE_SIZE = q) then known pg else x').
    split_and!; try done.
    + rewrite lookup_insert. by case_decide.
    + rewrite lookup_insert. case_decide; [apply matches_known|done].
    + destruct (decide (u = u')) as [<-|Hne].
      * rewrite lookup_insert_eq. intros [= <- Hb]. rewrite lookup_insert_eq.
        rewrite <- Hd'. symmetry. apply Hread; [|done].
        destruct Hop as [|Hop]; [done|]. by rewrite bool_decide_true in Hb.
      * rewrite lookup_insert_ne by done. intros Hmode.
        pose proof (Hm ltac:(congruence) Hmode) as Hp.
        rewrite lookup_insert_ne; [|intros <-; congruence].
        destruct Hh' as (Hv' & _). by rewrite (evicted_other s m u q u').
Qed.

(** A fault reads the page from the server, or puts the page buffer there. *)
Lemma fault_spec s f m H P u addr op buf :
  coherent s f m H P -> owner f !! (addr / PAGE_SIZE) = Some u ->
  present (vs s) !! (addr / PAGE_SIZE) = None -> op = 0 \/ op = 1 ->
  page (um s) = Some buf ->
  exists pg w P',
    (if op =? 0
     then exists x, contents f !! (addr / PAGE_SIZE) = Some x /\ matches x pg
     else pg = buf) /\
    handle_event (rmp_pagefault_resovler stack) u (EvPagefault addr op) s =
      Some (true, faulted s m u addr op pg (set_remote w (env s))) /\
    coherent (faulted s m u addr op pg (set_remote w (env s)))
      (Flat (owner f) (<[addr / PAGE_SIZE := known pg]> (contents f))
         (<[u := (addr / PAGE_SIZE, bool_decide (op = 1))]> (mode f)))
      (resolved_maps m u addr op) H P'.
Proof.
  intros Hc Hu Hp Hop Hbuf. pose proof (co_inv _ _ _ _ _ Hc) as Hs.
  destruct (write_back_spec s f m H P u Hc) as (w & P' & Ew & Hw & Hn & Hev).
  destruct (Hev _ _ Hu) as (h & o & c & x & Hh & Hd & Hl & Hf & Hx & _).
  pose proof Hh as (Hv & start & Hst & _ & _ & Hhs & _).
  rewrite evicted_None in Hx by done. cbn in Hx.
  cbn [handle_event]. rewrite (handle_fault_run _ (resovler_keeps stack) s m u start addr op buf) by done.
  replace (Z.land op _) with op by (by destruct Hop as [-> | ->]).
  rewrite Ew. cbn [mbind option_bind]. unfold fetched.
  destruct (ui_page _ _ Hs u ltac:(eauto)) as (buf' & Hb' & Hlb).
  assert (buf' = buf) as -> by congruence.
  destruct Hop as [-> | ->]; cbn [Z.eqb].
  - destruct (resolve_read stack Hstack (vs s) m H P' (set_remote w (env s))
      (addr / PAGE_SIZE) u h o start addr buf c) as (w' & -> & Hw'); try done;
      try apply Hc; rewrite ?Hn; try apply Hc.
    { by apply (co_range _ _ _ _ _ _ _ Hc Hhs). }
    exists c, w', P'. split_and!; [by eauto|done|].
    apply (faulted_coherent s f m H P P'); auto. intros _ h' o' Hh'.
    by destruct (home_fun _ _ _ _ _ _ _ _ _ _ Hh Hh') as (_ & -> & ->).
  - exists buf, w, P'. split_and!; try done.
    by apply (faulted_coherent s f m H P P'); auto.
Qed.

(** ** Accesses *)
Lemma addr_split addr : addr = page_of addr * PAGE_SIZE + Z.of_nat (offset_in addr).
Proof.
  unfold page_of, offset_in. pose proof (Z.mod_pos_bound addr PAGE_SIZE).
  rewrite Z2Nat.id by mlia. pose proof (Z.div_mod addr PAGE_SIZE). mlia.
Qed.

Lemma load_in_page M p pg addr n :
  M !! page_of addr = Some pg -> p = page_of addr -> length pg = page_len ->
  (offset_in addr + n <= page_len)%nat ->
  load M addr n = Some (take n (drop (offset_in addr) pg)).
Proof.
  intros Hp -> Hl Hn. rewrite (addr_split addr) at 1. by apply load_slice.
Qed.

Lemma store_in_page M pg addr bs :
  M !! page_of addr = Some pg -> length pg = page_len ->
  (offset_in addr + length bs <= page_len)%nat ->
  store M addr bs = Some (<[page_of addr := overlay_at (offset_in addr) bs pg]> M).
Proof.
  intros Hp Hl Hn. rewrite (addr_split addr) at 1. by rewrite (store_slice _ _ pg).
Qed.

(** Changing the contents of a page that is in memory keeps the invariant. *)
Lemma rewrite_inv s m p pg c :
  uffd_inv s m -> present (vs s) !! p = Some pg -> length c = page_len ->
  uffd_inv (set_vs (Vmem (<[p := c]> (present (vs s))) (vma (vs s))) s) m.
Proof.
  intros Hs Hp Hc.
  assert (Hsome : forall q, is_Some (<[p := c]> (present (vs s)) !! q) <->
                            is_Some (present (vs s) !! q)).
  { intros q. rewrite lookup_insert. case_decide; [subst|done].
    split; intros _; eauto. }
  split; cbn; try apply Hs.
  - apply map_Forall_insert_2; [done|]. apply Hs.
  - intros u a Ha. destruct (ui_prev _ _ Hs u a Ha) as (op & ? & ? & ? & ? & ? & ?).
    exists op. split_and!; try done. by apply Hsome.
  - intros q u Hv Hq%Hsome. by apply (ui_single _ _ Hs).
Qed.

(** A store to a page that a write brought in. *)
Lemma store_coherent s f m H P u p pg c x :
  coherent s f m H P -> owner f !! p = Some u -> mode f !! u = Some (p, true) ->
  present (vs s) !! p = Some pg -> length c = page_len -> matches x c ->
  coherent (set_vs (Vmem (<[p := c]> (present (vs s))) (vma (vs s))) s)
    (write_contents p x f) m H P.
Proof.
  intros Hc Hu Hm Hp Hl Hx.
  split; cbn; try apply Hc; [by apply (rewrite_inv _ _ _ pg); [apply Hc|..]|].
  intros q u' Hu'.
  destruct (co_page _ _ _ _ _ Hc q u' Hu') as (h & o & d & y & Hh & Hd & ? & ? & ? & Hq).
  exists h, o, d, (if decide (p = q) then x else y). rewrite !lookup_insert.
  case_decide; [subst q|by split_and!].
  split_and!; try done. intros Hf. congruence.
Qed.

(** Knowing less of a page. *)
Lemma coherent_weaken s f m H P p u x y :
  coherent s (write_contents p y f) m H P -> owner f !! p = Some u ->
  (forall c, matches y c -> matches x c) ->
  coherent s (write_contents p x f) m H P.
Proof.
  intros Hc Hu Hxy. split; try apply Hc. intros q u' Hu'.
  destruct (co_page _ _ _ _ _ Hc q u' Hu') as (h & o & d & z & Hh & Hd & Hl & Hz & Hm & Hq).
  exists h, o, d, (if decide (p = q) then x else z). cbn in *.
  rewrite lookup_insert in *. case_decide; [simplify_eq|]; split_and!; auto.
Qed.

Lemma touch_resident s addr (w : bool) :
  is_Some (present (vs s) !! page_of addr) -> touch stack addr w s = Some (tt, s).
Proof. intros [pg Hp]. unfold touch. rewrite run_bind, run_get. by rewrite Hp. Qed.

Lemma touch_fault s addr (w : bool) u s' :
  present (vs s) !! page_of addr = None -> vma (vs s) !! page_of addr = Some (Some u) ->
  handle_event (rmp_pagefault_resovler stack) u
    (EvPagefault addr (if w then 1 else 0)) s = Some (true, s') ->
  touch stack addr w s = Some (tt, s').
Proof.
  intros Hp Hv He. unfold touch. rewrite run_bind, run_get, Hp, Hv. cbn iota.
  unfold mbind, prog_bind. by rewrite He.
Qed.

Lemma owner_vma s f m H P p u :
  coherent s f m H P -> owner f !! p = Some u -> vma (vs s) !! p = Some (Some u).
Proof.
  intros Hc Hu. by destruct (co_page _ _ _ _ _ Hc p u Hu) as (? & ? & ? & ? & (? & _) & _).
Qed.

Lemma resident_contents s f m H P p u pg :
  coherent s f m H P -> owner f !! p = Some u -> present (vs s) !! p = Some pg ->
  length pg = page_len /\ exists x, contents f !! p = Some x /\ matches x pg.
Proof.
  intros Hc Hu Hp.
  destruct (co_page _ _ _ _ _ Hc p u Hu) as (? & ? & ? & x & _ & _ & _ & Hf & Hx & _).
  rewrite Hp in Hx. split; [|eauto]. apply (ui_present _ _ (co_inv _ _ _ _ _ Hc) _ _ Hp).
Qed.

Lemma absent_current s f m H P p u :
  coherent s f m H P -> present (vs s) !! p = None -> current f u p = None.
Proof.
  intros Hc Hp. unfold current. destruct (mode f !! u) as [[q w]|] eqn:E; [|done].
  cbn. case_decide; [subst q|done].
  destruct (current_resident _ _ _ _ _ _ _ _ Hc E) as [[? ?] _]. congruence.
Qed.

Lemma buffer_of s f m H P p u :
  coherent s f m H P -> owner f !! p = Some u ->
  exists buf, page (um s) = Some buf /\ length buf = page_len.
Proof.
  intros Hc Hu.
  destruct (co_page _ _ _ _ _ Hc p u Hu) as (? & ? & ? & ? & (_ & st & Hst & _) & _).
  apply (ui_page _ _ (co_inv _ _ _ _ _ Hc) u). eauto.
Qed.

(** A store that brings its page in: it lands on the page buffer. *)
Lemma store_fault s f m H P u addr bs buf :
  coherent s f m H P -> owner f !! page_of addr = Some u ->
  present (vs s) !! page_of addr = None -> page (um s) = Some buf ->
  length buf = page_len -> (offset_in addr + length bs <= page_len)%nat ->
  exists s' P', run_access stack (Store addr bs) s = Some ([], s') /\
    coherent s' (write_contents (page_of addr)
        (known (overlay_at (offset_in addr) bs buf))
        (Flat (owner f) (contents f) (<[u := (page_of addr, true)]> (mode f))))
      (resolved_maps m u addr 1) H P' /\ page (um s') = Some buf.
Proof.
  intros Hc Hu Hp Hb Hl Hin. cbn [run_access]. rewrite run_bind.
  destruct (fault_spec s f m H P u addr 1 buf) as (pg & w & P' & Hpg & He & Hc');
    auto. cbn in Hpg. subst pg.
  rewrite (touch_fault _ _ true u _ Hp (owner_vma _ _ _ _ _ _ _ Hc Hu) He).
  assert (Hlk : present (vs (faulted s m u addr 1 buf (set_remote w (env s))))
                  !! page_of addr = Some buf) by apply lookup_insert_eq.
  rewrite run_bind. unfold try_put. rewrite (store_in_page _ buf) by done.
  cbn [mbind option_bind]. rewrite run_ret. eexists _, P'. split; [done|].
  split; [|done].
  pose proof (store_coherent _ _ _ _ _ u (page_of addr) buf
    (overlay_at (offset_in addr) bs buf)
    (known (overlay_at (offset_in addr) bs buf)) Hc' Hu) as Hc2.
  unfold write_contents, page_of in *. cbn [owner contents mode] in *.
  rewrite insert_insert_eq in Hc2.
  apply Hc2; [apply lookup_insert_eq|done| |apply matches_known].
  rewrite overlay_at_len; lia.
Qed.

Lemma load_refines s f m H P addr n v f' :
  coherent s f m H P -> flat_access (Load addr n) f = Some (v, f') ->
  exists s' m' P', run_access stack (Load addr n) s = Some (v, s') /\
    coherent s' f' m' H P'.
Proof.
  intros Hc. cbn [flat_access run_access]. rewrite run_bind.
  destruct (owner f !! page_of addr) as [u|] eqn:Hu; [|done]. cbn.
  destruct (contents f !! page_of addr) as [x|] eqn:Hf; [|done]. cbn.
  destruct (in_page addr n) eqn:Hin; [|done]. apply bool_decide_eq_true in Hin.
  destruct (mapM id _) as [bs|] eqn:Hbs; [|done]. intros [= <- <-]. unfold enter.
  destruct (present (vs s) !! page_of addr) as [pg|] eqn:Hp.
  - destruct (resident_contents _ _ _ _ _ _ _ _ Hc Hu Hp) as (Hl & x' & Hf' & Hx).
    rewrite touch_resident by eauto. unfold try_get.
    rewrite (load_in_page _ (page_of addr) pg) by done.
    destruct (resident_current _ _ _ _ _ _ _ Hc Hu ltac:(eauto)) as [w Hm].
    unfold current. rewrite Hm. cbn. rewrite decide_True by done.
    simplify_eq. rewrite (matches_slice _ _ _ _ _ Hx Hbs). eauto 10.
  - destruct (buffer_of _ _ _ _ _ _ _ Hc Hu) as (buf & Hb & _).
    destruct (fault_spec s f m H P u addr 0 buf) as (pg & w & P' & Hpg & He & Hc');
      auto. cbn in Hpg. destruct Hpg as (x' & Hf' & Hx).
    rewrite (absent_current _ _ _ _ _ _ u Hc Hp).
    rewrite (touch_fault _ _ false u _ Hp (owner_vma _ _ _ _ _ _ _ Hc Hu) He).
    assert (x' = x) as -> by (unfold page_of in Hf; congruence).
    unfold try_get.
    assert (Hl : length pg = page_len).
    { apply (ui_present _ _ (co_inv _ _ _ _ _ Hc') (addr / PAGE_SIZE)).
      apply lookup_insert_eq. }
    rewrite (load_in_page _ (page_of addr) pg) by (done || apply lookup_insert_eq).
    rewrite (matches_slice _ _ _ _ _ Hx Hbs).
    eexists _, _, P'. split; [done|].
    apply (coherent_weaken _ (Flat (owner f) (contents f) _) _ _ _ _ u x) in Hc'.
    + unfold write_contents in Hc'. cbn in Hc'. rewrite insert_id in Hc' by done.
      exact Hc'.
    + done.
    + intros c Hk. by rewrite <- (matches_known_eq _ _ Hk).
Qed.

Lemma store_refines s f m H P addr bs v f' :
  coherent s f m H P -> flat_access (Store addr bs) f = Some (v, f') ->
  exists s' m' P', run_access stack (Store addr bs) s = Some (v, s') /\
    coherent s' f' m' H P'.
Proof.
  intros Hc. cbn [flat_access].
  destruct (owner f !! page_of addr) as [u|] eqn:Hu; [|done].
  cbn [mbind option_bind].
  destruct (contents f !! page_of addr) as [x|] eqn:Hf; [|done].
  cbn [mbind option_bind].
  destruct (in_page addr (length bs)) eqn:Hin; [|done].
  apply bool_decide_eq_true in Hin. unfold enter.
  destruct (present (vs s) !! page_of addr) as [pg|] eqn:Hp.
  - destruct (resident_contents _ _ _ _ _ _ _ _ Hc Hu Hp) as (Hl & x' & Hf' & Hx).
    cbn [run_access]. rewrite run_bind, touch_resident by eauto.
    destruct (resident_current _ _ _ _ _ _ _ Hc Hu ltac:(eauto)) as [w Hm].
    unfold current. rewrite Hm. cbn [mbind option_bind]. rewrite decide_True by done.
    destruct w; [|done]. intros [= <- <-]. rewrite run_bind. unfold try_put.
    rewrite (store_in_page _ pg) by done. cbn [mbind option_bind].
    rewrite run_ret. eexists _, m, P. split; [done|]. simplify_eq.
    apply (store_coherent s f m H P u _ pg); try done.
    + by rewrite overlay_at_len by lia.
    + by apply matches_overlay.
  - destruct (buffer_of _ _ _ _ _ _ _ Hc Hu) as (buf & Hb & Hl).
    rewrite (absent_current _ _ _ _ _ _ u Hc Hp).
    cbn [mbind option_bind]. intros [= <- <-].
    destruct (store_fault s f m H P u addr bs buf) as (s' & P' & -> & Hc' & _); try done.
    eexists _, _, P'. split; [done|].
    apply (coherent_weaken _ (Flat (owner f) (contents f) _) _ _ _ _ u _ _ Hc'); [done|].
    intros c Hk. rewrite <- (matches_known_eq _ _ Hk).
    by apply matches_overlay, matches_unknown.
Qed.

Lemma access_refines s f m H P a v f' :
  coherent s f m H P -> flat_access a f = Some (v, f') ->
  exists s' m' P', run_access stack a s = Some (v, s') /\ coherent s' f' m' H P'.
Proof. destruct a; eauto using load_refines, store_refines. Qed.

Lemma accesses_refine tr s f m H P vs f' :
  coherent s f m H P -> flat_accesses tr f = Some (vs, f') ->
  exists s' m' P', run_accesses stack tr s = Some (vs, s') /\ coherent s' f' m' H P'.
Proof.
  revert s f m P vs. induction tr as [|a tr IH]; intros s f m P vs Hc;
    cbn [flat_accesses run_accesses].
  { intros [= <- <-]. eauto 10. }
  destruct (flat_access a f) as [[v f1]|] eqn:Ea; [|done]. cbn.
  destruct (flat_accesses tr f1) as [[vs' f2]|] eqn:Et; [|done]. cbn.
  intros [= <- <-].
  destruct (access_refines _ _ _ _ _ _ _ _ Hc Ea) as (s1 & m1 & P1 & E1 & Hc1).
  destruct (IH _ _ _ _ _ Hc1 Et) as (s2 & m2 & P2 & E2 & Hc2).
  rewrite run_bind, E1, run_bind, E2. eauto.
Qed.
End round.
