(* ===== verification/SystemStart.v ===== *)
(** * Starting the client and allocating regions

    The relation of SystemCorrect.v holds after [rmp_init], and after every
    allocation that the kernel and the server grant: the new region is a
    stretch of zero pages of the flat memory. *)

From S2P Require Import Prelude OS Packet Pool Vm Uffd UffdCorrect Client System.
From S2P Require Import SystemCorrect.

Definition flat_empty : flat := Flat ∅ ∅ ∅.

(** [n] zero pages from the page [p] on, owned by the descriptor [u]. *)
Definition flat_alloc (u p n : Z) (f : flat) : flat :=
  Flat (set_range p (Z.to_nat n) u (owner f)) (set_range p (Z.to_nat n) (known zero_page) (contents f))
    (mode f).

Section start.
Context {V : VM} {HV : VMLaws V} {W : Type} {PS : PageServer W}.
Context (stack : packet) (Hstack : wf_packet stack).
Implicit Types (s : ust (client W)) (f : flat).

(** A process whose memory is not registered anywhere, before [rmp_init]. *)
Definition process (v : vmem) (w : W) : ust (client W) :=
  Ust uffdman_start v (client_start w).

Definition initialised (e : conn_env) (v : vmem) (w : W) : ust (client W) :=
  Ust (Uffdman true (Live empty_maps) true None []) v
    (Client (socket_ret e) true (Some ∅) (Some ∅) w).

Lemma rmp_init_run e v w :
  0 <= socket_ret e -> 0 <= connect_ret e ->
  rmp_init e (process v w) = Some (0, initialised e v w).
Proof.
  intros Hs Hc. unfold rmp_init. rewrite run_bind. unfold upd_env, modify.
  destruct (Z.ltb_spec (socket_ret e) 0), (Z.ltb_spec (connect_ret e) 0),
    (Z.eqb_spec (socket_ret e) (-1)); try lia.
  done.
Qed.

Lemma initialised_coherent e v w P :
  wf_mem (present v) -> (forall p u, vma v !! p <> Some (Some u)) ->
  holds w P -> 0 <= next P -> next P + 1 < 2 ^ 32 ->
  coherent (initialised e v w) flat_empty empty_maps ∅ P.
Proof.
  intros Hwf Hv Hw H0 Hn. split; cbn; try done.
  - split; cbn; try done.
    + intros p u Hp. by destruct (Hv p u).
    + intros u. rewrite lookup_empty. intros [? ?]. done.
  - intros a. rewrite !lookup_empty. intros [[? ?]|[? ?]]; done.
  - intros p u Hp. by destruct (Hv p u).
Qed.

(** ** Allocation *)

(** The kernel maps and registers [n] pages at [a] with a new descriptor, and
    the handler thread starts. *)
Record granted (e : reg_env) (n a : Z) (v v' : vmem) s (m : uffd_maps) : Prop := {
  gr_pages : 0 < n /\ n * PAGE_SIZE < 2 ^ 32;
  gr_fd : uffd_ret e <> -1;
  gr_api : api_ret e <> -1;
  gr_thread : thread_ret e = 0;
  gr_mmap : vm_mmap (vs s) (n * PAGE_SIZE) = Some (a, v);
  gr_register : uffdio_register v (uffd_ret e) a (n * PAGE_SIZE) = Some v';
  gr_new_fd : uffd_start_addr_map m !! uffd_ret e = None;
  gr_new_fd_vma p : vma (vs s) !! p <> Some (Some (uffd_ret e));
}.

(** The server does not refuse. *)
Definition server_grants (n : Z) s : Prop :=
  forall r w, rpc (alloc_request stack n) (remote (env s)) = Some (r, w) ->
              error r <> ALLOC_FAILED.

(** The state after a granted allocation. *)
Definition allocated (e : reg_env) (n a h : Z) (v : vmem) (w : W) s
    (m : uffd_maps) (H N : gmap Z Z) : ust (client W) :=
  Ust (set_maps (Live (region_maps m (thread_id e) (uffd_ret e) a))
         (with_buffer (um s))) v
    (Client (socketfd (env s)) (connected (env s)) (Some (insert_new a h H))
       (Some (insert_new a n N)) w).

Lemma alloc_request_ok n :
  0 < n -> n * PAGE_SIZE < 2 ^ 32 -> request_ok (alloc_request stack n).
Proof.
  intros Hn Hb. destruct Hstack. split; [split|..]; cbn; try done; try apply u32_range; mlia.
Qed.

(** Whatever the server answers, the region is entered under its handle. *)
Lemma rmp_alloc_reply e n a v v' s m H N r w :
  granted e n a v v' s m -> maps (um s) = Live m -> connected (env s) = true ->
  addr_hndl_map (env s) = Some H -> addr_npages_map (env s) = Some N ->
  rpc (alloc_request stack n) (remote (env s)) = Some (r, w) ->
  rmp_alloc stack e n s = Some (a, allocated e n a (hndl r) v' w s m H N).
Proof.
  intros [[Hn Hb] Hfd Hapi Hth Hmm Hreg _ _] Hm Hcn HH HN E.
  unfold rmp_alloc. rewrite run_bind, run_get, Hmm, run_bind, run_put.
  cbn [env set_vs]. rewrite Hcn. cbn [negb]. rewrite run_bind.
  unfold in_env, exchange. cbn [env set_vs]. rewrite E.
  cbn [set_env]. rewrite run_bind.
  rewrite (register_run _ m e a n v'); try done.
  - rewrite run_bind. unfold try_get. cbn [env vs um].
    by rewrite HH, HN.
  - cbn [vs]. rewrite ul_small by mlia. done.
Qed.

Lemma rmp_alloc_run e n a v v' s f m H N P :
  coherent s f m H P -> granted e n a v v' s m -> server_grants n s ->
  addr_npages_map (env s) = Some N ->
  exists w,
    rmp_alloc stack e n s = Some (a, allocated e n a (next P) v' w s m H N) /\
    holds w (Pool (next P + 1) (<[next P := fresh_region n]> (regions P))).
Proof.
  intros Hc Hg Hsrv HN. destruct (gr_pages _ _ _ _ _ _ _ Hg) as [Hn Hb].
  destruct (rpc_step (remote (env s)) P (alloc_request stack n)) as (r & w & P' & E & Hs & Hw).
  { apply Hc. }
  { split; [by apply alloc_request_ok|apply Hc]. }
  specialize (Hsrv _ _ E). exists w.
  assert (Hr : hndl r = next P /\
    P' = Pool (next P + 1) (<[next P := fresh_region n]> (regions P))).
  { inversion Hs; subst; cbn in *; try lia; done. }
  destruct Hr as [Hh ->]. split; [|done]. rewrite <- Hh.
  apply (rmp_alloc_reply e n a v v' s m); auto; apply Hc.
Qed.

Lemma mmap_inv s m len a v :
  uffd_inv s m -> vm_mmap (vs s) len = Some (a, v) -> uffd_inv (set_vs v s) m.
Proof.
  intros Hs E. destruct (vm_mmap_ok _ _ _ _ E) as (_ & _ & _ & _ & Hfree & Hp & Hv).
  split; cbn; rewrite ?Hp; try apply Hs.
  - intros u b Hb. destruct (ui_prev _ _ Hs u b Hb) as (op & ? & ? & ? & Hvb & ? & ?).
    exists op. split_and!; try done. rewrite Hv, decide_False; [done|].
    intros Hr%Hfree. destruct Hr. congruence.
  - intros p u. rewrite Hv. case_decide; [done|]. apply (ui_single _ _ Hs).
Qed.

Lemma uffd_inv_env s m (w : client W) : uffd_inv s m -> uffd_inv (Ust (um s) (vs s) w) m.
Proof. intros []. by split. Qed.

Lemma in_range_pages a n i :
  in_range a (n * PAGE_SIZE) i <-> a / PAGE_SIZE <= i < a / PAGE_SIZE + n.
Proof. unfold in_range. by rewrite pages_of_mult. Qed.

Section allocated.
Context (e : reg_env) (n a : Z) (v v' : vmem) (s : ust (client W)) (f : flat).
Context (m : uffd_maps) (H N : gmap Z Z) (P : pool) (w : W).
Context (Hc : coherent s f m H P) (Hg : granted e n a v v' s m).

Let P' : pool := Pool (next P + 1) (<[next P := fresh_region n]> (regions P)).
Let new (i : Z) : Prop := a / PAGE_SIZE <= i < a / PAGE_SIZE + n.

Lemma alloc_vma i :
  vma v' !! i = if decide (new i) then Some (Some (uffd_ret e)) else vma (vs s) !! i.
Proof.
  destruct (vm_mmap_ok _ _ _ _ (gr_mmap _ _ _ _ _ _ _ Hg)) as (_ & _ & _ & _ & _ & _ & Hv).
  destruct (uffdio_register_ok _ _ _ _ _ (gr_register _ _ _ _ _ _ _ Hg)) as [_ Hv'].
  rewrite Hv', Hv. destruct (decide (new i)) as [Hi|Hi].
  - by rewrite decide_True by (by apply in_range_pages).
  - by rewrite !decide_False by (by rewrite in_range_pages).
Qed.

Lemma alloc_present : present v' = present (vs s).
Proof.
  destruct (vm_mmap_ok _ _ _ _ (gr_mmap _ _ _ _ _ _ _ Hg)) as (_ & _ & _ & _ & _ & Hp & _).
  destruct (uffdio_register_ok _ _ _ _ _ (gr_register _ _ _ _ _ _ _ Hg)) as [Hp' _].
  congruence.
Qed.

Lemma alloc_free i : new i -> vma (vs s) !! i = None /\ present (vs s) !! i = None.
Proof.
  destruct (vm_mmap_ok _ _ _ _ (gr_mmap _ _ _ _ _ _ _ Hg)) as (_ & _ & _ & _ & Hf & _).
  intros Hi. apply Hf. by apply in_range_pages.
Qed.

Lemma alloc_new_addr : start_addr_uffd_map m !! a = None /\ H !! a = None.
Proof.
  assert (Hn : vma (vs s) !! (a / PAGE_SIZE) = None).
  { apply alloc_free. destruct (gr_pages _ _ _ _ _ _ _ Hg). unfold new. lia. }
  pose proof (co_keys _ _ _ _ _ Hc a) as Hk. rewrite Hn in Hk.
  split; apply eq_None_not_Some; intros Hs; (destruct Hk as [? ?]; [tauto|done]).
Qed.

Lemma alloc_inv :
  uffd_inv (allocated e n a (next P) v' w s m H N)
    (region_maps m (thread_id e) (uffd_ret e) a).
Proof.
  destruct Hg as [[Hn Hb] _ _ _ Hmm Hreg Hfd Hfdv].
  destruct (vm_mmap_ok _ _ _ _ Hmm) as (_ & _ & _ & _ & Hf & Hp & Hv).
  apply (uffd_inv_env (Ust _ v' (env s))), (register_inv (set_vs v s) m e a n).
  - eapply mmap_inv; [apply Hc|done].
  - rewrite ul_small by mlia. done.
  - done.
  - apply alloc_new_addr.
  - intros p. cbn. rewrite Hv. by case_decide.
  - intros p. rewrite ul_small by mlia. intros Hr. cbn. rewrite Hv, Hp.
    rewrite decide_True by done. split; [done|]. by apply Hf.
  - intros pg Hpg. pose proof (co_buffer _ _ _ _ _ Hc) as Hb'. cbn in Hpg. by rewrite Hpg in Hb'.
Qed.

(** A page the flat memory already had keeps its place. *)
Lemma alloc_old_page p u h o c :
  home (vs s) m H p u h o -> pool_page P h o = Some c ->
  ~ new p /\ u <> uffd_ret e /\ home v' (region_maps m (thread_id e) (uffd_ret e) a)
    (insert_new a (next P) H) p u h o /\ pool_page P' h o = Some c.
Proof.
  intros (Hv & b & Hb & Hal & Hpos & Hh & Hp & Ho) Hd.
  assert (Hnew : ~ new p) by (intros [? _]%alloc_free; congruence).
  assert (Hu : u <> uffd_ret e).
  { intros ->. by destruct (gr_new_fd_vma _ _ _ _ _ _ _ Hg p). }
  destruct alloc_new_addr as [Ha1 Ha2].
  assert (b <> a) by congruence. split_and!; try done.
  - split; [by rewrite alloc_vma, decide_False|]. exists b. cbn.
    rewrite !insert_new_fresh; [|done..|apply (gr_new_fd _ _ _ _ _ _ _ Hg)].
    by rewrite !lookup_insert_ne.
  - unfold P', pool_page in *. cbn. rewrite lookup_insert_ne; [done|].
    pose proof (co_handle _ _ _ _ _ Hc b h Hh). lia.
Qed.

(** A page of the new region. *)
Lemma alloc_new_page p :
  new p ->
  home v' (region_maps m (thread_id e) (uffd_ret e) a) (insert_new a (next P) H)
    p (uffd_ret e) (next P) (p - a / PAGE_SIZE) /\
  pool_page P' (next P) (p - a / PAGE_SIZE) = Some zero_page.
Proof.
  intros Hp. destruct alloc_new_addr as [Ha1 Ha2].
  destruct (gr_pages _ _ _ _ _ _ _ Hg) as [Hn Hb].
  destruct (vm_mmap_ok _ _ _ _ (gr_mmap _ _ _ _ _ _ _ Hg)) as (_ & Hal & Hpos & _).
  unfold new in *. split.
  - split; [by rewrite alloc_vma, decide_True|]. exists a. cbn.
    rewrite !insert_new_fresh; [|done..|apply (gr_new_fd _ _ _ _ _ _ _ Hg)].
    rewrite !lookup_insert_eq. split_and!; try done; mlia.
  - unfold P', pool_page. cbn. rewrite lookup_insert_eq. cbn.
    apply fresh_region_page. lia.
Qed.

Lemma alloc_mode : mode f !! uffd_ret e = None.
Proof.
  rewrite (co_mode _ _ _ _ _ Hc). apply fmap_None, eq_None_not_Some. intros [b Hb].
  destruct (ui_prev _ _ (co_inv _ _ _ _ _ Hc) _ _ Hb) as (_ & _ & _ & _ & Hv & _).
  by apply (gr_new_fd_vma _ _ _ _ _ _ _ Hg) in Hv.
Qed.

Lemma allocated_coherent :
  holds w P' -> next P + 2 < 2 ^ 32 ->
  coherent (allocated e n a (next P) v' w s m H N)
    (flat_alloc (uffd_ret e) (a / PAGE_SIZE) n f)
    (region_maps m (thread_id e) (uffd_ret e) a) (insert_new a (next P) H) P'.
Proof.
  intros Hw Hn2. destruct alloc_new_addr as [Ha1 Ha2].
  destruct (gr_pages _ _ _ _ _ _ _ Hg) as [Hn Hb].
  assert (Hr : forall i, a / PAGE_SIZE <= i < a / PAGE_SIZE + Z.of_nat (Z.to_nat n)
                         <-> new i) by (intros i; unfold new; lia).
  pose proof (co_next_nonneg _ _ _ _ _ Hc).
  split; cbn [env um vs allocated connected addr_hndl_map addr_npages_map remote
    next P' owner contents mode flat_alloc]; try done; try lia.
  - apply alloc_inv.
  - apply Hc.
  - unfold with_buffer. pose proof (co_buffer _ _ _ _ _ Hc) as Hbuf.
    destruct (page (um s)) as [pg|] eqn:E; cbn; rewrite ?E; [done|].
    apply length_zero_page.
  - intros b h. rewrite insert_new_fresh, lookup_insert by done. case_decide.
    + intros [= <-]. lia.
    + intros Hh%(co_handle _ _ _ _ _ Hc). lia.
  - intros b b' h. rewrite insert_new_fresh, !lookup_insert by done.
    repeat case_decide; subst; try done.
    + intros [= <-] Hh%(co_handle _ _ _ _ _ Hc). lia.
    + intros Hh%(co_handle _ _ _ _ _ Hc) [= <-]. lia.
    + apply (co_inj _ _ _ _ _ Hc).
  - intros b. cbn. rewrite !insert_new_fresh, !lookup_insert by done.
    rewrite alloc_vma. case_decide as Hab; (case_decide as Hnb; [eauto|]).
    + subst b. unfold new in Hnb. lia.
    + apply (co_keys _ _ _ _ _ Hc).
  - apply (co_mode _ _ _ _ _ Hc).
  - intros p u. rewrite lookup_set_range, alloc_vma, (decide_ext _ _ _ _ (Hr p)).
    case_decide; [by intros [= <-]|]. apply (co_owner _ _ _ _ _ Hc).
  - intros p u. rewrite !lookup_set_range, alloc_present.
    rewrite !(decide_ext _ _ _ _ (Hr p)). case_decide as Hp.
    + intros [= <-]. destruct (alloc_new_page p Hp) as [Hh Hd].
      destruct (alloc_free p Hp) as [_ Hpr].
      exists (next P), (p - a / PAGE_SIZE), zero_page, (known zero_page).
      rewrite Hpr, alloc_mode. split_and!; auto using matches_known, length_zero_page.
      done.
    + intros Hu. destruct (co_page _ _ _ _ _ Hc p u Hu) as (h & o & c & x & Hh & Hd & Hrest).
      destruct (alloc_old_page _ _ _ _ _ Hh Hd) as (_ & _ & Hh' & Hd').
      exists h, o, c, x. split; [exact Hh'|]. split; [exact Hd'|]. exact Hrest.
Qed.
End allocated.
End start.
