(* ===== verification/SystemProps.v ===== *)
(** * What the application gets

    The properties of the whole client against a page server: start-up and
    allocation build the relation to the flat memory, disciplined accesses
    behave as on ordinary memory, and what happens outside the discipline and
    when the server refuses. *)

From S2P Require Import Prelude OS Packet Pool Vm Uffd UffdCorrect Client System.
From S2P Require Import SystemCorrect SystemStart Server ServerCorrect ServerRefines.
From S2P Require Import ServerProps.

Section props.
Context {V : VM} {HV : VMLaws V} {W : Type} {PS : PageServer W}.
Context (stack : packet) (Hstack : wf_packet stack).
Implicit Types (s : ust (client W)) (f : flat).

(** [rmp_init] of a fresh process succeeds when the socket connects, and
    relates the client to the empty memory, whatever the server already
    holds. *)
Theorem init_relates_empty_memory e v w P :
  0 <= socket_ret e -> 0 <= connect_ret e ->
  wf_mem (present v) -> (forall p u, vma v !! p <> Some (Some u)) ->
  holds w P -> 0 <= next P -> next P + 1 < 2 ^ 32 ->
  rmp_init e (process v w) = Some (0, initialised e v w) /\
  coherent (initialised e v w) flat_empty empty_maps ∅ P.
Proof. intros. split; [by apply rmp_init_run|by apply initialised_coherent]. Qed.

(** C12.  An allocation that the kernel and the server grant returns the address
    of the mapping, and adds a stretch of zero pages to the memory the
    application sees; every other page is as it was. *)
Theorem alloc_adds_zero_pages e n a v v' s f m H P :
  coherent s f m H P -> granted e n a v v' s m -> server_grants stack n s ->
  next P + 2 < 2 ^ 32 ->
  exists s' P',
    rmp_alloc stack e n s = Some (a, s') /\
    coherent s' (flat_alloc (uffd_ret e) (a / PAGE_SIZE) n f)
      (region_maps m (thread_id e) (uffd_ret e) a) (insert_new a (next P) H) P'.
Proof.
  intros Hc Hg Hsv Hn. destruct (co_npages _ _ _ _ _ Hc) as [N HN].
  destruct (rmp_alloc_run stack Hstack e n a v v' s f m H N P Hc Hg Hsv HN) as (w & E & Hw).
  eexists _, _. split; [exact E|]. by eapply allocated_coherent.
Qed.

(** C1.  Remote memory is memory: every sequence of accesses that the
    discipline allows runs through, page faults, evictions and requests
    included, and each load returns what the flat memory holds. *)
Theorem remote_memory_is_memory tr s f m H P vs f' :
  coherent s f m H P -> flat_accesses tr f = Some (vs, f') ->
  exists s' m' P',
    run_accesses stack tr s = Some (vs, s') /\ coherent s' f' m' H P'.
Proof. by apply accesses_refine. Qed.

Lemma touch_after_clean_store s f m H P u p c b (w : bool) :
  coherent s f m H P -> mode f !! u = Some (p, false) -> length c = page_len ->
  owner f !! page_of b = Some u -> page_of b <> p ->
  touch stack b w (set_vs (Vmem (<[p := c]> (present (vs s))) (vma (vs s))) s)
  = touch stack b w s.
Proof.
  intros Hc Hm Hl Hb Hne. pose proof (co_inv _ _ _ _ _ Hc) as Hs.
  destruct (current_resident _ _ _ _ _ _ _ _ Hc Hm) as [[pg Hp] Hv].
  assert (Hs1 : uffd_inv (set_vs (Vmem (<[p := c]> (present (vs s))) (vma (vs s))) s) m)
    by (by apply (rewrite_inv _ _ _ pg)).
  assert (Habs : present (vs s) !! page_of b = None).
  { apply eq_None_not_Some. intros Hx.
    destruct (resident_current _ _ _ _ _ _ _ Hc Hb Hx) as [w' Hw']. congruence. }
  rewrite (co_mode _ _ _ _ _ Hc) in Hm.
  apply fmap_Some in Hm as (a & Ea & [= Hpa Hop]).
  destruct (ui_prev _ _ Hs u a Ea) as (op & Eop & Hop' & _ & _ & _ & [start Hst]).
  assert (op = 0) as -> by (destruct Hop' as [|Hop']; [done|]; subst op;
    rewrite Eop in Hop; by rewrite bool_decide_true in Hop).
  destruct (buffer_of _ _ _ _ _ _ _ Hc Hb) as (buf & Hbuf & _).
  pose proof (owner_vma _ _ _ _ _ _ _ Hc Hb) as Hvb.
  unfold touch. rewrite !run_bind, !run_get. cbn [vs set_vs present vma].
  rewrite lookup_insert_ne, Habs, Hvb by done. cbn iota.
  unfold mbind, prog_bind. cbn [handle_event].
  rewrite !(handle_fault_run _ (resovler_keeps stack) _ m u start b _ buf); try done.
  2:{ cbn. rewrite lookup_insert_ne by done. done. }
  unfold write_back. rewrite Ea, Eop, Hst. cbn [Z.eqb mbind option_bind env set_vs].
  destruct (fetched _ _ _ _ _ _) as [[pg' w']|]; [|done]. cbn [mbind option_bind].
  unfold faulted, evicted. cbn [vs set_vs um vma present]. rewrite Ea. cbn.
  by rewrite <- Hpa, delete_insert_eq.
Qed.

(** C23.  Outside the discipline: a store to the current page of a region that
    a load brought in succeeds, and is lost as soon as another page of the
    region is accessed: the system goes on as if it had never happened. *)
Theorem store_after_load_is_lost s f m H P u a bs x :
  coherent s f m H P -> owner f !! page_of a = Some u ->
  mode f !! u = Some (page_of a, false) -> in_page a (length bs) = true ->
  owner f !! page_of (access_addr x) = Some u ->
  page_of (access_addr x) <> page_of a ->
  exists s1, run_access stack (Store a bs) s = Some ([], s1) /\
             run_access stack x s1 = run_access stack x s.
Proof.
  intros Hc Hu Hm Hin Hx Hne. apply bool_decide_eq_true in Hin.
  destruct (current_resident _ _ _ _ _ _ _ _ Hc Hm) as [[pg Hp] _].
  destruct (resident_contents _ _ _ _ _ _ _ _ Hc Hu Hp) as [Hl _].
  eexists. cbn [run_access]. rewrite run_bind, touch_resident by eauto.
  rewrite run_bind. unfold try_put. rewrite (store_in_page _ pg) by done.
  cbn [mbind option_bind]. rewrite run_ret. split; [done|].
  assert (Ho : length (overlay_at (offset_in a) bs pg) = page_len)
    by (rewrite overlay_at_len; lia).
  destruct x as [b n|b ds]; cbn [run_access access_addr] in *; rewrite !run_bind;
    by rewrite (touch_after_clean_store s f m H P u).
Qed.

(** A store to a page that is not in memory never fetches the page: around
    the stored bytes it then holds the fault handlers' shared buffer, not its
    own contents. *)
Theorem store_to_absent_page_takes_the_buffer s f m H P u a bs buf :
  coherent s f m H P -> owner f !! page_of a = Some u ->
  present (vs s) !! page_of a = None -> page (um s) = Some buf ->
  in_page a (length bs) = true ->
  exists s' m' P',
    run_access stack (Store a bs) s = Some ([], s') /\
    coherent s' (write_contents (page_of a)
                   (known (overlay_at (offset_in a) bs buf))
                   (enter u (page_of a) true f)) m' H P'.
Proof.
  intros Hc Hu Hp Hb Hin. apply bool_decide_eq_true in Hin.
  assert (Hl : length buf = page_len)
    by (pose proof (co_buffer _ _ _ _ _ Hc) as Hx; by rewrite Hb in Hx).
  destruct (store_fault stack Hstack s f m H P u a bs buf) as (s' & P' & E & Hc' & _); try done.
  unfold enter. rewrite (absent_current _ _ _ _ _ _ u Hc Hp). eauto 10.
Qed.

(** The page of a region that is not the current one is not in memory. *)
Lemma not_current_absent s f m H P p u q w :
  coherent s f m H P -> owner f !! p = Some u -> mode f !! u = Some (q, w) -> p <> q ->
  present (vs s) !! p = None.
Proof.
  intros Hc Hu Hm Hne. apply eq_None_not_Some. intros Hp.
  destruct (resident_current _ _ _ _ _ _ _ Hc Hu Hp). congruence.
Qed.

(** A load from a page that is known. *)
Lemma load_known s f m H P u a n c :
  coherent s f m H P -> owner f !! page_of a = Some u ->
  contents f !! page_of a = Some (known c) -> in_page a n = true ->
  exists s', run_access stack (Load a n) s = Some (take n (drop (offset_in a) c), s').
Proof.
  intros Hc Hu Hk Hn.
  destruct (load_refines stack Hstack s f m H P a n (take n (drop (offset_in a) c))
    (enter u (page_of a) false f) Hc) as (s' & _ & _ & E & _); [|by exists s'].
  cbn [flat_access]. rewrite Hu, Hk. cbn [mbind option_bind].
  by rewrite Hn, mapM_known_slice.
Qed.

(** Why the random benchmark fails on remote memory: a program that
    writes to a page, then to another page of the region, and then to the
    first again, finds there only what it wrote last, over the bytes of the
    fault handlers' buffer; what it wrote first is gone. *)
Theorem returning_store_loses_earlier_ones s f m H P u a bs b cs a' bs' n buf :
  coherent s f m H P ->
  owner f !! page_of a = Some u -> owner f !! page_of b = Some u ->
  page_of a' = page_of a -> page_of b <> page_of a ->
  present (vs s) !! page_of a = None -> page (um s) = Some buf ->
  in_page a (length bs) = true -> in_page b (length cs) = true ->
  in_page a' (length bs') = true -> in_page a n = true ->
  exists s',
    run_accesses stack [Store a bs; Store b cs; Store a' bs'; Load a n] s =
      Some ([[]; []; []; take n (drop (offset_in a) (overlay_at (offset_in a') bs' buf))], s').
Proof.
  intros Hc Ha Hb Ha' Hne Hp Hbuf. unfold in_page at 1 2 3.
  intros Hi%bool_decide_eq_true Hj%bool_decide_eq_true Hk%bool_decide_eq_true Hn.
  assert (Hl : length buf = page_len)
    by (pose proof (co_buffer _ _ _ _ _ Hc) as Hx; by rewrite Hbuf in Hx).
  destruct (store_fault stack Hstack s f m H P u a bs buf)
    as (s1 & P1 & E1 & Hc1 & Hb1); try done.
  destruct (store_fault stack Hstack s1 _ _ H P1 u b cs buf Hc1)
    as (s2 & P2 & E2 & Hc2 & Hb2); try done.
  { by eapply (not_current_absent _ _ _ _ _ _ u _ true Hc1); [|apply lookup_insert_eq|]. }
  destruct (store_fault stack Hstack s2 _ _ H P2 u a' bs' buf Hc2)
    as (s3 & P3 & E3 & Hc3 & _); try done; rewrite ?Ha'; try done.
  { by eapply (not_current_absent _ _ _ _ _ _ u _ true Hc2); [|apply lookup_insert_eq|]. }
  rewrite Ha' in Hc3.
  destruct (load_known s3 _ _ H P3 u a n (overlay_at (offset_in a') bs' buf) Hc3)
    as (s4 & E4); [done|apply lookup_insert_eq|done|].
  exists s4. cbn [run_accesses].
  by rewrite !run_bind, E1, !run_bind, E2, !run_bind, E3, !run_bind, E4.
Qed.

(** C39.  [rmp_alloc] does not look at the server's answer: when the server
    refuses, the call still returns the address, the region is registered for
    page faults, and its handle is whatever was on the stack. *)
Theorem refused_alloc_is_not_noticed e n a v v' s f m H P w :
  coherent s f m H P -> granted e n a v v' s m ->
  rpc (alloc_request stack n) (remote (env s)) =
    Some (set_error ALLOC_FAILED (alloc_request stack n), w) ->
  exists s', rmp_alloc stack e n s = Some (a, s') /\
    (h ← addr_hndl_map (env s'); h !! a) = Some (hndl stack) /\
    uffd_inv s' (region_maps m (thread_id e) (uffd_ret e) a) /\
    vma (vs s') !! (a / PAGE_SIZE) = Some (Some (uffd_ret e)).
Proof.
  intros Hc Hg E. destruct (co_npages _ _ _ _ _ Hc) as [N HN].
  destruct (alloc_new_addr _ _ _ _ _ _ _ _ _ _ Hc Hg) as [_ Ha].
  destruct (gr_pages _ _ _ _ _ _ _ Hg) as [Hn Hb].
  eexists. split; [eapply (rmp_alloc_reply stack e n a v v' s m H N); [done|apply Hc..|done|exact E]|].
  split_and!.
  - cbn. rewrite insert_new_fresh by done. apply lookup_insert_eq.
  - pose proof (alloc_inv e n a v v' s f m H N P w Hc Hg) as Hi. by destruct Hi; split.
  - cbn. rewrite (alloc_vma _ _ _ _ _ _ _ Hg), decide_True; [done|lia].
Qed.

Lemma rmp_write_run h o pg (c : client W) r w :
  connected c = true -> rpc (write_request stack h o pg) (remote c) = Some (r, w) ->
  rmp_write stack h o pg c = Some (tt, set_remote w c).
Proof.
  intros Hc E. unfold rmp_write, rmp_write_page. rewrite run_bind, run_get, Hc.
  cbn [negb]. rewrite run_bind. unfold exchange. by rewrite E.
Qed.

Lemma rmp_read_run h o pg (c : client W) r w :
  connected c = true -> rpc (read_request stack h o) (remote c) = Some (r, w) ->
  rmp_read stack h o pg c = Some (data r, set_remote w c).
Proof.
  intros Hc E. unfold rmp_read, rmp_read_page. rewrite run_bind, run_get, Hc.
  cbn [negb]. rewrite run_bind. unfold exchange. by rewrite E.
Qed.

(** The raw calls: what [rmp_write] sends to a page the server has is what
    [rmp_read] then brings back. *)
Theorem raw_write_then_read (c : client W) P h o pg buf d :
  connected c = true -> holds (remote c) P -> next P + 1 < 2 ^ 32 ->
  is_u32 h -> is_u32 o -> length pg = page_len -> pool_page P h o = Some d ->
  exists c', (_ ← rmp_write stack h o pg; rmp_read stack h o buf) c = Some (pg, c').
Proof.
  intros Hc Hw Hn Hh Ho Hl Hd. assert (Hoff : u32 o = o) by (by apply u32_small).
  destruct (rpc_step _ _ (write_request stack h o pg) Hw) as (r & w & P' & E & Hs & Hw');
    [by apply honest_write_request|].
  apply (pool_step_write _ _ _ _ d) in Hs as [-> ->]; cbn in *; rewrite ?Hoff in *;
    try done; try mlia.
  destruct (rpc_step w _ (read_request stack h o) Hw') as (r' & w' & P'' & E' & Hs' & _).
  { by apply honest_read_request. }
  apply (pool_step_read _ _ _ _ pg) in Hs' as [-> ->]; cbn [action hndl offset read_request];
    rewrite ?Hoff; try done; try mlia; [|by eapply pool_page_write_eq].
  rewrite run_bind, (rmp_write_run h o pg c _ w) by done.
  rewrite (rmp_read_run h o buf _ _ w') by done. eauto.
Qed.

(** The reply's error is not looked at: [rmp_read] of a handle the server
    does not have hands the application the bytes of the packet it sent, which
    are whatever was on the stack. *)
Theorem failed_read_delivers_stack_bytes (c : client W) P h o buf :
  connected c = true -> holds (remote c) P -> next P + 1 < 2 ^ 32 ->
  is_u32 h -> is_u32 o -> regions P !! h = None ->
  exists w, rmp_read stack h o buf c = Some (data stack, set_remote w c) /\ holds w P.
Proof.
  intros Hc Hw Hn Hh Ho Hr.
  destruct (rpc_step _ _ (read_request stack h o) Hw) as (r & w & P' & E & Hs & Hw').
  { by apply honest_read_request. }
  exists w. rewrite (rmp_read_run h o buf c r w) by done.
  inversion Hs as [| | |? ? Hx| | | | | |]; subst; cbn in *; try done; try congruence.
  unfold pool_page in *. cbn in *. by rewrite Hr in *.
Qed.
End props.

(** ** Witnesses: one client, the server of rmp_server.cpp

    A client whose process maps and registers memory with [simple_vm], against
    the server model itself, after one allocation of two pages. *)
Definition demo_stack : packet := Packet 77 0 0 0 0 ones 0.

Definition demo_conn : conn_env := ConnEnv 3 0.

Definition demo_env : reg_env := RegEnv 5 0 0 100.

Definition demo_vm : vmem := Vmem ∅ (set_range 16 2 None ∅).

Definition demo_vm' : vmem := Vmem ∅ (set_range 16 2 (Some 5) (vma demo_vm)).

Definition demo_init : ust (client server) :=
  initialised demo_conn empty_vmem (new_server ∅).

Definition demo_sys : ust (client server) :=
  allocated demo_env 2 65536 0 demo_vm' demo_state demo_init empty_maps ∅ ∅.

Definition demo_flat : flat := flat_alloc 5 16 2 flat_empty.

Lemma demo_stack_wf : wf_packet demo_stack.
Proof. split; cbn; first [apply length_ones | done]. Qed.

Lemma demo_init_coherent : coherent demo_init flat_empty empty_maps ∅ empty_pool.
Proof. by apply initialised_coherent. Qed.

Lemma demo_granted :
  granted demo_env 2 65536 demo_vm demo_vm' demo_init empty_maps.
Proof. by split. Qed.

Lemma demo_server_grants : server_grants demo_stack 2 demo_init.
Proof.
  intros r w. change (rpc _ _) with (handle (alloc_request demo_stack 2) (new_server ∅)).
  rewrite (handle_alloc_granted (new_server ∅) _ 65536 (map_pages 16 2 ∅)) by done.
  by intros [= <- _].
Qed.

Lemma demo_coherent :
  coherent demo_sys demo_flat (region_maps empty_maps 100 5 65536)
    (insert_new 65536 0 ∅) demo_pool.
Proof.
  apply (allocated_coherent demo_env 2 65536 demo_vm demo_vm' demo_init flat_empty
           empty_maps ∅ ∅ empty_pool demo_state demo_init_coherent demo_granted).
  - apply demo_sim.
  - done.
Qed.

Lemma init_relates_empty_memory_witness :
  rmp_init demo_conn (process empty_vmem (new_server ∅)) = Some (0, demo_init) /\
  coherent demo_init flat_empty empty_maps ∅ empty_pool.
Proof.
  apply (init_relates_empty_memory demo_conn empty_vmem (new_server ∅) empty_pool);
    [done|done|done|done|apply sim_empty; done|done|done].
Defined.

Lemma alloc_adds_zero_pages_witness :
  exists s' P', rmp_alloc demo_stack demo_env 2 demo_init = Some (65536, s') /\
    coherent s' demo_flat (region_maps empty_maps 100 5 65536)
      (insert_new 65536 0 ∅) P'.
Proof.
  apply (alloc_adds_zero_pages demo_stack demo_stack_wf demo_env 2 65536 demo_vm demo_vm'
           demo_init flat_empty empty_maps ∅ empty_pool demo_init_coherent demo_granted
           demo_server_grants).
  done.
Defined.

(** Write to the first page and read it, write to the second (which evicts the
    first to the server), and read the first again. *)
Definition demo_trace : list access :=
  [Store 65536 [x01; x02]; Load 65537 1; Store 69632 [x03]; Load 65536 2].

Definition demo_flat' : flat :=
  Flat (owner demo_flat) (<[17 := overlay_at 0 (known [x03]) unknown_page]>
      (<[16 := overlay_at 0 (known [x01; x02]) unknown_page]> (contents demo_flat)))
    (<[5 := (16, false)]> (mode demo_flat)).

Lemma demo_trace_flat :
  flat_accesses demo_trace demo_flat = Some ([[]; [x02]; []; [x01; x02]], demo_flat').
Proof. vm_compute. reflexivity. Qed.

Lemma remote_memory_is_memory_witness :
  exists s' m' P',
    run_accesses demo_stack demo_trace demo_sys
      = Some ([[]; [x02]; []; [x01; x02]], s') /\
    coherent s' demo_flat' m' (insert_new 65536 0 ∅) P'.
Proof.
  apply (remote_memory_is_memory demo_stack demo_stack_wf demo_trace demo_sys demo_flat _ _ _
           _ demo_flat' demo_coherent demo_trace_flat).
Defined.

(** After a load of the first page. *)
Definition demo_loaded : flat :=
  Flat (owner demo_flat) (contents demo_flat) (<[5 := (16, false)]> (mode demo_flat)).

Lemma demo_load_flat :
  flat_accesses [Load 65536 1] demo_flat = Some ([[x00]], demo_loaded).
Proof. vm_compute. reflexivity. Qed.

Lemma store_after_load_is_lost_witness :
  exists s : ust (client server),
    (exists s0, run_accesses demo_stack [Load 65536 1] s0 = Some ([[x00]], s)) /\
    exists s1, run_access demo_stack (Store 65536 [x01]) s = Some ([], s1) /\
      run_access demo_stack (Load 69632 1) s1 = run_access demo_stack (Load 69632 1) s.
Proof.
  destruct (accesses_refine demo_stack demo_stack_wf [Load 65536 1] demo_sys demo_flat _ _ _
              _ demo_loaded demo_coherent demo_load_flat) as (s & m & P & E & Hc).
  exists s. split; [by exists demo_sys|].
  apply (store_after_load_is_lost demo_stack s demo_loaded m _ P 5 65536 [x01]
           (Load 69632 1) Hc); try reflexivity. done.
Defined.

Lemma store_to_absent_page_takes_the_buffer_witness :
  exists s' m' P',
    run_access demo_stack (Store 65536 [x01]) demo_sys = Some ([], s') /\
    coherent s' (write_contents 16 (known (overlay_at 0 [x01] zero_page))
                   (enter 5 16 true demo_flat)) m' (insert_new 65536 0 ∅) P'.
Proof.
  apply (store_to_absent_page_takes_the_buffer demo_stack demo_stack_wf demo_sys demo_flat _ _ _
           5 65536 [x01] zero_page demo_coherent); reflexivity.
Defined.

(** A server whose address space is used up. *)
Definition full_server : server := new_server {[2 ^ 35 - 1 := zero_page]}.

Lemma full_server_sim : simulates full_server empty_pool.
Proof. apply sim_empty. apply map_Forall_singleton. apply length_zero_page. Qed.

Definition demo_full : ust (client server) :=
  initialised demo_conn empty_vmem full_server.

Lemma demo_full_coherent : coherent demo_full flat_empty empty_maps ∅ empty_pool.
Proof. by apply initialised_coherent; first [apply full_server_sim | done]. Qed.

Lemma refused_alloc_is_not_noticed_witness :
  exists s', rmp_alloc demo_stack demo_env 2 demo_full = Some (65536, s') /\
    (h ← addr_hndl_map (env s'); h !! 65536) = Some 77 /\
    uffd_inv s' (region_maps empty_maps 100 5 65536) /\
    vma (vs s') !! 16 = Some (Some 5).
Proof.
  apply (refused_alloc_is_not_noticed demo_stack demo_env 2 65536 demo_vm demo_vm'
           demo_full flat_empty empty_maps ∅ empty_pool full_server demo_full_coherent).
  - by split.
  - vm_compute. reflexivity.
Defined.

Definition demo_client : client server := Client 3 true (Some ∅) (Some ∅) demo_state.

Lemma raw_write_then_read_witness :
  exists c', (_ ← rmp_write demo_stack 0 1 ones; rmp_read demo_stack 0 1 zero_page)
               demo_client = Some (ones, c').
Proof.
  apply (raw_write_then_read demo_stack demo_stack_wf demo_client demo_pool 0 1 ones
           zero_page zero_page); try done. apply demo_sim.
Defined.

Lemma failed_read_delivers_stack_bytes_witness :
  exists w, rmp_read demo_stack 9 0 zero_page demo_client
              = Some (ones, set_remote w demo_client) /\ holds w demo_pool.
Proof.
  apply (failed_read_delivers_stack_bytes demo_stack demo_stack_wf demo_client demo_pool 9 0
           zero_page); try done. apply demo_sim.
Defined.

(** Two counters in the first page, one in the second: the first is lost. *)
Lemma returning_store_loses_earlier_ones_witness :
  exists s',
    run_accesses demo_stack
      [Store 65536 [x01]; Store 69632 [x02]; Store 65540 [x03]; Load 65536 1] demo_sys
    = Some ([[]; []; []; [x00]], s').
Proof.
  apply (returning_store_loses_earlier_ones demo_stack demo_stack_wf demo_sys demo_flat _ _ _
           5 65536 [x01] 69632 [x02] 65540 [x03] 1 zero_page demo_coherent);
    first [reflexivity | discriminate].
Defined.
