(* ===== verification/Slots.v ===== *)
(** * Arrays on the flat memory

    The client, the benchmarks and the demo use remote regions as arrays.  An
    element type [elem] is a width that divides the page and an encoding; slot
    [i] of the region at page [p] is its [i]-th element.  A region that is
    filled one page after the other, or whose slots all lie in the page it
    has in memory, keeps to the discipline of System.v and reads back. *)

From S2P Require Import Prelude OS Packet FloatInt Pool Vm Uffd UffdCorrect Client.
From S2P Require Import System SystemCorrect.

(** ** Element types *)
Record elem := Elem {
  width : Z;
  enc : Z -> list byte;
  dec : list byte -> Z;
}.

Class ElemLaws (E : elem) := {
  el_width : 0 < width E;
  el_page : (width E | PAGE_SIZE);
  el_len x : length (enc E x) = Z.to_nat (width E);
}.

Definition double_elem : elem := Elem 8 double_bytes bytes_double.

Definition int_elem : elem := Elem 4 (le_bytes 4) (fun bs => s32 (le_val bs)).

#[export] Instance double_elem_laws : ElemLaws double_elem.
Proof. split; [done|by exists 512|intros x; apply length_le_bytes]. Qed.

#[export] Instance int_elem_laws : ElemLaws int_elem.
Proof. split; [done|by exists 1024|intros x; apply length_le_bytes]. Qed.

Lemma int_dec_enc x : - 2 ^ 31 <= x < 2 ^ 31 -> dec int_elem (enc int_elem x) = x.
Proof.
  intros Hx. cbn [dec enc int_elem]. rewrite le_val_bytes. unfold s32.
  change (8 * Z.of_nat 4) with 32.
  rewrite Z.add_mod_idemp_l, Z.mod_small by lia. lia.
Qed.

(** Elements per page. *)
Definition per_page (E : elem) : Z := PAGE_SIZE / width E.

Section slots.
Context (E : elem) {HE : ElemLaws E}.
#[local] Abbreviation w := (width E).
#[local] Abbreviation k := (per_page E).

Definition slot_addr (p i : Z) : Z := p * PAGE_SIZE + w * i.

Definition slot_off (i : Z) : nat := Z.to_nat (w * (i mod k)).

Lemma per_page_spec : PAGE_SIZE = w * k /\ 0 < k.
Proof.
  pose proof (el_width (E := E)) as Hw. destruct (el_page (E := E)) as [n Hn].
  unfold per_page. rewrite Hn, Z.div_mul by lia.
  assert (0 < PAGE_SIZE) by mlia. split; nia.
Qed.

Lemma slot_page p i : page_of (slot_addr p i) = p + i / k.
Proof.
  destruct per_page_spec as [Hk Hk0]. pose proof (el_width (E := E)).
  unfold page_of, slot_addr. rewrite Z.div_add_l by mlia. f_equal.
  rewrite Hk. apply Z.div_mul_cancel_l; lia.
Qed.

Lemma slot_offset p i : offset_in (slot_addr p i) = slot_off i.
Proof.
  destruct per_page_spec as [Hk Hk0]. pose proof (el_width (E := E)).
  unfold offset_in, slot_off, slot_addr. f_equal.
  rewrite Z.add_comm, Z.mod_add by mlia. rewrite Hk. apply Z.mul_mod_distr_l; lia.
Qed.

Lemma slot_off_bound i : (slot_off i + Z.to_nat w <= page_len)%nat.
Proof.
  destruct per_page_spec as [Hk Hk0]. pose proof (el_width (E := E)).
  unfold slot_off. pose proof (Z.mod_pos_bound i k Hk0). pose proof page_len_Z. nia.
Qed.

(** Different slots of one page are apart. *)
Lemma slot_off_apart i j : i <> j -> i / k = j / k ->
  (slot_off j + Z.to_nat w <= slot_off i \/ slot_off i + Z.to_nat w <= slot_off j)%nat.
Proof.
  destruct per_page_spec as [Hk Hk0]. pose proof (el_width (E := E)).
  intros Hij Hd. unfold slot_off.
  pose proof (Z.mod_pos_bound i k Hk0). pose proof (Z.mod_pos_bound j k Hk0).
  pose proof (Z.div_mod i k ltac:(lia)). pose proof (Z.div_mod j k ltac:(lia)).
  assert (i mod k < j mod k \/ j mod k < i mod k) as [?|?] by nia; [right|left]; nia.
Qed.

Definition slot {A} (j : Z) (x : list A) : list A :=
  take (Z.to_nat w) (drop (slot_off j) x).

Lemma slot_overlay_ne {A} j i (bs x : list A) :
  length bs = Z.to_nat w -> (slot_off i + Z.to_nat w <= length x)%nat ->
  i <> j -> i / k = j / k ->
  slot j (overlay_at (slot_off i) bs x) = slot j x.
Proof.
  intros Hb Hx Hij Hd. destruct (slot_off_apart i j Hij Hd) as [Hj|Hj];
    unfold slot, overlay_at.
  - rewrite drop_app_le by (rewrite length_take; lia).
    rewrite take_app_le by (rewrite length_drop, length_take; lia).
    by rewrite skipn_firstn_comm, take_take, Nat.min_l by lia.
  - rewrite drop_app_ge, length_take, Nat.min_l by (rewrite ?length_take; lia).
    rewrite drop_app_ge, drop_drop by lia. f_equal. f_equal. lia.
Qed.

Lemma slot_overlay_eq {A} i (bs x : list A) :
  length bs = Z.to_nat w -> (slot_off i <= length x)%nat ->
  slot i (overlay_at (slot_off i) bs x) = bs.
Proof.
  intros Hb Hx. unfold slot, overlay_at.
  rewrite drop_app_length' by (rewrite length_take; lia).
  by rewrite take_app_length' by done.
Qed.

(** ** Regions whose slots are known *)

(** The slots [j] in [S] of the region of [N] pages at [p] hold [g j]. *)
Record reading (f : flat) (u p N : Z) (S : Z -> Prop) (g : Z -> Z) : Prop := {
  rg_owner q : p <= q < p + N ->
    owner f !! q = Some u /\ exists x, contents f !! q = Some x /\ length x = page_len;
  rg_known j : S j -> exists x,
    contents f !! (p + j / k) = Some x /\ slot j x = known (enc E (g j));
}.

(** Nothing but the region changed. *)
Record others (f f' : flat) (u p N : Z) : Prop := {
  ot_owner : owner f' = owner f;
  ot_mode u' : u' <> u -> mode f' !! u' = mode f !! u';
  ot_contents q : ~ p <= q < p + N -> contents f' !! q = contents f !! q;
}.

Lemma others_refl f u p N : others f f u p N.
Proof. by split. Qed.

Lemma others_trans f g h u p N : others f g u p N -> others g h u p N -> others f h u p N.
Proof.
  intros [E1 M1 C1] [E2 M2 C2]. split; [congruence|..].
  - intros u' Hu. by rewrite M2, M1.
  - intros q Hq. by rewrite C2, C1.
Qed.

Lemma reading_weaken f u p N (S S' : Z -> Prop) g g' :
  (forall j, S' j -> S j /\ g' j = g j) -> reading f u p N S g -> reading f u p N S' g'.
Proof.
  intros H [Ho Hk]. split; [done|]. intros j Hj. destruct (H j Hj) as [HS ->]. auto.
Qed.

Lemma slot_in_region p N i : 0 <= i < k * N -> p <= p + i / k < p + N.
Proof.
  destruct per_page_spec as [_ Hk0]. intros Hi.
  pose proof (Z.div_mod i k). pose proof (Z.mod_pos_bound i k Hk0). nia.
Qed.

(** The store of slot [i] may go ahead: its page is current and dirty, or it is
    not in memory and holds nothing yet. *)
Definition may_store (f : flat) (u p i : Z) (S : Z -> Prop) : Prop :=
  mode f !! u = Some (p + i / k, true) \/
  (forall b, mode f !! u <> Some (p + i / k, b)) /\
  forall j, S j -> j / k <> i / k.

(** What the store writes over: the page itself when it is current, an unknown
    page when it is not.  Either way the filled slots of the page are known. *)
Lemma store_base f u p N i x S g :
  reading f u p N S g -> may_store f u p i S ->
  contents f !! (p + i / k) = Some x -> length x = page_len ->
  exists base, length base = page_len /\
    (match current f u (p + i / k) with
     | Some true => Some x | Some false => None | None => Some unknown_page
     end) = Some base /\
    (forall j, S j -> j / k = i / k -> slot j base = known (enc E (g j))) /\
    mode (enter u (p + i / k) true f) !! u = Some (p + i / k, true).
Proof.
  intros [_ Hk] Hm Hx Hl. unfold enter, current.
  destruct Hm as [Hm|[Hm Hj]].
  - rewrite Hm. cbn. rewrite decide_True by done. exists x. split_and!; try done.
    intros j Hj Hd. destruct (Hk j Hj) as (y & Hy & Hs). rewrite Hd in Hy.
    simplify_eq. done.
  - exists unknown_page. split_and!.
    + apply length_replicate.
    + destruct (mode f !! u) as [[q b]|] eqn:Eq; [|done]. cbn.
      rewrite decide_False; [done|]. intros ->. by eapply Hm.
    + intros j HS Hd. by destruct (Hj j HS).
    + destruct (mode f !! u) as [[q b]|] eqn:Eq; cbn; [|apply lookup_insert_eq].
      rewrite decide_False by (intros ->; by eapply Hm). apply lookup_insert_eq.
Qed.

Lemma flat_store_slot f u p N i y S g :
  reading f u p N S g -> may_store f u p i S -> 0 <= i < k * N ->
  exists f', flat_access (Store (slot_addr p i) (enc E y)) f = Some ([], f') /\
    reading f' u p N (fun j => j = i \/ S j) (fun j => if decide (j = i) then y else g j) /\
    others f f' u p N /\
    mode f' !! u = Some (p + i / k, true).
Proof.
  intros Hf Hm Hi. pose proof (slot_in_region p N i Hi) as Hq.
  destruct (rg_owner _ _ _ _ _ _ Hf _ Hq) as (Hu & x & Hx & Hl).
  destruct (store_base f u p N i x S g Hf Hm Hx Hl) as (base & Hlb & Eb & Hkb & Hme).
  set (q := p + i / k) in *. destruct Hf as [Ho Hk].
  cbn [flat_access]. rewrite slot_page, slot_offset. fold q. rewrite Hu, Hx.
  cbn [mbind option_bind]. unfold in_page. rewrite slot_offset, el_len.
  rewrite bool_decide_true by apply slot_off_bound. rewrite Eb. cbn [mbind option_bind].
  pose proof (slot_off_bound i) as Hob.
  assert (Hlk : length (known (enc E y)) = Z.to_nat w)
    by (unfold known; by rewrite length_fmap, el_len).
  assert (Hlo : length (overlay_at (slot_off i) (known (enc E y)) base) = page_len).
  { rewrite overlay_at_len; rewrite ?Hlk; lia. }
  eexists. split; [done|]. split_and!; [split|split|]; unfold write_contents; cbn.
  - intros r Hr. rewrite lookup_insert. unfold enter.
    destruct (Ho r Hr) as (Hur & z & Hy & Hly).
    destruct (current f u q); cbn; (split; [done|]); destruct (decide (q = r)); eauto.
  - intros j Hj. rewrite lookup_insert. destruct (decide (q = p + j / k)) as [Hc|Hc].
    + eexists. split; [done|]. case_decide as Hji; [subst j|].
      * apply slot_overlay_eq; [done|lia].
      * destruct Hj as [->|Hj]; [done|].
        rewrite slot_overlay_ne; [apply Hkb; [done|lia]|done|lia|done|lia].
    + destruct Hj as [->|Hj]; [done|]. rewrite decide_False by (by intros ->).
      destruct (Hk j Hj) as (z & Hz & Hs).
      unfold enter. destruct (current f u q); cbn; eauto.
  - unfold enter. by destruct (current f u q).
  - intros u' Hu'. unfold enter. destruct (current f u q); [done|]. cbn.
    by rewrite lookup_insert_ne.
  - intros r Hr. rewrite lookup_insert_ne by (intros <-; lia).
    unfold enter. by destruct (current f u q).
  - exact Hme.
Qed.

Lemma flat_load_slot f u p N S g j :
  reading f u p N S g -> S j -> 0 <= j < k * N ->
  exists f', flat_access (Load (slot_addr p j) (Z.to_nat w)) f = Some (enc E (g j), f') /\
    reading f' u p N S g /\ others f f' u p N.
Proof.
  intros [Ho Hk] Hj Hn. pose proof (slot_in_region p N j Hn) as Hq.
  set (q := p + j / k) in *. destruct (Ho q Hq) as [Hu _].
  destruct (Hk j Hj) as (x & Hx & Hs). fold q in Hx.
  cbn [flat_access]. rewrite slot_page, slot_offset. fold q. rewrite Hu, Hx.
  cbn [mbind option_bind]. unfold in_page. rewrite slot_offset.
  rewrite bool_decide_true by apply slot_off_bound.
  change (take _ (drop (slot_off j) x)) with (slot j x). rewrite Hs, mapM_known.
  cbn [mbind option_bind]. eexists. split; [done|].
  unfold enter. split; split; destruct (current f u q); cbn; auto.
  intros u' Hu'. by rewrite lookup_insert_ne.
Qed.

(** ** Filling in order *)

(** The first [i] slots hold their index, and the page of the last one is current. *)
Record filling (f : flat) (u p N i : Z) : Prop := {
  fi_reading : reading f u p N (fun j => 0 <= j < i) (fun j => j);
  fi_mode : mode f !! u = if decide (i = 0) then None else Some (p + (i - 1) / k, true);
}.

(** Another region stays as it was. *)
Lemma others_filling f f' u p N u' p' N' i :
  others f f' u p N -> u' <> u -> (forall q, p' <= q < p' + N' -> ~ p <= q < p + N) ->
  0 <= i <= k * N' -> filling f u' p' N' i -> filling f' u' p' N' i.
Proof.
  intros [Eo M C] Hu Hd Hi [[Ho Hk] Hm]. split; [split|].
  - intros q Hq. rewrite Eo, C by (by apply Hd). by apply Ho.
  - intros j Hj. rewrite C; [by apply Hk|]. apply Hd, slot_in_region. lia.
  - by rewrite M.
Qed.

Lemma filling_may_store f u p N i :
  filling f u p N i -> 0 <= i -> may_store f u p i (fun j => 0 <= j < i).
Proof.
  destruct per_page_spec as [_ Hk0]. intros [_ Hm] Hi. unfold may_store. rewrite Hm.
  destruct (decide (i = 0)) as [->|Hi0]; [right; split; [done|lia]|].
  destruct (decide (p + (i - 1) / k = p + i / k)) as [Hc|Hc]; [left; by rewrite Hc|right].
  split; [congruence|]. intros j Hj Hd. apply Hc. f_equal.
  apply Z.le_antisymm; [apply Z.div_le_mono; lia|]. rewrite <- Hd.
  apply Z.div_le_mono; lia.
Qed.

Lemma flat_fill_slot f u p N i :
  filling f u p N i -> 0 <= i < k * N ->
  exists f', flat_access (Store (slot_addr p i) (enc E i)) f = Some ([], f') /\
    filling f' u p N (i + 1) /\ others f f' u p N.
Proof.
  intros Hf Hi.
  destruct (flat_store_slot f u p N i i _ _ (fi_reading _ _ _ _ _ Hf))
    as (f' & Ea & Hr & Ho & Hm);
    [apply (filling_may_store _ _ _ N); [done|lia]|done|].
  exists f'. split_and!; [done| |done]. split.
  - eapply reading_weaken; [|done]. cbn. intros j Hj. split; [lia|]. by case_decide.
  - rewrite Hm, decide_False by lia. by replace (i + 1 - 1) with i by lia.
Qed.
End slots.

(** ** On the system *)
Section on_system.
Context {V : VM} {HV : VMLaws V} {W : Type} {PS : PageServer W}.
Context (stack : packet) (Hstack : wf_packet stack).
Implicit Types (s : ust (client W)) (f : flat).

(** Coherent with [f], for some maps and some pool. *)
Definition sees s f : Prop := exists m H P, coherent s f m H P.

Lemma sees_access s f a v f' :
  sees s f -> flat_access a f = Some (v, f') ->
  exists s', run_access stack a s = Some (v, s') /\ sees s' f'.
Proof.
  intros (m & H & P & Hc) Ha.
  destruct (access_refines stack Hstack _ _ _ _ _ _ _ _ Hc Ha) as (s' & m' & P' & E & Hc').
  exists s'. split; [done|]. by exists m', H, P'.
Qed.
End on_system.
