(* ===== verification/Demo.v ===== *)
(** * The demo client: client.cpp

    [main] of the client: connect, allocate three regions of eleven pages,
    fill ten pages of each with [double]s and sum them again.  That a region
    filled in order reads back as it was filled is shown in Slots.v. *)

From S2P Require Import Prelude OS Packet FloatInt Pool Server ServerCorrect.
From S2P Require Import ServerRefines ServerProps Net Wire Vm Uffd UffdCorrect Client.
From S2P Require Import System SystemCorrect SystemStart SystemProps Slots.

Section demo.
Context {V : VM} {W : Type} {PS : PageServer W}.
Context (stack : packet).

(** [for (...) data[i] = i;] *)
Fixpoint store_loop (data i : Z) (n : nat) : prog (ust (client W)) unit :=
  match n with
  | O => mret tt
  | S n =>
      _ ← run_access stack (Store (data + 8 * i) (double_bytes i));
      store_loop data (i + 1) n
  end.

(** [for (...) { printf(..., data[i]); sum += data[i]; }]: the values printed
    and the sum. *)
Fixpoint sum_loop (data i : Z) (n : nat) (sum : Z) :
    prog (ust (client W)) (list Z * Z) :=
  match n with
  | O => mret ([], sum)
  | S n =>
      shown ← run_access stack (Load (data + 8 * i) 8);
      v ← run_access stack (Load (data + 8 * i) 8);
      '(vs, sum) ← sum_loop data (i + 1) n (to_double (sum + bytes_double v));
      mret (bytes_double shown :: vs, sum)
  end.

(** [(10 * PAGE_SIZE) / sizeof(double)] *)
Definition demo_count : nat := Z.to_nat (ul (10 * PAGE_SIZE) / 8).

(** [main]: the exit code and what the loops print. *)
Definition main_client (argc : Z) (e : conn_env) (r1 r2 r3 : reg_env) :
    prog (ust (client W)) (Z * list (list Z * Z)) :=
  if negb (argc =? 3) then mret (1, [])
  else
    _ ← rmp_init e;
    data ← rmp_alloc stack r1 11;
    data2 ← rmp_alloc stack r2 11;
    data3 ← rmp_alloc stack r3 11;
    _ ← store_loop data 0 demo_count;
    sum ← sum_loop data 0 demo_count 0;
    _ ← store_loop data2 0 demo_count;
    sum2 ← sum_loop data2 0 demo_count 0;
    _ ← store_loop data3 0 demo_count;
    sum3 ← sum_loop data3 0 demo_count 0;
    mret (0, [sum; sum2; sum3]).
End demo.

Lemma demo_count_Z : Z.of_nat demo_count = 5120.
Proof. by vm_compute. Qed.

#[global] Opaque demo_count.

(** The arrays are those of Slots.v, with [double] elements. *)
Lemma double_per_page : per_page double_elem = 512.
Proof. done. Qed.

(** ** The loops on the system *)
Section loops.
Context {V : VM} {HV : VMLaws V} {W : Type} {PS : PageServer W}.
Context (stack : packet) (Hstack : wf_packet stack).
Implicit Types (s : ust (client W)) (f : flat).

Lemma store_loop_run n : forall s f u p N i,
  sees s f -> filling double_elem f u p N i -> 0 <= i -> i + Z.of_nat n <= 512 * N ->
  exists s' f', store_loop stack (p * PAGE_SIZE) i n s = Some (tt, s') /\ sees s' f' /\
    filling double_elem f' u p N (i + Z.of_nat n) /\ others f f' u p N.
Proof.
  induction n as [|n IH]; intros s f u p N i Hs Hf Hi Hn; cbn [store_loop].
  { exists s, f. rewrite Z.add_0_r. split_and!; auto using others_refl. }
  destruct (flat_fill_slot double_elem f u p N i Hf) as (f1 & Ea & Hf1 & Ho1);
    [rewrite double_per_page; lia|].
  destruct (sees_access stack Hstack _ _ _ _ _ Hs Ea) as (s1 & E1 & Hs1).
  destruct (IH s1 f1 u p N (i + 1)) as (s2 & f2 & E2 & Hs2 & Hf2 & Ho2); [done|done|lia|lia|].
  cbn [enc double_elem] in E1. rewrite run_bind. unfold slot_addr in E1.
  cbn [width double_elem] in E1. rewrite E1. exists s2, f2. split_and!; try done.
  - by replace (i + Z.of_nat (S n)) with (i + 1 + Z.of_nat n) by lia.
  - by eapply others_trans.
Qed.

Lemma sum_loop_run n : forall s f u p N i c sum,
  sees s f -> reading double_elem f u p N (fun j => 0 <= j < c) (fun j => j) -> 0 <= i -> i + Z.of_nat n <= c -> c <= 512 * N ->
  c <= 2 ^ 26 -> 2 * sum = i * (i - 1) ->
  exists s' f', sum_loop stack (p * PAGE_SIZE) i n sum s =
      Some ((seqZ i (Z.of_nat n), (i + Z.of_nat n) * (i + Z.of_nat n - 1) / 2), s') /\
    sees s' f' /\ others f f' u p N.
Proof.
  induction n as [|n IH]; intros s f u p N i c sum Hs Hf Hi Hn Hc Hb Hsum; cbn [sum_loop].
  { exists s, f. rewrite Z.add_0_r, <- Hsum, Z.mul_comm, Z.div_mul by lia.
    split_and!; auto using others_refl. }
  destruct (flat_load_slot double_elem f u p N _ _ i Hf) as (f1 & Ea & Hf1 & Ho1);
    [cbn; lia|rewrite double_per_page; lia|].
  destruct (sees_access stack Hstack _ _ _ _ _ Hs Ea) as (s1 & E1 & Hs1).
  destruct (flat_load_slot double_elem f1 u p N _ _ i Hf1) as (f2 & Ea2 & Hf2 & Ho2);
    [cbn; lia|rewrite double_per_page; lia|].
  destruct (sees_access stack Hstack _ _ _ _ _ Hs1 Ea2) as (s2 & E2 & Hs2).
  assert (Hi26 : i < 2 ^ 53) by lia.
  unfold slot_addr in E1, E2. cbn [width enc double_elem] in E1, E2.
  change (Z.to_nat 8) with 8%nat in E1, E2.
  rewrite run_bind, E1, run_bind, E2, run_bind. rewrite !bytes_double_bytes by lia.
  unfold to_double. rewrite round_small by nia.
  destruct (IH s2 f2 u p N (i + 1) c (sum + i)) as (s3 & f3 & E3 & Hs3 & Ho3);
    [done|done|lia|lia|lia|lia|lia|].
  rewrite E3. exists s3, f3. rewrite run_ret, (seqZ_cons i) by lia.
  replace (i + 1 + Z.of_nat n) with (i + Z.of_nat (S n)) by lia.
  replace (Z.pred (Z.of_nat (S n))) with (Z.of_nat n) by lia.
  split_and!; [done|done|]. eauto using others_trans.
Qed.

(** ** Allocation of a region to be filled *)
Definition apart (u p N u' p' N' : Z) : Prop :=
  u' <> u /\ forall q, p' <= q < p' + N' -> ~ p <= q < p + N.

Lemma apart_sym u p N u' p' N' : apart u p N u' p' N' -> apart u' p' N' u p N.
Proof. intros [Hu Hq]. split; [done|]. intros q Hq1 Hq2. by apply (Hq q). Qed.

Lemma others_apart f f' u p N u' p' N' i :
  others f f' u p N -> apart u p N u' p' N' -> 0 <= i <= 512 * N' ->
  filling double_elem f u' p' N' i -> filling double_elem f' u' p' N' i.
Proof.
  intros Ho [Hu Hq] Hi. apply (others_filling double_elem f f' u p N);
    [exact Ho|exact Hu|exact Hq|by rewrite double_per_page].
Qed.

Lemma alloc_region e n a v v' s f m H P :
  coherent s f m H P -> granted e n a v v' s m -> server_grants stack n s ->
  next P + 2 < 2 ^ 32 ->
  exists s' f' H' P', rmp_alloc stack e n s = Some (a, s') /\
    coherent s' f' (region_maps m (thread_id e) (uffd_ret e) a) H' P' /\
    next P' = next P + 1 /\ a = a / PAGE_SIZE * PAGE_SIZE /\
    filling double_elem f' (uffd_ret e) (a / PAGE_SIZE) n 0 /\
    forall u p N, 0 < N -> filling double_elem f u p N 0 ->
      filling double_elem f' u p N 0 /\ apart (uffd_ret e) (a / PAGE_SIZE) n u p N.
Proof.
  intros Hc Hg Hsv Hn. destruct (co_npages _ _ _ _ _ Hc) as [M HM].
  destruct (gr_pages _ _ _ _ _ _ _ Hg) as [Hnp _].
  destruct (rmp_alloc_run stack Hstack e n a v v' s f m H M P Hc Hg Hsv HM) as (w & E & Hw).
  do 4 eexists. split; [exact E|]. split; [by eapply allocated_coherent|].
  split; [done|]. split; [|split].
  - destruct (vm_mmap_ok _ _ _ _ (gr_mmap _ _ _ _ _ _ _ Hg)) as (_ & Hal & _).
    by rewrite aligned_div.
  - split; [split|]; cbn.
    + intros q Hq. rewrite !lookup_set_range, !decide_True by lia. split; [done|].
      exists (known zero_page). split; [done|].
      unfold known. by rewrite length_fmap, length_zero_page.
    + lia.
    + by apply (alloc_mode e n a v v' s f m H P Hc Hg).
  - intros u p N HN [[Ho _] Hm].
    assert (Hold : forall q, p <= q < p + N ->
      ~ a / PAGE_SIZE <= q < a / PAGE_SIZE + n /\ u <> uffd_ret e).
    { intros q Hq. destruct (Ho q Hq) as [Hu _].
      destruct (co_page _ _ _ _ _ Hc q u Hu) as (h & o & c & x & Hh & Hd & _).
      by destruct (alloc_old_page e n a v v' s f m H P Hc Hg _ _ _ _ _ Hh Hd) as (? & ? & _). }
    split; [split; [split|]; cbn|].
    + intros q Hq. rewrite !lookup_set_range, !decide_False; [by apply Ho|..];
        destruct (Hold q Hq); lia.
    + lia.
    + done.
    + destruct (Hold p) as [_ ?]; [lia|]. split; [done|]. apply Hold.
Qed.

(** Fill a region in order and sum it. *)
Lemma region_run (n : nat) s f u p N :
  sees s f -> filling double_elem f u p N 0 -> Z.of_nat n <= 512 * N -> Z.of_nat n <= 2 ^ 26 ->
  exists s' f',
    (_ ← store_loop stack (p * PAGE_SIZE) 0 n; sum_loop stack (p * PAGE_SIZE) 0 n 0) s
      = Some ((seqZ 0 (Z.of_nat n), Z.of_nat n * (Z.of_nat n - 1) / 2), s') /\
    sees s' f' /\ others f f' u p N.
Proof.
  intros Hs Hf Hn Hb.
  destruct (store_loop_run n s f u p N 0 Hs Hf) as (s1 & f1 & E1 & Hs1 & Hf1 & Ho1); [lia|lia|].
  destruct (sum_loop_run n s1 f1 u p N 0 (Z.of_nat n) 0 Hs1) as (s2 & f2 & E2 & Hs2 & Ho2);
    try lia; [apply Hf1|].
  exists s2, f2. rewrite run_bind, E1. split_and!; [exact E2|done|].
  by eapply others_trans.
Qed.

(** Every allocation of the list is granted, whatever state the allocations
    before it lead to. *)
Fixpoint all_granted (rs : list reg_env) (n : Z) s (m : uffd_maps) : Prop :=
  match rs with
  | [] => True
  | e :: rs =>
      exists a v v', granted e n a v v' s m /\ server_grants stack n s /\
        forall s', rmp_alloc stack e n s = Some (a, s') ->
          all_granted rs n s' (region_maps m (thread_id e) (uffd_ret e) a)
  end.

(** C4.  The demo client works: with a server that grants its three
    allocations, [main] runs to its end, and for each region the loop prints
    the numbers the program stored, and their sum. *)
Theorem demo_client_reads_what_it_stored e r1 r2 r3 v w P :
  0 <= socket_ret e -> 0 <= connect_ret e ->
  wf_mem (present v) -> (forall p u, vma v !! p <> Some (Some u)) ->
  holds w P -> 0 <= next P -> next P + 4 < 2 ^ 32 ->
  all_granted [r1; r2; r3] 11 (initialised e v w) empty_maps ->
  exists s', main_client stack 3 e r1 r2 r3 (process v w) =
    Some ((0, replicate 3 (seqZ 0 5120, 5120 * 5119 / 2)), s').
Proof.
  intros Hs Hcn Hwf Hv Hw H0 Hn (a1 & v1 & v1' & G1 & S1 & Hall).
  assert (C0 : coherent (initialised e v w) flat_empty empty_maps ∅ P)
    by (apply initialised_coherent; auto; lia).
  destruct (alloc_region _ _ _ _ _ _ _ _ _ _ C0 G1 S1)
    as (s1 & f1 & H1 & P1 & E1 & C1 & N1 & A1 & F1 & _); [lia|].
  destruct (Hall s1 E1) as (a2 & v2 & v2' & G2 & S2 & Hall2).
  destruct (alloc_region _ _ _ _ _ _ _ _ _ _ C1 G2 S2)
    as (s2 & f2 & H2 & P2 & E2 & C2 & N2 & A2 & F2 & K2); [lia|].
  destruct (Hall2 s2 E2) as (a3 & v3 & v3' & G3 & S3 & _).
  destruct (alloc_region _ _ _ _ _ _ _ _ _ _ C2 G3 S3)
    as (s3 & f3 & H3 & P3 & E3 & C3 & _ & A3 & F3 & K3); [lia|].
  destruct (K2 _ _ 11 ltac:(lia) F1) as [F1' D21].
  destruct (K3 _ _ 11 ltac:(lia) F1') as [F1'' D31].
  destruct (K3 _ _ 11 ltac:(lia) F2) as [F2' D32].
  assert (Hs3 : sees s3 f3) by (by exists (region_maps (region_maps (region_maps empty_maps
    (thread_id r1) (uffd_ret r1) a1) (thread_id r2) (uffd_ret r2) a2) (thread_id r3)
    (uffd_ret r3) a3), H3, P3).
  destruct (region_run demo_count s3 f3 _ _ _ Hs3 F1'') as (s4 & f4 & E4 & Hs4 & O4);
    [rewrite demo_count_Z; lia..|].
  apply (others_apart _ _ _ _ _ _ _ _ _ O4 (apart_sym _ _ _ _ _ _ D21)) in F2'; [|lia].
  apply (others_apart _ _ _ _ _ _ _ _ _ O4 (apart_sym _ _ _ _ _ _ D31)) in F3; [|lia].
  destruct (region_run demo_count s4 f4 _ _ _ Hs4 F2') as (s5 & f5 & E5 & Hs5 & O5);
    [rewrite demo_count_Z; lia..|].
  apply (others_apart _ _ _ _ _ _ _ _ _ O5 (apart_sym _ _ _ _ _ _ D32)) in F3; [|lia].
  destruct (region_run demo_count s5 f5 _ _ _ Hs5 F3) as (s6 & f6 & E6 & _);
    [rewrite demo_count_Z; lia..|].
  rewrite <- A1 in E4. rewrite <- A2 in E5. rewrite <- A3 in E6.
  rewrite run_bind, demo_count_Z in E4, E5, E6. exists s6. unfold main_client. cbn [negb Z.eqb].
  cbn [Pos.eqb negb].
  rewrite run_bind, rmp_init_run, run_bind, E1, run_bind, E2, run_bind, E3, run_bind by done.
  destruct (store_loop stack a1 0 demo_count s3) as [[[] t1]|]; [|done].
  rewrite run_bind, E4, run_bind.
  destruct (store_loop stack a2 0 demo_count s4) as [[[] t2]|]; [|done].
  rewrite run_bind, E5, run_bind.
  destruct (store_loop stack a3 0 demo_count s5) as [[[] t3]|]; [|done].
  by rewrite run_bind, E6.
Qed.

Lemma granted_step e rs n s m a v v' H N r w :
  granted e n a v v' s m -> maps (um s) = Live m -> connected (env s) = true ->
  addr_hndl_map (env s) = Some H -> addr_npages_map (env s) = Some N ->
  rpc (alloc_request stack n) (remote (env s)) = Some (r, w) -> error r <> ALLOC_FAILED ->
  all_granted rs n (allocated e n a (hndl r) v' w s m H N)
    (region_maps m (thread_id e) (uffd_ret e) a) ->
  all_granted (e :: rs) n s m.
Proof.
  intros Hg Hm Hc HH HN E Her Hrest. exists a, v, v'. split_and!; [done|..].
  - intros r' w' E'. congruence.
  - intros s' Es.
    rewrite (rmp_alloc_reply stack e n a v v' s m H N r w) in Es by done.
    by injection Es as <-.
Qed.
End loops.

(** ** Witness: the demo against the server program

    The client's kernel is [simple_vm], the server's [bump_os], the requests
    go through the connection handler as bytes. *)
Definition demo_pad : list byte := replicate 4 x00.

Definition wire0 : wire := Wire (new_server ∅) (replicate sizeof_packet x00).

#[local] Instance demo_page_server : PageServer wire :=
  wire_page_server demo_pad eq_refl.

(** The address space of the client and the memory of the server after each
    allocation. *)
Definition vm_at (k : nat) : vmem :=
  Vmem ∅ (nat_rect _ ∅ (fun i M => set_range (16 + 11 * Z.of_nat i) 11
    (Some (5 + Z.of_nat i)) (set_range (16 + 11 * Z.of_nat i) 11 None M)) k).

Definition mem_at (k : nat) : mem :=
  nat_rect _ ∅ (fun i M => map_pages (16 + 11 * Z.of_nat i) 11 M) k.

Definition addr_at (k : nat) : Z := (16 + 11 * Z.of_nat k) * PAGE_SIZE.

Definition env_at (k : nat) : reg_env := RegEnv (5 + Z.of_nat k) 0 0 (100 + Z.of_nat k).

Lemma vm_at_fresh k : next_vma (vm_at k) = 16 + 11 * Z.of_nat k ->
  (k < 3)%nat ->
  vm_mmap (vm_at k) (11 * PAGE_SIZE) =
    Some (addr_at k, Vmem ∅ (set_range (16 + 11 * Z.of_nat k) 11 None (vma (vm_at k)))).
Proof.
  intros Hn Hk. cbn [vm_mmap simple_vm]. rewrite Hn, pages_of_mult.
  rewrite !bool_decide_true; [done|unfold TASK_SIZE; mlia|mlia].
Qed.

Lemma vm_at_next k : (k < 3)%nat -> next_vma (vm_at k) = 16 + 11 * Z.of_nat k.
Proof. intros Hk. do 3 (destruct k as [|k]; [by vm_compute|]). lia. Qed.

Lemma mem_at_next k : (k < 3)%nat -> next_page (mem_at k) = 16 + 11 * Z.of_nat k.
Proof. intros Hk. do 3 (destruct k as [|k]; [by vm_compute|]). lia. Qed.

Lemma vm_at_vma k p : vma (vm_at k) !! p <> Some (Some (5 + Z.of_nat k)).
Proof.
  enough (H : forall u, vma (vm_at k) !! p = Some (Some u) -> u < 5 + Z.of_nat k)
    by (intros E; apply H in E; lia).
  induction k as [|k IH]; intros u.
  { cbn. by rewrite lookup_empty. }
  change (vma (vm_at (S k))) with (set_range (16 + 11 * Z.of_nat k) 11
    (Some (5 + Z.of_nat k)) (set_range (16 + 11 * Z.of_nat k) 11 None (vma (vm_at k)))).
  rewrite !lookup_set_range. case_decide; [intros [= <-]; lia|].
  intros Hu%IH. lia.
Qed.

Lemma demo_granted_at k (s : ust (client wire)) m :
  (k < 3)%nat -> vs s = vm_at k -> uffd_start_addr_map m !! (5 + Z.of_nat k) = None ->
  granted (env_at k) 11 (addr_at k)
    (Vmem ∅ (set_range (16 + 11 * Z.of_nat k) 11 None (vma (vm_at k)))) (vm_at (S k)) s m.
Proof.
  intros Hk Hs Hm. split; try done; try (cbn; lia); rewrite ?Hs.
  - apply vm_at_fresh; [by apply vm_at_next|done].
  - cbn [uffdio_register simple_vm]. unfold addr_at.
    rewrite pages_of_mult, Z.div_mul, Z.mod_mul by mlia.
    by rewrite !bool_decide_true by mlia.
  - intros p. apply vm_at_vma.
Qed.

Lemma demo_step k rs (s : ust (client wire)) m H N sv req :
  (k < 3)%nat -> vs s = vm_at k -> maps (um s) = Live m ->
  uffd_start_addr_map m !! (5 + Z.of_nat k) = None ->
  connected (env s) = true -> addr_hndl_map (env s) = Some H ->
  addr_npages_map (env s) = Some N -> remote (env s) = Wire sv req ->
  vm sv = mem_at k -> server_inv sv -> length req = sizeof_packet ->
  (forall req', server_inv (alloc_state sv 11 (addr_at k) (mem_at (S k))) ->
     length req' = sizeof_packet ->
     all_granted demo_stack rs 11
       (allocated (env_at k) 11 (addr_at k) (handle_count sv) (vm_at (S k))
          (Wire (alloc_state sv 11 (addr_at k) (mem_at (S k))) req') s m H N)
       (region_maps m (100 + Z.of_nat k) (5 + Z.of_nat k) (addr_at k))) ->
  all_granted demo_stack (env_at k :: rs) 11 s m.
Proof.
  intros Hk Hv Hm Hfd Hc HH HN Hw Hmem Hinv Hreq Hrest.
  destruct (wire_alloc_run demo_pad eq_refl (Wire sv req) (alloc_request demo_stack 11)
    (addr_at k) (mem_at (S k))) as (E & Hi & Hl); try done.
  { cbn [wire_server]. rewrite Hmem.
    change (u32 _) with (11 * PAGE_SIZE). rewrite (bump_mmap_run _ _ (16 + 11 * Z.of_nat k));
      [by rewrite pages_of_mult|by apply mem_at_next|done|].
    rewrite pages_of_mult. unfold ARENA_END. mlia. }
  apply (granted_step demo_stack (env_at k) rs 11 s m (addr_at k)
           (Vmem ∅ (set_range (16 + 11 * Z.of_nat k) 11 None (vma (vm_at k)))) (vm_at (S k)) H N
           (set_hndl (handle_count sv) (alloc_request demo_stack 11))
           (Wire (alloc_state sv 11 (addr_at k) (mem_at (S k)))
              (encode (set_hndl (handle_count sv) (alloc_request demo_stack 11)) demo_pad)));
    [by apply demo_granted_at|exact Hm|exact Hc|exact HH|exact HN| | |by apply Hrest].
  - rewrite Hw. exact E.
  - cbn. discriminate.
Qed.

Lemma demo_all_granted :
  all_granted demo_stack [env_at 0; env_at 1; env_at 2] 11
    (initialised demo_conn empty_vmem wire0) empty_maps.
Proof.
  eapply (demo_step 0);
    [lia|done|done|done|done|done|done|done|done|by apply new_server_inv
    |by rewrite length_replicate|].
  intros req1 Hi1 Hl1.
  eapply (demo_step 1);
    [lia|done|done|done|done|done|done|done|done|exact Hi1|exact Hl1|].
  intros req2 Hi2 Hl2.
  eapply (demo_step 2);
    [lia|done|done|done|done|done|done|done|done|exact Hi2|exact Hl2|].
  intros req3 Hi3 Hl3. exact I.
Qed.

Lemma demo_client_reads_what_it_stored_witness :
  exists s', main_client demo_stack 3 demo_conn (env_at 0) (env_at 1) (env_at 2)
      (process empty_vmem wire0)
    = Some ((0, replicate 3 (seqZ 0 5120, 5120 * 5119 / 2)), s').
Proof.
  apply (demo_client_reads_what_it_stored demo_stack demo_stack_wf demo_conn (env_at 0)
           (env_at 1) (env_at 2) empty_vmem wire0 empty_pool);
    [done|done|done|done| |done|done|exact demo_all_granted].
  split; [by apply sim_empty|]. unfold wire0. cbn [wire_req]. apply length_replicate.
Defined.
