(* ===== verification/ClientNet.v ===== *)
(** * The client's end of the connection: what its [recv] gets

    [send], then one [recv] of [sizeof(rmp::packet)] bytes into an automatic
    variable, is how the client makes every request; it does not look at what
    [recv] returns.  Here the replies are bytes on a stream, and a [recv] may
    return less than is there.  When every [recv] returns a whole packet, the
    connection is one more [PageServer]; when one does not, every later reply
    is read from the wrong place. *)

From S2P Require Import Prelude OS Packet Pool Server ServerCorrect ServerRefines.
From S2P Require Import ServerProps Net Wire.

(** The server's end, the bytes it sent that were not received yet, and the
    most the next calls of [recv] return ([sizeof_packet] after the list). *)
Record stream := Stream {
  peer : wire;
  inbox : list byte;
  takes : list nat;
}.

Section stream.
Context {K : OS} {HK : OSLaws K}.
Context (pad : list byte) (Hpad : length pad = 4%nat).
(** The bytes of [return_pkt] before the call. *)
Context (unset : list byte) (Hunset : length unset = sizeof_packet).

Definition next_take (c : stream) : nat :=
  Nat.min (hd sizeof_packet (takes c)) sizeof_packet.

(** [send(&send_pkt)]: the server serves it, its reply is on the way. *)
Definition stream_send (p : packet) : prog stream unit := fun c =>
  match serve_request (encode p pad) (wire_req (peer c)) (wire_server (peer c)) with
  | Some (reply, s) =>
      Some (tt, Stream (Wire s reply) (inbox c ++ reply) (takes c))
  | None => None
  end.

(** [recv(&return_pkt)]: blocks while nothing is there. *)
Definition stream_recv : prog stream packet := fun c =>
  match inbox c with
  | [] => None
  | _ =>
      let got := take (next_take c) (inbox c) in
      Some (decode (overlay 0 got unset),
            Stream (peer c) (drop (length got) (inbox c)) (tl (takes c)))
  end.

(** [send(&send_pkt); recv(&return_pkt)] *)
Definition stream_rpc (p : packet) : prog stream packet :=
  _ ← stream_send p; stream_recv.

Fixpoint stream_calls (ps : list packet) : prog stream (list packet) :=
  match ps with
  | [] => mret []
  | p :: ps => r ← stream_rpc p; rs ← stream_calls ps; mret (r :: rs)
  end.

(** What the server sends for the requests. *)
Fixpoint replies (ps : list packet) : prog wire (list (list byte)) :=
  match ps with
  | [] => mret []
  | p :: ps => fun w =>
      match serve_request (encode p pad) (wire_req w) (wire_server w) with
      | Some (reply, s) => (rs ← replies ps; mret (reply :: rs)) (Wire s reply)
      | None => None
      end
  end.

(** What the client makes of [Rs] when [k] bytes of [R] were received: each
    packet is the end of one reply and the beginning of the next. *)
Fixpoint shifted (k : nat) (R : list byte) (Rs : list (list byte)) : list packet :=
  match Rs with
  | [] => []
  | R' :: Rs => decode (drop k R ++ take k R') :: shifted k R' Rs
  end.

(** ** The connection as a page server *)
Definition stream_holds (c : stream) (P : pool) : Prop :=
  wire_holds (peer c) P /\ inbox c = [] /\
  Forall (fun k => (sizeof_packet <= k)%nat) (takes c).

Lemma next_take_whole c :
  Forall (fun k => (sizeof_packet <= k)%nat) (takes c) ->
  next_take c = sizeof_packet.
Proof.
  intros H. unfold next_take. destruct H as [|k l Hk _]; cbn [hd]; lia.
Qed.

Lemma overlay_whole bs buf :
  length bs = length buf -> overlay 0 bs buf = bs.
Proof.
  intros Hl. unfold overlay. rewrite Nat.add_0_l, Hl, drop_all. cbn.
  apply app_nil_r.
Qed.

Lemma sized_reply (R : list byte) : length R = sizeof_packet -> R <> [].
Proof. by intros Hl ->. Qed.

Lemma stream_rpc_run c p reply s :
  serve_request (encode p pad) (wire_req (peer c)) (wire_server (peer c)) = Some (reply, s) ->
  reply <> [] ->
  stream_rpc p c =
    let got := take (next_take c) (inbox c ++ reply) in
    Some (decode (overlay 0 got unset),
          Stream (Wire s reply) (drop (length got) (inbox c ++ reply)) (tl (takes c))).
Proof.
  intros E Hr. unfold stream_rpc, stream_send, stream_recv. rewrite run_bind, E. cbn.
  destruct (inbox c ++ reply) eqn:Ei; [|done]. by apply app_eq_nil in Ei as [_ ?].
Qed.

(** With whole packets the stream makes no difference. *)
Lemma stream_rpc_whole c p r w :
  inbox c = [] -> Forall (fun k => (sizeof_packet <= k)%nat) (takes c) ->
  wire_rpc pad p (peer c) = Some (r, w) -> length (wire_req w) = sizeof_packet ->
  stream_rpc p c = Some (r, Stream w [] (tl (takes c))).
Proof.
  intros Hi Ht Hw Hl. unfold wire_rpc in Hw.
  destruct (serve_request _ _ _) as [[reply s]|] eqn:E; [|done]. injection Hw as <- <-.
  cbn in Hl. rewrite (stream_rpc_run _ _ _ _ E) by (by apply sized_reply).
  cbv zeta. rewrite next_take_whole, Hi by done. cbn [app].
  rewrite (take_ge reply), drop_all, overlay_whole by lia. done.
Qed.

Lemma stream_step c P p :
  stream_holds c P -> honest P p ->
  exists r c' P', stream_rpc p c = Some (r, c') /\ pool_step P p P' r /\
                  stream_holds c' P'.
Proof.
  intros (Hw & Hi & Ht) Hp. destruct (wire_step pad Hpad _ _ _ Hw Hp)
    as (r & w & P' & E & Hs & Hw').
  exists r, (Stream w [] (tl (takes c))), P'. split_and!.
  - apply stream_rpc_whole; try done. apply Hw'.
  - done.
  - split_and!; [done|done|]. cbn. by destruct Ht.
Qed.

Definition stream_page_server : PageServer stream := {|
  rpc := stream_rpc;
  holds := stream_holds;
  rpc_step := stream_step;
|}.

Lemma stream_send_run c p r w :
  wire_rpc pad p (peer c) = Some (r, w) ->
  exists reply, stream_send p c = Some (tt, Stream w (inbox c ++ reply) (takes c)) /\
    r = decode reply /\ wire_req w = reply.
Proof.
  unfold wire_rpc, stream_send. destruct (serve_request _ _ _) as [[reply s]|]; [|done].
  intros [= <- <-]. by exists reply.
Qed.

Lemma stream_recv_run c R rest :
  inbox c = R ++ rest -> length R = sizeof_packet ->
  Forall (fun k => (sizeof_packet <= k)%nat) (takes c) ->
  stream_recv c = Some (decode R, Stream (peer c) rest (tl (takes c))).
Proof.
  intros Hi HR Ht. unfold stream_recv. rewrite next_take_whole, Hi by done.
  rewrite take_app_length', HR, drop_app_length' by done. rewrite overlay_whole by lia.
  destruct (R ++ rest) eqn:E; [|done]. apply app_eq_nil in E as [-> _]. done.
Qed.

(** ** A short [recv] *)
Lemma shifted_calls k ps : forall w R Rs w',
  (k <= sizeof_packet)%nat -> length R = sizeof_packet ->
  replies ps w = Some (Rs, w') ->
  Forall (fun R' => length R' = sizeof_packet) Rs ->
  stream_calls ps (Stream w (drop k R) []) =
    Some (shifted k R Rs, Stream w' (drop k (default R (last Rs))) []).
Proof.
  induction ps as [|p ps IH]; intros w R Rs w' Hk HR; cbn [replies stream_calls].
  { by intros [= <- <-] _. }
  intros E HRs. rewrite run_bind.
  destruct (serve_request _ _ _) as [[R' s]|] eqn:Es; [|done].
  rewrite run_bind in E. destruct (replies ps _) as [[Rs' w1]|] eqn:Er; [|done].
  injection E as <- <-. apply Forall_cons_1 in HRs as [HR' HRs].
  rewrite (stream_rpc_run (Stream w (drop k R) []) p R' s Es) by (by apply sized_reply).
  cbn [peer inbox takes].
  assert (Hg : take sizeof_packet (drop k R ++ R') = drop k R ++ take k R').
  { rewrite take_app, length_drop, HR, (take_ge (drop k R)) by (rewrite length_drop; lia).
    f_equal. f_equal. lia. }
  unfold next_take. cbn [hd takes]. rewrite Nat.min_id, Hg.
  assert (Hl : length (drop k R ++ take k R') = sizeof_packet)
    by (rewrite length_app, length_drop, length_take; lia).
  rewrite overlay_whole by lia.
  assert (Hd : drop sizeof_packet (drop k R ++ R') = drop k R').
  { rewrite drop_app, length_drop, HR, (drop_ge (drop k R)) by (rewrite length_drop; lia).
    cbn. f_equal. lia. }
  rewrite Hl, Hd. cbn [tl]. rewrite run_bind, (IH (Wire s R') R' Rs' w1) by done.
  rewrite run_ret. cbn [shifted]. do 3 f_equal. destruct Rs' as [|R2 Rs2]; [done|].
  rewrite last_cons_cons. by destruct (last_is_Some (R2 :: Rs2)) as [_ [? ->]].
Qed.

Lemma replies_length ps : forall w Rs w',
  Forall wf_packet ps -> server_inv (wire_server w) ->
  length (wire_req w) = sizeof_packet -> replies ps w = Some (Rs, w') ->
  Forall (fun R => length R = sizeof_packet) Rs.
Proof.
  induction ps as [|p ps IH]; intros w Rs w' Hps Hi Hr; cbn [replies].
  { by intros [= <- <-]. }
  apply Forall_cons_1 in Hps as [Hp Hps]. rewrite serve_whole by done.
  destruct (handle p (wire_server w)) as [[r s]|] eqn:E; [|done].
  destruct (handle_outcome_wf _ _ _ _ Hi Hp E) as [Hi' Hwr].
  pose proof (length_encode r pad Hwr Hpad) as Hl. rewrite run_bind.
  destruct (replies ps _) as [[Rs' w1]|] eqn:Er; [|done]. intros [= <- <-].
  constructor; [done|]. by eapply (IH (Wire s (encode r pad))).
Qed.

(** C38.  A [recv] that returns only the first [k] bytes of a reply leaves the
    client one part of a packet behind for good: the packet it works with ends
    in what was on the stack, every later one is the end of the reply before
    and the beginning of its own, and the rest of the last reply stays unread. *)
Theorem short_recv_shifts_all_replies k p ps w R Rs w' :
  (k <= sizeof_packet)%nat -> Forall wf_packet (p :: ps) ->
  server_inv (wire_server w) -> length (wire_req w) = sizeof_packet ->
  replies (p :: ps) w = Some (R :: Rs, w') ->
  stream_calls (p :: ps) (Stream w [] [k]) =
    Some (decode (take k R ++ drop k unset) :: shifted k R Rs,
          Stream w' (drop k (default R (last Rs))) []).
Proof.
  intros Hk Hps Hi Hl E.
  destruct (Forall_cons_1 _ _ _ (replies_length _ _ _ _ Hps Hi Hl E)) as [HR HRs]. cbn [replies stream_calls] in *.
  rewrite run_bind. destruct (serve_request _ _ _) as [[R' s]|] eqn:Es; [|done].
  rewrite run_bind in E. destruct (replies ps _) as [[Rs' w1]|] eqn:Er; [|done].
  injection E as <- <- <-.
  rewrite (stream_rpc_run (Stream w [] [k]) p R' s Es) by (by apply sized_reply).
  cbn [peer inbox takes]. unfold next_take. cbn [hd takes app tl].
  rewrite Nat.min_l by done. rewrite length_take, Nat.min_l by lia.
  rewrite run_bind, (shifted_calls k ps _ R' Rs' w1) by done. rewrite run_ret.
  unfold overlay. by rewrite Nat.add_0_l, length_take, Nat.min_l by lia.
Qed.
End stream.

(** ** Witness: an allocation whose reply arrives without its tail *)
Definition stream_pad : list byte := replicate 4 x00.

Definition stream_unset : list byte := replicate sizeof_packet xff.

Definition alloc_one : packet := Packet 0 1 4096 0 0 zero_page 0.

Definition read_one : packet := Packet 0 0 4096 0 1 zero_page 0.

Definition stream_wire : wire := Wire (new_server ∅) (replicate sizeof_packet x00).

Definition stream_replies : list (list byte) :=
  [encode (Packet 0 1 4096 0 0 zero_page 0) stream_pad;
   encode (Packet 0 0 4096 0 1 zero_page 0) stream_pad].

Lemma stream_replies_run :
  exists w', replies stream_pad [alloc_one; read_one] stream_wire
    = Some (stream_replies, w').
Proof.
  eexists. vm_compute. reflexivity.
Qed.

Lemma short_recv_shifts_all_replies_witness :
  exists w', stream_calls stream_pad stream_unset [alloc_one; read_one]
      (Stream stream_wire [] [24%nat]) =
    Some (decode (take 24 (encode alloc_one stream_pad) ++ drop 24 stream_unset) ::
          shifted 24 (encode alloc_one stream_pad) [encode read_one stream_pad],
          Stream w' (drop 24 (encode read_one stream_pad)) []).
Proof.
  destruct stream_replies_run as [w' E]. exists w'.
  apply (short_recv_shifts_all_replies stream_pad eq_refl stream_unset
           (length_replicate _ _) 24 alloc_one [read_one] stream_wire (encode alloc_one stream_pad)
           [encode read_one stream_pad] w');
    [apply Nat.leb_le; by vm_compute| |apply new_server_inv; done
    |apply length_replicate|exact E].
  repeat constructor; cbn; try apply length_zero_page; unfold is_s64, is_u32; lia.
Defined.

Lemma stream_demo_holds :
  stream_holds (Stream stream_wire [] []) empty_pool.
Proof.
  split; [split|by split].
  - apply sim_empty, map_Forall_empty.
  - apply length_replicate.
Qed.
