(* ===== verification/Socket.v ===== *)
(** * One socket, several threads

    The client has one connection.  [rmp_alloc] sends its request and receives
    the reply without taking a lock; the fault handlers make their requests
    inside [fault_handler_cr]; the preloaded [malloc] takes that mutex around
    [rmp_alloc] and unlocks it twice.  Here a thread is the sequence of locks,
    sends, receives and unlocks its code makes, a step is one of them, and a
    schedule is a list of thread numbers.  (The write-back of an unregistration
    takes no lock either; the program never unregisters.)  Every [recv] returns a whole packet
    (ClientNet.v has the case where it does not). *)

From S2P Require Import Prelude OS Packet Pool Server ServerCorrect ServerRefines.
From S2P Require Import ServerProps Net Wire Client SystemCorrect SystemStart SystemProps.
From S2P Require Import ClientNet.

(** ** The operations of a thread *)
Inductive sock_op :=
  | OLock                        (* of [fault_handler_cr] *)
  | OUnlock
  | OSend (p : packet)
  | ORecv.

(** [send(&send_pkt); recv(&return_pkt)] *)
Definition call_ops (p : packet) : list sock_op := [OSend p; ORecv].

Section callers.
Context (stack : packet).

(** What [rmp_alloc] does on the socket. *)
Definition alloc_ops (n : Z) : list sock_op := call_ops (alloc_request stack n).

(** A round of a fault handler under its [lock_guard]: the write-back of the
    page resolved before, if it is dirty (its handle, offset and contents),
    and the fetch of the new one, if the fault is a read. *)
Definition round_ops (dirty : option (Z * Z * list byte)) (wanted : option (Z * Z)) :
    list sock_op :=
  OLock ::
    match dirty with
    | Some (hd, offset, pg) => call_ops (write_request stack hd offset pg)
    | None => []
    end ++
    match wanted with
    | Some (hd, offset) => call_ops (read_request stack hd offset)
    | None => []
    end ++ [OUnlock].

(** [malloc]: the explicit unlock, then the one of the [lock_guard]. *)
Definition malloc_ops (n : Z) : list sock_op :=
  OLock :: alloc_ops n ++ [OUnlock; OUnlock].
End callers.

(** ** The threads of a process on its socket *)
Record sock_thread := SockThread {
  ops : list sock_op;            (* what is left to do *)
  replies_got : list packet;
}.

Record sock_sys := SockSys {
  conn : stream;
  holder : option nat;           (* of the mutex *)
  threads : list sock_thread;
}.

Section socket.
Context {K : OS} {HK : OSLaws K}.
Context (pad : list byte) (Hpad : length pad = 4%nat).
Context (unset : list byte) (Hunset : length unset = sizeof_packet).

(** A step of the thread [k]: [None] when it is finished, waits for the mutex
    or for a reply.  An unlock frees the mutex whoever holds it (the lenient
    reading of Preload.v; it makes a difference only after [malloc_ops]). *)
Definition sock_step (k : nat) (st : sock_sys) : option sock_sys :=
  t ← threads st !! k;
  match ops t with
  | [] => None
  | OLock :: os =>
      match holder st with
      | Some _ => None
      | None => Some (SockSys (conn st) (Some k)
                        (<[k := SockThread os (replies_got t)]> (threads st)))
      end
  | OUnlock :: os =>
      Some (SockSys (conn st) None
              (<[k := SockThread os (replies_got t)]> (threads st)))
  | OSend p :: os =>
      '(_, c) ← stream_send pad p (conn st);
      Some (SockSys c (holder st) (<[k := SockThread os (replies_got t)]> (threads st)))
  | ORecv :: os =>
      '(r, c) ← stream_recv unset (conn st);
      Some (SockSys c (holder st)
              (<[k := SockThread os (replies_got t ++ [r])]> (threads st)))
  end.

Fixpoint sock_run (ks : list nat) (st : sock_sys) : option sock_sys :=
  match ks with
  | [] => Some st
  | k :: ks => st' ← sock_step k st; sock_run ks st'
  end.

Definition sock_start (c : stream) (programs : list (list sock_op)) : sock_sys :=
  SockSys c None ((fun os => SockThread os []) <$> programs).


(** ** Calls *)
Definition calls_ops (qs : list packet) : list sock_op := concat (call_ops <$> qs).

(** A thread that makes its calls under the mutex. *)
Definition locked (qs : list packet) : list sock_op :=
  OLock :: calls_ops qs ++ [OUnlock].

Lemma calls_ops_cons q qs : calls_ops (q :: qs) = OSend q :: ORecv :: calls_ops qs.
Proof. done. Qed.

(** The requests of a round. *)
Definition round_requests (stack : packet) (dirty : option (Z * Z * list byte))
    (wanted : option (Z * Z)) : list packet :=
  match dirty with
  | Some (hd, offset, pg) => [write_request stack hd offset pg]
  | None => []
  end ++
  match wanted with
  | Some (hd, offset) => [read_request stack hd offset]
  | None => []
  end.

Lemma round_ops_locked stack dirty wanted :
  round_ops stack dirty wanted = locked (round_requests stack dirty wanted).
Proof. by destruct dirty as [[[? ?] ?]|], wanted as [[? ?]|]. Qed.

Definition round_ok (dirty : option (Z * Z * list byte)) (wanted : option (Z * Z)) :
    Prop :=
  match dirty with
  | Some (hd, offset, pg) => is_u32 hd /\ is_u32 offset /\ length pg = page_len
  | None => True
  end /\
  match wanted with
  | Some (hd, offset) => is_u32 hd /\ is_u32 offset
  | None => True
  end.

Lemma round_requests_ok stack dirty wanted :
  wf_packet stack -> round_ok dirty wanted ->
  Forall request_ok (round_requests stack dirty wanted).
Proof.
  intros Hs [Hd Hw]. apply Forall_app. split.
  - destruct dirty as [[[h o] pg]|]; [|done]. destruct Hd as (? & ? & ?).
    apply Forall_singleton, (honest_write_request stack Hs empty_pool); done.
  - destruct wanted as [[h o]|]; [|done]. destruct Hw as [? ?].
    apply Forall_singleton, (honest_read_request stack Hs empty_pool); done.
Qed.

(** A send: the reply is on its way. *)
Lemma send_step c P p :
  wire_holds (peer c) P -> honest P p ->
  exists r reply c' P', stream_send pad p c = Some (tt, c') /\ pool_step P p P' r /\
    wire_holds (peer c') P' /\ inbox c' = inbox c ++ reply /\ takes c' = takes c /\
    decode reply = r /\ length reply = sizeof_packet.
Proof.
  intros Hw Hp. destruct (wire_step pad Hpad _ _ _ Hw Hp) as (r & w & P' & E & S & Hw').
  destruct (stream_send_run pad c p r w E) as (reply & Es & -> & Hr).
  exists (decode reply), reply, (Stream w (inbox c ++ reply) (takes c)), P'.
  split_and!; try done. rewrite <- Hr. apply Hw'.
Qed.

(** A receive: the oldest reply. *)
Lemma recv_step c reply rest :
  inbox c = reply ++ rest -> length reply = sizeof_packet ->
  Forall (fun k => (sizeof_packet <= k)%nat) (takes c) ->
  exists c', stream_recv unset c = Some (decode reply, c') /\ peer c' = peer c /\
    inbox c' = rest /\ Forall (fun k => (sizeof_packet <= k)%nat) (takes c').
Proof.
  intros Hi Hl Ht. rewrite (stream_recv_run pad Hpad unset Hunset c reply rest) by done.
  eexists. split_and!; try done. cbn. by destruct Ht.
Qed.

(** A call nobody interrupts. *)
Lemma call_step c P p :
  stream_holds c P -> honest P p ->
  exists r c1 c2 P', stream_send pad p c = Some (tt, c1) /\
    stream_recv unset c1 = Some (r, c2) /\ pool_step P p P' r /\ stream_holds c2 P'.
Proof.
  intros (Hw & Hi & Ht) Hp.
  destruct (send_step _ _ _ Hw Hp) as (r & R & c1 & P' & E & S & Hw1 & Hi1 & Ht1 & <- & HR).
  destruct (recv_step c1 R []) as (c2 & E2 & Hp2 & Hi2 & Ht2); try done.
  { by rewrite Hi1, Hi, app_nil_r. }
  { by rewrite Ht1. }
  exists (decode R), c1, c2, P'. split_and!; try done. split; [by rewrite Hp2|done].
Qed.

(** Two requests in flight: the replies come in the order of the requests. *)
Lemma two_calls_step c P p q :
  stream_holds c P -> request_ok p -> request_ok q -> next P + 2 < 2 ^ 32 ->
  exists rp rq c1 c2 c3 c4 P1 P2,
    stream_send pad p c = Some (tt, c1) /\ stream_send pad q c1 = Some (tt, c2) /\
    stream_recv unset c2 = Some (rp, c3) /\ stream_recv unset c3 = Some (rq, c4) /\
    pool_step P p P1 rp /\ pool_step P1 q P2 rq /\ stream_holds c4 P2.
Proof.
  intros (Hw & Hi & Ht) Hp Hq Hn.
  destruct (send_step c P p Hw) as (rp & Rp & c1 & P1 & E1 & S1 & Hw1 & Hi1 & Ht1 & <- & HRp).
  { split; [done|lia]. }
  pose proof (pool_step_next _ _ _ _ S1).
  destruct (send_step c1 P1 q Hw1) as (rq & Rq & c2 & P2 & E2 & S2 & Hw2 & Hi2 & Ht2 & <- & HRq).
  { split; [done|lia]. }
  rewrite Hi in Hi1. cbn in Hi1. rewrite Hi1 in Hi2.
  destruct (recv_step c2 Rp Rq) as (c3 & E3 & Hp3 & Hi3 & Ht3); [done|done|congruence|].
  destruct (recv_step c3 Rq []) as (c4 & E4 & Hp4 & Hi4 & Ht4);
    [by rewrite app_nil_r|done|done|].
  exists (decode Rp), (decode Rq), c1, c2, c3, c4, P1, P2. split_and!; try done.
  split; [by rewrite Hp4, Hp3|done].
Qed.

(** ** Replies that go to the wrong thread *)
Lemma sock_run_app ks ks' st :
  sock_run (ks ++ ks') st = st' ← sock_run ks st; sock_run ks' st'.
Proof.
  revert st. induction ks as [|k ks IH]; intros st; [done|].
  cbn [app sock_run]. destruct (sock_step k st); [apply IH|done].
Qed.

(** The second of two threads finishes its calls and unlocks. *)
Lemma second_finishes qs : forall c P,
  stream_holds c P -> Forall request_ok qs ->
  next P + Z.of_nat (length qs) < 2 ^ 32 ->
  exists ks c' rs P', pool_steps P qs P' rs /\ stream_holds c' P' /\
    forall h t g,
      sock_run ks (SockSys c h [t; SockThread (calls_ops qs ++ [OUnlock]) g])
      = Some (SockSys c' None [t; SockThread [] (g ++ rs)]).
Proof.
  induction qs as [|q qs IH]; intros c P Hc Hqs Hn.
  - exists [1%nat], c, [], P. split_and!; [constructor|done|].
    intros. by rewrite app_nil_r.
  - apply Forall_cons in Hqs as [Hq Hqs]. cbn [length] in Hn.
    destruct (call_step c P q Hc) as (r & c1 & c2 & P1 & E1 & E2 & S & Hc2);
      [split; [done|lia]|].
    pose proof (pool_step_next _ _ _ _ S).
    destruct (IH c2 P1 Hc2 Hqs) as (ks & c' & rs & P' & Ss & Hc' & E); [lia|].
    exists (1%nat :: 1%nat :: ks), c', (r :: rs), P'.
    split_and!; [by econstructor|done|]. intros h t g.
    rewrite calls_ops_cons. cbn. rewrite E1. cbn. rewrite E2. cbn.
    fold (calls_ops qs). by rewrite E, <- app_assoc.
Qed.

(** The calls of [p] and of the first of [q :: qs] cross. *)
Lemma calls_cross c P p q qs :
  stream_holds c P -> request_ok p -> Forall request_ok (q :: qs) ->
  next P + 2 + Z.of_nat (length qs) < 2 ^ 32 ->
  exists rp rq rs c1 c2 c3 c4 P1 P2 P3 ks c5,
    stream_send pad p c = Some (tt, c1) /\ stream_send pad q c1 = Some (tt, c2) /\
    stream_recv unset c2 = Some (rp, c3) /\ stream_recv unset c3 = Some (rq, c4) /\
    (pool_step P p P1 rp /\ pool_step P1 q P2 rq /\ pool_steps P2 qs P3 rs) /\
    forall h t,
      sock_run ks (SockSys c4 h [t; SockThread (calls_ops qs ++ [OUnlock]) [rp]])
      = Some (SockSys c5 None [t; SockThread [] (rp :: rs)]).
Proof.
  intros Hc Hp [Hq Hqs]%Forall_cons Hn.
  destruct (two_calls_step c P p q Hc Hp Hq)
    as (rp & rq & c1 & c2 & c3 & c4 & P1 & P2 & E1 & E2 & E3 & E4 & S1 & S2 & Hc4); [lia|].
  pose proof (pool_step_next _ _ _ _ S1). pose proof (pool_step_next _ _ _ _ S2).
  destruct (second_finishes qs c4 P2 Hc4 Hqs) as (ks & c5 & rs & P3 & S3 & _ & E); [lia|].
  by exists rp, rq, rs, c1, c2, c3, c4, P1, P2, P3, ks, c5.
Qed.

(** C26.  [rmp_alloc] takes no lock, so its call can cross the call of a fault
    handler, though the handler holds the mutex: some schedule hands the reply
    to the allocation to the handler, which copies it into its page, and the
    reply to the handler's first request to [rmp_alloc], which takes its handle
    for that of the new region.  The mutex [malloc] takes does not prevent this
    either: in the second of two calls the same can happen, because the second
    unlock of the first call, where it goes through, frees the mutex the handler
    holds. *)
Theorem alloc_takes_a_handlers_reply stack c P n n' dirty wanted q qs :
  wf_packet stack -> stream_holds c P -> next P + 5 < 2 ^ 32 ->
  0 < n -> n * PAGE_SIZE < 2 ^ 32 -> 0 < n' -> n' * PAGE_SIZE < 2 ^ 32 ->
  round_ok dirty wanted -> round_requests stack dirty wanted = q :: qs ->
  (exists rp rq rs P1 P2 P3 ks st,
     (pool_step P (alloc_request stack n) P1 rp /\ pool_step P1 q P2 rq /\
      pool_steps P2 qs P3 rs) /\
     sock_run ks (sock_start c [alloc_ops stack n; round_ops stack dirty wanted])
       = Some st /\
     threads st = [SockThread [] [rq]; SockThread [] (rp :: rs)]) /\
  (exists r0 rp rq rs P0 P1 P2 P3 ks st,
     pool_step P (alloc_request stack n') P0 r0 /\
     (pool_step P0 (alloc_request stack n) P1 rp /\ pool_step P1 q P2 rq /\
      pool_steps P2 qs P3 rs) /\
     sock_run ks (sock_start c [malloc_ops stack n' ++ malloc_ops stack n;
                                round_ops stack dirty wanted]) = Some st /\
     threads st = [SockThread [] [r0; rq]; SockThread [] (rp :: rs)]).
Proof.
  intros Hst Hc Hn Hn0 Hb Hn0' Hb' Hr Hq.
  pose proof (round_requests_ok stack _ _ Hst Hr) as Hok.
  assert (Hlen : (length qs <= 1)%nat).
  { apply (f_equal length) in Hq. cbn in Hq.
    destruct dirty as [[[? ?] ?]|], wanted as [[? ?]|]; cbn in Hq; lia. }
  rewrite round_ops_locked, Hq in *. unfold locked. rewrite calls_ops_cons.
  pose proof (alloc_request_ok stack Hst n Hn0 Hb) as Ha. split.
  - destruct (calls_cross c P (alloc_request stack n) q qs Hc Ha Hok)
      as (rp & rq & rs & c1 & c2 & c3 & c4 & P1 & P2 & P3 & ks & c5 & E1 & E2 & E3 & E4
          & HS & E); [lia|].
    exists rp, rq, rs, P1, P2, P3, ([0; 1; 1; 1; 0] ++ ks)%nat. eexists.
    split; [done|]. rewrite sock_run_app. unfold sock_start, alloc_ops, call_ops.
    cbn. rewrite E1. cbn. rewrite E2. cbn. rewrite E3. cbn. rewrite E4. cbn.
    by rewrite E.
  - destruct (call_step c P (alloc_request stack n') Hc) as (r0 & d1 & d2 & P0 & D1 & D2 & S & Hd2).
    { split; [by apply alloc_request_ok|lia]. }
    pose proof (pool_step_next _ _ _ _ S).
    destruct (calls_cross d2 P0 (alloc_request stack n) q qs Hd2 Ha Hok)
      as (rp & rq & rs & c1 & c2 & c3 & c4 & P1 & P2 & P3 & ks & c5 & E1 & E2 & E3 & E4
          & HS & E); [lia|].
    exists r0, rp, rq, rs, P0, P1, P2, P3,
      ([0; 0; 0; 0; 1; 0; 0; 0; 1; 1; 0; 0; 0] ++ ks)%nat. eexists.
    split; [done|]. split; [done|]. rewrite sock_run_app.
    unfold sock_start, malloc_ops, alloc_ops, call_ops.
    cbn. rewrite D1. cbn. rewrite D2. cbn. rewrite E1. cbn. rewrite E2. cbn.
    rewrite E3. cbn. rewrite E4. cbn. by rewrite E.
Qed.

(** ** Replies under the mutex *)
Implicit Types (ts : list sock_thread) (j k : nat).
















End socket.

(** ** Witnesses *)
Definition demo_stream : stream := Stream stream_wire [] [].

Lemma alloc_takes_a_handlers_reply_witness :
  (exists rp rq rs P1 P2 P3 ks st,
     (pool_step empty_pool (alloc_request demo_stack 1) P1 rp /\
      pool_step P1 (write_request demo_stack 0 0 ones) P2 rq /\
      pool_steps P2 [read_request demo_stack 0 1] P3 rs) /\
     sock_run stream_pad stream_unset ks
       (sock_start demo_stream [alloc_ops demo_stack 1;
          round_ops demo_stack (Some (0, 0, ones)) (Some (0, 1))]) = Some st /\
     threads st = [SockThread [] [rq]; SockThread [] (rp :: rs)]) /\
  (exists r0 rp rq rs P0 P1 P2 P3 ks st,
     pool_step empty_pool (alloc_request demo_stack 2) P0 r0 /\
     (pool_step P0 (alloc_request demo_stack 1) P1 rp /\
      pool_step P1 (write_request demo_stack 0 0 ones) P2 rq /\
      pool_steps P2 [read_request demo_stack 0 1] P3 rs) /\
     sock_run stream_pad stream_unset ks
       (sock_start demo_stream [malloc_ops demo_stack 2 ++ malloc_ops demo_stack 1;
          round_ops demo_stack (Some (0, 0, ones)) (Some (0, 1))]) = Some st /\
     threads st = [SockThread [] [r0; rq]; SockThread [] (rp :: rs)]).
Proof.
  apply (alloc_takes_a_handlers_reply stream_pad eq_refl stream_unset (length_replicate _ _)
    demo_stack demo_stream empty_pool 1 2 (Some (0, 0, ones)) (Some (0, 1)) _ _
    demo_stack_wf stream_demo_holds); try done.
Defined.


