(* ===== verification/Threads.v ===== *)
(** * The fault handlers as threads

    A handler thread per registered region, the application's threads, and the
    two things the handlers share outside the mutex and inside it: the
    [static] event buffer [msg], which [read] fills before the mutex is taken
    and the thread looks at afterwards, and the manager's state with the page
    buffer and the connection, which only the holder of [fault_handler_cr]
    touches.  A step is one of the places where another thread can come in
    between; [hstep] is the next step of one handler, [astep] of one
    application thread, and a schedule is a list of labels.

    The application's memory accesses are those of System.v: an access to a
    page that is in memory is one step; an access to an absent page of a region
    leaves an event with the region's handler and stops the thread until the
    kernel has copied a page in, after which it tries again.

    The system is a process linked with the client library, in which the
    handlers are the only users of the mutex.  The preloaded allocator
    (Preload.v) is another library, which an application may load on top; its
    [malloc] takes the same mutex and unlocks it once too often.  That unlock
    is a step of Preload.v, not one of this system: PreloadProps.v shows what
    it does to the mutex, ThreadsProps.v what a mutex freed that way does to
    the handlers. *)

From S2P Require Import Prelude OS Vm Uffd UffdCorrect System.

(** Where a handler thread is in the body of [fault_handler_thread]. *)
Inductive handler_pc :=
  | Polling                          (* about to poll and read *)
  | HasEvent                         (* [read] has returned an event *)
  | Waiting (addr op : Z)            (* event taken over, at the mutex *)
  | Saving (addr op : Z)             (* has the mutex: writing back *)
  | Dropping (addr op : Z)           (* about to drop the old page *)
  | Resolving (addr op : Z)
  | Copying (addr op : Z)
  | Recording (addr op : Z)
  | Unlocking (go_on : bool)         (* end of the body; false is a [break] *)
  | Exited.

(** The thread holds [fault_handler_cr]. *)
Definition in_cs (pc : handler_pc) : bool :=
  match pc with
  | Saving _ _ | Dropping _ _ | Resolving _ _ | Copying _ _ | Recording _ _
  | Unlocking _ => true
  | Polling | HasEvent | Waiting _ _ | Exited => false
  end.

(** A thread, and the events its descriptor has for it. *)
Record handler := Handler { queue : list uffd_event; hpc : handler_pc }.

(** An application thread: the accesses left, the results of those made, and
    the address it waits for while it is stopped at a fault. *)
Record app := App {
  todo : list access;
  seen : list (list byte);
  waits : option Z;
}.

(** Handlers are keyed by the descriptor they were started with.  The event
    buffer [msg] is shared by them outside the mutex, [shared] inside it. *)
Record tsys (W : Type) := TSys {
  handlers : gmap Z handler;
  msg : uffd_event;
  mutex : option Z;
  apps : list app;
  shared : ust W;
}.
Arguments TSys {W}.
Arguments handlers {W}.
Arguments msg {W}.
Arguments mutex {W}.
Arguments apps {W}.
Arguments shared {W}.

(** Who moves: a handler or an application thread. *)
Inductive label := H (uffd : Z) | A (k : nat).

Definition access_flags (x : access) : Z :=
  match x with Load _ _ => 0 | Store _ _ => 1 end.

(** The effect of an access whose page is there. *)
Definition perform {W} (x : access) : prog (ust W) (list byte) :=
  match x with
  | Load addr n => try_get (fun s => load (present (vs s)) addr n)
  | Store addr bs =>
      _ ← try_put (fun s => pr ← store (present (vs s)) addr bs;
                            Some (set_vs (Vmem pr (vma (vs s))) s));
      mret []
  end.

(** The kernel wakes the threads that wait for the page it copied in. *)
Definition wake (addr : Z) (x : app) : app :=
  match waits x with
  | Some a => if decide (page_of a = page_of addr) then App (todo x) (seen x) None
              else x
  | None => x
  end.

Section threads.
Context {V : VM} {W : Type}.
Context (resolver : Z -> Z -> Z -> list byte -> prog W (list byte)).

(** The two halves of [invalidate_prev_resolved_page]. *)
Definition save_prev (uffd : Z) : prog (ust W) unit :=
  m ← get_maps;
  match uffd_prev_resolved_addr m !! uffd, uffd_prev_resolved_op m !! uffd,
        uffd_start_addr_map m !! uffd with
  | Some prev_resolved_addr, Some op, Some region_start_addr =>
      let prev_resolved_op := s32 op in
      if prev_resolved_op =? 0 then mret tt
      else resolve_in_place resolver region_start_addr prev_resolved_addr
             prev_resolved_op
  | _, _, _ => mret tt
  end.

Definition drop_prev (uffd : Z) : prog (ust W) unit :=
  m ← get_maps;
  match uffd_prev_resolved_addr m !! uffd, uffd_prev_resolved_op m !! uffd,
        uffd_start_addr_map m !! uffd with
  | Some prev_resolved_addr, Some _, Some _ =>
      modify (fun s =>
        set_vs (madvise_dontneed (vs s) (PGROUNDDOWN prev_resolved_addr)
                  PAGE_SIZE) s)
  | _, _, _ => mret tt
  end.

(** Changes to the state of the thread system. *)
Definition set_handler (u : Z) (h : handler) (st : tsys W) : tsys W :=
  TSys (<[u := h]> (handlers st)) (msg st) (mutex st) (apps st) (shared st).

Definition set_msg (e : uffd_event) (st : tsys W) : tsys W :=
  TSys (handlers st) e (mutex st) (apps st) (shared st).

Definition set_mutex (o : option Z) (st : tsys W) : tsys W :=
  TSys (handlers st) (msg st) o (apps st) (shared st).

Definition set_apps (l : list app) (st : tsys W) : tsys W :=
  TSys (handlers st) (msg st) (mutex st) l (shared st).

Definition set_shared (s : ust W) (st : tsys W) : tsys W :=
  TSys (handlers st) (msg st) (mutex st) (apps st) s.

(** Poll and read: [None] while there is nothing to read. *)
Definition read_event (u : Z) (h : handler) (st : tsys W) : option (tsys W) :=
  match queue h with
  | [] => None
  | (EvPollError | EvEof | EvReadError) :: q =>
      Some (set_handler u (Handler q Exited) st)
  | e :: q => Some (set_handler u (Handler q HasEvent) (set_msg e st))
  end.

(** Dispatch on the shared buffer, after the prints. *)
Definition take_event (st : tsys W) : handler_pc :=
  match msg st with
  | EvUnmap => Polling
  | EvPagefault addr flags =>
      Waiting addr (Z.land flags UFFD_PAGEFAULT_FLAG_WRITE)
  | _ => Exited
  end.

(** A piece of the critical section. *)
Definition run_piece (u : Z) (h : handler) (p : prog (ust W) unit)
    (next : handler_pc) (st : tsys W) : option (tsys W) :=
  '(_, s) ← p (shared st);
  Some (set_handler u (Handler (queue h) next) (set_shared s st)).

Definition hstep (u : Z) (st : tsys W) : option (tsys W) :=
  h ← handlers st !! u;
  match hpc h with
  | Polling => read_event u h st
  | HasEvent => Some (set_handler u (Handler (queue h) (take_event st)) st)
  | Waiting a op =>
      match mutex st with
      | Some _ => None
      | None => Some (set_handler u (Handler (queue h) (Saving a op))
                        (set_mutex (Some u) st))
      end
  | Saving a op => run_piece u h (save_prev u) (Dropping a op) st
  | Dropping a op => run_piece u h (drop_prev u) (Resolving a op) st
  | Resolving a op => run_piece u h (resolve_fault resolver u a op) (Copying a op) st
  | Copying a op =>
      '(copied, s) ← copy_fault u a (shared st);
      if (copied : bool) then
        Some (set_handler u (Handler (queue h) (Recording a op))
                (set_apps (wake a <$> apps st) (set_shared s st)))
      else
        Some (set_handler u (Handler (queue h) (Unlocking false))
                (set_shared s st))
  | Recording a op => run_piece u h (record_resolved u a op) (Unlocking true) st
  | Unlocking go_on =>
      Some (set_handler u (Handler (queue h) (if go_on then Polling else Exited))
              (set_mutex None st))
  | Exited => None
  end.

(** An application thread: [None] while it waits, or when it is done. *)
Definition astep (k : nat) (st : tsys W) : option (tsys W) :=
  a ← apps st !! k;
  match waits a, todo a with
  | None, x :: rest =>
      let addr := access_addr x in
      let v := vs (shared st) in
      match present v !! page_of addr, vma v !! page_of addr with
      | Some _, _ =>
          '(bs, s) ← perform x (shared st);
          Some (set_apps (<[k := App rest (seen a ++ [bs]) None]> (apps st))
                  (set_shared s st))
      | None, Some None =>
          Some (set_shared (set_vs (Vmem (<[page_of addr := zero_page]> (present v))
                                      (vma v)) (shared st)) st)
      | None, Some (Some u) =>
          h ← handlers st !! u;
          Some (set_handler u
                  (Handler (queue h ++ [EvPagefault addr (access_flags x)]) (hpc h))
                  (set_apps (<[k := App (todo a) (seen a) (Some addr)]> (apps st)) st))
      | None, None => None
      end
  | _, _ => None
  end.

Definition tstep (l : label) (st : tsys W) : option (tsys W) :=
  match l with H u => hstep u st | A k => astep k st end.

Fixpoint trun (ls : list label) (st : tsys W) : option (tsys W) :=
  match ls with
  | [] => Some st
  | l :: ls => st ← tstep l st; trun ls st
  end.

(** The regions are registered, nothing has faulted, and each thread of the
    application has its accesses before it. *)
Definition boot (us : list Z) (programs : list (list access)) (s : ust W) :
    tsys W :=
  TSys (list_to_map ((fun u => (u, Handler [] Polling)) <$> us)) EvOther None
    ((fun tr => App tr [] None) <$> programs) s.

Definition reachable (st : tsys W) : Prop :=
  exists us programs s ls, trun ls (boot us programs s) = Some st.

(** ** The pieces make the round of Uffd.v *)
Lemma get_maps_some (s s' : ust W) m :
  get_maps s = Some (m, s') -> s' = s /\ maps (um s) = Live m.
Proof.
  unfold get_maps, try_get. destruct (maps (um s)); by intros [= <- <-].
Qed.

Lemma resolve_in_place_um a b c (s s' : ust W) x :
  resolve_in_place resolver a b c s = Some (x, s') -> um s' = um s.
Proof.
  unfold resolve_in_place, call_resolver. run_unfold.
  destruct (load _ _ _) as [pg|]; [|done]. destruct (page_resolver _); [|done].
  destruct (resolver _ _ _ _ _) as [[pg' w]|]; [|done].
  cbn [option_bind vs set_env]. destruct (store _ _ _); [|done].
  by intros [= _ <-].
Qed.

Lemma invalidate_pieces u (s : ust W) :
  invalidate_prev_resolved_page resolver u s =
    (_ ← save_prev u; drop_prev u) s.
Proof.
  unfold invalidate_prev_resolved_page, save_prev, drop_prev.
  rewrite !run_bind. destruct (get_maps s) as [[m s0]|] eqn:E; [|done].
  apply get_maps_some in E as [-> E]. cbn [mbind option_bind].
  assert (Hm : forall s1, um s1 = um s ->
    get_maps s1 = Some (m, s1 : ust W)).
  { intros s1 H1. apply get_maps_run. by rewrite H1. }
  destruct (uffd_prev_resolved_addr m !! u) eqn:E1,
    (uffd_prev_resolved_op m !! u) eqn:E2, (uffd_start_addr_map m !! u) eqn:E3;
    try (rewrite run_ret, run_bind, Hm by done; cbn [mbind option_bind];
         by rewrite E1, ?E2, ?E3).
  rewrite run_bind. destruct (s32 _ =? 0).
  - rewrite run_ret, run_bind, Hm by done. cbn [mbind option_bind].
    by rewrite E1, E2, E3.
  - destruct (resolve_in_place _ _ _ _ _) as [[x s1]|] eqn:Er; [|done].
    cbn [mbind option_bind].
    rewrite run_bind, (Hm s1) by (by eapply resolve_in_place_um).
    cbn [mbind option_bind]. by rewrite E1, E2, E3.
Qed.

(** The round of Uffd.v is the pieces in a row. *)
Lemma handle_fault_pieces u addr flags (s : ust W) :
  let op := Z.land flags UFFD_PAGEFAULT_FLAG_WRITE in
  handle_fault resolver u addr flags s =
    (_ ← save_prev u; _ ← drop_prev u; _ ← resolve_fault resolver u addr op;
     copied ← copy_fault u addr;
     if (copied : bool) then _ ← record_resolved u addr op; mret true
     else mret false) s.
Proof.
  intros op. unfold handle_fault. fold op. rewrite run_bind, invalidate_pieces.
  rewrite !run_bind. by destruct (save_prev u s) as [[[] s1]|].
Qed.

(** ** What a step changes *)
Ltac step_inv H :=
  unfold hstep, astep, read_event, run_piece, mbind, option_bind in H;
  repeat match type of H with
  | context [match ?x with _ => _ end] => destruct x eqn:?; try discriminate H
  end; simplify_eq/=.

Lemma hstep_handler u (st st' : tsys W) :
  hstep u st = Some st' ->
  exists h h', handlers st !! u = Some h /\
    handlers st' = <[u := h']> (handlers st).
Proof.
  intros Hs. unfold hstep in Hs.
  destruct (handlers st !! u) as [h|] eqn:E; [|done]. cbn in Hs.
  exists h. step_inv Hs; eauto.
Qed.

(** The threads that hold the mutex are those inside the critical section. *)
Definition lock_ok (st : tsys W) : Prop := forall u h,
  handlers st !! u = Some h -> in_cs (hpc h) = true <-> mutex st = Some u.

Lemma lock_ok_upd (st : tsys W) u h o :
  lock_ok st -> (in_cs (hpc h) = true <-> o = Some u) ->
  (forall u', u' <> u -> (mutex st = Some u' <-> o = Some u')) ->
  forall e l s, lock_ok (TSys (<[u := h]> (handlers st)) e o l s).
Proof.
  intros Hl Hu Ho e l s u' h'. cbn.
  destruct (decide (u = u')) as [<-|Hne].
  - rewrite lookup_insert_eq. by intros [= <-].
  - rewrite lookup_insert_ne by done. intros E. rewrite (Hl u' h' E).
    apply Ho. congruence.
Qed.

Lemma take_event_out (st : tsys W) : in_cs (take_event st) = false.
Proof. unfold take_event. by case_match. Qed.

Lemma hstep_lock_ok u (st st' : tsys W) :
  hstep u st = Some st' -> lock_ok st -> lock_ok st'.
Proof.
  intros Hs Hl. unfold hstep in Hs.
  destruct (handlers st !! u) as [h|] eqn:E; [|done]. cbn in Hs.
  pose proof (Hl u h E) as Hu. destruct h as [q pc]. cbn in Hu.
  destruct pc; step_inv Hs; apply (lock_ok_upd st); try done; cbn;
    rewrite ?take_event_out; intuition congruence.
Qed.

Lemma astep_lock_ok k (st st' : tsys W) :
  astep k st = Some st' -> lock_ok st -> lock_ok st'.
Proof.
  intros Hs Hl. unfold astep in Hs.
  destruct (apps st !! k) as [a|] eqn:E; [|done]. cbn in Hs.
  step_inv Hs; try done.
  apply (lock_ok_upd st); [done| |intros; reflexivity]. cbn. by apply Hl.
Qed.

Lemma trun_ind (P : tsys W -> Prop) :
  (forall l st st', tstep l st = Some st' -> P st -> P st') ->
  forall ls st st', trun ls st = Some st' -> P st -> P st'.
Proof.
  intros Hstep. induction ls as [|l ls IH]; cbn; intros st st'.
  - by intros [= ->].
  - destruct (tstep l st) as [st1|] eqn:E; [|done]. eauto.
Qed.

Lemma boot_handler us progs (s : ust W) u h :
  handlers (boot us progs s) !! u = Some h -> h = Handler [] Polling.
Proof.
  cbn. intros H%elem_of_list_to_map_2.
  apply list_elem_of_fmap in H as (v & [= -> ->] & _). done.
Qed.

Lemma boot_lock_ok us progs (s : ust W) : lock_ok (boot us progs s).
Proof. intros u h ->%boot_handler. done. Qed.

Lemma tstep_lock_ok l (st st' : tsys W) :
  tstep l st = Some st' -> lock_ok st -> lock_ok st'.
Proof. destruct l; [apply hstep_lock_ok|apply astep_lock_ok]. Qed.

Lemma reachable_lock_ok (st : tsys W) : reachable st -> lock_ok st.
Proof.
  intros (us & progs & s & ls & Hr).
  eapply (trun_ind lock_ok), boot_lock_ok; eauto using tstep_lock_ok.
Qed.

(** Only the thread inside the critical section changes what the handlers
    share. *)
Lemma hstep_shared u (st st' : tsys W) :
  hstep u st = Some st' -> lock_ok st -> shared st' <> shared st ->
  mutex st = Some u.
Proof.
  intros Hs Hl Hne. unfold hstep in Hs.
  destruct (handlers st !! u) as [h|] eqn:E; [|done]. cbn in Hs.
  apply (Hl u h E). by step_inv Hs.
Qed.

(** Only a thread that is about to poll changes the event buffer. *)
Lemma hstep_msg u (st st' : tsys W) :
  hstep u st = Some st' -> msg st' <> msg st ->
  exists h, handlers st !! u = Some h /\ hpc h = Polling.
Proof.
  intros Hs Hne. unfold hstep in Hs.
  destruct (handlers st !! u) as [h|] eqn:E; [|done]. cbn in Hs.
  exists h. split; [done|]. by step_inv Hs.
Qed.

(** ** One step at a time *)
Lemma trun_cons l ls (st st1 st' : tsys W) :
  tstep l st = Some st1 -> trun ls st1 = Some st' -> trun (l :: ls) st = Some st'.
Proof. intros H1 H2. cbn [trun]. by rewrite H1. Qed.

Lemma step_fault k (st : tsys W) x tr o u h :
  apps st !! k = Some (App (x :: tr) o None) ->
  present (vs (shared st)) !! page_of (access_addr x) = None ->
  vma (vs (shared st)) !! page_of (access_addr x) = Some (Some u) ->
  handlers st !! u = Some h ->
  tstep (A k) st = Some (set_handler u
    (Handler (queue h ++ [EvPagefault (access_addr x) (access_flags x)]) (hpc h))
    (set_apps (<[k := App (x :: tr) o (Some (access_addr x))]> (apps st)) st)).
Proof.
  intros Ha Hp Hv Hh. cbn. unfold astep. rewrite Ha. cbn. rewrite Hp, Hv, Hh. done.
Qed.

Lemma step_perform k (st : tsys W) x tr o bs s :
  apps st !! k = Some (App (x :: tr) o None) ->
  is_Some (present (vs (shared st)) !! page_of (access_addr x)) ->
  perform x (shared st) = Some (bs, s) ->
  tstep (A k) st = Some (set_apps (<[k := App tr (o ++ [bs]) None]> (apps st))
                           (set_shared s st)).
Proof.
  intros Ha [pg Hp] Hx. cbn. unfold astep. rewrite Ha. cbn. by rewrite Hp, Hx.
Qed.

Lemma step_read u (st : tsys W) a f q :
  handlers st !! u = Some (Handler (EvPagefault a f :: q) Polling) ->
  tstep (H u) st = Some (set_handler u (Handler q HasEvent)
                           (set_msg (EvPagefault a f) st)).
Proof. intros Hh. cbn. unfold hstep. by rewrite Hh. Qed.

Lemma step_take u (st : tsys W) q a f :
  handlers st !! u = Some (Handler q HasEvent) -> msg st = EvPagefault a f ->
  tstep (H u) st = Some (set_handler u
    (Handler q (Waiting a (Z.land f UFFD_PAGEFAULT_FLAG_WRITE))) st).
Proof. intros Hh Hm. cbn. unfold hstep, take_event. rewrite Hh. cbn. by rewrite Hm. Qed.

Lemma step_lock u (st : tsys W) q a op :
  handlers st !! u = Some (Handler q (Waiting a op)) -> mutex st = None ->
  tstep (H u) st = Some (set_handler u (Handler q (Saving a op))
                           (set_mutex (Some u) st)).
Proof. intros Hh Hm. cbn. unfold hstep. rewrite Hh. cbn. by rewrite Hm. Qed.

Lemma step_save u (st : tsys W) q a op s :
  handlers st !! u = Some (Handler q (Saving a op)) ->
  save_prev u (shared st) = Some (tt, s) ->
  tstep (H u) st = Some (set_handler u (Handler q (Dropping a op)) (set_shared s st)).
Proof. intros Hh Hp. cbn. unfold hstep, run_piece. rewrite Hh. cbn. by rewrite Hp. Qed.

Lemma step_drop u (st : tsys W) q a op s :
  handlers st !! u = Some (Handler q (Dropping a op)) ->
  drop_prev u (shared st) = Some (tt, s) ->
  tstep (H u) st = Some (set_handler u (Handler q (Resolving a op)) (set_shared s st)).
Proof. intros Hh Hp. cbn. unfold hstep, run_piece. rewrite Hh. cbn. by rewrite Hp. Qed.

Lemma step_resolve u (st : tsys W) q a op s :
  handlers st !! u = Some (Handler q (Resolving a op)) ->
  resolve_fault resolver u a op (shared st) = Some (tt, s) ->
  tstep (H u) st = Some (set_handler u (Handler q (Copying a op)) (set_shared s st)).
Proof. intros Hh Hp. cbn. unfold hstep, run_piece. rewrite Hh. cbn. by rewrite Hp. Qed.

Lemma step_copy u (st : tsys W) q a op s :
  handlers st !! u = Some (Handler q (Copying a op)) ->
  copy_fault u a (shared st) = Some (true, s) ->
  tstep (H u) st = Some (set_handler u (Handler q (Recording a op))
                           (set_apps (wake a <$> apps st) (set_shared s st))).
Proof. intros Hh Hp. cbn. unfold hstep. rewrite Hh. cbn. by rewrite Hp. Qed.

Lemma step_record u (st : tsys W) q a op s :
  handlers st !! u = Some (Handler q (Recording a op)) ->
  record_resolved u a op (shared st) = Some (tt, s) ->
  tstep (H u) st = Some (set_handler u (Handler q (Unlocking true)) (set_shared s st)).
Proof. intros Hh Hp. cbn. unfold hstep, run_piece. rewrite Hh. cbn. by rewrite Hp. Qed.

Lemma step_unlock u (st : tsys W) q :
  handlers st !! u = Some (Handler q (Unlocking true)) ->
  tstep (H u) st = Some (set_handler u (Handler q Polling) (set_mutex None st)).
Proof. intros Hh. cbn. unfold hstep. by rewrite Hh. Qed.

Lemma step_refused u (st : tsys W) q a op s :
  handlers st !! u = Some (Handler q (Copying a op)) ->
  copy_fault u a (shared st) = Some (false, s) ->
  tstep (H u) st = Some (set_handler u (Handler q (Unlocking false))
                           (set_shared s st)).
Proof. intros Hh Hp. cbn. unfold hstep. rewrite Hh. cbn. by rewrite Hp. Qed.

Lemma step_leave u (st : tsys W) q :
  handlers st !! u = Some (Handler q (Unlocking false)) ->
  tstep (H u) st = Some (set_handler u (Handler q Exited) (set_mutex None st)).
Proof. intros Hh. cbn. unfold hstep. by rewrite Hh. Qed.

End threads.
