(* ===== verification/ThreadsCorrect.v ===== *)
(** * One application thread: every schedule runs the program in order

    With one application thread at most one fault is outstanding, so the
    event buffer is never overwritten and the rounds of the handlers, which
    Uffd.v takes in one piece, cannot be told from atomic ones, although the
    last part of a round runs while the application has already gone on.  The
    relation [follows] ties a state of the thread system to the state [s]
    the sequential run of System.v is in; it carries a bound on the steps that
    are left, so it also shows that every schedule gets there. *)

From S2P Require Import Prelude OS Packet Pool Vm Uffd UffdCorrect Client System Threads.

(** ** Inevitability

    Every run that is continued for as long as it can be reaches [P]. *)
Section inevitably.
Context {L S : Type} (step : L -> S -> option S).

Inductive inevitably (P : S -> Prop) (st : S) : Prop :=
  | inev_now : P st -> inevitably P st
  | inev_later :
      (exists l st', step l st = Some st') ->
      (forall l st', step l st = Some st' -> inevitably P st') ->
      inevitably P st.

(** A relation that goes on until [P] and counts down. *)
Lemma inevitably_countdown (P : S -> Prop) (R : nat -> S -> Prop) :
  (forall n st, R n st -> P st \/ exists l st', step l st = Some st') ->
  (forall n st l st', R n st -> step l st = Some st' ->
    exists n', (n' < n)%nat /\ R n' st') ->
  forall n st, R n st -> inevitably P st.
Proof.
  intros Hprogress Hdown. induction n as [n IH] using lt_wf_ind.
  intros st Hst. destruct (Hprogress n st Hst) as [Hp|He]; [by left|].
  right; [done|]. intros l st' Hs.
  destruct (Hdown n st l st' Hst Hs) as (n' & Hn & Hst'). eauto.
Qed.
End inevitably.

(** ** What the pieces leave alone *)
Section frames.
Context {V : VM} {HV : VMLaws V} {W : Type}.
Context (resolver : Z -> Z -> Z -> list byte -> prog W (list byte)).
Implicit Types s : ust W.

Definition keeps_vma {B} (p : prog (ust W) B) : Prop := forall s x s',
  p s = Some (x, s') -> vma (vs s') = vma (vs s).

Lemma keeps_vma_bind {B C} (p : prog (ust W) B) (k : B -> prog (ust W) C) :
  keeps_vma p -> (forall x, keeps_vma (k x)) -> keeps_vma (x ← p; k x).
Proof.
  intros Hp Hk s x s'. rewrite run_bind. destruct (p s) as [[y s1]|] eqn:E; [|done].
  cbn. intros H. by rewrite (Hk y _ _ _ H), (Hp _ _ _ E).
Qed.

Lemma keeps_vma_ret {B} (x : B) : keeps_vma (mret x).
Proof. by intros s y s' [= _ <-]. Qed.

Lemma keeps_vma_try_get {B} (f : ust W -> option B) : keeps_vma (try_get f).
Proof. intros s x s'. unfold try_get. case_match; [|done]. by intros [= _ <-]. Qed.

Lemma keeps_vma_upd_um f : keeps_vma (@upd_um W f).
Proof. by intros s x s' [= _ <-]. Qed.

Lemma keeps_vma_call start a op pg : keeps_vma (call_resolver resolver start a op pg).
Proof.
  intros s x s'. unfold call_resolver. repeat (case_match; try done).
  by intros [= _ <-].
Qed.

#[local] Hint Resolve keeps_vma_bind keeps_vma_ret keeps_vma_try_get keeps_vma_upd_um
  keeps_vma_call : rmp.

Lemma keeps_vma_in_place start a op : keeps_vma (resolve_in_place resolver start a op).
Proof.
  unfold resolve_in_place. repeat (apply keeps_vma_bind; [auto with rmp|intros ?]).
  intros s y s'. unfold try_put. destruct (store _ _ _); [|done].
  by intros [= _ <-].
Qed.

Lemma save_prev_vma u : keeps_vma (save_prev resolver u).
Proof.
  apply keeps_vma_bind; [apply keeps_vma_try_get|intros m].
  cbv zeta. repeat case_match; auto using keeps_vma_ret, keeps_vma_in_place.
Qed.

Lemma drop_prev_vma u : keeps_vma (drop_prev u : prog (ust W) unit).
Proof.
  apply keeps_vma_bind; [apply keeps_vma_try_get|intros m].
  repeat case_match; auto using keeps_vma_ret.
  intros s x s' [= _ <-]. apply madvise_ok, PGROUNDDOWN_mod.
Qed.

Lemma resolve_fault_vma u a op : keeps_vma (resolve_fault resolver u a op).
Proof.
  unfold resolve_fault. case_match; [|apply keeps_vma_ret].
  apply keeps_vma_bind; [apply keeps_vma_try_get|intros m].
  apply keeps_vma_bind; [apply keeps_vma_try_get|intros start].
  apply keeps_vma_bind; [apply keeps_vma_try_get|intros pg].
  apply keeps_vma_bind; auto with rmp.
Qed.

(** A copy that goes through leaves the page of the fault in memory. *)
Lemma copy_fault_ok u a s b s' :
  copy_fault u a s = Some (b, s') ->
  vma (vs s') = vma (vs s) /\
  (b = true -> is_Some (present (vs s') !! page_of a)).
Proof.
  unfold copy_fault. run_unfold. unfold get_page, try_get.
  destruct (page (um s)) as [pg|]; [|done].
  destruct (uffdio_copy _ _ _ _) as [v|] eqn:E.
  - intros [= <- <-]. apply uffdio_copy_ok in E as [Ev Ep]. cbn.
    split; [done|]. rewrite Ep, PGROUNDDOWN_div. intros _.
    unfold page_of. rewrite lookup_insert_eq. eauto.
  - by intros [= <- <-].
Qed.

Lemma copy_fault_registered u a s s' :
  copy_fault u a s = Some (true, s') ->
  vma (vs s) !! page_of a = Some (Some u).
Proof.
  unfold copy_fault. run_unfold. unfold get_page, try_get.
  destruct (page (um s)) as [pg|]; [|done].
  destruct (uffdio_copy _ _ _ _) as [v|] eqn:E; [|done]. intros _.
  apply uffdio_copy_registered in E. by rewrite PGROUNDDOWN_div in E.
Qed.

Lemma record_resolved_vs u a op s x s' :
  record_resolved u a op s = Some (x, s') -> vs s' = vs s.
Proof.
  unfold record_resolved. rewrite run_bind.
  destruct (get_maps s) as [[m s1]|] eqn:E; [|done].
  apply get_maps_some in E as [-> _]. by intros [= _ <-].
Qed.

(** It does not look at the address space either. *)
Lemma record_resolved_frame u a op s v x s' :
  record_resolved u a op s = Some (x, s') ->
  record_resolved u a op (set_vs v s) = Some (x, set_vs v s').
Proof.
  unfold record_resolved. rewrite !run_bind. unfold get_maps, try_get. cbn.
  destruct (maps (um s)); [done| |done]. by intros [= <- <-].
Qed.

(** The states between the pieces of a round that goes through. *)
Lemma round_pieces u a flags s s' :
  handle_fault resolver u a flags s = Some (true, s') ->
  let op := Z.land flags UFFD_PAGEFAULT_FLAG_WRITE in
  exists s1 s2 s3 s4,
    save_prev resolver u s = Some (tt, s1) /\ drop_prev u s1 = Some (tt, s2) /\
    resolve_fault resolver u a op s2 = Some (tt, s3) /\
    copy_fault u a s3 = Some (true, s4) /\
    record_resolved u a op s4 = Some (tt, s').
Proof.
  rewrite handle_fault_pieces, !run_bind.
  destruct (save_prev _ _ _) as [[[] s1]|] eqn:E1; [|done].
  cbn [mbind option_bind]. rewrite run_bind.
  destruct (drop_prev _ _) as [[[] s2]|] eqn:E2; [|done].
  cbn [mbind option_bind]. rewrite run_bind.
  destruct (resolve_fault _ _ _ _ _) as [[[] s3]|] eqn:E3; [|done].
  cbn [mbind option_bind]. rewrite run_bind.
  destruct (copy_fault _ _ _) as [[[|] s4]|] eqn:E4; [|done|done].
  cbn [mbind option_bind]. rewrite run_bind.
  destruct (record_resolved _ _ _ _) as [[[] s5]|] eqn:E5; [|done].
  intros [= <-]. by exists s1, s2, s3, s4.
Qed.

Lemma handle_fault_ok u a flags s s' :
  handle_fault resolver u a flags s = Some (true, s') ->
  vma (vs s') = vma (vs s) /\ is_Some (present (vs s') !! page_of a).
Proof.
  intros (s1 & s2 & s3 & s4 & E1 & E2 & E3 & E4 & E5)%round_pieces.
  rewrite (record_resolved_vs _ _ _ _ _ _ E5).
  apply copy_fault_ok in E4 as [Ev Hp]. split; [|by apply Hp].
  by rewrite Ev, (resolve_fault_vma _ _ _ _ _ _ E3), (drop_prev_vma _ _ _ _ E2),
    (save_prev_vma _ _ _ _ E1).
Qed.
(** An access changes pages, not mappings, and works the same whatever the
    maps of the manager hold. *)
Lemma perform_frame x s v s1 :
  perform x s = Some (v, s1) ->
  vma (vs s1) = vma (vs s) /\ um s1 = um s /\ env s1 = env s /\
  (forall s0, vs s0 = vs s -> perform x s0 = Some (v, set_vs (vs s1) s0)).
Proof.
  destruct x as [a n|a bs]; cbn; unfold try_get.
  - destruct (load _ _ _) as [l|] eqn:E; [|done]. intros [= <- <-].
    split_and!; try done. intros s0 Hs0. rewrite Hs0, E. by destruct s0; cbn in *; subst.
  - rewrite run_bind. unfold try_put.
    destruct (store _ _ _) as [pr|] eqn:E; [|done]. cbn. intros [= <- <-].
    split_and!; try done. intros s0 Hs0. rewrite run_bind, Hs0, E. done.
Qed.

(** A copy into a page of another region is refused. *)
Lemma copy_fault_refused u a s :
  is_Some (page (um s)) -> vma (vs s) !! page_of a <> Some (Some u) ->
  copy_fault u a s = Some (false, s).
Proof.
  intros [pg Hpg] Hv. unfold copy_fault.
  rewrite run_bind, (get_page_run _ pg), run_bind, run_get by done.
  destruct (uffdio_copy _ _ _ _) as [v|] eqn:E; [|done].
  apply uffdio_copy_registered in E. by rewrite PGROUNDDOWN_div in E.
Qed.

End frames.

(** ** The relation *)
Section single.
Context {V : VM} {HV : VMLaws V} {W : Type} {PS : PageServer W}.
Context (stack : packet).
#[local] Abbreviation res := (rmp_pagefault_resovler stack).
Implicit Types (s : ust (client W)) (st : tsys (client W)).

(** The last part of a round, which runs after the application was woken. *)
Definition tail_pc (pc : handler_pc) : bool :=
  match pc with Recording _ _ | Unlocking true => true | _ => false end.

(** No round is in its first part: what the shared state becomes once the
    round that is being finished, if there is one, has recorded its page. *)
Definition settled st s : Prop :=
  match mutex st with
  | None => shared st = s
  | Some u => exists h, handlers st !! u = Some h /\
      match hpc h with
      | Recording a op => record_resolved u a op (shared st) = Some (tt, s)
      | Unlocking true => shared st = s
      | _ => False
      end
  end.

(** A handler with nothing to do but finish its round. *)
Definition quiet (h : handler) : Prop :=
  queue h = [] /\ (hpc h = Polling \/ tail_pc (hpc h) = true).

(** How far [u] is with the fault at [a], in terms of the state [s] before it. *)
Definition progress st s (u : Z) (pc : handler_pc) : Prop :=
  match pc with
  | Saving _ _ => shared st = s
  | Dropping _ _ => save_prev res u s = Some (tt, shared st)
  | Resolving _ _ =>
      (_ ← save_prev res u; drop_prev u) s = Some (tt, shared st)
  | Copying a op =>
      (_ ← save_prev res u; _ ← drop_prev u; resolve_fault res u a op) s
      = Some (tt, shared st)
  | _ => settled st s
  end.

(** Where the event is: in the queue, in the buffer, or taken over. *)
Definition carries st (a flags : Z) (h : handler) : Prop :=
  match hpc h with
  | Polling | Recording _ _ | Unlocking true => queue h = [EvPagefault a flags]
  | HasEvent => queue h = [] /\ msg st = EvPagefault a flags
  | Waiting a' op | Saving a' op | Dropping a' op | Resolving a' op
  | Copying a' op =>
      queue h = [] /\ a' = a /\ op = Z.land flags UFFD_PAGEFAULT_FLAG_WRITE
  | Unlocking false | Exited => False
  end.

(** The steps a handler still makes for what it has at hand. *)
Definition pc_cost (pc : handler_pc) : nat :=
  match pc with
  | Polling | Exited => 0 | Unlocking _ => 1 | Recording _ _ => 2
  | Copying _ _ => 6 | Resolving _ _ => 7 | Dropping _ _ => 8 | Saving _ _ => 9
  | Waiting _ _ => 10 | HasEvent => 11
  end.

Definition handler_cost (h : handler) : nat :=
  pc_cost (hpc h) + 12 * length (queue h).

Definition holder_cost st : nat :=
  match mutex st with
  | Some k => match handlers st !! k with Some h => pc_cost (hpc h) | None => 0 end
  | None => 0
  end.

Definition other_cost st (u : Z) : nat :=
  if decide (mutex st = Some u) then 0 else holder_cost st.

(** An access to an absent page has its page to wait for. *)
Definition access_cost (tr : list access) s : nat :=
  match tr with
  | [] => 0
  | x :: _ => match present (vs s) !! page_of (access_addr x) with
              | Some _ => 0 | None => 50 end
  end.

Definition handled st s : Prop := forall p u,
  vma (vs s) !! p = Some (Some u) -> is_Some (handlers st !! u).

(** The application runs: what is left of its program gives the rest of the
    results from the state the system settles to. *)
Record running out (s' : ust (client W)) st s tr seen : Prop := Running {
  rn_lock : lock_ok st;
  rn_handled : handled st s;
  rn_apps : apps st = [App tr seen None];
  rn_run : exists rest, run_accesses stack tr s = Some (rest, s') /\
                        seen ++ rest = out;
  rn_quiet u h : handlers st !! u = Some h -> quiet h;
  rn_settled : settled st s;
}.

(** It waits for the page of its next access, which [u] is about to bring. *)
Record stopped out (s' : ust (client W)) st s x tr seen u h : Prop := Stopped {
  sp_lock : lock_ok st;
  sp_handled : handled st s;
  sp_apps : apps st = [App (x :: tr) seen (Some (access_addr x))];
  sp_run : exists rest, run_accesses stack (x :: tr) s = Some (rest, s') /\
                        seen ++ rest = out;
  sp_absent : present (vs s) !! page_of (access_addr x) = None;
  sp_region : vma (vs s) !! page_of (access_addr x) = Some (Some u);
  sp_handler : handlers st !! u = Some h;
  sp_quiet k hk : k <> u -> handlers st !! k = Some hk -> quiet hk;
  sp_progress : progress st s u (hpc h);
  sp_carries : carries st (access_addr x) (access_flags x) h;
}.

Inductive follows (out : list (list byte)) (s' : ust (client W)) (n : nat)
    (st : tsys (client W)) : Prop :=
  | follows_running s tr seen :
      running out s' st s tr seen ->
      n = (100 * length tr + access_cost tr s + holder_cost st)%nat ->
      follows out s' n st
  | follows_stopped s x tr seen u h :
      stopped out s' st s x tr seen u h ->
      n = (100 * length (x :: tr) + handler_cost h + other_cost st u)%nat ->
      follows out s' n st.

(** The program is over and the handlers are at rest. *)
Definition finished (out : list (list byte)) (s' : ust (client W)) st : Prop :=
  apps st = [App [] out None] /\ mutex st = None /\ shared st = s'.

(** ** The sequential run *)
Lemma run_access_perform x s :
  run_access stack x s =
    (_ ← touch stack (access_addr x) (negb (access_flags x =? 0)); perform x) s.
Proof. by destruct x. Qed.

Lemma run_access_present x s :
  is_Some (present (vs s) !! page_of (access_addr x)) ->
  run_access stack x s = perform x s.
Proof.
  intros [pg E]. rewrite run_access_perform, run_bind. unfold touch.
  rewrite run_bind, run_get, E. by rewrite run_ret.
Qed.

Lemma run_access_local x s :
  let p := page_of (access_addr x) in
  present (vs s) !! p = None -> vma (vs s) !! p = Some None ->
  run_access stack x s =
    run_access stack x
      (set_vs (Vmem (<[p := zero_page]> (present (vs s))) (vma (vs s))) s).
Proof.
  intros p Ep Ev.
  rewrite (run_access_present x (set_vs _ s)) by (cbn; rewrite lookup_insert_eq; eauto).
  rewrite run_access_perform, run_bind. unfold touch. fold p.
  by rewrite run_bind, run_get, Ep, Ev.
Qed.

Lemma run_access_fault x s u :
  let p := page_of (access_addr x) in
  present (vs s) !! p = None -> vma (vs s) !! p = Some (Some u) ->
  run_access stack x s =
    '(go_on, s1) ← handle_fault res u (access_addr x) (access_flags x) s;
    if (go_on : bool) then run_access stack x s1 else None.
Proof.
  intros p Ep Ev. rewrite run_access_perform, run_bind. unfold touch. fold p.
  rewrite run_bind, run_get, Ep, Ev. cbn iota.
  unfold mbind at 1, prog_bind at 1. cbn [handle_event].
  replace (if negb (access_flags x =? 0) then 1 else 0) with (access_flags x)
    by (by destruct x).
  destruct (handle_fault _ _ _ _ _) as [[[|] s1]|] eqn:E; [|done|done].
  cbn [mbind option_bind]. rewrite run_access_present; [done|].
  by apply handle_fault_ok in E as [_ ?].
Qed.

Lemma run_accesses_cons x tr s :
  run_accesses stack (x :: tr) s =
    '(v, s1) ← run_access stack x s;
    '(vs, s2) ← run_accesses stack tr s1; Some (v :: vs, s2).
Proof.
  cbn [run_accesses]. rewrite run_bind.
  destruct (run_access stack x s) as [[v s1]|]; [|done]. cbn [mbind option_bind].
  rewrite run_bind. by destruct (run_accesses stack tr s1) as [[vs s2]|].
Qed.

(** ** Finishing a round *)
Lemma settled_vs st s : settled st s -> vs (shared st) = vs s.
Proof.
  unfold settled. destruct (mutex st) as [u|]; [|by intros ->].
  intros (h & _ & Hs). destruct (hpc h) as [| | | | | | | | [|] |]; try done.
  - symmetry. by eapply record_resolved_vs.
  - by subst.
Qed.

(** The application's accesses commute with what is left of the round. *)
Lemma settled_frame st s v l :
  settled st s ->
  settled (set_apps l (set_shared (set_vs v (shared st)) st)) (set_vs v s).
Proof.
  unfold settled. cbn. destruct (mutex st) as [u|]; [|by intros ->].
  intros (h & Hh & Hs). exists h. split; [done|].
  destruct (hpc h) as [| | | | | | | | [|] |]; try done.
  - by apply record_resolved_frame.
  - by subst.
Qed.

Lemma tail_can st s u :
  mutex st = Some u -> settled st s -> exists st', hstep res u st = Some st'.
Proof.
  intros Hm Hs. unfold settled in Hs. rewrite Hm in Hs. destruct Hs as (h & Hh & Hs).
  unfold hstep, run_piece. rewrite Hh. cbn.
  destruct (hpc h) as [| | | | | | | | [|] |]; try done; [rewrite Hs|]; cbn; eauto.
Qed.

Lemma tail_step st st' s u h :
  mutex st = Some u -> settled st s -> handlers st !! u = Some h ->
  hstep res u st = Some st' ->
  exists pc, handlers st' = <[u := Handler (queue h) pc]> (handlers st) /\
    apps st' = apps st /\ msg st' = msg st /\ settled st' s /\
    (pc_cost pc < pc_cost (hpc h))%nat /\ tail_pc (hpc h) = true /\
    (pc = Polling /\ mutex st' = None \/ pc = Unlocking true /\ mutex st' = Some u).
Proof.
  intros Hm Hs Hh Hst. unfold settled in Hs. rewrite Hm in Hs.
  destruct Hs as (h' & Hh' & Hs). rewrite Hh in Hh'. injection Hh' as <-.
  unfold hstep, run_piece in Hst. rewrite Hh in Hst. cbn in Hst.
  destruct (hpc h) as [| | | | | | | | [|] |] eqn:Ep; try done.
  - rewrite Hs in Hst. cbn in Hst. injection Hst as <-. cbn.
    exists (Unlocking true). split_and!; auto.
    unfold settled. cbn. rewrite Hm. exists (Handler (queue h) (Unlocking true)).
    by rewrite lookup_insert_eq.
  - injection Hst as <-. exists Polling. cbn. split_and!; auto.
Qed.

Lemma holder_cost_at st u h :
  mutex st = Some u -> handlers st !! u = Some h ->
  holder_cost st = pc_cost (hpc h).
Proof. intros Hm Hh. unfold holder_cost. by rewrite Hm, Hh. Qed.

(** Finishing a round makes the holder's part of the bound smaller. *)
Lemma tail_step_cost st st' s u h :
  mutex st = Some u -> settled st s -> handlers st !! u = Some h ->
  hstep res u st = Some st' -> (holder_cost st' < holder_cost st)%nat.
Proof.
  intros Hm Hs Hh Hst. rewrite (holder_cost_at st u h) by done.
  destruct (tail_step _ _ _ _ _ Hm Hs Hh Hst)
    as (pc & Hh' & _ & _ & _ & Hc & _ & [[-> Hm']|[-> Hm']]).
  - unfold holder_cost. rewrite Hm'. done.
  - rewrite (holder_cost_at st' u (Handler (queue h) (Unlocking true))); try done.
    by rewrite Hh', lookup_insert_eq.
Qed.

Lemma quiet_holder st u h st' :
  lock_ok st -> handlers st !! u = Some h -> quiet h -> hstep res u st = Some st' ->
  mutex st = Some u.
Proof.
  intros Hl Hh [Hq Hp] Hs. apply (Hl u h Hh).
  unfold hstep, read_event in Hs. rewrite Hh in Hs. cbn in Hs.
  destruct Hp as [Hp|Hp]; destruct (hpc h) as [| | | | | | | | [|] |]; try done.
  by rewrite Hq in Hs.
Qed.

Lemma quiet_tail (h : handler) (u : Z) pc (hs : gmap Z handler) k hk :
  queue h = [] -> (pc = Polling \/ tail_pc pc = true) ->
  (k <> u -> hs !! k = Some hk -> quiet hk) ->
  <[u := Handler (queue h) pc]> hs !! k = Some hk -> quiet hk.
Proof.
  intros Hq Hp Hk. rewrite lookup_insert. case_decide as Hd.
  - intros [= <-]. by rewrite Hq.
  - intros H. apply Hk; [congruence|done].
Qed.

Lemma handled_upd st st' s s' u h h' :
  handled st s -> handlers st !! u = Some h ->
  handlers st' = <[u := h']> (handlers st) -> vma (vs s') = vma (vs s) ->
  handled st' s'.
Proof.
  intros Hd Hh Eh Ev p k. rewrite Ev, Eh. intros Hv.
  rewrite lookup_insert. case_decide; [by eauto|by eapply Hd].
Qed.

(** A change to a handler that does not hold the mutex. *)
Lemma settled_upd st s u h e l :
  mutex st <> Some u -> settled st s ->
  settled (TSys (<[u := h]> (handlers st)) e (mutex st) l (shared st)) s.
Proof.
  unfold settled. cbn. destruct (mutex st) as [k|]; [|done].
  intros Hne (hk & Hk & Hs). exists hk. split; [|done].
  rewrite lookup_insert_ne; [done|congruence].
Qed.

Lemma other_cost_upd st st' u h :
  handlers st' = <[u := h]> (handlers st) -> mutex st' = mutex st ->
  other_cost st' u = other_cost st u.
Proof.
  intros Hh Hm. unfold other_cost, holder_cost. rewrite Hm, Hh.
  case_decide as Hd; [done|]. destruct (mutex st) as [k|]; [|done].
  rewrite lookup_insert_ne; [done|congruence].
Qed.

Lemma other_cost_own st u : mutex st = Some u -> other_cost st u = 0%nat.
Proof. intros Hm. unfold other_cost. by rewrite decide_True. Qed.

(** The handlers' steps while the application runs. *)
Lemma running_handler out s' st st' s tr seen u :
  running out s' st s tr seen -> hstep res u st = Some st' ->
  running out s' st' s tr seen /\ (holder_cost st' < holder_cost st)%nat.
Proof.
  intros [Hl Hd Ha Hr Hq Hs] Hst.
  destruct (hstep_handler _ _ _ _ Hst) as (h & _ & Hh & _).
  pose proof (quiet_holder _ _ _ _ Hl Hh (Hq u h Hh) Hst) as Hm.
  split; [|by eapply tail_step_cost].
  destruct (tail_step _ _ _ _ _ Hm Hs Hh Hst)
    as (pc & Hh' & Ha' & _ & Hs' & _ & _ & Hpc).
  split; try done.
  - by eapply hstep_lock_ok.
  - by eapply handled_upd.
  - congruence.
  - intros k hk. rewrite Hh'. apply quiet_tail; [apply (Hq u h Hh)| |eauto].
    destruct Hpc as [[-> _]|[-> _]]; auto.
Qed.

(** An access that goes through. *)
Lemma running_perform out s' st s x tr seen v sh :
  running out s' st s (x :: tr) seen ->
  is_Some (present (vs (shared st)) !! page_of (access_addr x)) ->
  perform x (shared st) = Some (v, sh) ->
  exists s1,
    running out s' (set_apps [App tr (seen ++ [v]) None] (set_shared sh st))
      s1 tr (seen ++ [v]).
Proof.
  intros [Hl Hd Ha (rest & Hr & Ho) Hq Hs] Hp Hx.
  pose proof (settled_vs _ _ Hs) as Hvs.
  destruct (perform_frame _ _ _ _ Hx) as (Hv & Hum & Henv & Hf).
  pose proof (Hf s (eq_sym Hvs)) as Hx'. rewrite Hvs in Hp.
  rewrite run_accesses_cons, run_access_present, Hx' in Hr by done.
  cbn [mbind option_bind] in Hr.
  destruct (run_accesses stack tr _) as [[vs1 s2]|] eqn:E; [|done].
  injection Hr as <- ->.
  assert (Hsh : sh = set_vs (vs sh) (shared st)).
  { destruct sh, (shared st). cbn in *. unfold set_vs. cbn. congruence. }
  exists (set_vs (vs sh) s). split; try done.
  - intros p u Hpu. apply (Hd p u). cbn in Hpu. by rewrite Hv, Hvs in Hpu.
  - exists vs1. split; [done|]. by rewrite <- app_assoc.
  - rewrite Hsh. by apply settled_frame.
Qed.

(** A fresh page of ordinary memory. *)
Lemma running_local out s' st s x tr seen :
  running out s' st s (x :: tr) seen ->
  let p := page_of (access_addr x) in
  let filled (v : vmem) := Vmem (<[p := zero_page]> (present v)) (vma v) in
  present (vs s) !! p = None -> vma (vs s) !! p = Some None ->
  running out s' (set_shared (set_vs (filled (vs (shared st))) (shared st)) st)
    (set_vs (filled (vs s)) s) (x :: tr) seen.
Proof.
  intros [Hl Hd Ha (rest & Hr & Ho) Hq Hs] p filled Hp Hv.
  split; try done.
  - exists rest. split; [|done]. rewrite run_accesses_cons in Hr |- *.
    by rewrite run_access_local in Hr.
  - rewrite (settled_vs _ _ Hs). by apply (settled_frame _ _ (filled (vs s)) (apps st)).
Qed.

(** A fault goes to the handler of its region. *)
Lemma running_fault out s' st s x tr seen u h :
  running out s' st s (x :: tr) seen ->
  present (vs s) !! page_of (access_addr x) = None ->
  vma (vs s) !! page_of (access_addr x) = Some (Some u) ->
  handlers st !! u = Some h ->
  let h' := Handler (queue h ++ [EvPagefault (access_addr x) (access_flags x)]) (hpc h) in
  let st' := set_handler u h'
    (set_apps [App (x :: tr) seen (Some (access_addr x))] st) in
  stopped out s' st' s x tr seen u h' /\
  (handler_cost h' + other_cost st' u <= 12 + holder_cost st)%nat.
Proof.
  intros [Hl Hd Ha (rest & Hr & Ho) Hq Hs] Hp Hv Hh h' st'.
  destruct (Hq u h Hh) as [Hqe Hpc].
  assert (Hs' : settled st' s).
  { unfold settled in *. cbn. destruct (mutex st) as [k|]; [|done].
    destruct Hs as (hk & Hk & Hs). destruct (decide (u = k)) as [<-|Hne].
    - rewrite lookup_insert_eq. exists h'. split; [done|]. rewrite Hh in Hk.
      by injection Hk as <-.
    - rewrite lookup_insert_ne by done. eauto. }
  split; [split|].
  - apply (lock_ok_upd st); [done| |intros; reflexivity]. by apply (Hl u h).
  - intros q k Hk. cbn. rewrite lookup_insert. case_decide; [eauto|by eapply Hd].
  - done.
  - eauto.
  - done.
  - done.
  - cbn. by rewrite lookup_insert_eq.
  - intros k hk Hne. cbn. rewrite lookup_insert_ne by done. apply Hq.
  - cbn. destruct Hpc as [Hpc|Hpc]; destruct (hpc h) as [| | | | | | | | [|] |]; done.
  - unfold carries. cbn. rewrite Hqe.
    destruct Hpc as [Hpc|Hpc]; destruct (hpc h) as [| | | | | | | | [|] |]; done.
  - unfold handler_cost. cbn. rewrite Hqe. cbn.
    assert (other_cost st' u = other_cost st u) as ->
      by exact (other_cost_upd st st' u h' eq_refl eq_refl).
    unfold other_cost. pose proof (Hl u h Hh) as Hi. case_decide as Hm.
    + rewrite (holder_cost_at st u h) by done. lia.
    + assert (hpc h = Polling) as ->.
      { destruct Hpc as [->|Hpc]; [done|].
        destruct (hpc h) as [| | | | | | | | [|] |]; cbn in *; tauto. }
      done.
Qed.

Lemma access_cost_le tr s : (access_cost tr s <= 50)%nat.
Proof. unfold access_cost. repeat case_match; lia. Qed.

Lemma running_app out s' st st' s tr seen k :
  running out s' st s tr seen -> astep k st = Some st' ->
  exists n, follows out s' n st' /\
    (n < 100 * length tr + access_cost tr s + holder_cost st)%nat.
Proof.
  intros Hrun Hst. pose proof (settled_vs _ _ (rn_settled _ _ _ _ _ _ Hrun)) as Hvs.
  unfold astep in Hst. rewrite (rn_apps _ _ _ _ _ _ Hrun) in Hst.
  destruct k as [|k]; [|done]. cbn in Hst. destruct tr as [|x tr]; [done|].
  rewrite Hvs in Hst. cbn [access_cost].
  destruct (present (vs s) !! _) as [pg|] eqn:Ep.
  - destruct (perform x (shared st)) as [[v sh]|] eqn:Ex; [|done].
    injection Hst as <-.
    destruct (running_perform _ _ _ _ _ _ _ v sh Hrun) as (s1 & H1); try done.
    { rewrite Hvs. eauto. }
    eexists. split; [eapply follows_running; [apply H1|done]|].
    pose proof (access_cost_le tr s1). unfold holder_cost. cbn [length]. cbn. lia.
  - destruct (vma (vs s) !! _) as [[u|]|] eqn:Ev; [| |done].
    + destruct (handlers st !! u) as [h|] eqn:Eh; [|done]. injection Hst as <-.
      destruct (running_fault _ _ _ _ _ _ _ _ _ Hrun Ep Ev Eh) as [H1 H2].
      eexists. split; [eapply follows_stopped; [apply H1|done]|]. lia.
    + injection Hst as <-. rewrite <- Hvs.
      pose proof (running_local _ _ _ _ _ _ _ Hrun Ep Ev) as H1. cbn in H1.
      rewrite Hvs in H1 |- *. eexists.
      split; [eapply follows_running; [apply H1|done]|].
      cbn [access_cost]. cbn. rewrite lookup_insert_eq. unfold holder_cost. cbn. lia.
Qed.

(** While the application waits, it makes no step. *)
Lemma stopped_app out s' st s x tr seen u h k :
  stopped out s' st s x tr seen u h -> astep k st = None.
Proof.
  intros Hsp. unfold astep. rewrite (sp_apps _ _ _ _ _ _ _ _ _ Hsp).
  by destruct k as [|k].
Qed.

(** In the first part of a round its thread has the mutex. *)
Lemma progress_settled st s u h :
  lock_ok st -> handlers st !! u = Some h -> progress st s u (hpc h) ->
  mutex st <> Some u -> settled st s.
Proof.
  intros Hl Hh Hp Hne. pose proof (Hl u h Hh) as Hi.
  destruct (hpc h); cbn in *; tauto.
Qed.

(** Another handler finishes its round. *)
Lemma stopped_other out s' st st' s x tr seen u h k :
  stopped out s' st s x tr seen u h -> k <> u -> hstep res k st = Some st' ->
  stopped out s' st' s x tr seen u h /\ (other_cost st' u < other_cost st u)%nat.
Proof.
  intros [Hl Hd Ha Hr Hp Hv Hh Hq Hpr Hca] Hne Hst.
  destruct (hstep_handler _ _ _ _ Hst) as (hk & _ & Hhk & _).
  pose proof (quiet_holder _ _ _ _ Hl Hhk (Hq k hk Hne Hhk) Hst) as Hm.
  assert (Hs : settled st s) by (apply (progress_settled _ _ u h); congruence || done).
  pose proof (tail_step_cost _ _ _ _ _ Hm Hs Hhk Hst) as Hc.
  destruct (tail_step _ _ _ _ _ Hm Hs Hhk Hst)
    as (pc & Hh' & Ha' & Hm' & Hs' & _ & _ & Hpc).
  assert (Hcs : in_cs (hpc h) = false).
  { destruct (in_cs (hpc h)) eqn:E; [|done]. apply (Hl u h Hh) in E. congruence. }
  split.
  - split; try done.
    + by eapply hstep_lock_ok.
    + by eapply handled_upd.
    + congruence.
    + by rewrite Hh', lookup_insert_ne.
    + intros j hj Hj. rewrite Hh'. apply quiet_tail; [apply (Hq k hk Hne Hhk)| |].
      * destruct Hpc as [[-> _]|[-> _]]; auto.
      * intros _. by apply Hq.
    + by destruct (hpc h).
    + unfold carries in *. rewrite Hm'. by destruct (hpc h).
  - unfold other_cost. destruct (decide (mutex st = Some u)); [congruence|].
    by destruct Hpc as [[-> Hn]|[-> Hn]]; destruct (decide (mutex st' = Some u));
      try congruence.
Qed.

(** A step of the handler itself that leaves the application stopped. *)
Lemma stopped_own out s' st s x tr seen u h h' m o sh :
  stopped out s' st s x tr seen u h ->
  let st' := TSys (<[u := h']> (handlers st)) m o (apps st) sh in
  lock_ok st' -> progress st' s u (hpc h') ->
  carries st' (access_addr x) (access_flags x) h' ->
  stopped out s' st' s x tr seen u h'.
Proof.
  intros [Hl Hd Ha Hr Hp Hv Hh Hq Hpr Hca] st' Hl' Hpr' Hca'. split; try done.
  - by eapply handled_upd.
  - cbn. by rewrite lookup_insert_eq.
  - intros k hk Hne. cbn. rewrite lookup_insert_ne by done. by apply Hq.
Qed.

(** The round of the fault goes through in the sequential run. *)
Lemma stopped_round out s' st s x tr seen u h :
  stopped out s' st s x tr seen u h ->
  exists s1, handle_fault res u (access_addr x) (access_flags x) s = Some (true, s1) /\
    exists rest, run_accesses stack (x :: tr) s1 = Some (rest, s') /\
                 seen ++ rest = out.
Proof.
  intros [_ _ _ (rest & Hr & Ho) Hp Hv _ _ _ _].
  rewrite run_accesses_cons, (run_access_fault _ _ u) in Hr by done.
  destruct (handle_fault _ _ _ _ _) as [[[|] s1]|]; [|done|done].
  exists s1. split; [done|]. exists rest. by rewrite run_accesses_cons.
Qed.

(** The copy wakes the application; from here on it sees the page. *)
Lemma stopped_copy out s' st st' s x tr seen u h a op :
  stopped out s' st s x tr seen u h -> hpc h = Copying a op ->
  hstep res u st = Some st' ->
  exists n, follows out s' n st' /\ (n < 100 * length (x :: tr) + 6)%nat.
Proof.
  intros Hsp Hpc Hst. pose proof (hstep_lock_ok _ _ _ _ Hst (sp_lock _ _ _ _ _ _ _ _ _ Hsp)) as Hl'.
  destruct (stopped_round _ _ _ _ _ _ _ _ _ Hsp) as (s1 & Hf & Hrun).
  destruct Hsp as [Hl Hd Ha _ Hp Hv Hh Hq Hpr Hca].
  unfold hstep in Hst. rewrite Hh in Hst. cbn in Hst. rewrite Hpc in Hst.
  rewrite Hpc in Hpr. unfold carries in Hca. rewrite Hpc in Hca.
  destruct Hca as (Hqe & -> & ->). cbn [progress] in Hpr.
  destruct (round_pieces _ _ _ _ _ _ Hf) as (s2 & s3 & s4 & sh & E1 & E2 & E3 & E4 & Er).
  rewrite run_bind, E1 in Hpr. cbn [mbind option_bind] in Hpr.
  rewrite run_bind, E2, E3 in Hpr. injection Hpr as Hsh.
  rewrite <- Hsh, E4 in Hst. cbn [mbind option_bind] in Hst.
  rewrite Ha in Hst. injection Hst as <-.
  apply handle_fault_ok in Hf as [Hvm [pg Hpg]].
  assert (Hm : mutex st = Some u) by (apply (Hl u h Hh); by rewrite Hpc).
  eexists. split; [eapply (follows_running _ _ _ _ s1 (x :: tr) seen); [|done]|].
  - split; try done.
    + by eapply handled_upd.
    + cbn. unfold wake. cbn. by rewrite decide_True.
    + intros k hk. apply quiet_tail; [done|by right|]. intros Hk. by apply Hq.
    + unfold settled. cbn. rewrite Hm, lookup_insert_eq.
      eexists. split; [done|]. done.
  - cbn [access_cost]. rewrite Hpg. unfold holder_cost. cbn. rewrite Hm.
    rewrite lookup_insert_eq. cbn. lia.
Qed.

(** Finishing the round before: the event waits in the queue. *)
Lemma stopped_tail out s' st st' s x tr seen u h :
  stopped out s' st s x tr seen u h -> tail_pc (hpc h) = true ->
  hstep res u st = Some st' ->
  exists n, follows out s' n st' /\
    (n < 100 * length (x :: tr) + handler_cost h + other_cost st u)%nat.
Proof.
  intros Hsp Ht Hst.
  pose proof Hsp as [Hl Hd Ha Hr Hp Hv Hh Hq Hpr Hca].
  assert (Hm : mutex st = Some u).
  { apply (Hl u h Hh). by destruct (hpc h) as [| | | | | | | | [|] |]. }
  assert (Hs : settled st s) by (by destruct (hpc h) as [| | | | | | | | [|] |]).
  assert (Hca' : queue h = [EvPagefault (access_addr x) (access_flags x)]).
  { unfold carries in Hca. by destruct (hpc h) as [| | | | | | | | [|] |]. }
  destruct (tail_step _ _ _ _ _ Hm Hs Hh Hst)
    as (pc & Hh' & Ha' & Hm' & Hs' & Hc & _ & Hpc).
  pose proof (hstep_lock_ok _ _ _ _ Hst Hl) as Hl'.
  destruct st' as [hs' e' o' l' sh']. cbn in *. subst hs' e' l'.
  eexists. split; [eapply follows_stopped; [|done];
    eapply (stopped_own _ _ _ _ _ _ _ _ _ (Handler (queue h) pc)); try done|].
  - destruct Hpc as [[-> _]|[-> _]]; apply Hs'.
  - unfold carries. cbn. by destruct Hpc as [[-> _]|[-> _]].
  - unfold handler_cost. cbn. rewrite (other_cost_own st) by done.
    unfold other_cost, holder_cost. cbn.
    destruct Hpc as [[-> ->]|[-> ->]]; case_decide; cbn in *; try done; lia.
Qed.

(** The steps up to the copy. *)
Lemma stopped_forward out s' st st' s x tr seen u h :
  stopped out s' st s x tr seen u h -> hstep res u st = Some st' ->
  match hpc h with
  | Polling | HasEvent | Waiting _ _ | Saving _ _ | Dropping _ _
  | Resolving _ _ =>
      exists h', stopped out s' st' s x tr seen u h' /\
        (handler_cost h' + other_cost st' u < handler_cost h + other_cost st u)%nat
  | _ => True
  end.
Proof.
  intros Hsp Hst.
  pose proof (hstep_lock_ok _ _ _ _ Hst (sp_lock _ _ _ _ _ _ _ _ _ Hsp)) as Hl'.
  pose proof Hsp as [Hl Hd Ha Hr Hp Hv Hh Hq Hpr Hca].
  pose proof (Hl u h Hh) as Hi.
  unfold hstep, read_event, run_piece in Hst. rewrite Hh in Hst. cbn in Hst.
  unfold carries in Hca. destruct h as [q pc]. cbn in Hst, Hca, Hpr, Hi |- *.
  assert (Hown : forall h', handlers st' = <[u := h']> (handlers st) ->
    apps st' = apps st -> progress st' s u (hpc h') ->
    carries st' (access_addr x) (access_flags x) h' ->
    stopped out s' st' s x tr seen u h').
  { intros h' E1 E2. destruct st' as [hs' e' o' l' sh']. cbn in E1, E2. subst.
    by eapply stopped_own. }
  destruct pc; cbn in Hi; try done.
  - (* reads its event *)
    subst q. injection Hst as <-. eexists. split; [apply Hown; try done|].
    + apply settled_upd; [intuition congruence|done].
    + erewrite (other_cost_upd st) by done. cbn. lia.
  - (* takes it over *)
    destruct Hca as [-> Hmsg]. injection Hst as <-.
    unfold take_event in Hown |- *. rewrite Hmsg in Hown |- *.
    eexists. split; [apply Hown; try done|].
    + apply settled_upd; [intuition congruence|done].
    + erewrite (other_cost_upd st) by done. cbn. lia.
  - (* gets the mutex *)
    destruct Hca as (-> & -> & ->). cbn in Hpr. unfold settled in Hpr.
    destruct (mutex st) eqn:Hm; [done|]. injection Hst as <-.
    eexists. split; [by apply Hown|].
    rewrite other_cost_own by done. cbn. lia.
  - destruct Hca as (-> & -> & ->). cbn in Hpr. rewrite Hpr in Hst.
    destruct (save_prev _ _ _) as [[[] s1]|] eqn:E; [|done]. injection Hst as <-.
    eexists. split; [by apply Hown|].
    rewrite other_cost_own by (cbn; tauto). cbn. lia.
  - destruct Hca as (-> & -> & ->).
    destruct (drop_prev _ _) as [[[] s1]|] eqn:E; [|done]. injection Hst as <-.
    eexists. split; [apply Hown; try done|].
    + cbn in Hpr |- *. by rewrite run_bind, Hpr.
    + rewrite other_cost_own by (cbn; tauto). cbn. lia.
  - destruct Hca as (-> & -> & ->).
    destruct (resolve_fault _ _ _ _ _) as [[[] s1]|] eqn:E; [|done].
    injection Hst as <-. eexists. split; [apply Hown; try done|].
    + cbn [hpc progress] in Hpr |- *. rewrite run_bind in Hpr. rewrite run_bind.
      destruct (save_prev _ _ _) as [[[] s2]|]; [|done].
      cbn [mbind option_bind] in Hpr |- *. by rewrite run_bind, Hpr.
    + rewrite other_cost_own by (cbn; tauto). cbn. lia.
Qed.

Lemma stopped_step out s' st st' s x tr seen u h :
  stopped out s' st s x tr seen u h -> hstep res u st = Some st' ->
  exists n, follows out s' n st' /\
    (n < 100 * length (x :: tr) + handler_cost h + other_cost st u)%nat.
Proof.
  intros Hsp Hst. pose proof (stopped_forward _ _ _ _ _ _ _ _ _ _ Hsp Hst) as Hf.
  assert (Hgo : (exists h', stopped out s' st' s x tr seen u h' /\
        (handler_cost h' + other_cost st' u < handler_cost h + other_cost st u)%nat) ->
    exists n, follows out s' n st' /\
      (n < 100 * length (x :: tr) + handler_cost h + other_cost st u)%nat).
  { intros (h' & H1 & H2). eexists. split; [by eapply follows_stopped|]. lia. }
  pose proof (sp_carries _ _ _ _ _ _ _ _ _ Hsp) as Hca. unfold carries in Hca.
  destruct (hpc h) as [| | | | | | a op | | [|] |] eqn:Hpc; auto; try done.
  - destruct (stopped_copy _ _ _ _ _ _ _ _ _ _ _ _ Hsp Hpc Hst) as (n & Hn & Hlt).
    exists n. split; [done|]. unfold handler_cost. rewrite Hpc. cbn [pc_cost]. lia.
  - eapply stopped_tail; try done. by rewrite Hpc.
  - eapply stopped_tail; try done. by rewrite Hpc.
Qed.

Lemma follows_step out s' n st l st' :
  follows out s' n st -> tstep res l st = Some st' ->
  exists n', (n' < n)%nat /\ follows out s' n' st'.
Proof.
  intros Hf Hst. destruct Hf as [s tr seen Hrun ->|s x tr seen u h Hsp ->];
    destruct l as [k|k]; cbn in Hst.
  - destruct (running_handler _ _ _ _ _ _ _ _ Hrun Hst) as [H1 H2].
    eexists. split; [|by eapply follows_running]. lia.
  - destruct (running_app _ _ _ _ _ _ _ _ Hrun Hst) as (n & H1 & H2). eauto.
  - destruct (decide (k = u)) as [->|Hne].
    + destruct (stopped_step _ _ _ _ _ _ _ _ _ _ Hsp Hst) as (n & H1 & H2). eauto.
    + destruct (stopped_other _ _ _ _ _ _ _ _ _ _ _ Hsp Hne Hst) as [H1 H2].
      eexists. split; [|by eapply follows_stopped]. lia.
  - by rewrite (stopped_app _ _ _ _ _ _ _ _ _ _ Hsp) in Hst.
Qed.

(** ** Someone can always move *)
Lemma running_can out s' st s tr seen :
  running out s' st s tr seen ->
  finished out s' st \/ exists l st', tstep res l st = Some st'.
Proof.
  intros [Hl Hd Ha (rest & Hr & Ho) Hq Hs].
  pose proof (settled_vs _ _ Hs) as Hvs. destruct tr as [|x tr].
  - destruct (mutex st) as [k|] eqn:Hm.
    + right. exists (H k). by eapply tail_can.
    + left. injection Hr as <- <-. rewrite app_nil_r in Ho. subst seen.
      unfold settled in Hs. rewrite Hm in Hs. done.
  - right. exists (A 0). cbn. unfold astep. rewrite Ha. cbn. rewrite Hvs.
    rewrite run_accesses_cons in Hr.
    destruct (present (vs s) !! _) as [pg|] eqn:Ep.
    + rewrite run_access_present in Hr by eauto.
      destruct (perform x s) as [[v s1]|] eqn:Ex; [|done].
      destruct (perform_frame _ _ _ _ Ex) as (_ & _ & _ & Hf).
      rewrite (Hf (shared st)) by done. cbn. eauto.
    + destruct (vma (vs s) !! _) as [[u|]|] eqn:Ev; [|eauto|].
      * destruct (Hd _ _ Ev) as [h Hh]. rewrite Hh. cbn. eauto.
      * rewrite run_access_perform, run_bind in Hr. unfold touch in Hr.
        by rewrite run_bind, run_get, Ep, Ev in Hr.
Qed.

Lemma stopped_own_can out s' st s x tr seen u h :
  stopped out s' st s x tr seen u h -> mutex st = None \/ mutex st = Some u ->
  exists st', hstep res u st = Some st'.
Proof.
  intros Hsp Hm. destruct (stopped_round _ _ _ _ _ _ _ _ _ Hsp) as (s5 & Hf & _).
  pose proof Hsp as [Hl Hd Ha _ Hp Hv Hh Hq Hpr Hca]. pose proof (Hl u h Hh) as Hi.
  destruct (tail_pc (hpc h)) eqn:Ht.
  { eapply (tail_can _ s).
    - apply Hi. by destruct (hpc h) as [| | | | | | | | [|] |].
    - by destruct (hpc h) as [| | | | | | | | [|] |]. }
  destruct (round_pieces _ _ _ _ _ _ Hf) as (s1 & s2 & s3 & s4 & E1 & E2 & E3 & E4 & _).
  unfold hstep, read_event, run_piece. rewrite Hh. cbn. unfold carries in Hca.
  destruct (hpc h) as [| |a op|a op|a op|a op|a op|a op|[|]|]; cbn in Hi; try done.
  - rewrite Hca. eauto.
  - eauto.
  - destruct Hm as [->|Hm]; [eauto|]. by apply Hi in Hm.
  - cbn in Hpr. rewrite Hpr, E1. cbn. eauto.
  - cbn in Hpr. rewrite E1 in Hpr. injection Hpr as <-. rewrite E2. cbn. eauto.
  - destruct Hca as (_ & -> & ->). cbn [progress] in Hpr.
    rewrite run_bind, E1 in Hpr. cbn [mbind option_bind] in Hpr.
    rewrite E2 in Hpr. injection Hpr as <-. rewrite E3. cbn. eauto.
  - destruct Hca as (_ & -> & ->). cbn [progress] in Hpr.
    rewrite run_bind, E1 in Hpr. cbn [mbind option_bind] in Hpr.
    rewrite run_bind, E2, E3 in Hpr. injection Hpr as <-. rewrite E4. cbn. eauto.
Qed.

Lemma stopped_can out s' st s x tr seen u h :
  stopped out s' st s x tr seen u h -> exists l st', tstep res l st = Some st'.
Proof.
  intros Hsp. destruct (mutex st) as [k|] eqn:Hm; [destruct (decide (k = u)) as [->|Hne]|].
  - exists (H u). eapply stopped_own_can; eauto.
  - exists (H k). eapply (tail_can _ s); [done|].
    eapply (progress_settled _ _ u h); [apply Hsp|apply Hsp|apply Hsp|congruence].
  - exists (H u). eapply stopped_own_can; eauto.
Qed.

Lemma follows_can out s' n st :
  follows out s' n st ->
  finished out s' st \/ exists l st', tstep res l st = Some st'.
Proof.
  intros [s tr seen Hrun _|s x tr seen u h Hsp _].
  - by eapply running_can.
  - right. by eapply stopped_can.
Qed.

(** ** From start-up on *)
Lemma boot_handlers us progs s u :
  u ∈ us -> handlers (boot us progs s) !! u = Some (Handler [] Polling).
Proof.
  intros Hu. destruct (handlers (boot us progs s) !! u) as [h|] eqn:E.
  - by rewrite (boot_handler _ _ _ _ _ E).
  - exfalso. cbn in E. apply not_elem_of_list_to_map in E. apply E.
    rewrite <- list_fmap_compose. apply list_elem_of_fmap. by exists u.
Qed.

Lemma boot_follows us tr s out s' :
  (forall p u, vma (vs s) !! p = Some (Some u) -> u ∈ us) ->
  run_accesses stack tr s = Some (out, s') ->
  exists n, follows out s' n (boot us [tr] s).
Proof.
  intros Hus Hr. eexists. eapply (follows_running _ _ _ _ s tr []); [|done]. split.
  - apply boot_lock_ok.
  - intros p u Hp. exists (Handler [] Polling). apply boot_handlers. by eapply Hus.
  - done.
  - by exists out.
  - intros u h ->%boot_handler. split; [done|by left].
  - done.
Qed.

Lemma inevitably_runs us tr s out s' :
  (forall p u, vma (vs s) !! p = Some (Some u) -> u ∈ us) ->
  run_accesses stack tr s = Some (out, s') ->
  inevitably (tstep res) (finished out s') (boot us [tr] s).
Proof.
  intros Hus Hr. destruct (boot_follows _ _ _ _ _ Hus Hr) as [n Hn].
  eapply (inevitably_countdown _ _ (follows out s')); [apply follows_can| |done].
  intros. by eapply follows_step.
Qed.
End single.
