(* ===== verification/ThreadsProps.v ===== *)
(** * Properties of the fault handlers as threads

    What one application thread may rely on, whatever the schedule; and, with
    two of them, the two races the mutex does not prevent. *)

From S2P Require Import Prelude OS Packet Pool Server ServerRefines Vm Uffd UffdCorrect.
From S2P Require Import Client System SystemCorrect SystemProps Threads ThreadsCorrect.

(** ** One application thread *)
Section one_thread.
Context {V : VM} {HV : VMLaws V} {W : Type} {PS : PageServer W}.
Context (stack : packet) (Hstack : wf_packet stack).

(** C2.  A program of one thread whose accesses keep to the discipline (each
    inside one page of a registered region, no load of bytes that are unknown, no
    store to a page while it is in memory because of a load: [flat_accesses] gives
    a result) runs to its end under every
    schedule of the handler threads, and its loads return what ordinary memory
    would: there is no deadlock, no lost event, and no order of the handlers'
    steps that the program could notice. *)
Theorem every_schedule_runs_on_ordinary_memory us tr s f m H P out f' :
  coherent s f m H P -> (forall p u, owner f !! p = Some u -> u ∈ us) ->
  flat_accesses tr f = Some (out, f') ->
  exists s' m' P', coherent s' f' m' H P' /\
    inevitably (tstep (rmp_pagefault_resovler stack)) (finished out s')
      (boot us [tr] s).
Proof.
  intros Hc Hus Hf.
  destruct (accesses_refine stack Hstack _ _ _ _ _ _ _ _ Hc Hf)
    as (s' & m' & P' & Hr & Hc').
  exists s', m', P'. split; [done|]. apply inevitably_runs; [|done].
  intros p u Hp. eapply Hus, (co_owner _ _ _ _ _ Hc), Hp.
Qed.

(** C5.  The handlers' rounds are atomic as far as one application thread can
    tell: at any moment of any schedule it has seen a prefix of the results of
    the sequential run, and when nothing can move any more it has seen all of
    them and the shared state is that of the sequential run. *)
Theorem schedules_agree_with_the_sequential_run us tr s out s' ls st :
  (forall p u, vma (vs s) !! p = Some (Some u) -> u ∈ us) ->
  run_accesses stack tr s = Some (out, s') ->
  trun (rmp_pagefault_resovler stack) ls (boot us [tr] s) = Some st ->
  (exists a, apps st = [a] /\ seen a `prefix_of` out) /\
  ((forall l, tstep (rmp_pagefault_resovler stack) l st = None) ->
   finished out s' st).
Proof.
  intros Hus Hr Hrun.
  assert (Hst : exists n, follows stack out s' n st).
  { eapply (trun_ind _ (fun st => exists n, follows stack out s' n st));
      [|done|by apply boot_follows].
    intros l st1 st2 Hs [n Hn].
    destruct (follows_step _ _ _ _ _ _ _ Hn Hs) as (n' & _ & Hn'). eauto. }
  destruct Hst as [n Hn]. split.
  - destruct Hn as [s1 tr1 o Hrn _|s1 x tr1 o u h Hsp _].
    + destruct (rn_run _ _ _ _ _ _ _ Hrn) as (r & _ & <-).
      eexists. split; [apply Hrn|]. by exists r.
    + destruct (sp_run _ _ _ _ _ _ _ _ _ _ Hsp) as (r & _ & <-).
      eexists. split; [apply Hsp|]. by exists r.
  - intros Hstuck. destruct (follows_can _ _ _ _ _ Hn) as [|(l & st' & E)]; [done|].
    by rewrite Hstuck in E.
Qed.
End one_thread.

(** ** Any number of application threads *)
Section many_threads.
Context {V : VM} {HV : VMLaws V} {W : Type}.
Context (resolver : Z -> Z -> Z -> list byte -> prog W (list byte)).
Implicit Types st : tsys W.

(** A step of the application changes memory, or stops at a fault. *)
Lemma astep_frame k st st' :
  astep k st = Some st' ->
  um (shared st') = um (shared st) /\ env (shared st') = env (shared st) /\
  mutex st' = mutex st /\ msg st' = msg st.
Proof.
  intros Hs. unfold astep in Hs.
  destruct (apps st !! k) as [a|] eqn:E; [|done]. cbn in Hs.
  destruct (waits a); [done|]. destruct (todo a) as [|x rest]; [done|].
  destruct (present (vs (shared st)) !! _).
  - destruct (perform x (shared st)) as [[v s1]|] eqn:Ex; [|done]. injection Hs as <-.
    by destruct (perform_frame _ _ _ _ Ex) as (_ & ? & ? & _).
  - destruct (vma (vs (shared st)) !! _) as [[w|]|]; [|by injection Hs as <-|done].
    destruct (handlers st !! w); [|done]. by injection Hs as <-.
Qed.

(** C13.  Among the handlers of a process without the preloaded allocator the
    mutex works for what it guards: no two handlers are inside the critical
    section, and a handler's step that changes the manager's state, the page
    buffer, the connection or the address space is made by the holder of the
    mutex.  An application's step changes memory only, neither the rest nor
    the mutex.  The event buffer is what the mutex does not guard: a step that
    changes it is made by a handler about to poll, which does not hold the
    mutex. *)
Theorem handlers_exclude_each_other st :
  reachable resolver st ->
  (forall u v hu hv, handlers st !! u = Some hu -> handlers st !! v = Some hv ->
    in_cs (hpc hu) = true -> in_cs (hpc hv) = true -> u = v) /\
  (forall u st', hstep resolver u st = Some st' -> shared st' <> shared st ->
    mutex st = Some u) /\
  (forall k st', astep k st = Some st' ->
    um (shared st') = um (shared st) /\ env (shared st') = env (shared st) /\
    mutex st' = mutex st /\ msg st' = msg st) /\
  (forall u st', hstep resolver u st = Some st' -> msg st' <> msg st ->
    exists h, handlers st !! u = Some h /\ hpc h = Polling /\ mutex st <> Some u).
Proof.
  intros Hl%reachable_lock_ok. split_and!.
  - intros u v hu hv Hu Hv Cu%(Hl u hu Hu) Cv%(Hl v hv Hv). congruence.
  - intros u st' Hs Hne. by eapply hstep_shared.
  - intros k st'. apply astep_frame.
  - intros u st' Hs Hne. apply (hstep_msg resolver u st st' Hs) in Hne as (h & Hh & Hp).
    exists h. split_and!; [done|done|]. intros Hm%(Hl u h Hh). by rewrite Hp in Hm.
Qed.

(** In a process with the preloaded allocator the second unlock of [malloc]
    can free the mutex while a handler is inside: the next handler in line
    then enters beside it. *)
Lemma foreign_unlock_breaks_exclusion st u v hu q a op :
  u <> v -> handlers st !! u = Some hu -> in_cs (hpc hu) = true ->
  handlers st !! v = Some (Handler q (Waiting a op)) ->
  exists st', hstep resolver v (set_mutex None st) = Some st' /\
    handlers st' !! u = Some hu /\
    handlers st' !! v = Some (Handler q (Saving a op)) /\
    in_cs (hpc hu) = true /\ in_cs (Saving a op) = true.
Proof.
  intros Hne Hu Hc Hv. eexists. split.
  - unfold hstep. cbn. by rewrite Hv.
  - cbn. rewrite lookup_insert_ne, lookup_insert_eq by done. done.
Qed.

(** *** The event buffer is read outside the mutex *)

(** The handler [u] is gone and a thread waits for a page only it can bring. *)
Definition abandoned u x tx ox st : Prop :=
  (exists q, handlers st !! u = Some (Handler q Exited)) /\
  apps st !! 0%nat = Some (App (x :: tx) ox (Some (access_addr x))) /\
  vma (vs (shared st)) !! page_of (access_addr x) = Some (Some u).

Lemma hstep_abandoned u x tx ox k st st' :
  hstep resolver k st = Some st' -> abandoned u x tx ox st ->
  abandoned u x tx ox st'.
Proof.
  intros Hst ((q & Hh) & Ha & Hv). unfold hstep, read_event, run_piece in Hst.
  destruct (handlers st !! k) as [h|] eqn:Ek; [|done]. cbn in Hst.
  assert (Hne : k <> u).
  { intros ->. rewrite Hh in Ek. injection Ek as <-. by cbn in Hst. }
  assert (Hkeep : forall h' m o sh, vma (vs sh) = vma (vs (shared st)) ->
    abandoned u x tx ox (TSys (<[k := h']> (handlers st)) m o (apps st) sh)).
  { intros h' m o sh Hs. split_and!; [|done|cbn; by rewrite Hs]. exists q.
    cbn. by rewrite lookup_insert_ne. }
  destruct (hpc h); cbn in Hst.
  - destruct (queue h) as [|[] ?]; try done; injection Hst as <-; by apply Hkeep.
  - injection Hst as <-. by apply Hkeep.
  - destruct (mutex st); [done|]. injection Hst as <-. by apply Hkeep.
  - destruct (save_prev _ _ _) as [[[] s1]|] eqn:E; [|done]. injection Hst as <-.
    apply Hkeep. by eapply save_prev_vma.
  - destruct (drop_prev _ _) as [[[] s1]|] eqn:E; [|done]. injection Hst as <-.
    apply Hkeep. by eapply drop_prev_vma.
  - destruct (resolve_fault _ _ _ _ _) as [[[] s1]|] eqn:E; [|done].
    injection Hst as <-. apply Hkeep. by eapply resolve_fault_vma.
  - destruct (copy_fault _ _ _) as [[c s1]|] eqn:E; [|done]. cbn in Hst.
    pose proof (copy_fault_ok _ _ _ _ _ E) as [Es _].
    destruct c; injection Hst as <-; [|by apply Hkeep].
    split_and!; [exists q; cbn; by rewrite lookup_insert_ne| |cbn; by rewrite Es].
    cbn. rewrite list_lookup_fmap, Ha. cbn. unfold wake. cbn.
    rewrite decide_False; [done|]. intros Hp.
    pose proof (copy_fault_registered _ _ _ _ E) as Hr.
    unfold page_of in *. rewrite <- Hp in Hr. congruence.
  - destruct (record_resolved _ _ _ _) as [[[] s1]|] eqn:E; [|done].
    injection Hst as <-. apply Hkeep. cbn.
    by rewrite (record_resolved_vs _ _ _ _ _ _ E).
  - injection Hst as <-. by apply Hkeep.
  - done.
Qed.

Lemma astep_abandoned u x tx ox k st st' :
  astep k st = Some st' -> abandoned u x tx ox st -> abandoned u x tx ox st'.
Proof.
  intros Hst ((q & Hh) & Ha & Hv). unfold astep in Hst.
  destruct (apps st !! k) as [a|] eqn:Ek; [|done]. cbn in Hst.
  destruct (waits a) eqn:Ew; [done|]. destruct (todo a) as [|y rest]; [done|].
  assert (Hne : k <> 0%nat).
  { intros ->. rewrite Ha in Ek. injection Ek as <-. done. }
  destruct (present (vs (shared st)) !! _).
  - destruct (perform y (shared st)) as [[v s1]|] eqn:E; [|done]. injection Hst as <-.
    apply perform_frame in E as (Ev & _). split_and!; [by exists q| |cbn; by rewrite Ev].
    cbn. by rewrite list_lookup_insert_ne.
  - destruct (vma (vs (shared st)) !! page_of (access_addr y)) as [[w|]|] eqn:Ey; [| |done].
    + destruct (handlers st !! w) as [h|] eqn:Ehw; [|done]. injection Hst as <-.
      split_and!; [|cbn; by rewrite list_lookup_insert_ne|done].
      cbn. rewrite lookup_insert. case_decide as Hd; [|by exists q].
      subst w. rewrite Hh in Ehw. injection Ehw as <-. cbn. eauto.
    + injection Hst as <-. split_and!; [by exists q|done|done].
Qed.

Lemma trun_abandoned u x tx ox ls st st' :
  trun resolver ls st = Some st' -> abandoned u x tx ox st ->
  abandoned u x tx ox st'.
Proof.
  apply (trun_ind resolver). intros [k|k] st1 st2 Hs; cbn in Hs.
  - by eapply hstep_abandoned.
  - by eapply astep_abandoned.
Qed.

(** The second handler reads its event before the first has looked at its. *)
Definition event_race (u v : Z) : list label :=
  [A 0; A 1; H u; H v; H u; H u; H u; H u; H u; H u; H u].

(** C21.  Two threads that fault in two regions at the same time can lose a
    fault for good: the handler of the first reads its event, the handler of
    the second overwrites the buffer, and the first serves the address of the
    second with its own descriptor.  The kernel refuses the copy, the handler
    leaves its loop, and no continuation ever wakes the first thread. *)
Theorem event_race_hangs_the_application st s1 u v x y tx ty ox oy :
  u <> v ->
  handlers st !! u = Some (Handler [] Polling) ->
  handlers st !! v = Some (Handler [] Polling) ->
  mutex st = None -> apps st = [App (x :: tx) ox None; App (y :: ty) oy None] ->
  present (vs (shared st)) !! page_of (access_addr x) = None ->
  vma (vs (shared st)) !! page_of (access_addr x) = Some (Some u) ->
  present (vs (shared st)) !! page_of (access_addr y) = None ->
  vma (vs (shared st)) !! page_of (access_addr y) = Some (Some v) ->
  access_flags y = 1 ->
  invalidate_prev_resolved_page resolver u (shared st) = Some (tt, s1) ->
  is_Some (page (um s1)) ->
  exists st', trun resolver (event_race u v) st = Some st' /\
    forall ls st'', trun resolver ls st' = Some st'' ->
      apps st'' !! 0%nat = Some (App (x :: tx) ox (Some (access_addr x))).
Proof.
  intros Huv Hu Hv Hm Ha Hpx Hvx Hpy Hvy Hfy Hi Hpg.
  rewrite invalidate_pieces, run_bind in Hi.
  destruct (save_prev _ _ _) as [[[] s0]|] eqn:E1; [|done].
  cbn [mbind option_bind] in Hi.
  assert (Hc : copy_fault u (access_addr y) s1 = Some (false, s1)).
  { apply copy_fault_refused; [done|].
    rewrite (drop_prev_vma _ _ _ _ Hi), (save_prev_vma _ _ _ _ _ E1), Hvy. congruence. }
  assert (Hr : resolve_fault resolver u (access_addr y)
    (Z.land (access_flags y) UFFD_PAGEFAULT_FLAG_WRITE) s1 = Some (tt, s1))
    by (by rewrite Hfy).
  eexists. split.
  - eapply trun_cons; [eapply (step_fault _ 0); [by rewrite Ha|done..]|].
    eapply trun_cons; [eapply (step_fault _ 1); cbn; [by rewrite Ha|done|done|]|].
    { by rewrite lookup_insert_ne. }
    eapply trun_cons; [eapply step_read; cbn|].
    { by rewrite lookup_insert_ne, lookup_insert_eq. }
    eapply trun_cons; [eapply step_read; cbn|].
    { by rewrite lookup_insert_ne, lookup_insert_eq. }
    eapply trun_cons; [eapply step_take; cbn|].
    { by rewrite lookup_insert_ne, lookup_insert_eq. }
    { done. }
    eapply trun_cons; [eapply step_lock; cbn; [apply lookup_insert_eq|done]|].
    eapply trun_cons; [eapply step_save; cbn; [apply lookup_insert_eq|done]|].
    eapply trun_cons; [eapply step_drop; cbn; [apply lookup_insert_eq|done]|].
    eapply trun_cons; [eapply step_resolve; cbn; [apply lookup_insert_eq|done]|].
    eapply trun_cons; [eapply step_refused; cbn; [apply lookup_insert_eq|done]|].
    eapply trun_cons; [eapply step_leave; cbn; apply lookup_insert_eq|].
    reflexivity.
  - intros ls st'' Hls. eapply (trun_abandoned u x tx ox) in Hls; [apply Hls|].
    split_and!.
    + eexists. cbn. by rewrite lookup_insert_eq.
    + cbn. by rewrite Ha.
    + cbn. by rewrite (drop_prev_vma _ _ _ _ Hi), (save_prev_vma _ _ _ _ _ E1).
Qed.

(** *** The application writes while a page is written back *)

(** C24.  A store by another thread of the application to the page that is
    being evicted, between its write-back and its removal, goes through and
    leaves no trace: the state is the one without the store. *)
Theorem store_during_write_back_is_lost st u q a op m pa o start k addr bs rest out pg :
  handlers st !! u = Some (Handler q (Dropping a op)) ->
  maps (um (shared st)) = Live m ->
  uffd_prev_resolved_addr m !! u = Some pa ->
  uffd_prev_resolved_op m !! u = Some o ->
  uffd_start_addr_map m !! u = Some start ->
  present (vs (shared st)) !! page_of pa = Some pg -> length pg = page_len ->
  page_of addr = page_of pa -> in_page addr (length bs) = true ->
  apps st !! k = Some (App (Store addr bs :: rest) out None) ->
  exists st1 st2,
    trun resolver [H u] st = Some st1 /\ trun resolver [A k; H u] st = Some st2 /\
    shared st2 = shared st1 /\ apps st2 !! k = Some (App rest (out ++ [[]]) None).
Proof.
  intros Hh Hm Ha Ho Hs Hp Hl Hpa Hin Hk. apply bool_decide_eq_true in Hin.
  assert (Hd : forall s : ust W, maps (um s) = Live m -> drop_prev u s =
    Some (tt, Ust (um s) (Vmem (delete (page_of pa) (present (vs s))) (vma (vs s)))
                (env s))).
  { intros s Es. unfold drop_prev. rewrite run_bind, (get_maps_run s m) by done.
    cbn [mbind option_bind]. rewrite Ha, Ho, Hs. unfold modify, set_vs.
    rewrite madvise_page by apply PGROUNDDOWN_mod. by rewrite PGROUNDDOWN_div. }
  assert (Hx : perform (Store addr bs) (shared st) = Some ([], set_vs (Vmem
    (<[page_of pa := overlay_at (offset_in addr) bs pg]> (present (vs (shared st))))
    (vma (vs (shared st)))) (shared st))).
  { cbn. rewrite run_bind. unfold try_put.
    rewrite (store_in_page _ pg) by (rewrite ?Hpa; done). by rewrite Hpa. }
  eexists _, _. split_and!.
  - eapply trun_cons; [|done]. eapply step_drop; [done|by apply Hd].
  - eapply trun_cons; [eapply step_perform; [done| |done]|].
    { cbn [access_addr]. rewrite Hpa. eauto. }
    eapply trun_cons; [eapply step_drop; [done|by apply Hd]|]. done.
  - cbn. by rewrite delete_insert_eq.
  - cbn. apply list_lookup_insert_eq. by eapply lookup_lt_Some.
Qed.

End many_threads.

(** ** Concrete instances *)

Lemma demo_owned p u : owner demo_flat !! p = Some u -> u ∈ [5].
Proof.
  change (owner demo_flat) with (set_range 16 2 5 ∅).
  rewrite lookup_set_range, lookup_empty. case_decide; [|done].
  intros [= <-]. by apply list_elem_of_singleton.
Qed.

Lemma every_schedule_runs_on_ordinary_memory_witness :
  exists s' m' P',
    coherent s' demo_flat' m' (insert_new 65536 0 ∅) P' /\
    inevitably (tstep (rmp_pagefault_resovler demo_stack))
      (finished [[]; [x02]; []; [x01; x02]] s') (boot [5] [demo_trace] demo_sys).
Proof.
  apply (every_schedule_runs_on_ordinary_memory demo_stack demo_stack_wf [5] demo_trace
           demo_sys demo_flat _ _ _ _ demo_flat' demo_coherent demo_owned demo_trace_flat).
Defined.

(** The first access of the demo: fault, round, access. *)
Definition demo_schedule : list label :=
  [A 0; H 5; H 5; H 5; H 5; H 5; H 5; H 5; A 0; H 5; H 5].

Definition two_maps : uffd_maps :=
  UffdMaps ∅ ∅ {[5 := 65536; 6 := 131072]} ∅ ∅.

Definition two_regions : ust unit :=
  Ust (Uffdman true (Live two_maps) true (Some zero_page) [])
    (Vmem ∅ {[16 := Some 5; 32 := Some 6]}) tt.

Definition echo : Z -> Z -> Z -> list byte -> prog unit (list byte) :=
  fun _ _ _ pg w => Some (pg, w).

Definition two_threads : tsys unit :=
  boot [5; 6] [[Store 65536 [x01]]; [Store 131072 [x02]]] two_regions.

Lemma event_race_hangs_the_application_witness :
  exists st', trun echo (event_race 5 6) two_threads = Some st' /\
    forall ls st'', trun echo ls st' = Some st'' ->
      apps st'' !! 0%nat = Some (App [Store 65536 [x01]] [] (Some 65536)).
Proof.
  apply (event_race_hangs_the_application echo two_threads two_regions 5 6
           (Store 65536 [x01]) (Store 131072 [x02]) [] [] [] []);
    [done|reflexivity..|by eexists].
Defined.

Lemma handlers_exclude_each_other_witness :
  exists st, trun echo (event_race 5 6) two_threads = Some st /\
    ((forall u v hu hv, handlers st !! u = Some hu -> handlers st !! v = Some hv ->
      in_cs (hpc hu) = true -> in_cs (hpc hv) = true -> u = v) /\
    (forall u st', hstep echo u st = Some st' -> shared st' <> shared st ->
      mutex st = Some u) /\
    (forall k st', astep k st = Some st' ->
      um (shared st') = um (shared st) /\ env (shared st') = env (shared st) /\
      mutex st' = mutex st /\ msg st' = msg st) /\
    (forall u st', hstep echo u st = Some st' -> msg st' <> msg st ->
      exists h, handlers st !! u = Some h /\ hpc h = Polling /\ mutex st <> Some u)).
Proof.
  destruct (trun echo (event_race 5 6) two_threads) as [st|] eqn:E.
  - exists st. split; [done|]. apply (handlers_exclude_each_other echo).
    by exists [5; 6], [[Store 65536 [x01]]; [Store 131072 [x02]]], two_regions, (event_race 5 6).
  - exfalso. revert E. vm_compute. discriminate.
Defined.

Lemma schedules_agree_with_the_sequential_run_witness :
  exists out s' st,
    trun (rmp_pagefault_resovler demo_stack) demo_schedule
      (boot [5] [demo_trace] demo_sys) = Some st /\
    (exists a, apps st = [a] /\ seen a `prefix_of` out) /\
    ((forall l, tstep (rmp_pagefault_resovler demo_stack) l st = None) ->
     finished out s' st).
Proof.
  destruct (accesses_refine demo_stack demo_stack_wf demo_trace demo_sys demo_flat _ _ _
              _ demo_flat' demo_coherent demo_trace_flat) as (s' & m' & P' & Hr & _).
  destruct (trun (rmp_pagefault_resovler demo_stack) demo_schedule
              (boot [5] [demo_trace] demo_sys)) as [st|] eqn:E.
  - exists [[]; [x02]; []; [x01; x02]], s', st. split; [done|].
    apply (schedules_agree_with_the_sequential_run demo_stack [5] demo_trace demo_sys _ s'
             demo_schedule st); [|done|done].
    intros p u Hp. eapply demo_owned, (co_owner _ _ _ _ _ demo_coherent), Hp.
  - exfalso. revert E. vm_compute. discriminate.
Defined.

(** Page 16 is dirty and being evicted; the second thread writes to it. *)
Definition evicting : tsys unit :=
  TSys {[5 := Handler [] (Dropping 69632 1)]} EvOther (Some 5)
    [App [Store 69632 [x01]] [] (Some 69632); App [Store 65536 [x07]] [] None]
    (Ust (Uffdman true (Live (UffdMaps ∅ ∅ {[5 := 65536]} {[5 := 65536]} {[5 := 1]}))
            true (Some zero_page) [])
       (Vmem {[16 := zero_page]} {[16 := Some 5; 17 := Some 5]}) tt).

Lemma store_during_write_back_is_lost_witness :
  exists st1 st2,
    trun echo [H 5] evicting = Some st1 /\ trun echo [A 1; H 5] evicting = Some st2 /\
    shared st2 = shared st1 /\ apps st2 !! 1%nat = Some (App [] [[]] None).
Proof.
  apply (store_during_write_back_is_lost echo evicting 5 [] 69632 1
           (UffdMaps ∅ ∅ {[5 := 65536]} {[5 := 65536]} {[5 := 1]}) 65536 1 65536 1
           65536 [x07] [] [] zero_page); reflexivity.
Defined.
