(* ===== verification/Livelock.v ===== *)
(** * Accesses that are never done

    Off-by-one invalidation keeps at most one page of a region in memory.  The
    hardware restarts an instruction until every byte it touches is there: an
    access within a page is done at the second try, an access across a page
    boundary never.  Two threads on two pages of one region can do to each
    other what the second one does to itself. *)

From S2P Require Import Prelude OS Packet Pool Server ServerRefines Vm Uffd UffdCorrect.
From S2P Require Import Client System SystemCorrect SystemProps Threads ThreadsCorrect.
From S2P Require Import ThreadsProps.

(** ** An instruction and its restarts *)
Definition access_len (x : access) : nat :=
  match x with Load _ n => n | Store _ bs => length bs end.

(** The first byte whose page is not in memory. *)
Fixpoint first_absent (M : mem) (addr : Z) (n : nat) : option Z :=
  match n with
  | O => None
  | S n =>
      match M !! page_of addr with
      | None => Some addr
      | Some _ => first_absent M (addr + 1) n
      end
  end.

Section livelock.
Context {V : VM} {HV : VMLaws V} {W : Type} {PS : PageServer W}.
Context (stack : packet) (Hstack : wf_packet stack).
Implicit Types (s : ust (client W)) (st : tsys (client W)).
#[local] Abbreviation res := (rmp_pagefault_resovler stack).

(** One try: the result, or a fault. *)
Definition attempt (x : access) : prog (ust (client W)) (option (list byte)) :=
  s ← get;
  match first_absent (present (vs s)) (access_addr x) (access_len x) with
  | None => bs ← perform x; mret (Some bs)
  | Some a => _ ← touch stack a (negb (access_flags x =? 0)); mret None
  end.

Fixpoint attempts (n : nat) (x : access) :
    prog (ust (client W)) (option (list byte)) :=
  match n with
  | O => mret None
  | S n =>
      r ← attempt x;
      match r with Some bs => mret (Some bs) | None => attempts n x end
  end.

(** *** Within a page *)
Lemma first_absent_page M addr n :
  (0 < n)%nat -> in_page addr n = true ->
  first_absent M addr n =
    match M !! page_of addr with None => Some addr | Some _ => None end.
Proof.
  intros Hn Hin%bool_decide_eq_true.
  assert (Hpg : forall k, (k <= n)%nat ->
    first_absent M (addr + Z.of_nat (n - k)) k =
      match M !! page_of addr with
      | None => match k with O => None | S _ => Some (addr + Z.of_nat (n - k)) end
      | Some _ => None
      end).
  { induction k as [|k IH]; intros Hk; cbn [first_absent]; [by destruct (M !! _)|].
    replace (page_of (addr + Z.of_nat (n - S k))) with (page_of addr).
    - destruct (M !! page_of addr); [|done].
      replace (addr + Z.of_nat (n - S k) + 1) with (addr + Z.of_nat (n - k)) by lia.
      apply IH. lia.
    - rewrite (addr_split addr) at 2. unfold page_of at 2.
      rewrite <- Z.add_assoc, page_div; [done|]. pose proof page_len_Z. mlia. }
  specialize (Hpg n). rewrite Nat.sub_diag, Z.add_0_r in Hpg. rewrite Hpg by lia.
  destruct n; [lia|done].
Qed.

Lemma flat_access_inside x f v f' :
  flat_access x f = Some (v, f') ->
  in_page (access_addr x) (access_len x) = true /\
  is_Some (owner f !! page_of (access_addr x)).
Proof.
  destruct x as [a n|a bs]; cbn; (destruct (owner f !! _) as [u|]; [|done]); cbn;
    (destruct (contents f !! _); [|done]); cbn; destruct (in_page _ _); eauto; done.
Qed.

(** An attempt on pages that are there, and one that faults. *)
Lemma attempt_done x s bs s' :
  first_absent (present (vs s)) (access_addr x) (access_len x) = None ->
  perform x s = Some (bs, s') -> attempt x s = Some (Some bs, s').
Proof.
  intros E Hx. unfold attempt. rewrite run_bind, run_get, E, run_bind, Hx. done.
Qed.

Lemma attempt_faults x s a s' :
  first_absent (present (vs s)) (access_addr x) (access_len x) = Some a ->
  touch stack a (negb (access_flags x =? 0)) s = Some (tt, s') ->
  attempt x s = Some (None, s').
Proof.
  intros E Hx. unfold attempt. rewrite run_bind, run_get, E, run_bind, Hx. done.
Qed.

(** A fault of the application brings its page in, and the regions stay. *)
Lemma touch_absent x s f m H P u a :
  coherent s f m H P -> owner f !! page_of a = Some u ->
  present (vs s) !! page_of a = None ->
  exists s' f' m' P', touch stack a (negb (access_flags x =? 0)) s = Some (tt, s') /\
    coherent s' f' m' H P' /\ owner f' = owner f /\
    is_Some (present (vs s') !! page_of a).
Proof.
  intros Hc Hu Hp. destruct (buffer_of _ _ _ _ _ _ _ Hc Hu) as (buf & Hb & _).
  set (op := if negb (access_flags x =? 0) then 1 else 0).
  assert (Hop : op = 0 \/ op = 1) by (unfold op; destruct (negb _); auto).
  destruct (fault_spec stack Hstack s f m H P u a op buf Hc Hu Hp Hop Hb)
    as (pg & w & P' & _ & E & Hc').
  eexists _, _, _, P'. split_and!; [|exact Hc'|done|].
  - eapply touch_fault; [done|by eapply owner_vma|exact E].
  - cbn. unfold page_of. rewrite lookup_insert_eq. eauto.
Qed.

(** *** Across a page boundary *)

(** At most one page of a region is in memory. *)
Lemma other_page_absent s f m H P u p q :
  coherent s f m H P -> owner f !! p = Some u -> owner f !! q = Some u -> p <> q ->
  is_Some (present (vs s) !! p) -> present (vs s) !! q = None.
Proof.
  intros Hc Hp Hq Hpq Hpp. apply eq_None_not_Some. intros Hqq.
  destruct (resident_current _ _ _ _ _ _ _ Hc Hp Hpp) as [w Hw].
  destruct (resident_current _ _ _ _ _ _ _ Hc Hq Hqq) as [w' Hw']. congruence.
Qed.
Lemma first_absent_some M n : forall addr i,
  (i < n)%nat -> M !! page_of (addr + Z.of_nat i) = None ->
  exists a, first_absent M addr n = Some a /\
    addr <= a < addr + Z.of_nat n /\ M !! page_of a = None.
Proof.
  induction n as [|n IH]; intros addr i Hi Hp; [lia|]. cbn [first_absent].
  destruct (M !! page_of addr) eqn:E; [|exists addr; split_and!; [done|lia..|done]].
  destruct i as [|i]; [rewrite Z.add_0_r in Hp; congruence|].
  destruct (IH (addr + 1) i) as (a & Ea & Ha & Hpa); [lia| |].
  - by replace (addr + 1 + Z.of_nat i) with (addr + Z.of_nat (S i)) by lia.
  - exists a. split_and!; [done|lia..|done].
Qed.

Lemma offset_in_bound a : (offset_in a < page_len)%nat.
Proof.
  unfold offset_in. pose proof (Z.mod_pos_bound a PAGE_SIZE). pose proof page_len_Z. mlia.
Qed.

(** The access begins in one page of the region [u] and ends in the next. *)
Definition crosses (f : flat) (u : Z) (x : access) : Prop :=
  let p := page_of (access_addr x) in
  owner f !! p = Some u /\ owner f !! (p + 1) = Some u /\
  (page_len < offset_in (access_addr x) + access_len x <= page_len + page_len)%nat.

(** The pages of its bytes. *)
Lemma crosses_pages f u x a :
  crosses f u x -> access_addr x <= a < access_addr x + Z.of_nat (access_len x) ->
  owner f !! page_of a = Some u.
Proof.
  intros (Hp & Hp1 & Hl) Ha. pose proof (addr_split (access_addr x)) as Hx.
  pose proof (addr_split a) as Hy. pose proof page_len_Z.
  set (p := page_of (access_addr x)) in *. set (q := page_of a) in *.
  assert (q = p \/ q = p + 1) as [-> | ->]; [|done..].
  unfold offset_in in *. pose proof (Z.mod_pos_bound a PAGE_SIZE).
  pose proof (Z.mod_pos_bound (access_addr x) PAGE_SIZE). mlia.
Qed.

(** One of its two pages is always missing. *)
Lemma crosses_absent s f m H P u x :
  coherent s f m H P -> crosses f u x ->
  exists a, first_absent (present (vs s)) (access_addr x) (access_len x) = Some a /\
    owner f !! page_of a = Some u /\ present (vs s) !! page_of a = None.
Proof.
  intros Hc Hx. pose proof Hx as (Hp & Hp1 & Hl). set (addr := access_addr x) in *.
  pose proof (offset_in_bound addr) as Hoff.
  assert (Hmiss : exists i, (i < access_len x)%nat /\
    present (vs s) !! page_of (addr + Z.of_nat i) = None).
  { destruct (present (vs s) !! page_of addr) eqn:E.
    - exists (page_len - offset_in addr)%nat.
      split; [lia|].
      replace (page_of (addr + _)) with (page_of addr + 1).
      + eapply other_page_absent; [exact Hc|exact Hp|exact Hp1|lia|by eexists].
      + rewrite (addr_split addr) at 2. unfold page_of at 2.
        rewrite <- Z.add_assoc, Nat2Z.inj_sub by lia.
        replace (Z.of_nat (offset_in addr) + _) with (1 * PAGE_SIZE)
          by (pose proof page_len_Z; lia).
        rewrite <- Z.mul_add_distr_r, Z.div_mul; mlia.
    - exists 0%nat. rewrite Z.add_0_r. split; [lia|done]. }
  destruct Hmiss as (i & Hi & Hm).
  destruct (first_absent_some _ _ _ i Hi Hm) as (a & Ea & Ha & Hpa).
  exists a. split_and!; [done|by eapply crosses_pages|done].
Qed.

Lemma crossing_attempts n x : forall s f m H P u,
  coherent s f m H P -> crosses f u x ->
  exists s' f' m' P', attempts n x s = Some (None, s') /\ coherent s' f' m' H P'.
Proof.
  induction n as [|n IH]; intros s f m H P u Hc Hx; [by exists s, f, m, P|].
  destruct (crosses_absent _ _ _ _ _ _ _ Hc Hx) as (a & Ea & Hu & Hpa).
  destruct (touch_absent x s f m H P u a Hc Hu Hpa)
    as (s1 & f1 & m1 & P1 & Et & Hc1 & Ho & _).
  destruct (IH s1 f1 m1 H P1 u Hc1) as (s2 & f2 & m2 & P2 & En & Hc2).
  { unfold crosses. by rewrite Ho. }
  exists s2, f2, m2, P2. split; [|done]. cbn [attempts].
  by rewrite run_bind, (attempt_faults _ _ _ _ Ea Et).
Qed.

(** Inside a page two tries are enough. *)
Lemma inside_attempts x s f m H P v f' :
  coherent s f m H P -> flat_access x f = Some (v, f') -> (0 < access_len x)%nat ->
  exists s' m' P', attempts 2 x s = Some (Some v, s') /\
    run_access stack x s = Some (v, s') /\ coherent s' f' m' H P'.
Proof.
  intros Hc Hx Hn. destruct (flat_access_inside _ _ _ _ Hx) as (Hin & u & Hu).
  destruct (access_refines stack Hstack _ _ _ _ _ _ _ _ Hc Hx) as (s' & m' & P' & Hr & Hc').
  exists s', m', P'. split_and!; [|done|done]. cbn [attempts].
  pose proof (first_absent_page (present (vs s)) _ _ Hn Hin) as Ha.
  destruct (present (vs s) !! page_of (access_addr x)) eqn:Ep.
  - rewrite run_access_present in Hr by eauto.
    by rewrite run_bind, (attempt_done _ _ _ _ Ha Hr).
  - destruct (touch_absent x s f m H P u _ Hc Hu Ep) as (s1 & f1 & m1 & P1 & Et & _ & _ & Hp1).
    rewrite run_bind, (attempt_faults _ _ _ _ Ha Et), run_bind.
    rewrite run_access_perform, run_bind, Et in Hr. cbn [mbind option_bind] in Hr.
    rewrite (attempt_done _ _ v s'); [done| |done].
    rewrite first_absent_page by done. by destruct Hp1 as [pg ->].
Qed.

(** C11.  An access that keeps to one page and to the discipline is done at the
    second try, with the result of the sequential run; an access across the
    boundary of two pages of a region is never done, however often the
    instruction is restarted: each fault drops the page the last one brought. *)
Theorem accesses_complete_unless_they_cross_pages s f m H P :
  coherent s f m H P ->
  (forall x v f', flat_access x f = Some (v, f') -> (0 < access_len x)%nat ->
     exists s' m' P', attempts 2 x s = Some (Some v, s') /\
       run_access stack x s = Some (v, s') /\ coherent s' f' m' H P') /\
  (forall x u n, crosses f u x ->
     exists s' f' m' P', attempts n x s = Some (None, s') /\ coherent s' f' m' H P').
Proof.
  intros Hc. split.
  - intros x v f' Hx Hn. by eapply inside_attempts.
  - intros x u n Hx. by eapply crossing_attempts.
Qed.

(** ** Two threads on one region *)

(** One step of a handler, by the lemma [L]; the state is kept in normal form. *)
Tactic Notation "h_step" uconstr(L) constr(E) :=
  eapply trun_cons;
  [eapply L; cbn; first [exact E | apply lookup_insert_eq | done]|];
  unfold set_handler, set_msg, set_mutex, set_apps, set_shared;
  cbn [handlers msg mutex apps shared queue]; rewrite ?insert_insert_eq.

(** A round of a handler is nine of its steps in a row. *)
Lemma round_run u st q a flags s' :
  handlers st !! u = Some (Handler (EvPagefault a flags :: q) Polling) ->
  mutex st = None ->
  handle_fault res u a flags (shared st) = Some (true, s') ->
  trun res (replicate 9 (H u)) st =
    Some (TSys (<[u := Handler q Polling]> (handlers st)) (EvPagefault a flags) None
            (wake a <$> apps st) s').
Proof.
  intros Hh Hm (s1 & s2 & s3 & s4 & E1 & E2 & E3 & E4 & E5)%round_pieces.
  destruct st as [hs e o l sh]. cbn in Hh, Hm, E1.
  h_step step_read Hh.
  h_step step_take Hm. h_step step_lock Hm.
  h_step step_save E1. h_step step_drop E2.
  h_step step_resolve E3. h_step step_copy E4.
  h_step step_record E5. h_step step_unlock Logic.I. done.
Qed.

Lemma trun_app ls ls' st st1 st2 :
  trun res ls st = Some st1 -> trun res ls' st1 = Some st2 ->
  trun res (ls ++ ls') st = Some st2.
Proof.
  revert st. induction ls as [|l ls IH]; cbn; intros st; [by intros [= ->]|].
  destruct (tstep res l st) as [st0|]; [|done]. apply IH.
Qed.

(** A thread tries an access, the page is missing, and the handler brings it. *)
Definition turn (k : nat) (u : Z) : list label := A k :: replicate 9 (H u).

Lemma turn_run k u st f m H P x tr o :
  handlers st !! u = Some (Handler [] Polling) -> mutex st = None ->
  coherent (shared st) f m H P -> apps st !! k = Some (App (x :: tr) o None) ->
  (forall j a, apps st !! j = Some a -> waits a = None) ->
  owner f !! page_of (access_addr x) = Some u ->
  present (vs (shared st)) !! page_of (access_addr x) = None ->
  exists st' f' m' P', trun res (turn k u) st = Some st' /\
    handlers st' !! u = Some (Handler [] Polling) /\ mutex st' = None /\
    apps st' = apps st /\ coherent (shared st') f' m' H P' /\ owner f' = owner f /\
    is_Some (present (vs (shared st')) !! page_of (access_addr x)).
Proof.
  intros Hh Hm Hc Ha Hw Hu Hp.
  destruct (buffer_of _ _ _ _ _ _ _ Hc Hu) as (buf & Hb & _).
  assert (Hop : access_flags x = 0 \/ access_flags x = 1) by (destruct x; auto).
  destruct (fault_spec stack Hstack _ f m H P u _ _ buf Hc Hu Hp Hop Hb)
    as (pg & w & P' & _ & E & Hc').
  eexists _, _, _, P'. split_and!.
  - eapply trun_cons; [eapply step_fault; [done|done| |done]|].
    { by eapply owner_vma. }
    eapply round_run; cbn; [apply lookup_insert_eq|done|exact E].
  - cbn. apply lookup_insert_eq.
  - done.
  - cbn. apply list_eq. intros j. rewrite list_lookup_fmap.
    destruct (decide (k = j)) as [<-|Hj].
    + rewrite list_lookup_insert_eq by (by eapply lookup_lt_Some). rewrite Ha. cbn.
      unfold wake. cbn. by rewrite decide_True.
    + rewrite list_lookup_insert_ne by done. destruct (apps st !! j) as [b|] eqn:Eb; [|done].
      cbn. unfold wake. by rewrite (Hw j b Eb).
  - exact Hc'.
  - done.
  - cbn. unfold page_of. rewrite lookup_insert_eq. eauto.
Qed.

(** C22.  Two threads that access two pages of one region can keep each other
    from ever getting on, although both take turns for ever: each brings its
    page in and drops the other's before that thread has tried again. *)
Theorem two_threads_starve_each_other st f m H P u x y tx ty ox oy n :
  handlers st !! u = Some (Handler [] Polling) -> mutex st = None ->
  coherent (shared st) f m H P ->
  apps st = [App (x :: tx) ox None; App (y :: ty) oy None] ->
  owner f !! page_of (access_addr x) = Some u ->
  owner f !! page_of (access_addr y) = Some u ->
  page_of (access_addr x) <> page_of (access_addr y) ->
  present (vs (shared st)) !! page_of (access_addr x) = None ->
  exists st', trun res (concat (replicate n (turn 0 u ++ turn 1 u))) st = Some st' /\
    apps st' = apps st.
Proof.
  revert st f m P. induction n as [|n IH]; intros st f m P Hh Hm Hc Ha Hx Hy Hne Hp.
  { by exists st. }
  assert (Hw : forall j a, apps st !! j = Some a -> waits a = None).
  { rewrite Ha. intros [|[|j]] a; cbn; [by intros [= <-]..|by destruct j]. }
  destruct (turn_run 0 u st f m H P x tx ox Hh Hm Hc) as
    (st1 & f1 & m1 & P1 & E1 & Hh1 & Hm1 & Ha1 & Hc1 & Ho1 & Hp1); try done.
  { by rewrite Ha. }
  destruct (turn_run 1 u st1 f1 m1 H P1 y ty oy Hh1 Hm1 Hc1) as
    (st2 & f2 & m2 & P2 & E2 & Hh2 & Hm2 & Ha2 & Hc2 & Ho2 & Hp2).
  { by rewrite Ha1, Ha. }
  { by rewrite Ha1. }
  { by rewrite Ho1. }
  { eapply (other_page_absent _ f1); [exact Hc1|rewrite Ho1; exact Hx|rewrite Ho1; exact Hy|done|done]. }
  destruct (IH st2 f2 m2 P2 Hh2 Hm2 Hc2) as (st3 & E3 & Ha3);
    rewrite ?Ho2, ?Ho1; try done.
  { by rewrite Ha2, Ha1, Ha. }
  { eapply (other_page_absent _ f2);
      [exact Hc2|rewrite Ho2, Ho1; exact Hy|rewrite Ho2, Ho1; exact Hx|done|done]. }
  exists st3. split; [|by rewrite Ha3, Ha2, Ha1].
  cbn [replicate concat]. eapply trun_app; [|exact E3]. by eapply trun_app.
Qed.
End livelock.

(** ** Concrete instances: the two pages of the demo region *)
Lemma demo_first_load :
  flat_access (Load 65536 1) demo_flat = Some ([x00], demo_loaded).
Proof. vm_compute. reflexivity. Qed.

Lemma demo_crossing : crosses demo_flat 5 (Load 69630 4).
Proof.
  split; [reflexivity|split; [reflexivity|]]. pose proof page_len_Z.
  change (offset_in (access_addr (Load 69630 4))) with 4094%nat. cbn. mlia.
Qed.

Lemma accesses_complete_unless_they_cross_pages_witness :
  (exists s', attempts demo_stack 2 (Load 65536 1) demo_sys = Some (Some [x00], s')) /\
  (forall n, exists s', attempts demo_stack n (Load 69630 4) demo_sys = Some (None, s')).
Proof.
  destruct (accesses_complete_unless_they_cross_pages demo_stack demo_stack_wf
              demo_sys demo_flat _ _ _ demo_coherent) as [Hin Hout].
  split.
  - destruct (Hin _ _ _ demo_first_load (le_n 1)) as (s' & _ & _ & Hs & _). by exists s'.
  - intros n. destruct (Hout _ 5 n demo_crossing) as (s' & _ & _ & _ & Hs & _). by exists s'.
Defined.

Lemma two_threads_starve_each_other_witness :
  exists st',
    trun (rmp_pagefault_resovler demo_stack) (concat (replicate 1000 (turn 0 5 ++ turn 1 5)))
      (boot [5] [[Load 65536 1]; [Store 69632 [x01]]] demo_sys) = Some st' /\
    apps st' = [App [Load 65536 1] [] None; App [Store 69632 [x01]] [] None].
Proof.
  eapply (two_threads_starve_each_other demo_stack demo_stack_wf
    (boot [5] [[Load 65536 1]; [Store 69632 [x01]]] demo_sys) demo_flat _ _ _ 5
    (Load 65536 1) (Store 69632 [x01]) [] [] [] [] 1000);
    [reflexivity|reflexivity|exact demo_coherent|reflexivity..|done|reflexivity].
Defined.
