(* ===== verification/Preload.v ===== *)
(** * The preloaded allocator: preloadlib.cpp

    [malloc] and [free] of the LD_PRELOAD library: the globals, the lazy
    hooking of the C library and the lazy connection, the choice between the C
    library's allocator and remote memory, the page count computed in [float],
    and the mutex it shares with the fault handlers.

    [malloc] unlocks that mutex itself and then lets its [lock_guard] unlock it
    again.  To unlock a [std::mutex] one does not hold is undefined; the C
    library's normal mutex frees it, whoever holds it.  The development has
    both readings: the parameter [lenient] says whether such an unlock goes
    through, and without it the program has no behaviour from there on. *)

From S2P Require Import Prelude OS Packet Pool Vm Uffd UffdCorrect Client System.
From S2P Require Import FloatInt.

(** ** The page count *)

(** [ceil((float)size / (float)PAGE_SIZE)]: dividing a [float] by a power of
    two is exact. *)
Definition malloc_npages (size : Z) : Z :=
  (to_float size + (PAGE_SIZE - 1)) / PAGE_SIZE.

(** ** State *)
Record preload (H W : Type) := Preload {
  stdlib_malloc : bool;         (* the C library's functions were found *)
  do_local_allocation : bool;
  rmp_fd : Z;
  mainthread_id : Z;
  fault_handler_cr : option Z;  (* the thread that holds the mutex *)
  heap : H;                     (* the C library's heap *)
  proc : ust (client W);        (* the client library in this process *)
}.
Arguments Preload {H W}.
Arguments stdlib_malloc {H W}.
Arguments do_local_allocation {H W}.
Arguments rmp_fd {H W}.
Arguments mainthread_id {H W}.
Arguments fault_handler_cr {H W}.
Arguments heap {H W}.
Arguments proc {H W}.

(** The process as the library is loaded. *)
Definition preload_start {H W} (h : H) (v : vmem) (w : W) : preload H W :=
  Preload false false (-1) 0 None h (Ust uffdman_start v (client_start w)).

Definition set_local {H W} (b : bool) (s : preload H W) : preload H W :=
  Preload (stdlib_malloc s) b (rmp_fd s) (mainthread_id s) (fault_handler_cr s)
    (heap s) (proc s).

Definition set_hooked {H W} (b : bool) (s : preload H W) : preload H W :=
  Preload b (do_local_allocation s) (rmp_fd s) (mainthread_id s)
    (fault_handler_cr s) (heap s) (proc s).

Definition set_fd {H W} (fd : Z) (s : preload H W) : preload H W :=
  Preload (stdlib_malloc s) (do_local_allocation s) fd (mainthread_id s)
    (fault_handler_cr s) (heap s) (proc s).

Definition set_main {H W} (t : Z) (s : preload H W) : preload H W :=
  Preload (stdlib_malloc s) (do_local_allocation s) (rmp_fd s) t
    (fault_handler_cr s) (heap s) (proc s).

Definition set_mutex {H W} (o : option Z) (s : preload H W) : preload H W :=
  Preload (stdlib_malloc s) (do_local_allocation s) (rmp_fd s) (mainthread_id s)
    o (heap s) (proc s).

Definition set_heap {H W} (h : H) (s : preload H W) : preload H W :=
  Preload (stdlib_malloc s) (do_local_allocation s) (rmp_fd s) (mainthread_id s)
    (fault_handler_cr s) h (proc s).

Definition set_proc {H W} (u : ust (client W)) (s : preload H W) : preload H W :=
  Preload (stdlib_malloc s) (do_local_allocation s) (rmp_fd s) (mainthread_id s)
    (fault_handler_cr s) (heap s) u.

Section preload.
Context {V : VM} {H W : Type} {PS : PageServer W}.
(** The C library's [malloc]. *)
Context (std_malloc : Z -> H -> Z * H).
Context (stack : packet).
(** What the environment answers: whether [dlsym] finds the four functions,
    the calls of [rmp_init], and those of the registration of a region. *)
Context (dlsym_ok : bool) (conn : conn_env) (reg : reg_env).
(** Whether a thread may unlock a mutex it does not hold. *)
Context (lenient : bool).

(** [std::mutex]: a thread waits for a mutex that is held (no result), and
    an unlock frees it. *)
Definition lock (t : Z) : prog (preload H W) unit :=
  s ← get;
  match fault_handler_cr s with
  | None => put (set_mutex (Some t) s)
  | Some _ => stuck
  end.

Definition unlock (t : Z) : prog (preload H W) unit :=
  s ← get;
  if lenient || bool_decide (fault_handler_cr s = Some t)
  then put (set_mutex None s)
  else stuck.

Definition in_proc {A} (p : prog (ust (client W)) A) : prog (preload H W) A :=
  fun s => match p (proc s) with
           | Some (x, u) => Some (x, set_proc u s)
           | None => None
           end.

(** [exit(1)] when the C library cannot be hooked: no result. *)
Definition preloadlib_init : prog (preload H W) unit :=
  if dlsym_ok then modify (set_hooked true) else stuck.

(** The [lock_guard] unlocks at the end. *)
Definition rmp_conn_init (t : Z) : prog (preload H W) unit :=
  _ ← lock t;
  _ ← modify (set_local true);
  _ ← modify (set_main t);
  fd ← in_proc (rmp_init conn);
  _ ← modify (set_fd fd);
  _ ← modify (set_local false);
  unlock t.

Definition check_conn (t : Z) : prog (preload H W) bool :=
  s ← get;
  _ ← (if stdlib_malloc s then mret tt else preloadlib_init);
  s ← get;
  _ ← (if rmp_fd s =? -1 then rmp_conn_init t else mret tt);
  s ← get;
  mret (negb (rmp_fd s =? -1)).

(** [NULL] the first time, when the C library was not hooked yet. *)
Definition local_malloc (size : Z) : prog (preload H W) Z :=
  s ← get;
  if stdlib_malloc s then
    let '(p, h) := std_malloc size (heap s) in
    _ ← put (set_heap h s);
    mret p
  else
    _ ← preloadlib_init;
    mret 0.

(** The part of [malloc] up to the explicit [unlock]. *)
Definition remote_malloc (t size : Z) : prog (preload H W) Z :=
  _ ← lock t;
  _ ← modify (set_local true);
  result ← in_proc (rmp_alloc stack reg (u32 (malloc_npages size)));
  _ ← unlock t;
  mret result.

(** [malloc], called by the thread [t]; [others] is what the other threads
    do between the explicit [unlock] and the one of the [lock_guard], which
    comes when [malloc] returns. *)
Definition malloc_during (others : prog (preload H W) unit) (t size : Z) :
    prog (preload H W) Z :=
  s ← get;
  if do_local_allocation s then local_malloc size
  else
    ready ← check_conn t;
    if (ready : bool) then
      s ← get;
      if negb (t =? mainthread_id s) then local_malloc size
      else
        result ← remote_malloc t size;
        _ ← others;
        _ ← modify (set_local false);
        _ ← unlock t;
        mret result
    else mret 0.

(** Nobody else moves. *)
Definition malloc : Z -> Z -> prog (preload H W) Z := malloc_during (mret tt).

(** [free] only prints. *)
Definition free (ptr : Z) : prog (preload H W) unit := mret tt.
End preload.

(** ** The exact page count *)
Definition pages_for (size : Z) : Z := (size + (PAGE_SIZE - 1)) / PAGE_SIZE.
