(* ===== verification/PreloadProps.v ===== *)
(** * What the preloaded allocator promises

    The page counts, the first allocation of a program (which hooks the C
    library and connects), the allocations that stay local, and the mutex
    unlocked twice. *)

From S2P Require Import Prelude OS Packet Pool Vm Uffd UffdCorrect Client System.
From S2P Require Import SystemCorrect SystemStart FloatInt Preload.
From S2P Require Import Server ServerCorrect ServerRefines ServerProps SystemProps.

Lemma malloc_npages_small size :
  0 <= size <= 2 ^ 24 -> malloc_npages size = pages_for size.
Proof.
  intros Hs. unfold malloc_npages, pages_for. do 2 f_equal.
  destruct (Z.eq_dec size (2 ^ 24)) as [->|]; [done|]. apply round_small. lia.
Qed.

(** C29.  The page count [malloc] computes in [float] is the right one for every
    size up to [2^24] bytes, and for every whole number of pages up to [2^24]
    pages. *)
Theorem malloc_npages_exact size :
  0 <= size <= 2 ^ 24 \/ (exists n, size = n * PAGE_SIZE /\ 0 <= n < 2 ^ 24) ->
  malloc_npages size = pages_for size.
Proof.
  intros [Hs|(n & -> & Hn)]; [by apply malloc_npages_small|].
  unfold malloc_npages, pages_for, to_float.
  change PAGE_SIZE with (2 ^ 12). by rewrite round_scaled.
Qed.

(** C30.  Above that it can be too small: for a size one more than a power of two
    from [2^24] on, the region [malloc] asks for ends one byte before the end
    of the block. *)
Theorem malloc_npages_short k :
  24 <= k -> malloc_npages (2 ^ k + 1) * PAGE_SIZE = 2 ^ k.
Proof.
  intros Hk. unfold malloc_npages, to_float. rewrite round_pow2_succ by lia.
  assert (Hp : 2 ^ k = 2 ^ (k - 12) * PAGE_SIZE)
    by (change PAGE_SIZE with (2 ^ 12); rewrite <- Z.pow_add_r by lia; f_equal; lia).
  rewrite Hp. rewrite Z.div_add_l, Z.div_small; mlia.
Qed.

Lemma malloc_npages_covers size :
  0 <= size <= 2 ^ 24 -> size <= malloc_npages size * PAGE_SIZE.
Proof.
  intros Hs. rewrite malloc_npages_small by done. unfold pages_for.
  pose proof (Z.div_mod (size + (PAGE_SIZE - 1)) PAGE_SIZE).
  pose proof (Z.mod_pos_bound (size + (PAGE_SIZE - 1)) PAGE_SIZE). mlia.
Qed.

Section props.
Context {V : VM} {HV : VMLaws V} {H W : Type} {PS : PageServer W}.
Context (std_malloc : Z -> H -> Z * H).
Context (stack : packet) (Hstack : wf_packet stack).
Context (dlsym_ok : bool) (conn : conn_env) (reg : reg_env) (lenient : bool).
Implicit Types (s : preload H W).

(** Hooked, connected, and not inside the library. *)
Record ready (t : Z) s : Prop := {
  rd_hooked : stdlib_malloc s = true;
  rd_local : do_local_allocation s = false;
  rd_fd : rmp_fd s <> -1;
  rd_main : mainthread_id s = t;
  rd_mutex : fault_handler_cr s = None;
}.

Lemma check_conn_ready t s :
  stdlib_malloc s = true -> rmp_fd s <> -1 ->
  check_conn dlsym_ok conn lenient t s = Some (true, s).
Proof.
  intros Hh Hf. unfold check_conn. rewrite run_bind, run_get, run_bind, Hh, run_ret.
  rewrite run_bind, run_get, run_bind. destruct (Z.eqb_spec (rmp_fd s) (-1)); [done|].
  rewrite run_ret, run_bind, run_get. by destruct (Z.eqb_spec (rmp_fd s) (-1)).
Qed.

(** The state after the first check. *)
Definition connected_state (t : Z) (h : H) (v : vmem) (w : W) : preload H W :=
  Preload true false 0 t None h (initialised conn v w).

Lemma check_conn_first t h v w :
  dlsym_ok = true -> 0 <= socket_ret conn -> 0 <= connect_ret conn ->
  check_conn dlsym_ok conn lenient t (preload_start h v w)
    = Some (true, connected_state t h v w).
Proof.
  intros -> Hs Hc. unfold check_conn, rmp_conn_init, preloadlib_init, lock, unlock,
    in_proc. run_unfold. cbn -[rmp_init].
  fold (process v w). rewrite rmp_init_run by done. cbn.
  by rewrite bool_decide_true, orb_true_r.
Qed.

(** The state between the two unlocks. *)
Definition between_unlocks (u : ust (client W)) s : preload H W :=
  set_proc u (set_local true s).

Lemma remote_malloc_run t size s a u :
  fault_handler_cr s = None ->
  rmp_alloc stack reg (u32 (malloc_npages size)) (proc s) = Some (a, u) ->
  remote_malloc stack reg lenient t size s = Some (a, between_unlocks u s).
Proof.
  intros Hm E. unfold remote_malloc, lock, unlock, in_proc, between_unlocks.
  run_unfold. rewrite Hm. cbn. rewrite E. destruct s; cbn in *.
  by rewrite bool_decide_true, orb_true_r, Hm.
Qed.

(** A call that goes to remote memory, up to the second unlock. *)
Lemma malloc_during_ready others t size s a u :
  ready t s ->
  rmp_alloc stack reg (u32 (malloc_npages size)) (proc s) = Some (a, u) ->
  malloc_during std_malloc stack dlsym_ok conn reg lenient others t size s =
    (_ ← others; _ ← modify (set_local false); _ ← unlock lenient t; mret a)
      (between_unlocks u s).
Proof.
  intros [] E. unfold malloc_during. rewrite run_bind, run_get, rd_local0, run_bind.
  rewrite check_conn_ready, run_bind, run_get by done. rewrite rd_main0, Z.eqb_refl.
  cbn [negb]. by rewrite run_bind, (remote_malloc_run t size s a u) by done.
Qed.

(** The second unlock decides what the call does. *)
Lemma malloc_ready t size s a u :
  ready t s ->
  rmp_alloc stack reg (u32 (malloc_npages size)) (proc s) = Some (a, u) ->
  malloc std_malloc stack dlsym_ok conn reg lenient t size s =
    (if lenient then Some (a, set_proc u s) else None) /\ ready t (set_proc u s).
Proof.
  intros Hr E. split; [|by destruct Hr]. unfold malloc.
  rewrite (malloc_during_ready _ t size s a u) by done. unfold unlock.
  run_unfold. cbn. destruct Hr as [_ Hl _ _ Hm]. destruct s; cbn in *. subst.
  rewrite bool_decide_false by done. by destruct lenient.
Qed.

(** C28.  The first [malloc] of a program, of a size up to [2^24] bytes, hooks
    the C library, connects to the server and maps a region of remote memory
    that covers the block.  If the second unlock of the mutex goes through, it
    returns that region, and the memory the program sees is the region, all
    zeros; otherwise the call has no behaviour. *)
Theorem first_malloc t h v w P size a v1 v2 :
  dlsym_ok = true -> 0 <= socket_ret conn -> 0 <= connect_ret conn ->
  wf_mem (present v) -> (forall p u, vma v !! p <> Some (Some u)) ->
  holds w P -> 0 <= next P -> next P + 2 < 2 ^ 32 ->
  0 < size <= 2 ^ 24 ->
  granted reg (malloc_npages size) a v1 v2 (initialised conn v w) empty_maps ->
  server_grants stack (malloc_npages size) (initialised conn v w) ->
  if lenient then exists s' P',
    malloc std_malloc stack dlsym_ok conn reg lenient t size (preload_start h v w)
      = Some (a, s') /\
    ready t s' /\ size <= malloc_npages size * PAGE_SIZE /\
    coherent (proc s')
      (flat_alloc (uffd_ret reg) (a / PAGE_SIZE) (malloc_npages size) flat_empty)
      (region_maps empty_maps (thread_id reg) (uffd_ret reg) a)
      (insert_new a (next P) ∅) P'
  else
    malloc std_malloc stack dlsym_ok conn reg lenient t size (preload_start h v w)
      = None.
Proof.
  intros Hd Hs Hcn Hwf Hv Hw Hn0 Hn Hsz Hg Hsv.
  assert (Hc : coherent (initialised conn v w) flat_empty empty_maps ∅ P)
    by (apply initialised_coherent; auto; lia).
  destruct (gr_pages _ _ _ _ _ _ _ Hg) as [Hnp Hnb].
  destruct (rmp_alloc_run stack Hstack reg _ a v1 v2 _ _ _ _ ∅ P Hc Hg Hsv eq_refl)
    as (w' & E & Hw').
  destruct (malloc_ready t size (connected_state t h v w) a
    (allocated reg (malloc_npages size) a (next P) v2 w' (initialised conn v w)
       empty_maps ∅ ∅)) as [Em Hr].
  { by split. }
  { rewrite u32_small by mlia. exact E. }
  assert (Efirst :
    malloc std_malloc stack dlsym_ok conn reg lenient t size (preload_start h v w)
    = malloc std_malloc stack dlsym_ok conn reg lenient t size (connected_state t h v w)).
  { unfold malloc, malloc_during. rewrite !(run_bind get), !run_get.
    cbn [do_local_allocation preload_start connected_state].
    rewrite !(run_bind (check_conn _ _ _ _)), check_conn_first by done.
    by rewrite check_conn_ready. }
  rewrite Efirst, Em. destruct lenient; [|done].
  eexists _, _. split_and!; [done|done|apply malloc_npages_covers; lia|].
  by eapply allocated_coherent.
Qed.

(** Allocations that do not go to remote memory: those the library makes
    itself ([do_local_allocation] is set around them) and those of any thread
    but the first come from the C library, and leave the client alone. *)
Theorem local_mallocs t size s p h :
  stdlib_malloc s = true ->
  do_local_allocation s = true \/ (rmp_fd s <> -1 /\ mainthread_id s <> t) ->
  std_malloc size (heap s) = (p, h) ->
  malloc std_malloc stack dlsym_ok conn reg lenient t size s = Some (p, set_heap h s).
Proof.
  intros Hh Hl E. unfold malloc, malloc_during. rewrite run_bind, run_get.
  assert (Elocal : local_malloc std_malloc dlsym_ok size s = Some (p, set_heap h s)).
  { unfold local_malloc. by rewrite run_bind, run_get, Hh, E. }
  destruct (do_local_allocation s); [done|].
  destruct Hl as [|[Hfd Ht]]; [done|].
  rewrite run_bind, check_conn_ready, run_bind, run_get by done.
  destruct (Z.eqb_spec t (mainthread_id s)); [congruence|]. done.
Qed.

(** C31.  [malloc] unlocks [fault_handler_cr] twice, once itself and once by
    its [lock_guard].  When a fault handler [t'] takes the mutex in between,
    the second unlock takes it away from the handler: [malloc] returns with
    the mutex free although [t'] has not unlocked it, and a third thread enters
    beside [t'].  Where a mutex may only be unlocked by its owner, the call
    has no behaviour at all. *)
Theorem malloc_unlocks_the_handlers_mutex t t' t'' size s a u :
  ready t s -> t <> t' ->
  rmp_alloc stack reg (u32 (malloc_npages size)) (proc s) = Some (a, u) ->
  if lenient then
    exists s2 s3,
      (_ ← remote_malloc stack reg lenient t size; lock t') s = Some (tt, s2) /\
      fault_handler_cr s2 = Some t' /\
      malloc_during std_malloc stack dlsym_ok conn reg lenient (lock t') t size s
        = Some (a, s3) /\
      fault_handler_cr s3 = None /\
      lock t'' s3 = Some (tt, set_mutex (Some t'') s3)
  else
    malloc_during std_malloc stack dlsym_ok conn reg lenient (lock t') t size s = None.
Proof.
  intros Hr Ht E. rewrite (malloc_during_ready _ t size s a u) by done.
  assert (Elock : lock t' (between_unlocks u s)
    = Some (tt, set_mutex (Some t') (between_unlocks u s))).
  { unfold lock. rewrite run_bind, run_get. cbn. by rewrite (rd_mutex _ _ Hr). }
  assert (Erest : (_ ← lock t'; _ ← modify (set_local false);
                   _ ← unlock lenient t; mret a) (between_unlocks u s)
    = if lenient then Some (a, set_mutex None (set_proc u (set_local false s)))
      else None).
  { rewrite run_bind, Elock. unfold unlock. run_unfold. cbn.
    rewrite bool_decide_false by congruence. by destruct lenient, s. }
  rewrite Erest. destruct lenient eqn:El; [|done].
  exists (set_mutex (Some t') (between_unlocks u s)). eexists. split_and!; try done.
  rewrite run_bind, <- El, (remote_malloc_run t size s a u) by (done || apply Hr).
  exact Elock.
Qed.

(** When the mapping fails, [malloc] returns [MAP_FAILED], which is not
    the null pointer its callers test for (where its second unlock goes
    through). *)
Theorem failed_malloc_is_not_null t size s :
  ready t s -> lenient = true ->
  vm_mmap (vs (proc s)) (u32 (malloc_npages size) * PAGE_SIZE) = None ->
  malloc std_malloc stack dlsym_ok conn reg lenient t size s
    = Some (MAP_FAILED, set_proc (proc s) s) /\ MAP_FAILED <> 0.
Proof.
  intros Hr El Em. split; [|done].
  rewrite (proj1 (malloc_ready t size s MAP_FAILED (proc s) Hr
    ltac:(unfold rmp_alloc; by rewrite run_bind, run_get, Em))).
  by rewrite El.
Qed.
End props.

(** ** Witnesses *)
Lemma malloc_npages_exact_witness :
  malloc_npages 10000 = pages_for 10000 /\
  malloc_npages (5000000 * PAGE_SIZE) = pages_for (5000000 * PAGE_SIZE).
Proof.
  split; apply malloc_npages_exact; [left; lia|right; exists 5000000; lia].
Defined.

Lemma malloc_npages_short_witness :
  malloc_npages 16777217 * PAGE_SIZE = 16777216.
Proof. apply (malloc_npages_short 24). lia. Defined.

(** A C library that hands out addresses upwards, on demo_init's client. *)
Definition bump_malloc (size heap : Z) : Z * Z := (heap, heap + size).

Lemma first_malloc_witness :
  (exists s' P',
    malloc bump_malloc demo_stack true demo_conn demo_env true 1 5000
      (preload_start 4096 empty_vmem (new_server ∅)) = Some (65536, s') /\
    ready 1 s' /\ 5000 <= 2 * PAGE_SIZE /\
    coherent (proc s') demo_flat (region_maps empty_maps 100 5 65536)
      (insert_new 65536 0 ∅) P') /\
  malloc bump_malloc demo_stack true demo_conn demo_env false 1 5000
    (preload_start 4096 empty_vmem (new_server ∅)) = None.
Proof.
  split.
  - apply (first_malloc bump_malloc demo_stack demo_stack_wf true demo_conn demo_env
             true 1 4096 empty_vmem (new_server ∅) empty_pool 5000 65536 demo_vm demo_vm');
      [done|done|done|done|done|apply sim_empty; done|done|done|lia
      |apply demo_granted|apply demo_server_grants].
  - apply (first_malloc bump_malloc demo_stack demo_stack_wf true demo_conn demo_env
             false 1 4096 empty_vmem (new_server ∅) empty_pool 5000 65536 demo_vm demo_vm');
      [done|done|done|done|done|apply sim_empty; done|done|done|lia
      |apply demo_granted|apply demo_server_grants].
Defined.

(** Connected, by the thread 1. *)
Definition demo_preload : preload Z server := Preload true false 0 1 None 4096 demo_init.

Lemma local_mallocs_witness :
  malloc bump_malloc demo_stack true demo_conn demo_env false 2 100 demo_preload
    = Some (4096, set_heap 4196 demo_preload).
Proof. apply local_mallocs; [done|right; done|done]. Defined.

Lemma malloc_unlocks_the_handlers_mutex_witness :
  exists a s2 s3,
    (_ ← remote_malloc demo_stack demo_env true 1 5000; lock 2) demo_preload
      = Some (tt, s2) /\
    fault_handler_cr s2 = Some 2 /\
    malloc_during bump_malloc demo_stack true demo_conn demo_env true (lock 2) 1 5000
      demo_preload = Some (a, s3) /\
    fault_handler_cr s3 = None /\ lock 3 s3 = Some (tt, set_mutex (Some 3) s3).
Proof.
  destruct (rmp_alloc_run demo_stack demo_stack_wf demo_env 2 65536 demo_vm demo_vm'
    demo_init _ _ _ ∅ _ demo_init_coherent demo_granted demo_server_grants eq_refl)
    as (w & E & _).
  exists 65536.
  apply (malloc_unlocks_the_handlers_mutex bump_malloc demo_stack true demo_conn demo_env
    true 1 2 3 5000 demo_preload 65536 _ ltac:(by split) ltac:(done) E).
Defined.

(** [malloc(0)] asks for no pages, and the mapping fails. *)
Lemma failed_malloc_is_not_null_witness :
  malloc bump_malloc demo_stack true demo_conn demo_env true 1 0 demo_preload
    = Some (MAP_FAILED, set_proc (proc demo_preload) demo_preload) /\ MAP_FAILED <> 0.
Proof. apply failed_malloc_is_not_null; [by split|done|reflexivity]. Defined.
