(* ===== verification/Bench.v ===== *)
(** * The benchmarks: throughput_benchmark.cpp and latency-benchmark.cpp

    The four workloads of the benchmarks: fill an array and sum it, in order or
    in an order [rand] chooses, with [int] or [double] elements, and the check
    of the sum.  The generator is seeded with the time before each draw, so what
    [rand] returns is a function of the time: [first_rand seed] is the first
    number after [srand(seed)], [time k] what [time(NULL)] returns at the [k]-th
    draw, in seconds.  They are written against the interface [Array], the memory
    [malloc] gave them; ordinary memory is [list_array] below, remote memory is
    in RemoteBench.v.  Signed overflow and an index outside the array have no
    result.  The times they measure and print are not modelled.  The latency
    benchmark has its own [getIndexArray], and sums its [double]s into an [int]
    in the random case; its first function lacks a semicolon, so the file does
    not compile as it is: the sequential workloads are modelled as they would
    read with it. *)

From S2P Require Import Prelude FloatInt.

(** ** Arithmetic *)
(** [int] addition: overflow is undefined. *)
Definition int_add (a b : Z) : option Z := int_of (a + b).

(** [double] addition of non-negative whole numbers. *)
Definition double_add (a b : Z) : option Z := Some (to_double (a + b)).

Definition isIntSumValid (num sum : Z) : option bool :=
  prod ← int_of (num * (num - 1));
  Some (bool_decide (sum = Z.quot prod 2)).

(** The product is even, and so is what it is rounded to: halving is exact. *)
Definition isDoubleSumValid (num sum : Z) : option bool :=
  Some (bool_decide (sum = to_double (num * (num - 1)) / 2)).

(** ** Arrays *)
Definition get_at (i : Z) (p : list Z) : option Z :=
  if bool_decide (0 <= i) then p !! Z.to_nat i else None.

Definition set_at (i x : Z) (p : list Z) : option (list Z) :=
  if bool_decide (0 <= i < Z.of_nat (length p)) then Some (<[Z.to_nat i := x]> p)
  else None.

(** The array a workload fills and sums: [p[i]] and [p[i] = x]. *)
Class Array (M : Type) := {
  a_get : Z -> M -> option (Z * M);
  a_set : Z -> Z -> M -> option M;
}.

(** Ordinary memory. *)
#[export] Instance list_array : Array (list Z) := {|
  a_get i p := x ← get_at i p; Some (x, p);
  a_set := set_at;
|}.

(** [for (int i = ...; ...; i++)], [n] rounds from [i] on. *)
Fixpoint for_loop {S} (n : nat) (i : Z) (body : Z -> S -> option S) (st : S) : option S :=
  match n with
  | O => Some st
  | S n => st' ← body i st; for_loop n (i + 1) body st'
  end.

(** [getNum], called at the time [now]: [srand(time(NULL))], then [rand()]. *)
Definition getNum (first_rand : Z -> Z) (now : Z) (v : list Z) : option (Z * list Z) :=
  let n := Z.of_nat (length v) in
  if bool_decide (n = 0) then None
  else
    let index := Z.rem (first_rand now) n in
    num ← get_at index v;
    last ← get_at (n - 1) v;
    v ← set_at index last v;
    v ← set_at (n - 1) num v;
    Some (num, removelast v).

Definition getIndexArray (n : Z) : option (list Z) :=
  for_loop (Z.to_nat n) 0 (fun i v => set_at i i v) (replicate (Z.to_nat n) 0).

(** latency-benchmark.cpp: the values are 1 to [n]. *)
Definition latency_getIndexArray (n : Z) : option (list Z) :=
  for_loop (Z.to_nat n) 0 (fun i v => set_at i (i + 1) v) (replicate (Z.to_nat n) 0).

(** [double] addition into an [int] variable, of whole numbers. *)
Definition int_double_add (a b : Z) : option Z := int_of (to_double (a + b)).

Section bench.
(** The generator, the clock, and the array as [malloc] returned it. *)
Context {M : Type} {Arr : Array M} (first_rand : Z -> Z) (time : nat -> Z) (m0 : M).

(** [while (idx.size())]: the loops over the randomly drawn indices. *)
Fixpoint drain {S} (fuel k : nat) (v : list Z) (body : Z -> S -> option S) (st : S) :
    option (nat * S) :=
  match v, fuel with
  | [], _ => Some (k, st)
  | _, O => None
  | _, S fuel =>
      '(i, v') ← getNum first_rand (time k) v;
      st' ← body i st;
      drain fuel (Datatypes.S k) v' body st'
  end.

(** [n / sizeof(element)], for [int n = num * sizeof(element)]. *)
Definition n_elements (esz num : Z) : Z := ul (s32 (ul (num * esz))) / esz.

Section workload.
Context (esz : Z) (add : Z -> Z -> option Z) (check : Z -> Z -> option bool).

(** [p[i] = i] *)
Definition store_at (i : Z) (m : M) : option M := a_set i i m.

(** [sum += p[i]] *)
Definition sum_at (i : Z) (st : Z * M) : option (Z * M) :=
  '(x, m) ← a_get i st.2; sum ← add st.1 x; Some (sum, m).

Definition bench_seq (num : Z) : option bool :=
  let n := Z.to_nat (n_elements esz num) in
  m ← for_loop n 0 store_at m0;
  '(sum, _) ← for_loop n 0 sum_at (0, m);
  check num sum.

Definition bench_random (index : Z -> option (list Z)) (num : Z) : option bool :=
  idx1 ← index num;
  '(k, m) ← drain (length idx1) 0 idx1 store_at m0;
  idx2 ← index num;
  '(_, (sum, _)) ← drain (length idx2) k idx2 sum_at (0, m);
  check num sum.
End workload.

Definition bench_for_int (num : Z) : option bool :=
  bench_seq 4 int_add isIntSumValid num.

Definition bench_for_double (num : Z) : option bool :=
  bench_seq 8 double_add isDoubleSumValid num.

Definition bench_for_int_random (num : Z) : option bool :=
  bench_random int_add isIntSumValid getIndexArray num.

Definition bench_for_double_random (num : Z) : option bool :=
  bench_random double_add isDoubleSumValid getIndexArray num.

(** latency-benchmark.cpp *)
Definition latency_bench_for_int (num : Z) : option bool :=
  bench_seq 4 int_add isIntSumValid num.

Definition latency_bench_for_double (num : Z) : option bool :=
  bench_seq 8 double_add isDoubleSumValid num.

Definition latency_bench_for_int_random (num : Z) : option bool :=
  bench_random int_add isIntSumValid latency_getIndexArray num.

Definition latency_bench_for_double_random (num : Z) : option bool :=
  bench_random int_double_add isDoubleSumValid latency_getIndexArray num.
End bench.

(** The verdicts of a list of runs, each with the array [malloc] gives it; a run
    without a result ends the program.  In the two [main]s, [time j] is the
    clock of the [j]-th random run. *)
Fixpoint run_all {M} (runs : list (M -> option bool)) (ms : list M) : option (list bool) :=
  match runs, ms with
  | run :: runs, m :: ms => b ← run m; bs ← run_all runs ms; Some (b :: bs)
  | _, _ => Some []
  end.

(** throughput_benchmark.cpp: the sequential calls are commented out. *)
Definition main {M} {Arr : Array M} (first_rand : Z -> Z) (time : nat -> nat -> Z)
    (ms : list M) : option (list bool) :=
  run_all ([fun m => bench_for_int_random first_rand (time 0%nat) m 1024;
            fun m => bench_for_int_random first_rand (time 1%nat) m 10240;
            fun m => bench_for_int_random first_rand (time 2%nat) m 102400;
            fun m => bench_for_int_random first_rand (time 3%nat) m 1024000;
            fun m => bench_for_double_random first_rand (time 4%nat) m 1024;
            fun m => bench_for_double_random first_rand (time 5%nat) m 10240;
            fun m => bench_for_double_random first_rand (time 6%nat) m 102400;
            fun m => bench_for_double_random first_rand (time 7%nat) m 1024000]) ms.

Definition latency_main {M} {Arr : Array M} (first_rand : Z -> Z)
    (time : nat -> nat -> Z) (ms : list M) : option (list bool) :=
  run_all ([fun m => latency_bench_for_int m 1024;
            fun m => latency_bench_for_int m 10240;
            fun m => latency_bench_for_int m 102400;
            fun m => latency_bench_for_int m 1024000;
            fun m => latency_bench_for_double m 1024;
            fun m => latency_bench_for_double m 10240;
            fun m => latency_bench_for_double m 102400;
            fun m => latency_bench_for_double m 1024000;
            fun m => latency_bench_for_int_random first_rand (time 0%nat) m 1024;
            fun m => latency_bench_for_int_random first_rand (time 1%nat) m 10240;
            fun m => latency_bench_for_int_random first_rand (time 2%nat) m 102400;
            fun m => latency_bench_for_int_random first_rand (time 3%nat) m 1024000;
            fun m => latency_bench_for_double_random first_rand (time 4%nat) m 1024;
            fun m => latency_bench_for_double_random first_rand (time 5%nat) m 10240;
            fun m => latency_bench_for_double_random first_rand (time 6%nat) m 102400;
            fun m => latency_bench_for_double_random first_rand (time 7%nat) m 1024000]) ms.

(** ** Arrays *)
Lemma get_at_lookup (i : nat) p : get_at (Z.of_nat i) p = p !! i.
Proof. unfold get_at. rewrite bool_decide_true by lia. by rewrite Nat2Z.id. Qed.

Lemma set_at_insert (i : nat) x p :
  (i < length p)%nat -> set_at (Z.of_nat i) x p = Some (<[i := x]> p).
Proof. intros H. unfold set_at. rewrite bool_decide_true by lia. by rewrite Nat2Z.id. Qed.

(** Elements the loop has not passed are as they were, the others are [g] of
    their index. *)
Lemma fill_run (g : Z -> Z) n : forall (i : nat) p, (i + n <= length p)%nat ->
  exists p', for_loop n (Z.of_nat i) (fun i p => set_at i (g i) p) p = Some p' /\
    length p' = length p /\
    forall j : nat,
      p' !! j = if decide (i <= j < i + n)%nat then Some (g (Z.of_nat j)) else p !! j.
Proof.
  induction n as [|n IH]; intros i p Hi; cbn [for_loop].
  { exists p. split_and!; try done. intros j. by rewrite decide_False by lia. }
  rewrite set_at_insert by lia. cbn [mbind option_bind].
  replace (Z.of_nat i + 1) with (Z.of_nat (S i)) by lia.
  destruct (IH (S i) (<[i := g (Z.of_nat i)]> p)) as (p' & E & Hl & Hp);
    [rewrite length_insert; lia|].
  exists p'. rewrite length_insert in Hl. split_and!; try done. intros j. rewrite Hp.
  destruct (decide (i = j)) as [<-|].
  - rewrite decide_False, decide_True by lia. apply list_lookup_insert_eq. lia.
  - rewrite list_lookup_insert_ne by done. repeat case_decide; done || lia.
Qed.

Lemma fill_seqZ k n :
  0 <= n ->
  for_loop (Z.to_nat n) 0 (fun i v => set_at i (i + k) v) (replicate (Z.to_nat n) 0)
    = Some (seqZ k n).
Proof.
  intros Hn.
  destruct (fill_run (fun i => i + k) (Z.to_nat n) 0 (replicate (Z.to_nat n) 0))
    as (p & E & Hl & Hp); rewrite ?length_replicate in *; [lia|].
  change 0 with (Z.of_nat 0) at 1. rewrite E. f_equal. apply list_eq. intros j. rewrite Hp.
  case_decide as Hj.
  - symmetry. rewrite lookup_seqZ_lt by lia. f_equal. lia.
  - rewrite lookup_ge_None_2 by (rewrite length_replicate; lia). symmetry.
    apply lookup_ge_None_2. rewrite length_seqZ. lia.
Qed.

Lemma for_loop_ext {S} n (b b' : Z -> S -> option S) :
  (forall i st, b i st = b' i st) -> forall i st, for_loop n i b st = for_loop n i b' st.
Proof.
  intros Hb. induction n as [|n IH]; intros i st; cbn [for_loop]; [done|].
  rewrite Hb. destruct (b' i st); [|done]. apply IH.
Qed.

Lemma getIndexArray_seqZ n : 0 <= n -> getIndexArray n = Some (seqZ 0 n).
Proof.
  intros Hn. rewrite <- (fill_seqZ 0 n Hn). apply for_loop_ext. intros i st.
  by rewrite Z.add_0_r.
Qed.

(** [getNum] removes one element. *)
Lemma getNum_perm first_rand now v :
  v <> [] -> 0 <= first_rand now ->
  exists x v', getNum first_rand now v = Some (x, v') /\ v ≡ₚ x :: v'.
Proof.
  intros Hv Hr. destruct v as [|y v _] using rev_ind; [done|]. unfold getNum.
  set (r := first_rand now) in *.
  rewrite length_app. cbn [length]. rewrite bool_decide_false by lia.
  pose proof (Z.rem_bound_pos r (Z.of_nat (length v + 1)) Hr ltac:(lia)) as Hi.
  set (n := Z.rem _ _) in *. replace n with (Z.of_nat (Z.to_nat n)) by lia.
  set (i := Z.to_nat n) in *. assert (Hil : (i < length v + 1)%nat) by lia.
  replace (Z.of_nat (length v + 1) - 1) with (Z.of_nat (length v)) by lia.
  rewrite !get_at_lookup. rewrite (list_lookup_middle v [] y (length v)) by done.
  destruct (decide (i = length v)) as [Hi'|Hi'].
  - rewrite Hi', (list_lookup_middle v [] y (length v)) by done.
    cbn [mbind option_bind]. rewrite set_at_insert by (rewrite length_app; cbn; lia).
    cbn [mbind option_bind]. rewrite set_at_insert by (rewrite length_insert, length_app; cbn; lia).
    cbn [mbind option_bind]. do 2 eexists. split; [done|].
    rewrite list_insert_insert_eq.
    replace (length v) with (length v + 0)%nat at 1 by lia.
    rewrite insert_app_r. cbn. rewrite removelast_last. apply Permutation_app_comm.
  - destruct (lookup_lt_is_Some_2 v i) as [x Hx]; [lia|].
    rewrite lookup_app_l, Hx by lia. cbn [mbind option_bind].
    rewrite set_at_insert by (rewrite length_app; cbn; lia). cbn [mbind option_bind].
    rewrite set_at_insert by (rewrite length_insert, length_app; cbn; lia).
    cbn [mbind option_bind]. do 2 eexists. split; [done|].
    rewrite insert_app_l by lia.
    replace (length v) with (length (<[i := y]> v) + 0)%nat
      by (rewrite length_insert; lia).
    rewrite insert_app_r. cbn. rewrite removelast_last.
    pose proof (take_drop_middle v i x Hx) as Hsplit.
    rewrite <- Hsplit at 1. rewrite insert_take_drop by lia.
    rewrite <- !app_assoc. cbn. solve_Permutation.
Qed.
