(* ===== verification/BenchProps.v ===== *)
(** * What the benchmark checks

    A workload reports a valid sum, whatever [rand] does, when its array gives
    back what was stored in the orders the workload stores in, and the check
    itself does not overflow.  What is needed of the array is the class
    [IndexArray]; ordinary memory has it for every order. *)

From S2P Require Import Prelude FloatInt Bench.

Fixpoint run_list {S} (body : Z -> S -> option S) (l : list Z) (st : S) : option S :=
  match l with
  | [] => Some st
  | i :: l => st' ← body i st; run_list body l st'
  end.

Lemma run_list_app {S} (body : Z -> S -> option S) l l' st :
  run_list body (l ++ l') st = st' ← run_list body l st; run_list body l' st'.
Proof.
  revert st. induction l as [|i l IH]; intros st; [done|]. cbn [app run_list].
  destruct (body i st); [|done]. cbn [mbind option_bind]. apply IH.
Qed.

Definition zsum (l : list Z) : Z := foldr Z.add 0 l.

Lemma zsum_perm l l' : l ≡ₚ l' -> zsum l = zsum l'.
Proof. unfold zsum. induction 1; cbn; lia. Qed.

Lemma zsum_app l l' : zsum (l ++ l') = zsum l + zsum l'.
Proof. unfold zsum. induction l as [|x l IH]; cbn; lia. Qed.

Lemma zsum_cons x l : zsum (x :: l) = x + zsum l.
Proof. done. Qed.

Lemma zsum_nonneg l : Forall (fun i => 0 <= i) l -> 0 <= zsum l.
Proof. unfold zsum. induction 1; cbn; lia. Qed.

Lemma seqZ_snoc n : 0 <= n -> seqZ 0 (n + 1) = seqZ 0 n ++ [n].
Proof.
  intros Hn. by rewrite seqZ_app by lia.
Qed.

(** Gauss *)
Lemma zsum_seqZ n : 0 <= n -> 2 * zsum (seqZ 0 n) = n * (n - 1).
Proof.
  intros Hn. revert n Hn. apply natlike_ind; [done|]. intros n Hn IH.
  unfold Z.succ. rewrite seqZ_snoc, zsum_app, zsum_cons by done. cbn [zsum foldr]. lia.
Qed.

Section bench.
Context (first_rand : Z -> Z) (time : nat -> Z) (Hrand : forall t, 0 <= first_rand t).

(** The random order is a permutation. *)
Lemma drain_perm {S} (body : Z -> S -> option S) v : forall k st,
  exists l, l ≡ₚ v /\
    drain first_rand time (length v) k v body st =
      st' ← run_list body l st; Some (k + length v, st')%nat.
Proof.
  remember (length v) as n eqn:Hn. revert v Hn.
  induction n as [|n IH]; intros v Hn k st.
  { destruct v; [|done]. exists []. cbn. by rewrite Nat.add_0_r. }
  destruct (getNum_perm first_rand (time k) v) as (x & v' & E & Hp); [by destruct v|done|].
  assert (Hl : n = length v') by (apply Permutation_length in Hp; cbn in Hp; lia).
  destruct v as [|y v]; [done|]. cbn [drain]. rewrite E. cbn [mbind option_bind].
  destruct (body x st) as [st'|] eqn:Eb; cbn [mbind option_bind].
  - destruct (IH v' Hl (Datatypes.S k) st') as (l & Hl' & Ed). exists (x :: l).
    rewrite Ed. cbn [run_list]. rewrite Eb. cbn [mbind option_bind].
    split; [by rewrite Hp, Hl'|].
    by replace (Datatypes.S k + n)%nat with (k + Datatypes.S n)%nat by lia.
  - exists (x :: v'). cbn [run_list]. rewrite Eb. done.
Qed.
End bench.

(** A draw of the second element: the last one takes its place. *)
Lemma getNum_second first_rand now a b w c :
  first_rand now = 1 ->
  getNum first_rand now (a :: b :: w ++ [c]) = Some (b, a :: c :: w) /\
  getNum first_rand now [a; b] = Some (b, [a]) /\
  getNum first_rand now [a] = Some (a, []).
Proof.
  intros Hr. unfold getNum. rewrite Hr. split_and!; [|done|done].
  set (v := a :: b :: w ++ [c]).
  assert (Hl : length v = S (S (S (length w)))) by (cbn; rewrite length_app; cbn; lia).
  rewrite Hl, bool_decide_false, Z.rem_small by lia.
  replace (Z.of_nat (S (S (S (length w)))) - 1) with (Z.of_nat (S (S (length w)))) by lia.
  change 1 with (Z.of_nat 1). rewrite !get_at_lookup.
  assert (Hb : v !! 1%nat = Some b) by done.
  assert (Hc : v !! S (S (length w)) = Some c) by (by apply (list_lookup_middle w [])).
  rewrite Hb, Hc. cbn [mbind option_bind].
  rewrite set_at_insert by lia. cbn [mbind option_bind].
  rewrite set_at_insert by (rewrite length_insert; lia). cbn [mbind option_bind].
  assert (Hi : <[S (S (length w)) := b]> (<[1%nat := c]> v) = (a :: c :: w) ++ [b]).
  { unfold v. cbn. do 2 f_equal. pose proof (insert_app_r w [c] 0 b) as H.
    rewrite Nat.add_0_r in H. exact H. }
  by rewrite Hi, removelast_last.
Qed.

Lemma drain_cons {S} first_rand time (body : Z -> S -> option S) n k y v st :
  drain first_rand time (Datatypes.S n) k (y :: v) body st =
    '(i, v') ← getNum first_rand (time k) (y :: v);
    st' ← body i st; drain first_rand time n (Datatypes.S k) v' body st'.
Proof. done. Qed.

(** When every draw falls in a second whose seed gives 1, the order is fixed:
    the second index, the others from the last down, and the first. *)
Lemma drain_ones {S} first_rand time (body : Z -> S -> option S) w : forall a b k st,
  (forall k, first_rand (time k) = 1) ->
  drain first_rand time (length (a :: b :: w)) k (a :: b :: w) body st =
    st' ← run_list body (b :: rev w ++ [a]) st;
    Some (k + length (a :: b :: w), st')%nat.
Proof.
  induction w as [|c w IH] using rev_ind; intros a b k st Hr.
  - destruct (getNum_second first_rand (time k) a b [] b (Hr k)) as (_ & E & _).
    destruct (getNum_second first_rand (time (Datatypes.S k)) a b [] b (Hr _)) as (_ & _ & E').
    cbn [drain length run_list rev app]. rewrite E. cbn [mbind option_bind].
    destruct (body b st) as [st1|]; [|done]. cbn [mbind option_bind]. rewrite E'.
    cbn [mbind option_bind]. destruct (body a st1); [|done].
    cbn. do 2 f_equal. lia.
  - destruct (getNum_second first_rand (time k) a b w c (Hr k)) as (E & _).
    assert (Hl : length (a :: b :: w ++ [c]) = Datatypes.S (length (a :: c :: w)))
      by (cbn; rewrite length_app; cbn; lia).
    rewrite Hl, drain_cons, E, rev_unit. cbn [mbind option_bind run_list app].
    destruct (body b st) as [st1|]; [|done]. cbn [mbind option_bind].
    rewrite IH by done. cbn [run_list app].
    destruct (body c st1) as [st2|]; [|done]. cbn [mbind option_bind].
    destruct (run_list body (rev w ++ [a]) st2); [|done]. cbn. do 2 f_equal. lia.
Qed.

(** ** What a workload needs of its array

    [m0] can be filled with the indices below [num] in the orders [admits]
    holds of, and once it is, each slot reads as its index. *)
Class IndexArray {M} (Arr : Array M) (num : Z) (m0 : M) := {
  admits : list Z -> Prop;
  filled : M -> Prop;
  fill_order l : l ≡ₚ seqZ 0 num -> admits l ->
    exists m, run_list store_at l m0 = Some m /\ filled m;
  read_slot i m : filled m -> 0 <= i < num ->
    exists m', a_get i m = Some (i, m') /\ filled m';
}.

(** Addition is exact on non-negative numbers up to [B]. *)
Definition exact_below (B : Z) (add : Z -> Z -> option Z) : Prop :=
  forall a b, 0 <= a -> 0 <= b -> a + b < B -> add a b = Some (a + b).

Lemma int_add_exact : exact_below (2 ^ 31) int_add.
Proof.
  intros a b Ha Hb Hs. unfold int_add. by rewrite int_of_small by lia.
Qed.

Lemma double_add_exact : exact_below (2 ^ 53) double_add.
Proof.
  intros a b Ha Hb Hs. unfold double_add, to_double. by rewrite round_small.
Qed.

(** Summing the slots, when slot [i] reads as [g i] whatever was read before. *)
Lemma sum_list_values {M} (Arr : Array M) num (inv : M -> Prop) (g : Z -> Z) B add l :
  (forall i m, inv m -> 0 <= i < num ->
    exists m', a_get i m = Some (g i, m') /\ inv m') ->
  exact_below B add -> Forall (fun i => 0 <= i < num /\ 0 <= g i) l ->
  forall s m, inv m -> 0 <= s -> s + zsum (g <$> l) < B ->
  exists m', run_list (sum_at add) l (s, m) = Some (s + zsum (g <$> l), m').
Proof.
  intros Hread Hadd Hl. induction Hl as [|i l [Hi Hgi] Hl IH]; intros s m Hm Hs Hb;
    cbn [run_list].
  { exists m. do 2 f_equal. unfold zsum. cbn. lia. }
  rewrite fmap_cons, zsum_cons in *.
  assert (Hz : 0 <= zsum (g <$> l)).
  { apply zsum_nonneg, Forall_fmap. eapply Forall_impl; [exact Hl|]. cbn. lia. }
  destruct (Hread i m Hm Hi) as (m1 & E & Hm1).
  assert (E1 : sum_at add i (s, m) = Some (s + g i, m1)).
  { unfold sum_at. cbn [fst snd]. rewrite E. cbn [mbind option_bind].
    by rewrite Hadd by lia. }
  rewrite E1. cbn [mbind option_bind].
  destruct (IH (s + g i) m1) as [m' ->]; [done|lia|lia|].
  exists m'. do 2 f_equal. lia.
Qed.

Lemma sum_list_exact {M} (Arr : Array M) num m0 (IA : IndexArray Arr num m0) B add l :
  exact_below B add -> Forall (fun i => 0 <= i < num) l ->
  forall s m, filled m -> 0 <= s -> s + zsum l < B ->
  exists m', run_list (sum_at add) l (s, m) = Some (s + zsum l, m').
Proof.
  intros Hadd Hl s m Hm Hs Hb.
  destruct (sum_list_values Arr num filled (fun i => i) B add l read_slot Hadd) with s m
    as [m' E]; try done; rewrite ?list_fmap_id in *; eauto.
  eapply Forall_impl; [exact Hl|]. cbn. lia.
Qed.

Lemma run_list_seqZ {S} (body : Z -> S -> option S) n : forall i st,
  for_loop n i body st = run_list body (seqZ i (Z.of_nat n)) st.
Proof.
  induction n as [|n IH]; intros i st; [done|].
  rewrite seqZ_cons by lia. cbn [for_loop run_list].
  destruct (body i st); [|done]. cbn [mbind option_bind]. rewrite IH.
  do 2 f_equal; lia.
Qed.

Section workloads.
Context {M : Type} (Arr : Array M) (m0 : M).
Context (num : Z) (Hnum : 0 <= num) (IA : IndexArray Arr num m0).
Context (first_rand : Z -> Z) (time : nat -> Z) (Hrand : forall t, 0 <= first_rand t).
Context (B esz : Z) (add : Z -> Z -> option Z) (check : Z -> Z -> option bool).
Context (Hadd : exact_below B add) (HB : num * (num - 1) < B).

Let zs : list Z := seqZ 0 num.

Lemma order_sum l :
  l ≡ₚ zs -> Forall (fun i => 0 <= i < num) l /\ zsum l = num * (num - 1) / 2.
Proof.
  intros Hl. split.
  - rewrite Hl. apply Forall_forall. intros i Hi. apply elem_of_seqZ in Hi. lia.
  - rewrite (zsum_perm _ _ Hl). pose proof (zsum_seqZ num Hnum) as Hz. fold zs in Hz.
    rewrite <- Hz, Z.mul_comm, Z.div_mul by lia. done.
Qed.

(** Writing all indices in one order and summing them in another. *)
Lemma orders_run l :
  l ≡ₚ zs -> admits l ->
  exists m, run_list store_at l m0 = Some m /\
    forall l', l' ≡ₚ zs -> exists m',
      run_list (sum_at add) l' (0, m) = Some (num * (num - 1) / 2, m').
Proof.
  intros Hl Ha. destruct (fill_order l Hl Ha) as (m & E & Hm).
  exists m. split; [done|]. intros l' Hl'. destruct (order_sum l' Hl') as [Hn Hs].
  assert (Hle : num * (num - 1) / 2 <= num * (num - 1)) by (apply Z.div_le_upper_bound; nia).
  destruct (sum_list_exact Arr num m0 IA B add l' Hadd Hn 0 m Hm) as [m' E'];
    rewrite ?Hs in *; [lia|lia|]. by exists m'.
Qed.

Lemma bench_seq_run :
  admits zs -> n_elements esz num = num ->
  bench_seq m0 esz add check num = check num (num * (num - 1) / 2).
Proof.
  intros Ha He. unfold bench_seq. rewrite He, run_list_seqZ, Z2Nat.id by done. fold zs.
  destruct (orders_run zs) as (m & -> & Es); [done|done|]. cbn [mbind option_bind].
  rewrite run_list_seqZ, Z2Nat.id by done. fold zs.
  destruct (Es zs) as [m' ->]; done.
Qed.

Lemma bench_random_run :
  (forall l, l ≡ₚ zs -> admits l) ->
  bench_random first_rand time m0 add check getIndexArray num = check num (num * (num - 1) / 2).
Proof.
  intros Ha. unfold bench_random. rewrite getIndexArray_seqZ by done. cbn [mbind option_bind].
  fold zs. destruct (drain_perm first_rand time Hrand store_at zs 0 m0) as (l & Hl & ->).
  destruct (orders_run l Hl (Ha l Hl)) as (m & -> & Es). cbn [mbind option_bind].
  destruct (drain_perm first_rand time Hrand (sum_at add) zs (0 + length zs) (0, m)) as (l' & Hl' & ->).
  by destruct (Es l' Hl') as [m' ->].
Qed.
End workloads.

Lemma isIntSumValid_exact num :
  0 <= num -> num * (num - 1) < 2 ^ 31 ->
  isIntSumValid num (num * (num - 1) / 2) = Some true.
Proof.
  intros Hn Hb. unfold isIntSumValid. rewrite int_of_small by nia. cbn [mbind option_bind].
  rewrite Z.quot_div_nonneg by nia. by rewrite bool_decide_true.
Qed.

Lemma isDoubleSumValid_exact num :
  num * (num - 1) < 2 ^ 53 ->
  isDoubleSumValid num (num * (num - 1) / 2) = Some true.
Proof.
  intros Hb. unfold isDoubleSumValid, to_double. rewrite round_small by done.
  by rewrite bool_decide_true.
Qed.

Lemma n_elements_small esz num :
  0 < esz -> 0 <= num -> num * esz < 2 ^ 31 -> n_elements esz num = num.
Proof.
  intros He Hn Hb. unfold n_elements. rewrite (ul_small (num * esz)) by mlia.
  unfold s32. rewrite Z.mod_small by lia.
  replace (num * esz + 2 ^ 31 - 2 ^ 31) with (num * esz) by lia.
  rewrite ul_small by mlia. apply Z.div_mul. lia.
Qed.

(** ** The four workloads on any such array *)
Section verdicts.
Context {M : Type} (Arr : Array M) (m0 : M) (num : Z) (IA : IndexArray Arr num m0).
Context (first_rand : Z -> Z) (time : nat -> Z) (Hrand : forall t, 0 <= first_rand t) (Hnum : 0 <= num).

Lemma bench_for_int_valid :
  admits (seqZ 0 num) -> num <= 46341 -> bench_for_int m0 num = Some true.
Proof.
  intros Ha Hb. assert (HB : num * (num - 1) < 2 ^ 31) by nia. unfold bench_for_int.
  rewrite (bench_seq_run Arr m0 num Hnum IA (2 ^ 31)); auto using int_add_exact.
  - by apply isIntSumValid_exact.
  - apply n_elements_small; lia.
Qed.

Lemma bench_for_double_valid :
  admits (seqZ 0 num) -> num <= 2 ^ 26 -> bench_for_double m0 num = Some true.
Proof.
  intros Ha Hb. assert (HB : num * (num - 1) < 2 ^ 53) by nia. unfold bench_for_double.
  rewrite (bench_seq_run Arr m0 num Hnum IA (2 ^ 53)); auto using double_add_exact.
  - by apply isDoubleSumValid_exact.
  - apply n_elements_small; lia.
Qed.

Lemma bench_for_int_random_valid :
  (forall l, l ≡ₚ seqZ 0 num -> admits l) -> num <= 46341 ->
  bench_for_int_random first_rand time m0 num = Some true.
Proof.
  intros Ha Hb. assert (HB : num * (num - 1) < 2 ^ 31) by nia.
  unfold bench_for_int_random.
  rewrite (bench_random_run Arr m0 num Hnum IA first_rand time Hrand (2 ^ 31));
    auto using int_add_exact. by apply isIntSumValid_exact.
Qed.

Lemma bench_for_double_random_valid :
  (forall l, l ≡ₚ seqZ 0 num -> admits l) -> num <= 2 ^ 26 ->
  bench_for_double_random first_rand time m0 num = Some true.
Proof.
  intros Ha Hb. assert (HB : num * (num - 1) < 2 ^ 53) by nia.
  unfold bench_for_double_random.
  rewrite (bench_random_run Arr m0 num Hnum IA first_rand time Hrand (2 ^ 53));
    auto using double_add_exact. by apply isDoubleSumValid_exact.
Qed.
End verdicts.

(** ** Ordinary memory *)
(** Every index of [l] holds itself. *)
Definition holds_indices (l p : list Z) : Prop := forall i, i ∈ l -> get_at i p = Some i.

Lemma get_set_at i x p p' :
  set_at i x p = Some p' ->
  forall j, get_at j p' = if decide (i = j) then Some x else get_at j p.
Proof.
  unfold set_at, get_at. case_bool_decide; [|done]. intros [= <-] j.
  destruct (decide (i = j)) as [<-|Hne].
  - rewrite bool_decide_true by lia. apply list_lookup_insert_eq. lia.
  - case_bool_decide; [|done]. apply list_lookup_insert_ne. lia.
Qed.

Lemma write_list_run l : forall p,
  (forall i, i ∈ l -> 0 <= i < Z.of_nat (length p)) ->
  exists p', run_list store_at l p = Some p' /\
    length p' = length p /\ holds_indices l p' /\
    forall j, ~ j ∈ l -> get_at j p' = get_at j p.
Proof.
  induction l as [|i l IH]; intros p Hl; cbn [run_list].
  { exists p. split_and!; try done. intros j Hj. by apply not_elem_of_nil in Hj. }
  assert (Hi : 0 <= i < Z.of_nat (length p)) by (apply Hl; left).
  assert (E : store_at i p = Some (<[Z.to_nat i := i]> p))
    by (unfold store_at; cbn; unfold set_at; by rewrite bool_decide_true).
  rewrite E. cbn [mbind option_bind].
  destruct (IH (<[Z.to_nat i := i]> p)) as (p' & -> & Hlen & Hf & Ho).
  { intros j Hj. rewrite length_insert. apply Hl. by right. }
  exists p'. rewrite length_insert in Hlen. split_and!; try done.
  - intros j Hj. destruct (decide (j ∈ l)) as [|Hn]; [by apply Hf|].
    rewrite Ho, (get_set_at _ _ _ _ E) by done.
    apply elem_of_cons in Hj as [->|]; [|done]. by rewrite decide_True.
  - intros j Hj. apply not_elem_of_cons in Hj as [Hj1 Hj2].
    by rewrite Ho, (get_set_at _ _ _ _ E), decide_False by done.
Qed.

#[export] Program Instance list_index_array num p (Hp : Z.of_nat (length p) = num) :
  IndexArray list_array num p := {|
  admits _ := True;
  filled := holds_indices (seqZ 0 num);
|}.
Next Obligation.
  intros num p Hp l Hl _. destruct (write_list_run l p) as (p' & E & _ & Hf & _).
  { intros i Hi. rewrite Hl in Hi. apply elem_of_seqZ in Hi. lia. }
  exists p'. split; [done|]. intros i Hi. apply Hf. by rewrite Hl.
Qed.
Next Obligation.
  intros num p Hp i m Hm Hi. exists m. cbn. rewrite (Hm i) by (apply elem_of_seqZ; lia).
  by split.
Qed.

(** On ordinary memory every workload reports a valid sum: whatever [rand]
    returns (each index is drawn exactly once) and whatever the array held
    before; with [int] elements up to 46341 of them, with [double] elements up
    to [2^26]. *)
Theorem benchmarks_report_valid first_rand time p0 num :
  (forall t, 0 <= first_rand t) -> 0 <= num -> Z.of_nat (length p0) = num ->
  (num <= 46341 -> bench_for_int p0 num = Some true /\
                   bench_for_int_random first_rand time p0 num = Some true) /\
  (num <= 2 ^ 26 -> bench_for_double p0 num = Some true /\
                    bench_for_double_random first_rand time p0 num = Some true).
Proof.
  intros Hr Hn Hp. pose proof (list_index_array num p0 Hp) as IA.
  pose (IA' := list_index_array num p0 Hp).
  split; intros Hb; split;
    first [apply (bench_for_int_valid _ _ _ IA') | apply (bench_for_int_random_valid _ _ _ IA')
          | apply (bench_for_double_valid _ _ _ IA')
          | apply (bench_for_double_random_valid _ _ _ IA')]; done.
Qed.

(** With more than 46341 [int] elements the check of the sum overflows. *)
Lemma large_int_run {M} (Arr : Array M) first_rand time (m : M) num :
  46341 < num -> bench_for_int_random first_rand time m num = None.
Proof.
  intros Hn.
  assert (Hc : forall sum, isIntSumValid num sum = None).
  { intros sum. unfold isIntSumValid. by rewrite int_of_overflow by nia. }
  unfold bench_for_int_random, bench_random.
  destruct (getIndexArray num) as [v|]; [|done]. cbn [mbind option_bind].
  destruct (drain _ _ _ _ _ _ m) as [[k p]|]; [|done]. cbn [mbind option_bind].
  destruct (drain _ _ _ _ _ _ _) as [[k' [sum p']]|]; [|done]. apply Hc.
Qed.

Lemma run_all_third {M} (r1 r2 r3 : M -> option bool) rs m1 m2 m3 ms :
  r3 m3 = None -> run_all (r1 :: r2 :: r3 :: rs) (m1 :: m2 :: m3 :: ms) = None.
Proof.
  intros E. cbn [run_all]. destruct (r1 m1); [|done]. destruct (r2 m2); [|done].
  cbn [mbind option_bind]. by rewrite E.
Qed.

(** The throughput benchmark as it is shipped has no defined outcome,
    whatever memory it runs on: if its first two runs finish, its third run
    overflows when it checks the sum of 102400 [int]s. *)
Theorem throughput_main_overflows {M} (Arr : Array M) first_rand time m1 m2 m3 (ms : list M) :
  main first_rand time (m1 :: m2 :: m3 :: ms) = None.
Proof.
  apply run_all_third. by apply large_int_run.
Qed.

Lemma write_list_out_of_range l i : forall p,
  i ∈ l -> Z.of_nat (length p) <= i -> run_list store_at l p = None.
Proof.
  induction l as [|j l IH]; intros p Hi Hp; [by apply not_elem_of_nil in Hi|].
  cbn [run_list].
  destruct (store_at j p) as [p'|] eqn:E; [|done].
  unfold store_at in E. cbn in E. unfold set_at in E. case_bool_decide as Hj; [|done]. injection E as <-.
  cbn [mbind option_bind]. apply elem_of_cons in Hi as [->|Hi]; [lia|].
  apply IH; [done|]. by rewrite length_insert.
Qed.

(** The random workloads of the latency benchmark write past the end of
    their array, in whatever order the indices come: its [getIndexArray] counts
    from 1. *)
Theorem latency_benchmark_out_of_bounds first_rand time p0 num :
  (forall t, 0 <= first_rand t) -> 0 < num -> Z.of_nat (length p0) = num ->
  latency_bench_for_int_random first_rand time p0 num = None /\
  latency_bench_for_double_random first_rand time p0 num = None.
Proof.
  intros Hr Hn Hp. unfold latency_bench_for_int_random, latency_bench_for_double_random,
    bench_random, latency_getIndexArray. rewrite fill_seqZ by lia. cbn [mbind option_bind].
  destruct (drain_perm first_rand time Hr store_at (seqZ 1 num) 0 p0)
    as (l & Hl & ->).
  rewrite (write_list_out_of_range l num); [done| |lia].
  rewrite Hl. apply elem_of_seqZ. lia.
Qed.

(** ** Witnesses *)
Lemma latency_benchmark_out_of_bounds_witness :
  latency_bench_for_int_random (fun _ => 0) Z.of_nat [9; 9] 2 = None /\
  latency_bench_for_double_random (fun _ => 0) Z.of_nat [9; 9] 2 = None.
Proof. apply latency_benchmark_out_of_bounds; [done|lia|done]. Defined.

Lemma benchmarks_report_valid_witness :
  bench_for_int_random (fun t => t * t * 7) Z.of_nat (replicate 5 9) 5 = Some true /\
  bench_for_double (replicate 5 9) 5 = Some true.
Proof.
  destruct (benchmarks_report_valid (fun t => t * t * 7) Z.of_nat (replicate 5 9) 5)
    as [Hi Hd]; [nia|lia|done|]. split; [apply Hi|apply Hd]; lia.
Defined.
