(* ===== verification/RemoteBench.v ===== *)
(** * The benchmarks on remote memory

    The workloads of Bench.v with the array in a region of the client: each
    [p[i]] is an access of System.v, with the faults, evictions and requests it
    causes.  In order they report a valid sum whatever the size of the region;
    in random order they do when the array fits one page, which is the
    discipline of System.v again: a random order over more pages comes back to
    pages it has left. *)

From S2P Require Import Prelude OS Packet FloatInt Pool Server ServerRefines Vm Uffd UffdCorrect Client.
From S2P Require Import System SystemCorrect SystemStart SystemProps Slots Demo Bench BenchProps.

Section remote.
Context {V : VM} {HV : VMLaws V} {W : Type} {PS : PageServer W}.
Context (stack : packet) (Hstack : wf_packet stack).
Implicit Types (s : ust (client W)) (f : flat).

(** The array of [E]s at [base]. *)
Definition remote_array (E : elem) (base : Z) : Array (ust (client W)) := {|
  a_get i s :=
    '(bs, s) ← run_access stack (Load (base + width E * i) (Z.to_nat (width E))) s;
    Some (dec E bs, s);
  a_set i x s :=
    '(_, s) ← run_access stack (Store (base + width E * i) (enc E x)) s;
    Some s;
|}.

Section region.
Context (E : elem) {HE : ElemLaws E} (u p N num : Z).
Context (Hdec : forall i, 0 <= i < num -> dec E (enc E i) = i).
Context (Hnum : num <= per_page E * N).
#[local] Abbreviation arr := (remote_array E (p * PAGE_SIZE)).

Lemma remote_store i s f f' :
  sees s f -> flat_access (Store (slot_addr E p i) (enc E i)) f = Some ([], f') ->
  exists s', @store_at _ arr i s = Some s' /\ sees s' f'.
Proof.
  intros Hs Ha. destruct (sees_access stack Hstack _ _ _ _ _ Hs Ha) as (s' & Er & Hs').
  exists s'. split; [|done]. unfold store_at. cbn [a_set remote_array].
  change (p * PAGE_SIZE + width E * i) with (slot_addr E p i). by rewrite Er.
Qed.

(** In order, a page after the other. *)
Lemma fill_in_order n : forall s f i,
  sees s f -> filling E f u p N i -> 0 <= i -> i + Z.of_nat n <= per_page E * N ->
  exists s' f', run_list (@store_at _ arr) (seqZ i (Z.of_nat n)) s = Some s' /\
    sees s' f' /\ filling E f' u p N (i + Z.of_nat n).
Proof.
  induction n as [|n IH]; intros s f i Hs Hf Hi Hn.
  { exists s, f. by rewrite Z.add_0_r. }
  rewrite seqZ_cons by lia. cbn [run_list].
  destruct (flat_fill_slot E f u p N i Hf) as (f1 & Ea & Hf1 & _); [lia|].
  destruct (remote_store i s f f1 Hs Ea) as (s1 & -> & Hs1). cbn [mbind option_bind].
  destruct (IH s1 f1 (Z.succ i)) as (s2 & f2 & E2 & Hs2 & Hf2); [done|done|lia|lia|].
  replace (Z.pred (Z.of_nat (S n))) with (Z.of_nat n) by lia.
  exists s2, f2. split_and!; [done|done|].
  by replace (i + Z.of_nat (S n)) with (Z.succ i + Z.of_nat n) by lia.
Qed.

(** In any order, in one page. *)
Lemma fill_one_page l : forall s f (S : Z -> Prop) g,
  sees s f -> reading E f u p N S g ->
  (forall i, i ∈ l -> 0 <= i < per_page E) -> 0 < N ->
  mode f !! u = Some (p, true) \/ mode f !! u = None /\ (forall j, ~ S j) ->
  exists s' f', run_list (@store_at _ arr) l s = Some s' /\ sees s' f' /\
    reading E f' u p N (fun j => j ∈ l \/ S j) (fun j => if decide (j ∈ l) then j else g j).
Proof.
  induction l as [|i l IH]; intros s f S g Hs Hf Hl HN Hm; cbn [run_list].
  { exists s, f. split_and!; [done|done|]. eapply reading_weaken; [|done].
    cbn. intros j [Hj%not_elem_of_nil|]; done. }
  assert (Hi : 0 <= i < per_page E) by (apply Hl; left).
  assert (Hd : i / per_page E = 0) by (apply Z.div_small; lia).
  destruct (flat_store_slot E f u p N i i S g Hf) as (f1 & Ea & Hf1 & _ & Hm1); [|nia|].
  { unfold may_store. rewrite Hd, Z.add_0_r.
    destruct Hm as [Hm|[Hm HS0]]; [by left|right].
    split; [intros b; congruence|]. intros j Hj. by destruct (HS0 j). }
  destruct (remote_store i s f f1 Hs Ea) as (s1 & -> & Hs1). cbn [mbind option_bind].
  rewrite Hd, Z.add_0_r in Hm1.
  destruct (IH s1 f1 _ _ Hs1 Hf1) as (s2 & f2 & E2 & Hs2 & Hf2); auto.
  { intros j Hj. apply Hl. by right. }
  exists s2, f2. split_and!; [done|done|]. eapply reading_weaken; [|done].
  cbn. intros j Hj. rewrite elem_of_cons in Hj. split; [tauto|].
  destruct (decide (j ∈ l)) as [Hjl|Hjl].
  - by rewrite decide_True by (by right).
  - destruct (decide (j = i)) as [->|Hji].
    + by rewrite decide_True by left.
    + rewrite decide_False; [done|]. by intros [->|?]%elem_of_cons.
Qed.

(** A fresh region is an array for the workloads. *)
#[program] Definition remote_index_array s f
    (Hs : sees s f) (Hf : filling E f u p N 0) (Hn : 0 <= num) :
    IndexArray arr num s := {|
  admits l := l = seqZ 0 num \/ num <= per_page E;
  filled s := exists f, sees s f /\
    reading E f u p N (fun j => 0 <= j < num) (fun j => j);
|}.
Next Obligation.
  intros s f Hs Hf Hn l Hp [->|Hk].
  - destruct (fill_in_order (Z.to_nat num) s f 0 Hs Hf) as (s' & f' & Er & Hs' & Hf');
      [lia|lia|]. rewrite Z2Nat.id in Er, Hf' by done.
    exists s'. split; [done|]. exists f'. split; [done|apply Hf'].
  - destruct (decide (num = 0)) as [Hz|Hz].
    { exists s. apply Permutation_length in Hp. rewrite length_seqZ, Hz in Hp.
      destruct l; [|done]. split; [done|]. exists f. split; [done|].
      eapply reading_weaken; [|apply Hf]. cbn. lia. }
    destruct (fill_one_page l s f _ _ Hs (fi_reading _ _ _ _ _ _ Hf))
      as (s' & f' & Er & Hs' & Hf').
    + intros i Hi. rewrite Hp in Hi. apply elem_of_seqZ in Hi. lia.
    + destruct (per_page_spec E). nia.
    + right. split; [apply (fi_mode _ _ _ _ _ _ Hf)|lia].
    + exists s'. split; [done|]. exists f'. split; [done|].
      eapply reading_weaken; [|done]. cbn. intros j Hj.
      assert (Hjl : j ∈ l) by (rewrite Hp; apply elem_of_seqZ; lia).
      split; [by left|]. by rewrite decide_True.
Qed.
Next Obligation.
  intros s f Hs Hf Hn i s1 (f1 & Hs1 & Hf1) Hi.
  destruct (flat_load_slot E f1 u p N _ _ i Hf1) as (f2 & Ea & Hf2 & _); [done|lia|].
  destruct (sees_access stack Hstack _ _ _ _ _ Hs1 Ea) as (s2 & Er & Hs2).
  exists s2. split; [|by exists f2]. cbn [a_get remote_array].
  change (p * PAGE_SIZE + width E * i) with (slot_addr E p i). rewrite Er. cbn.
  by rewrite Hdec.
Qed.
End region.

(** ** Random order over two pages *)
Section lossy.
Context (E : elem) {HE : ElemLaws E} (u p N : Z) (HN : 2 <= N).
Context (Hzero : enc E 0 = replicate (Z.to_nat (width E)) x00) (Hk : 2 < per_page E).
#[local] Abbreviation arr := (remote_array E (p * PAGE_SIZE)).
#[local] Abbreviation k := (per_page E).

Lemma slot_zero_page j : slot E j zero_page = enc E 0.
Proof.
  pose proof (slot_off_bound E j). rewrite Hzero. unfold slot, zero_page.
  rewrite drop_replicate, take_replicate. f_equal. lia.
Qed.

Lemma slot_known j (x : list byte) : slot E j (known x) = known (slot E j x).
Proof. unfold slot, known. by rewrite fmap_take, fmap_drop. Qed.

(** A store whose page is not in memory lands on the buffer of the handlers. *)
Lemma store_on_buffer i s f m H P :
  coherent s f m H P -> page (um s) = Some zero_page ->
  owner f !! (p + i / k) = Some u -> present (vs s) !! (p + i / k) = None ->
  exists s' m' P' f', @store_at _ arr i s = Some s' /\ coherent s' f' m' H P' /\
    page (um s') = Some zero_page /\ owner f' = owner f /\
    mode f' !! u = Some (p + i / k, true) /\
    contents f' = <[p + i / k := known (overlay_at (slot_off E i) (enc E i) zero_page)]>
                    (contents f).
Proof.
  intros Hc Hb Hu Hp.
  destruct (store_fault stack Hstack s f m H P u (slot_addr E p i) (enc E i) zero_page Hc)
    as (s' & P' & Er & Hc' & Hb'); rewrite ?(slot_page E), ?(slot_offset E), ?(el_len (E := E)); try done.
  { exact (slot_off_bound E i). }
  rewrite (slot_page E), (slot_offset E) in Hc'.
  eexists s', _, P', _. split; [|split; [exact Hc'|]].
  - unfold store_at. cbn [a_set remote_array].
    change (p * PAGE_SIZE + width E * i) with (slot_addr E p i). by rewrite Er.
  - cbn. split_and!; try done. apply lookup_insert_eq.
Qed.

(** The first page, the second, and the first again, at [t]: what is left of the
    first page is the last store, over zeros. *)
Lemma lossy_start t s f m H P :
  0 <= t < k -> coherent s f m H P -> page (um s) = Some zero_page -> filling E f u p N 0 ->
  exists s' f', run_list (@store_at _ arr) [1; k; t] s = Some s' /\ sees s' f' /\
    reading E f' u p N (fun j => 0 <= j <= k)
      (fun j => if decide (j = k) then k else if decide (j = t) then t else 0) /\
    mode f' !! u = Some (p, true).
Proof.
  intros Ht Hc Hb [[Ho _] Hm]. rewrite decide_True in Hm by done.
  assert (D0 : p + t / k = p) by (rewrite Z.div_small; lia).
  assert (D1 : p + 1 / k = p) by (rewrite Z.div_small; lia).
  assert (Dk : p + k / k = p + 1) by (rewrite Z.div_same; lia).
  destruct (Ho p) as [Hp _]; [lia|]. destruct (Ho (p + 1)) as [Hp1 _]; [lia|].
  destruct (store_on_buffer 1 s f m H P Hc Hb)
    as (s1 & m1 & P1 & f1 & E1 & Hc1 & Hb1 & Ho1 & Hm1 & _); rewrite ?D1; [done| |].
  { apply eq_None_not_Some. intros Hr.
    destruct (resident_current _ _ _ _ _ _ _ Hc Hp Hr). congruence. }
  rewrite D1 in *.
  destruct (store_on_buffer k s1 f1 m1 H P1 Hc1 Hb1)
    as (s2 & m2 & P2 & f2 & E2 & Hc2 & Hb2 & Ho2 & Hm2 & Hf2); rewrite ?Dk.
  { by rewrite Ho1. }
  { eapply (not_current_absent _ _ _ _ _ _ u _ true Hc1); [by rewrite Ho1|done|lia]. }
  rewrite Dk in *.
  destruct (store_on_buffer t s2 f2 m2 H P2 Hc2 Hb2)
    as (s3 & m3 & P3 & f3 & E3 & Hc3 & _ & Ho3 & Hm3 & Hf3); rewrite ?D0.
  { by rewrite Ho2, Ho1. }
  { eapply (not_current_absent _ _ _ _ _ _ u _ true Hc2); [by rewrite Ho2, Ho1|done|lia]. }
  rewrite D0 in *. exists s3, f3. cbn [run_list]. rewrite E1. cbn [mbind option_bind].
  rewrite E2. cbn [mbind option_bind]. rewrite E3.
  split_and!; [done|by exists m3, H, P3| |done]. split.
  - intros q Hq. rewrite Ho3, Ho2, Ho1. destruct (Ho q Hq) as [Hqu _]. split; [done|].
    destruct (co_page _ _ _ _ _ Hc3 q u) as (h & o & c & x & _ & _ & Hl & Hx & Hmx & _);
      [by rewrite Ho3, Ho2, Ho1|].
    exists x. split; [done|]. rewrite (matches_len _ _ Hmx).
    destruct (present (vs s3) !! q) eqn:Eq; cbn; [|done].
    by apply (ui_present _ _ (co_inv _ _ _ _ _ Hc3) _ _ Eq).
  - intros j Hj. rewrite Hf3. case_decide as Hjk.
    + subst j. rewrite Dk, lookup_insert_ne, Hf2, lookup_insert_eq by lia.
      eexists. split; [done|]. rewrite slot_known, slot_overlay_eq; [done|apply el_len|].
      pose proof (slot_off_bound E k). rewrite length_zero_page. lia.
    + rewrite Z.div_small by lia. rewrite Z.add_0_r, lookup_insert_eq.
      eexists. split; [done|]. rewrite slot_known. f_equal.
      destruct (decide (j = t)) as [->|Hjt].
      * rewrite (slot_overlay_eq E); [done|apply el_len|].
        pose proof (slot_off_bound E t). rewrite length_zero_page. lia.
      * rewrite (slot_overlay_ne E); [apply slot_zero_page|apply el_len| |done|].
        -- rewrite length_zero_page. exact (slot_off_bound E t).
        -- rewrite !Z.div_small by lia. done.
Qed.

(** The order of a second whose seed gives 1. *)
Definition lossy_order : list Z := 1 :: rev (seqZ 2 (k - 1)) ++ [0].

Lemma seqZ_first_two : seqZ 0 (k + 1) = 0 :: 1 :: seqZ 2 (k - 1).
Proof.
  rewrite (seqZ_cons 0), (seqZ_cons (Z.succ 0)) by lia. do 2 f_equal. f_equal; lia.
Qed.

(** After the element of the second page it comes back to the first. *)
Lemma lossy_order_start : lossy_order = [1; k; k - 1] ++ rev (seqZ 2 (k - 3)) ++ [0].
Proof.
  unfold lossy_order.
  assert (Hs : seqZ 2 (k - 1) = seqZ 2 (k - 3) ++ [k - 1] ++ [k]).
  { assert (H1 : forall x, seqZ x 1 = [x]) by (intros x; by rewrite seqZ_cons by lia).
    replace (seqZ 2 (k - 1)) with (seqZ 2 (k - 3 + 1 + 1)) by (f_equal; lia).
    rewrite !seqZ_app, !H1, <- app_assoc by lia. repeat f_equal; lia. }
  rewrite Hs, !rev_app_distr. by rewrite <- app_assoc.
Qed.

Lemma lossy_order_perm : lossy_order ≡ₚ seqZ 0 (k + 1).
Proof.
  rewrite seqZ_first_two. unfold lossy_order. rewrite <- Permutation_rev.
  solve_Permutation.
Qed.

Lemma lossy_order_run s f m H P :
  coherent s f m H P -> page (um s) = Some zero_page -> filling E f u p N 0 ->
  exists s' f', run_list (@store_at _ arr) lossy_order s = Some s' /\ sees s' f' /\
    reading E f' u p N (fun j => 0 <= j <= k) (fun j => if decide (j = 1) then 0 else j).
Proof.
  intros Hc Hb Hf. destruct (lossy_start (k - 1) s f m H P ltac:(lia) Hc Hb Hf)
    as (s1 & f1 & E1 & Hs1 & Hf1 & Hm1).
  assert (Hin : forall j, j ∈ rev (seqZ 2 (k - 3)) ++ [0] <-> 2 <= j < k - 1 \/ j = 0).
  { intros j. rewrite elem_of_app, list_elem_of_singleton, <- Permutation_rev, elem_of_seqZ.
    lia. }
  destruct (fill_one_page E u p N (rev (seqZ 2 (k - 3)) ++ [0]) s1 f1 _ _ Hs1 Hf1)
    as (s2 & f2 & E2 & Hs2 & Hf2); [|lia|by left|].
  { intros i Hi%Hin. lia. }
  exists s2, f2. rewrite lossy_order_start, run_list_app, E1. cbn [mbind option_bind].
  split_and!; [done|done|]. eapply reading_weaken; [|exact Hf2].
  cbn. intros j Hj. split; [by right|].
  destruct (decide (j ∈ rev (seqZ 2 (k - 3)) ++ [0])) as [Hi|Hi]; rewrite Hin in Hi;
    repeat case_decide; lia.
Qed.

(** Summing what is left: the element at 1 is missing. *)
Lemma lossy_sum l :
  l ≡ₚ seqZ 0 (k + 1) ->
  zsum ((fun j => if decide (j = 1) then 0 else j) <$> l) = (k + 1) * k / 2 - 1.
Proof.
  intros Hl.
  rewrite (zsum_perm _ ((fun j => if decide (j = 1) then 0 else j) <$> seqZ 0 (k + 1)))
    by (by rewrite Hl).
  pose proof (zsum_seqZ (k + 1) ltac:(lia)) as Hg. rewrite seqZ_first_two in *.
  assert (Ht : (fun j => if decide (j = 1) then 0 else j) <$> seqZ 2 (k - 1)
               = seqZ 2 (k - 1)).
  { rewrite <- (list_fmap_id (seqZ 2 (k - 1))) at 2. apply list_fmap_ext. intros i x Hx.
    apply lookup_seqZ in Hx. rewrite decide_False by lia. done. }
  rewrite !fmap_cons, Ht, !zsum_cons in *.
  rewrite decide_False, decide_True by done.
  replace ((k + 1) * k) with ((k + 1) * (k + 1 - 1)) by lia.
  rewrite <- Hg, Z.mul_comm, Z.div_mul by lia. lia.
Qed.

(** The workload reports an invalid sum when all draws of the first loop fall
    in seconds whose seed gives 1. *)
Lemma lossy_fails s f m H P B add check first_rand time :
  coherent s f m H P -> page (um s) = Some zero_page -> filling E f u p N 0 ->
  (forall i, 0 <= i <= k -> dec E (enc E i) = i) ->
  exact_below B add -> (k + 1) * k < B ->
  check (k + 1) ((k + 1) * k / 2 - 1) = Some false ->
  (forall t, first_rand t = 1) ->
  @bench_random _ arr first_rand time s add check getIndexArray (k + 1) = Some false.
Proof.
  intros Hc Hb Hf Hdec Hadd HB Hcheck Hr.
  unfold bench_random. rewrite getIndexArray_seqZ by lia. cbn [mbind option_bind].
  assert (Hd : forall st,
    drain first_rand time (length (seqZ 0 (k + 1))) 0 (seqZ 0 (k + 1)) (@store_at _ arr) st
    = st' ← run_list (@store_at _ arr) lossy_order st;
      Some (length (seqZ 0 (k + 1)), st')).
  { intros st. rewrite seqZ_first_two. by rewrite drain_ones. }
  rewrite Hd.
  destruct (lossy_order_run s f m H P Hc Hb Hf) as (s1 & f1 & -> & Hs1 & Hf1).
  cbn [mbind option_bind].
  destruct (drain_perm first_rand time ltac:(intros t; by rewrite Hr) (@sum_at _ arr add)
    (seqZ 0 (k + 1)) (length (seqZ 0 (k + 1))) (0, s1)) as (l & Hl & ->).
  destruct (sum_list_values arr (k + 1)
    (fun s => exists f, sees s f /\ reading E f u p N (fun j => 0 <= j <= k)
                (fun j => if decide (j = 1) then 0 else j))
    (fun j => if decide (j = 1) then 0 else j) B add l) with 0 s1 as [s2 ->];
    rewrite ?lossy_sum by done.
  - intros i s2 (f2 & Hs2 & Hf2) Hi.
    destruct (flat_load_slot E f2 u p N _ _ i Hf2) as (f3 & Ea & Hf3 & _); [lia|nia|].
    destruct (sees_access stack Hstack _ _ _ _ _ Hs2 Ea) as (s3 & Er & Hs3).
    exists s3. split; [|by exists f3]. cbn [a_get remote_array].
    change (p * PAGE_SIZE + width E * i) with (slot_addr E p i). rewrite Er. cbn.
    rewrite Hdec; [done|]. case_decide; lia.
  - done.
  - rewrite Hl. apply Forall_forall. intros i Hi%elem_of_seqZ. case_decide; lia.
  - by exists f1.
  - done.
  - assert ((k + 1) * k / 2 <= (k + 1) * k) by (apply Z.div_le_upper_bound; nia). lia.
  - cbn [mbind option_bind]. by rewrite Z.add_0_l.
Qed.
End lossy.

Lemma filling_elem E E' f u p N : filling E f u p N 0 -> filling E' f u p N 0.
Proof. intros [[Ho _] Hm]. split; [split|]; [done|lia|done]. Qed.

(** C20.  The benchmarks on an array the client has just allocated: in order
    they report a valid sum whatever the number of pages, with up to 46341
    [int]s or [2 ^ 26] [double]s (above that the check itself overflows or
    rounds); in random order they do, whatever the clock and the generator,
    when the array fits one page: up to 1024 [int]s or 512 [double]s. *)
Theorem benchmarks_valid_on_remote_memory e n a v v' s f m H P num first_rand time :
  coherent s f m H P -> granted e n a v v' s m -> server_grants stack n s ->
  next P + 2 < 2 ^ 32 -> 0 <= num -> (forall t, 0 <= first_rand t) ->
  exists s', rmp_alloc stack e n s = Some (a, s') /\
    (num <= 1024 * n -> num <= 46341 ->
     @bench_for_int _ (remote_array int_elem a) s' num = Some true) /\
    (num <= 1024 ->
     @bench_for_int_random _ (remote_array int_elem a) first_rand time s' num
       = Some true) /\
    (num <= 512 * n -> num <= 2 ^ 26 ->
     @bench_for_double _ (remote_array double_elem a) s' num = Some true) /\
    (num <= 512 ->
     @bench_for_double_random _ (remote_array double_elem a) first_rand time s' num
       = Some true).
Proof.
  intros Hc Hg Hsv HP Hn Hr.
  destruct (alloc_region stack Hstack _ _ _ _ _ _ _ _ _ _ Hc Hg Hsv HP)
    as (s' & f' & H' & P' & Ea & Hc' & _ & Hal & Hf & _).
  destruct (gr_pages _ _ _ _ _ _ _ Hg) as [Hn0 _].
  exists s'. split; [done|]. rewrite Hal. set (p := a / PAGE_SIZE) in *.
  assert (Hs : sees s' f') by (by eexists _, _, _).
  assert (Hfi : filling int_elem f' (uffd_ret e) p n 0) by (by eapply filling_elem).
  assert (Hdi : num <= 46341 -> forall i, 0 <= i < num -> dec int_elem (enc int_elem i) = i)
    by (intros ? i ?; apply int_dec_enc; lia).
  assert (Hdd : num <= 2 ^ 26 ->
      forall i, 0 <= i < num -> dec double_elem (enc double_elem i) = i)
    by (intros ? i ?; apply bytes_double_bytes; lia).
  change 1024 with (per_page int_elem). change 512 with (per_page double_elem).
  assert (K1 : per_page int_elem = 1024) by done.
  assert (K2 : per_page double_elem = 512) by done.
  split_and!.
  - intros H1 H2.
    apply (bench_for_int_valid _ _ _ (remote_index_array int_elem (uffd_ret e) p n num
      (Hdi H2) H1 s' f' Hs Hfi Hn)); [done|by left|done].
  - intros H1.
    apply (bench_for_int_random_valid _ _ _ (remote_index_array int_elem (uffd_ret e) p n
      num (Hdi ltac:(lia)) ltac:(nia) s' f' Hs Hfi Hn)); [done|done|by right|lia].
  - intros H1 H2.
    apply (bench_for_double_valid _ _ _ (remote_index_array double_elem (uffd_ret e) p n num
      (Hdd H2) H1 s' f' Hs Hf Hn)); [done|by left|done].
  - intros H1.
    apply (bench_for_double_random_valid _ _ _ (remote_index_array double_elem (uffd_ret e)
      p n num (Hdd ltac:(lia)) ltac:(nia) s' f' Hs Hf Hn)); [done|done|by right|lia].
Qed.

(** C25.  One element more than a page holds is enough for the random workloads to
    fail on remote memory: in a fresh region of two pages, with the handlers'
    buffer zero as it is at first, the draws can leave the first page and come
    back to it, what was stored there is lost, and the benchmark reports an
    invalid sum.  It takes no unlikely sequence of draws: [getNum] seeds the
    generator anew each time, and a seed whose first number is 1 does it, at
    whatever times the draws are made. *)
Theorem random_benchmarks_fail_on_two_pages s f m H P u p N :
  coherent s f m H P -> page (um s) = Some zero_page ->
  filling int_elem f u p N 0 -> 2 <= N ->
  exists first_rand, (forall t, 0 <= first_rand t) /\
    forall time,
    @bench_for_int_random _ (remote_array int_elem (p * PAGE_SIZE)) first_rand time s 1025
      = Some false /\
    @bench_for_double_random _ (remote_array double_elem (p * PAGE_SIZE)) first_rand time s
      513 = Some false.
Proof.
  intros Hc Hb Hf HN. exists (fun _ => 1). split; [done|]. intros time. split.
  - apply (lossy_fails int_elem u p N HN eq_refl ltac:(done) s f m H P (2 ^ 31)); try done.
    + intros i Hi. apply int_dec_enc. change (per_page int_elem) with 1024 in Hi. lia.
    + apply int_add_exact.
  - apply (lossy_fails double_elem u p N HN eq_refl ltac:(done) s f m H P (2 ^ 53)); try done.
    + by eapply filling_elem.
    + intros i Hi. apply bytes_double_bytes. change (per_page double_elem) with 512 in Hi. lia.
    + apply double_add_exact.
Qed.
End remote.

Lemma benchmarks_valid_on_remote_memory_witness :
  exists s', rmp_alloc demo_stack demo_env 2 demo_init = Some (65536, s') /\
    @bench_for_int _ (remote_array demo_stack int_elem 65536) s' 1500 = Some true /\
    @bench_for_int_random _ (remote_array demo_stack int_elem 65536)
      (fun t => t * t * 7) Z.of_nat s' 1024 = Some true.
Proof.
  destruct (benchmarks_valid_on_remote_memory demo_stack demo_stack_wf demo_env 2 65536
    demo_vm demo_vm' demo_init flat_empty empty_maps ∅ empty_pool 1500 (fun _ => 0) Z.of_nat
    demo_init_coherent demo_granted demo_server_grants) as (s' & E & H1 & _);
    [done|done|done|].
  destruct (benchmarks_valid_on_remote_memory demo_stack demo_stack_wf demo_env 2 65536
    demo_vm demo_vm' demo_init flat_empty empty_maps ∅ empty_pool 1024
    (fun t => t * t * 7) Z.of_nat
    demo_init_coherent demo_granted demo_server_grants) as (s2 & E2 & _ & H2 & _);
    [done|done|nia|].
  exists s'. split; [done|]. rewrite E in E2. injection E2 as <-.
  split; [apply H1; lia|apply H2; lia].
Defined.

Lemma demo_filling : filling int_elem demo_flat 5 16 2 0.
Proof.
  split; [split|]; [|lia|done]. intros q Hq.
  change (owner demo_flat) with (set_range 16 2 5 ∅).
  change (contents demo_flat) with (set_range 16 2 (known zero_page) ∅).
  rewrite !lookup_set_range, !decide_True by lia. split; [done|].
  exists (known zero_page). split; [done|]. unfold known.
  by rewrite length_fmap, length_zero_page.
Qed.

Lemma random_benchmarks_fail_on_two_pages_witness :
  exists first_rand, (forall t, 0 <= first_rand t) /\
    forall time,
    @bench_for_int_random _ (remote_array demo_stack int_elem 65536) first_rand time
      demo_sys 1025 = Some false /\
    @bench_for_double_random _ (remote_array demo_stack double_elem 65536) first_rand time
      demo_sys 513 = Some false.
Proof.
  apply (random_benchmarks_fail_on_two_pages demo_stack demo_stack_wf demo_sys demo_flat
           _ _ _ 5 16 2 demo_coherent eq_refl demo_filling).
  lia.
Defined.
